(** * HiGHS: the dual ratio test (simplex/HDualRow.cpp) and cut ageing
      (mip/HighsCutPool.h)

    A shallow embedding of the C++ sources and the properties proved of it.

    - [double] is kept abstract behind the interface [Arith]; the instance
      [binary64] interprets it by the kernel's IEEE 754 binary64 numbers, so
      that a run of the model on [binary64] computes what the C++ computes.
    - [int] values (indices, counts, movement signs) are [Z]; the cut ages,
      stored as [int16_t], wrap around explicitly.
    - [std::vector] and raw arrays are lists; a read or a write outside the
      list is undefined behaviour in C++ and the outcome [Undef] here.
    - The member functions pass the object explicitly: state in, state out.
    - [for (;;)] and [while] loops take a loop budget; [OutOfFuel] is the
      outcome of a budget that ran out.
    - [int] arithmetic that can leave the range of [int] is checked where
      the operands come from the caller ([chooseMakepack]); signed overflow
      is undefined behaviour and the outcome [Undef].
    - The timer calls change none of the members modelled and are left
      out.  Of the reports ([reportWorkDataAndGroup]) the reads are kept,
      since a read outside an array is undefined behaviour; the text they
      print is left out. *)

From Stdlib Require Import ZArith Bool List Lia Uint63 Floats.
From stdpp Require Import base list sorting.
Import ListNotations.

Set Warnings "-inexact-float".
Local Open Scope Z_scope.

(** ** Outcomes of a call *)

Inductive result (A : Type) : Type :=
| Ok (a : A)      (* the call returned *)
| Undef           (* undefined behaviour: an access outside an array, an
                     [int] overflow *)
| AssertFailed    (* an [assert] failed in a build that checks them *)
| OutOfFuel.      (* the loop budget given to the model ran out *)

Arguments Ok {A} a.
Arguments Undef {A}.
Arguments AssertFailed {A}.
Arguments OutOfFuel {A}.

Definition rbind {A B : Type} (r : result A) (k : A -> result B) : result B :=
  match r with
  | Ok a => k a
  | Undef => Undef
  | AssertFailed => AssertFailed
  | OutOfFuel => OutOfFuel
  end.

Notation "'let*' x := e 'in' k" := (rbind e (fun x => k))
  (at level 10, x name, e at level 100, k at level 200).
Notation "'let*' ' p := e 'in' k" := (rbind e (fun p => k))
  (at level 10, p strict pattern, e at level 100, k at level 200).

Definition is_ok {A : Type} (r : result A) : bool :=
  match r with Ok _ => true | _ => false end.

(** ** [int] arithmetic *)

(** The values of a 32-bit [int]. *)
Definition in_int_range (z : Z) : bool :=
  (- 2 ^ 31 <=? z) && (z <=? 2 ^ 31 - 1).

(** [a + b] on [int]: a sum outside the range is undefined behaviour. *)
Definition int_add (a b : Z) : result Z :=
  if in_int_range (a + b) then Ok (a + b) else Undef.

(** ** Arrays indexed by [int] *)

(** [a[i]] as an rvalue. *)
Definition at_ {T : Type} (a : list T) (i : Z) : result T :=
  if i <? 0 then Undef
  else match a !! Z.to_nat i with
       | Some x => Ok x
       | None => Undef
       end.

(** [a[i] = x]. *)
Definition put {T : Type} (a : list T) (i : Z) (x : T) : result (list T) :=
  if (0 <=? i) && (i <? Z.of_nat (length a))
  then Ok (<[Z.to_nat i := x]> a)
  else Undef.

(** [std::swap(a[i], a[j])]. *)
Definition swap {T : Type} (a : list T) (i j : Z) : result (list T) :=
  let* x := at_ a i in
  let* y := at_ a j in
  let* a1 := put a i y in
  put a1 j x.

(** [for (int i = lo; i < lo + n; i++) s = body(i, s);] *)
Fixpoint for_range {S : Type} (n : nat) (lo : Z)
    (body : Z -> S -> result S) (s : S) : result S :=
  match n with
  | O => Ok s
  | Datatypes.S n' => let* s' := body lo s in for_range n' (lo + 1) body s'
  end.

(** [for (int i = lo; i < hi; i++) ...] *)
Definition for_loop {S : Type} (lo hi : Z)
    (body : Z -> S -> result S) (s : S) : result S :=
  for_range (Z.to_nat (hi - lo)) lo body s.

(** ** The arithmetic of [double] *)

(** The operations the sources apply to [double] values, the conversion
    from [int], and the floating literals that occur in them.  C++'s
    [a > b] is [flt b a], [a >= b] is [fle b a], [a == b] is [feq a b]. *)
Class Arith (F : Type) : Type := {
  fadd : F -> F -> F;
  fsub : F -> F -> F;
  fmul : F -> F -> F;
  fdiv : F -> F -> F;
  fopp : F -> F;
  fabs : F -> F;
  flt : F -> F -> bool;
  fle : F -> F -> bool;
  feq : F -> F -> bool;
  of_int : Z -> F;
  HIGHS_CONST_INF : F;      (* lp_data/HConst.h: +infinity *)
  lit_1e_9 : F;             (* 1e-9 *)
  lit_3e_8 : F;             (* 3e-8 *)
  lit_1e_6 : F;             (* 1e-6 *)
  lit_1e_7 : F;             (* 1e-7 *)
  lit_1e_12 : F;            (* 1e-12 *)
  lit_0_1 : F;              (* 0.1 *)
  lit_1e18 : F;             (* 1e18 *)
  lit_1e100 : F;            (* 1e100 *)
}.

Declare Scope arith_scope.
Delimit Scope arith_scope with F.
Notation "x + y" := (fadd x y) : arith_scope.
Notation "x - y" := (fsub x y) : arith_scope.
Notation "x * y" := (fmul x y) : arith_scope.
Notation "x / y" := (fdiv x y) : arith_scope.
Notation "- x" := (fopp x) : arith_scope.
Notation "x <? y" := (flt x y) : arith_scope.
Notation "x <=? y" := (fle x y) : arith_scope.
Notation "x =? y" := (feq x y) : arith_scope.

(** [std::max(a, b)] and [std::min(a, b)] as <algorithm> defines them. *)
Definition fmax {F : Type} `{Arith F} (a b : F) : F := if (a <? b)%F then b else a.
Definition fmin {F : Type} `{Arith F} (a b : F) : F := if (b <? a)%F then b else a.

(** [int] to [double]; exact for |z| < 2^53. *)
Definition float_of_Z (z : Z) : float :=
  match z with
  | Z0 => PrimFloat.zero
  | Zpos _ => PrimFloat.of_uint63 (Uint63.of_Z z)
  | Zneg _ => PrimFloat.opp (PrimFloat.of_uint63 (Uint63.of_Z (- z)))
  end.

(** IEEE 754 binary64, round to nearest even: the [double] of the
    platforms HiGHS is built for.  Decimal literals denote the nearest
    binary64 number, as the C++ compiler reads them. *)
#[export] Instance binary64 : Arith float := {
  fadd := PrimFloat.add;
  fsub := PrimFloat.sub;
  fmul := PrimFloat.mul;
  fdiv := PrimFloat.div;
  fopp := PrimFloat.opp;
  fabs := PrimFloat.abs;
  flt := PrimFloat.ltb;
  fle := PrimFloat.leb;
  feq := PrimFloat.eqb;
  of_int := float_of_Z;
  HIGHS_CONST_INF := infinity;
  lit_1e_9 := 1e-9%float;
  lit_3e_8 := 3e-8%float;
  lit_1e_6 := 1e-6%float;
  lit_1e_7 := 1e-7%float;
  lit_1e_12 := 1e-12%float;
  lit_0_1 := 0.1%float;
  lit_1e18 := 1e18%float;
  lit_1e100 := 1e100%float;
}.

(** The comparisons of [double] order the values that are not NaN; a
    value that is not NaN is one equal to itself.  Values above zero that
    compare equal are the same value (the two zeros compare equal and
    differ). *)
Class ArithOrder (F : Type) (A : Arith F) : Prop := {
  flt_irrefl : forall x : F, (x <? x)%F = false;
  flt_trans : forall x y z : F,
    (x <? y)%F = true -> (y <? z)%F = true -> (x <? z)%F = true;
  feq_sym : forall x y : F, (x =? y)%F = (y =? x)%F;
  feq_trans : forall x y z : F,
    (x =? y)%F = true -> (y =? z)%F = true -> (x =? z)%F = true;
  flt_feq_l : forall x y z : F, (x =? y)%F = true -> (x <? z)%F = (y <? z)%F;
  flt_feq_r : forall x y z : F, (x =? y)%F = true -> (z <? x)%F = (z <? y)%F;
  flt_ordered : forall x y : F,
    (x <? y)%F = true -> (x =? x)%F = true /\ (y =? y)%F = true;
  flt_total : forall x y : F,
    (x =? x)%F = true -> (y =? y)%F = true ->
    (x <? y)%F = false -> (y <? x)%F = false -> (x =? y)%F = true;
  flt_not_feq : forall x y : F, (x <? y)%F = true -> (x =? y)%F = false;
  fle_spec : forall x y : F, (x <=? y)%F = (x <? y)%F || (x =? y)%F;
  feq_positive : forall x y : F,
    (of_int 0 <? x)%F = true -> (x =? y)%F = true -> x = y;
  feq_zero : (of_int 0 =? of_int 0)%F = true;
}.

(** The place of a binary64 number that is not NaN in their order:
    sign class first (-inf, negative, zero, positive, +inf), then exponent
    and mantissa, both reversed for negative numbers. *)
Definition rank (f : spec_float) : option (Z * Z * Z) :=
  match f with
  | S754_zero _ => Some (0, 0, 0)
  | S754_infinity s => Some (if s then -2 else 2, 0, 0)
  | S754_nan => None
  | S754_finite s m e =>
      Some (if s then (-1, - e, Zneg m) else (1, e, Zpos m))
  end.

Definition lex3 (a b : Z * Z * Z) : comparison :=
  match a.1.1 ?= b.1.1 with
  | Eq => match a.1.2 ?= b.1.2 with
          | Eq => a.2 ?= b.2
          | c => c
          end
  | c => c
  end.

(** ** mip/HighsCutPool.h: the age of a cut *)

Module CutPool.

(** [int16_t]: the value an [int] takes when stored in the age array. *)
Definition to_int16 (z : Z) : Z := (z + 32768) mod 65536 - 32768.

Definition INT_MIN : Z := - 2 ^ 31.

(** The members the inline functions of the header touch. *)
Record HighsCutPool : Type := {
  ages_ : list Z;     (* std::vector<int16_t> *)
  agelim_ : Z;
  epochs : Z;
}.

Definition set_ages (p : HighsCutPool) (a : list Z) : HighsCutPool :=
  {| ages_ := a; agelim_ := agelim_ p; epochs := epochs p |}.

(** [assert(c)]: checked unless the build defines NDEBUG. *)
Definition assert (NDEBUG : bool) (c : bool) : result unit :=
  if NDEBUG || c then Ok tt else AssertFailed.

(** void resetAge(int cut) *)
Definition resetAge (p : HighsCutPool) (cut : Z) : result HighsCutPool :=
  let* a := at_ (ages_ p) cut in
  if a <? 0 then
    let* ages := put (ages_ p) cut (-1) in Ok (set_ages p ages)
  else
    let* ages := put (ages_ p) cut 0 in Ok (set_ages p ages).

(** bool ageLpCut(int cut, int agelimit).  [-agelimit] overflows for
    INT_MIN, which is undefined. *)
Definition ageLpCut (NDEBUG : bool) (p : HighsCutPool) (cut agelimit : Z)
    : result (HighsCutPool * bool) :=
  let* a := at_ (ages_ p) cut in
  let* _ := assert NDEBUG (a <? 0) in
  let a1 := to_int16 (a - 1) in
  let* ages1 := put (ages_ p) cut a1 in
  if agelimit =? INT_MIN then Undef
  else if a1 <? - agelimit then
    let* ages2 := put ages1 cut 0 in Ok (set_ages p ages2, true)
  else Ok (set_ages p ages1, false).

(** void setAgeLimit(int agelim) *)
Definition setAgeLimit (p : HighsCutPool) (agelim : Z) : HighsCutPool :=
  {| ages_ := ages_ p; agelim_ := agelim; epochs := epochs p |}.

(** [n] successive calls [ageLpCut(cut, agelimit)]: the pool after the
    last one and what each call returned, first call first. *)
Fixpoint ageLpCut_rounds (NDEBUG : bool) (n : nat) (p : HighsCutPool)
    (cut agelimit : Z) : result (HighsCutPool * list bool) :=
  match n with
  | O => Ok (p, [])
  | S n' =>
      let* '(p1, b) := ageLpCut NDEBUG p cut agelimit in
      let* '(p2, bs) := ageLpCut_rounds NDEBUG n' p1 cut agelimit in
      Ok (p2, b :: bs)
  end.

(** The age of a cut as the pool stores it. *)
Definition age (p : HighsCutPool) (cut : Z) : result Z := at_ (ages_ p) cut.

(** *** The propagation domains registered with the pool *)

Section Propagation.

(** [HighsDomain::CutpoolPropagation*]: the pointers, compared by [==]. *)
Context {D : Type} `{EqDecision D}.

(** void addPropagationDomain(HighsDomain::CutpoolPropagation* domain),
    on the member [propagationDomains] it changes. *)
Definition addPropagationDomain (propagationDomains : list D) (domain : D)
    : list D :=
  propagationDomains ++ [domain].

(** The loop of [removePropagationDomain] with [n = k + 1]: [k] runs
    from [size() - 1] down to 0, and the first match is erased. *)
Fixpoint remove_scan (n : nat) (propagationDomains : list D) (domain : D)
    : result (list D) :=
  match n with
  | O => Ok propagationDomains
  | S k =>
      let* x := at_ propagationDomains (Z.of_nat k) in
      if bool_decide (x = domain) then Ok (delete k propagationDomains)
      else remove_scan k propagationDomains domain
  end.

(** void removePropagationDomain(HighsDomain::CutpoolPropagation* domain) *)
Definition removePropagationDomain (propagationDomains : list D) (domain : D)
    : result (list D) :=
  remove_scan (length propagationDomains) propagationDomains domain.

End Propagation.

End CutPool.

(** ** simplex/HDualRow.cpp: the dual ratio test *)

Module DualRow.

Section Model.

Context {F : Type} {A : Arith F}.

(** [maxheapsort(heap_v, heap_i, n)] is defined in util/HighsSort, outside
    the sources embedded here: it is an argument of the model.  It is given
    the two arrays and [n] and gives back the two arrays as the call leaves
    them. *)
Variable maxheapsort : list F -> list Z -> Z -> list F * list Z.

(** The members of the solver object [workHMO] the row reads and writes. *)
Record HighsModelObject : Type := {
  update_count : Z;                   (* simplex_info_.update_count *)
  dual_feasibility_tolerance : F;     (* scaled_solution_params_ *)
  nonbasicFlag_ : list Z;             (* simplex_basis_ *)
  nonbasicMove_ : list Z;             (* simplex_basis_ *)
  workDual_ : list F;                 (* simplex_info_ *)
  workRange_ : list F;                (* simplex_info_ *)
  workValue_ : list F;                (* simplex_info_ *)
  devex_index_ : list Z;              (* simplex_info_ *)
  numTotPermutation_ : list Z;        (* simplex_info_ *)
  cost_ : F;                          (* scale_.cost_ *)
  updated_dual_objective_value : F;   (* simplex_info_ *)
}.

(** The data members of [HDualRow]. *)
Record HDualRow : Type := {
  workHMO : HighsModelObject;
  packCount : Z;
  packIndex : list Z;
  packValue : list F;
  workDelta : F;
  workAlpha : F;
  workTheta : F;
  workPivot : Z;
  workCount : Z;
  workData : list (Z * F);
  workGroup : list Z;
  computed_edge_weight : F;
  alt_workCount : Z;
  original_workData : list (Z * F);
  sorted_workData : list (Z * F);
  alt_workGroup : list Z;
}.

(** [setup] and [setupSlice] point these members into the solver's
    arrays; they alias them for the life of the row. *)
Definition workMove (r : HDualRow) : list Z := nonbasicMove_ (workHMO r).
Definition workDual (r : HDualRow) : list F := workDual_ (workHMO r).
Definition workRange (r : HDualRow) : list F := workRange_ (workHMO r).
Definition work_devex_index (r : HDualRow) : list Z := devex_index_ (workHMO r).
Definition workNumTotPermutation (r : HDualRow) : list Z :=
  numTotPermutation_ (workHMO r).

(** Assignments to single members. *)
Definition set_workDual_ (m : HighsModelObject) (d : list F) : HighsModelObject :=
  {| update_count := update_count m;
     dual_feasibility_tolerance := dual_feasibility_tolerance m;
     nonbasicFlag_ := nonbasicFlag_ m; nonbasicMove_ := nonbasicMove_ m;
     workDual_ := d; workRange_ := workRange_ m; workValue_ := workValue_ m;
     devex_index_ := devex_index_ m; numTotPermutation_ := numTotPermutation_ m;
     cost_ := cost_ m;
     updated_dual_objective_value := updated_dual_objective_value m |}.

Definition set_updated_dual_objective_value (m : HighsModelObject) (v : F)
    : HighsModelObject :=
  {| update_count := update_count m;
     dual_feasibility_tolerance := dual_feasibility_tolerance m;
     nonbasicFlag_ := nonbasicFlag_ m; nonbasicMove_ := nonbasicMove_ m;
     workDual_ := workDual_ m; workRange_ := workRange_ m;
     workValue_ := workValue_ m;
     devex_index_ := devex_index_ m; numTotPermutation_ := numTotPermutation_ m;
     cost_ := cost_ m;
     updated_dual_objective_value := v |}.

Definition set_workHMO (r : HDualRow) (m : HighsModelObject) : HDualRow :=
  {| workHMO := m; packCount := packCount r; packIndex := packIndex r;
     packValue := packValue r; workDelta := workDelta r;
     workAlpha := workAlpha r; workTheta := workTheta r;
     workPivot := workPivot r; workCount := workCount r;
     workData := workData r; workGroup := workGroup r;
     computed_edge_weight := computed_edge_weight r;
     alt_workCount := alt_workCount r;
     original_workData := original_workData r;
     sorted_workData := sorted_workData r; alt_workGroup := alt_workGroup r |}.

Definition set_work (r : HDualRow) (count : Z) (data : list (Z * F)) : HDualRow :=
  {| workHMO := workHMO r; packCount := packCount r; packIndex := packIndex r;
     packValue := packValue r; workDelta := workDelta r;
     workAlpha := workAlpha r; workTheta := workTheta r;
     workPivot := workPivot r; workCount := count;
     workData := data; workGroup := workGroup r;
     computed_edge_weight := computed_edge_weight r;
     alt_workCount := alt_workCount r;
     original_workData := original_workData r;
     sorted_workData := sorted_workData r; alt_workGroup := alt_workGroup r |}.

Definition set_workTheta (r : HDualRow) (theta : F) : HDualRow :=
  {| workHMO := workHMO r; packCount := packCount r; packIndex := packIndex r;
     packValue := packValue r; workDelta := workDelta r;
     workAlpha := workAlpha r; workTheta := theta;
     workPivot := workPivot r; workCount := workCount r;
     workData := workData r; workGroup := workGroup r;
     computed_edge_weight := computed_edge_weight r;
     alt_workCount := alt_workCount r;
     original_workData := original_workData r;
     sorted_workData := sorted_workData r; alt_workGroup := alt_workGroup r |}.

Definition set_workGroup (r : HDualRow) (g : list Z) : HDualRow :=
  {| workHMO := workHMO r; packCount := packCount r; packIndex := packIndex r;
     packValue := packValue r; workDelta := workDelta r;
     workAlpha := workAlpha r; workTheta := workTheta r;
     workPivot := workPivot r; workCount := workCount r;
     workData := workData r; workGroup := g;
     computed_edge_weight := computed_edge_weight r;
     alt_workCount := alt_workCount r;
     original_workData := original_workData r;
     sorted_workData := sorted_workData r; alt_workGroup := alt_workGroup r |}.

Definition set_pivot (r : HDualRow) (pivot : Z) (alpha : F) : HDualRow :=
  {| workHMO := workHMO r; packCount := packCount r; packIndex := packIndex r;
     packValue := packValue r; workDelta := workDelta r;
     workAlpha := alpha; workTheta := workTheta r;
     workPivot := pivot; workCount := workCount r;
     workData := workData r; workGroup := workGroup r;
     computed_edge_weight := computed_edge_weight r;
     alt_workCount := alt_workCount r;
     original_workData := original_workData r;
     sorted_workData := sorted_workData r; alt_workGroup := alt_workGroup r |}.

Definition set_computed_edge_weight (r : HDualRow) (w : F) : HDualRow :=
  {| workHMO := workHMO r; packCount := packCount r; packIndex := packIndex r;
     packValue := packValue r; workDelta := workDelta r;
     workAlpha := workAlpha r; workTheta := workTheta r;
     workPivot := workPivot r; workCount := workCount r;
     workData := workData r; workGroup := workGroup r;
     computed_edge_weight := w;
     alt_workCount := alt_workCount r;
     original_workData := original_workData r;
     sorted_workData := sorted_workData r; alt_workGroup := alt_workGroup r |}.

Definition set_alt (r : HDualRow) (count : Z) (original sorted : list (Z * F))
    (g : list Z) : HDualRow :=
  {| workHMO := workHMO r; packCount := packCount r; packIndex := packIndex r;
     packValue := packValue r; workDelta := workDelta r;
     workAlpha := workAlpha r; workTheta := workTheta r;
     workPivot := workPivot r; workCount := workCount r;
     workData := workData r; workGroup := workGroup r;
     computed_edge_weight := computed_edge_weight r;
     alt_workCount := count;
     original_workData := original;
     sorted_workData := sorted; alt_workGroup := g |}.

(** void HDualRow::clear() *)
Definition clear (r : HDualRow) : HDualRow :=
  {| workHMO := workHMO r; packCount := 0; packIndex := packIndex r;
     packValue := packValue r; workDelta := workDelta r;
     workAlpha := workAlpha r; workTheta := workTheta r;
     workPivot := workPivot r; workCount := 0;
     workData := workData r; workGroup := workGroup r;
     computed_edge_weight := computed_edge_weight r;
     alt_workCount := alt_workCount r;
     original_workData := original_workData r;
     sorted_workData := sorted_workData r; alt_workGroup := alt_workGroup r |}.

(** The pivot tolerance of [choosePossible] and [createFreemove]. *)
Definition Ta_of (update_count : Z) : F :=
  if update_count <? 10 then lit_1e_9
  else if update_count <? 20 then lit_3e_8 else lit_1e_6.

(** [workDelta < 0 ? -1 : 1] *)
Definition sourceOut_of (workDelta : F) : Z :=
  if (workDelta <? of_int 0)%F then -1 else 1.

(** *** choosePossible *)

(** One pass of the loop body, on the locals it changes: [workCount],
    [workData] and [workTheta]. *)
Definition choosePossible_body (r : HDualRow) (Ta Td : F) (sourceOut : Z)
    (i : Z) (s : Z * list (Z * F) * F) : result (Z * list (Z * F) * F) :=
  let '(count, data, theta) := s in
  let* iCol := at_ (packIndex r) i in
  let* move := at_ (workMove r) iCol in
  let* pv := at_ (packValue r) i in
  let alpha := (pv * of_int sourceOut * of_int move)%F in
  if (Ta <? alpha)%F then
    let* data1 := put data count (iCol, alpha) in
    let* dual := at_ (workDual r) iCol in
    let relax := (dual * of_int move + Td)%F in
    let theta1 :=
      if (relax <? theta * alpha)%F then (relax / alpha)%F else theta in
    Ok (count + 1, data1, theta1)
  else Ok s.

(** void HDualRow::choosePossible() *)
Definition choosePossible (r : HDualRow) : result HDualRow :=
  let Ta := Ta_of (update_count (workHMO r)) in
  let Td := dual_feasibility_tolerance (workHMO r) in
  let sourceOut := sourceOut_of (workDelta r) in
  let* '(count, data, theta) :=
    for_loop 0 (packCount r) (choosePossible_body r Ta Td sourceOut)
      (0, workData r, HIGHS_CONST_INF) in
  Ok (set_workTheta (set_work r count data) theta).

(** *** chooseFinal, step 1: reduce by large step BFRT *)

(** The body of the inner [for] loop, on [workCount], [workData] and
    [totalChange]. *)
Definition large_step_body (r : HDualRow) (selectTheta : F)
    (i : Z) (s : Z * list (Z * F) * F) : result (Z * list (Z * F) * F) :=
  let '(count, data, totalChange) := s in
  let* '(iCol, alpha) := at_ data i in
  let* move := at_ (workMove r) iCol in
  let* dual := at_ (workDual r) iCol in
  let tight := (of_int move * dual)%F in
  if (tight <=? alpha * selectTheta)%F then
    let* data1 := swap data count i in
    let* range := at_ (workRange r) iCol in
    Ok (count + 1, data1, (totalChange + range * alpha)%F)
  else Ok s.

(** The [for (;;)] loop. *)
Fixpoint large_step (fuel : nat) (r : HDualRow) (fullCount : Z) (totalDelta : F)
    (count : Z) (data : list (Z * F)) (totalChange selectTheta : F)
    : result (Z * list (Z * F)) :=
  match fuel with
  | O => OutOfFuel
  | S fuel' =>
      let* '(count1, data1, totalChange1) :=
        for_loop count fullCount (large_step_body r selectTheta)
          (count, data, totalChange) in
      let selectTheta1 := (selectTheta * of_int 10)%F in
      if (totalDelta <=? totalChange1)%F || (count1 =? fullCount)
      then Ok (count1, data1)
      else large_step fuel' r fullCount totalDelta count1 data1 totalChange1
             selectTheta1
  end.

(** *** chooseFinalWorkGroupQuad *)

(** The body of the inner [for] loop, on [workCount], [workData],
    [totalChange] and [remainTheta]. *)
Definition quad_body (r : HDualRow) (Td selectTheta : F)
    (i : Z) (s : Z * list (Z * F) * F * F) : result (Z * list (Z * F) * F * F) :=
  let '(count, data, totalChange, remainTheta) := s in
  let* '(iCol, value) := at_ data i in
  let* move := at_ (workMove r) iCol in
  let* d := at_ (workDual r) iCol in
  let dual := (of_int move * d)%F in
  if (dual <=? selectTheta * value)%F then
    let* data1 := swap data count i in
    let* range := at_ (workRange r) iCol in
    Ok (count + 1, data1, (totalChange + value * range)%F, remainTheta)
  else if (dual + Td <? remainTheta * value)%F then
    Ok (count, data, totalChange, ((dual + Td) / value)%F)
  else Ok s.

(** The locals of the [while] loop that live across its passes. *)
Record quad_state : Type := {
  q_workCount : Z;
  q_workData : list (Z * F);
  q_workGroup : list Z;
  q_totalChange : F;
  q_selectTheta : F;
  q_prev_workCount : Z;
  q_prev_remainTheta : F;
  q_prev_selectTheta : F;
}.

(** How a pass of the [while] loop ends. *)
Inductive quad_pass : Type :=
| QuadReturn (count : Z) (data : list (Z * F)) (group : list Z) (ok : bool)
| QuadNext (q : quad_state).

(** One pass of [while (selectTheta < 1e18)], the test included. *)
Definition quad_step (r : HDualRow) (Td : F) (fullCount : Z) (totalDelta : F)
    (q : quad_state) : result quad_pass :=
  if negb (q_selectTheta q <? lit_1e18)%F then
    Ok (QuadReturn (q_workCount q) (q_workData q) (q_workGroup q) true)
  else
    let* '(count, data, totalChange, remainTheta) :=
      for_loop (q_workCount q) fullCount (quad_body r Td (q_selectTheta q))
        (q_workCount q, q_workData q, q_totalChange q, lit_1e100) in
    let group := q_workGroup q ++ [count] in
    let selectTheta := remainTheta in
    if (count =? q_prev_workCount q)
       && (q_prev_selectTheta q =? selectTheta)%F
       && (q_prev_remainTheta q =? remainTheta)%F
    then Ok (QuadReturn count data group false)
    else if (totalDelta <=? totalChange)%F || (count =? fullCount)
    then Ok (QuadReturn count data group true)
    else Ok (QuadNext
               {| q_workCount := count; q_workData := data;
                  q_workGroup := group; q_totalChange := totalChange;
                  q_selectTheta := selectTheta;
                  q_prev_workCount := count;
                  q_prev_remainTheta := remainTheta;
                  q_prev_selectTheta := selectTheta |}).

Fixpoint quad_loop (fuel : nat) (r : HDualRow) (Td : F) (fullCount : Z)
    (totalDelta : F) (q : quad_state) : result (Z * list (Z * F) * list Z * bool) :=
  match fuel with
  | O => OutOfFuel
  | S fuel' =>
      let* p := quad_step r Td fullCount totalDelta q in
      match p with
      | QuadReturn count data group ok => Ok (count, data, group, ok)
      | QuadNext q' => quad_loop fuel' r Td fullCount totalDelta q'
      end
  end.

(** The locals as they stand before the first pass. *)
Definition quad_init (r : HDualRow) : quad_state :=
  {| q_workCount := 0; q_workData := workData r; q_workGroup := [0];
     q_totalChange := lit_1e_12; q_selectTheta := workTheta r;
     q_prev_workCount := 0; q_prev_remainTheta := lit_1e100;
     q_prev_selectTheta := workTheta r |}.

(** bool HDualRow::chooseFinalWorkGroupQuad() *)
Definition chooseFinalWorkGroupQuad (fuel : nat) (r : HDualRow)
    : result (HDualRow * bool) :=
  let Td := dual_feasibility_tolerance (workHMO r) in
  let fullCount := workCount r in
  let totalDelta := fabs (workDelta r) in
  let* '(count, data, group, ok) :=
    quad_loop fuel r Td fullCount totalDelta (quad_init r) in
  Ok (set_workGroup (set_work r count data) group, ok).

(** The state before pass [n + 1] of the [while] loop begun in the state
    [q], if the first [n] passes all went on to a next pass. *)
Fixpoint quad_state_after (n : nat) (r : HDualRow) (Td : F) (fullCount : Z)
    (totalDelta : F) (q : quad_state) : option quad_state :=
  match n with
  | O => Some q
  | S n' =>
      match quad_step r Td fullCount totalDelta q with
      | Ok (QuadNext q') => quad_state_after n' r Td fullCount totalDelta q'
      | _ => None
      end
  end.

(** The same for the loop of [chooseFinalWorkGroupQuad] on the row [r]. *)
Definition quad_before (r : HDualRow) (n : nat) : option quad_state :=
  quad_state_after n r (dual_feasibility_tolerance (workHMO r)) (workCount r)
    (fabs (workDelta r)) (quad_init r).

(** The inner [for] loop of the pass of [chooseFinalWorkGroupQuad] on [r]
    that begins in the state [q]: what it leaves in [workCount],
    [workData], [totalChange] and [remainTheta]. *)
Definition quad_scan (r : HDualRow) (q : quad_state)
    : result (Z * list (Z * F) * F * F) :=
  for_loop (q_workCount q) (workCount r)
    (quad_body r (dual_feasibility_tolerance (workHMO r)) (q_selectTheta q))
    (q_workCount q, q_workData q, q_totalChange q, lit_1e100).

(** A pass that began in the state [q] and leaves [count] and
    [remainTheta], which is the new [selectTheta], changed none of the
    three values: [workCount] and [selectTheta] are as at its start, and
    [remainTheta] is that of the pass before. *)
Definition quad_unchanged (q : quad_state) (count : Z) (remainTheta : F) : bool :=
  (count =? q_workCount q)
  && (q_selectTheta q =? remainTheta)%F
  && (q_prev_remainTheta q =? remainTheta)%F.

(** *** chooseFinalWorkGroupHeap *)

(** [v.resize(n)], new elements being [d]. *)
Definition resize {T : Type} (v : list T) (n : Z) (d : T) : list T :=
  take (Z.to_nat n) v ++ replicate (Z.to_nat n - length v) d.

(** The first loop: the ratios below 1e18 enter the heap arrays, which
    are used from index 1. *)
Definition heap_fill_body (r : HDualRow)
    (i : Z) (s : Z * list Z * list F) : result (Z * list Z * list F) :=
  let '(heap_num_en, heap_i, heap_v) := s in
  let* '(iCol, value) := at_ (original_workData r) i in
  let* move := at_ (workMove r) iCol in
  let* d := at_ (workDual r) iCol in
  let dual := (of_int move * d)%F in
  let ratio := (dual / value)%F in
  if (ratio <? lit_1e18)%F then
    let n := heap_num_en + 1 in
    let* heap_i1 := put heap_i n i in
    let* heap_v1 := put heap_v n ratio in
    Ok (n, heap_i1, heap_v1)
  else Ok s.

(** The locals of the second loop; [h_stop] is set by its [break]. *)
Record heap_state : Type := {
  h_workCount : Z;
  h_workGroup : list Z;
  h_first_entry : Z;
  h_sorted : list (Z * F);
  h_totalChange : F;
  h_selectTheta : F;
  h_stop : bool;
}.

Definition heap_group_body (r : HDualRow) (Td totalDelta : F) (heap_i : list Z)
    (en : Z) (h : heap_state) : result heap_state :=
  if h_stop h then Ok h
  else
    let* i := at_ heap_i en in
    let* '(iCol, value) := at_ (original_workData r) i in
    let* move := at_ (workMove r) iCol in
    let* d := at_ (workDual r) iCol in
    let dual := (of_int move * d)%F in
    let next := (h_selectTheta h * value <? dual)%F in
    let group := if next then h_workGroup h ++ [h_workCount h] else h_workGroup h in
    let first := if next then h_workCount h else h_first_entry h in
    let selectTheta :=
      if next then ((dual + Td) / value)%F else h_selectTheta h in
    if next && (totalDelta <=? h_totalChange h)%F then
      Ok {| h_workCount := h_workCount h; h_workGroup := group;
            h_first_entry := first; h_sorted := h_sorted h;
            h_totalChange := h_totalChange h; h_selectTheta := selectTheta;
            h_stop := true |}
    else
      let* sorted := put (h_sorted h) (h_workCount h) (iCol, value) in
      let* range := at_ (workRange r) iCol in
      Ok {| h_workCount := h_workCount h + 1; h_workGroup := group;
            h_first_entry := first; h_sorted := sorted;
            h_totalChange := (h_totalChange h + value * range)%F;
            h_selectTheta := selectTheta;
            h_stop := false |}.

(** bool HDualRow::chooseFinalWorkGroupHeap(); it returns [true] always. *)
Definition chooseFinalWorkGroupHeap (r : HDualRow) : result HDualRow :=
  let Td := dual_feasibility_tolerance (workHMO r) in
  let fullCount := alt_workCount r in
  let totalDelta := fabs (workDelta r) in
  let heap_i0 := replicate (Z.to_nat (fullCount + 1)) 0 in
  let heap_v0 := replicate (Z.to_nat (fullCount + 1)) (of_int 0) in
  let* '(heap_num_en, heap_i1, heap_v1) :=
    for_loop 0 fullCount (heap_fill_body r) (0, heap_i0, heap_v0) in
  let '(_, heap_i) := maxheapsort heap_v1 heap_i1 heap_num_en in
  let sorted0 := resize (sorted_workData r) heap_num_en (0, of_int 0) in
  let* h :=
    for_loop 1 (heap_num_en + 1) (heap_group_body r Td totalDelta heap_i)
      {| h_workCount := 0; h_workGroup := [0]; h_first_entry := 0;
         h_sorted := sorted0; h_totalChange := lit_1e_12;
         h_selectTheta := workTheta r; h_stop := false |} in
  let group :=
    if h_first_entry h <? h_workCount h
    then h_workGroup h ++ [h_workCount h] else h_workGroup h in
  Ok (set_alt r (h_workCount h) (original_workData r) (h_sorted h) group).

(** *** chooseFinalLargeAlpha *)

(** The scan of one group: the body of the innermost loop, on
    [dMaxFinal] and [iMaxFinal]. *)
Definition group_scan_body (r : HDualRow) (data : list (Z * F))
    (i : Z) (s : F * Z) : result (F * Z) :=
  let '(dMaxFinal, iMaxFinal) := s in
  let* '(iCol, v) := at_ data i in
  if (dMaxFinal <? v)%F then Ok (v, i)
  else if (dMaxFinal =? v)%F then
    let* '(jCol, _) := at_ data iMaxFinal in
    let* pi := at_ (workNumTotPermutation r) iCol in
    let* pj := at_ (workNumTotPermutation r) jCol in
    if pi <? pj then Ok (dMaxFinal, i) else Ok s
  else Ok s.

Definition group_scan (r : HDualRow) (data : list (Z * F)) (lo hi : Z)
    : result (F * Z) :=
  for_loop lo hi (group_scan_body r data) (of_int 0, -1).

(** The groups [n - 1], ..., [0] in this order, until one is taken. *)
Fixpoint group_search (n : nat) (r : HDualRow) (data : list (Z * F))
    (group : list Z) (finalCompare : F) : result (Z * Z) :=
  match n with
  | O => Ok (-1, -1)
  | S n' =>
      let iGroup := Z.of_nat n' in
      let* lo := at_ group iGroup in
      let* hi := at_ group (iGroup + 1) in
      let* '(_, iMaxFinal) := group_scan r data lo hi in
      let* '(_, v) := at_ data iMaxFinal in
      if (finalCompare <? v)%F then Ok (iMaxFinal, iGroup)
      else group_search n' r data group finalCompare
  end.

(** The largest value among the first [workCount] entries, from 0. *)
Definition max_alpha (r : HDualRow) (data : list (Z * F)) : result F :=
  for_loop 0 (workCount r)
    (fun i m => let* '(_, v) := at_ data i in Ok (fmax m v)) (of_int 0).

(** void HDualRow::chooseFinalLargeAlpha(breakIndex, breakGroup, workData,
    workGroup): the two results as a pair. *)
Definition chooseFinalLargeAlpha (r : HDualRow) (data : list (Z * F))
    (group : list Z) : result (Z * Z) :=
  let* m := max_alpha r data in
  let finalCompare := fmin (lit_0_1 * m)%F (of_int 1) in
  let countGroup := Z.of_nat (length group) - 1 in
  group_search (Z.to_nat countGroup) r data group finalCompare.

(** *** chooseFinal *)

(** [operator<] of [std::pair<int, double>]. *)
Definition pair_lt (a b : Z * F) : bool :=
  (a.1 <? b.1) || (negb (b.1 <? a.1) && (a.2 <? b.2)%F).

Fixpoint insert_pair (x : Z * F) (l : list (Z * F)) : list (Z * F) :=
  match l with
  | [] => [x]
  | y :: l' => if pair_lt x y then x :: l else y :: insert_pair x l'
  end.

(** [std::sort(v.begin(), v.begin() + n)]. *)
Definition sort_prefix (v : list (Z * F)) (n : Z) : list (Z * F) :=
  foldr insert_pair [] (take (Z.to_nat n) v) ++ drop (Z.to_nat n) v.

(** Step 4: the entries before the chosen group become the flip list. *)
Definition flip_body (r : HDualRow)
    (i : Z) (s : Z * list (Z * F)) : result (Z * list (Z * F)) :=
  let '(count, data) := s in
  let* '(iCol, _) := at_ data i in
  let* move := at_ (workMove r) iCol in
  let* range := at_ (workRange r) iCol in
  let* data1 := put data count (iCol, (of_int move * range)%F) in
  Ok (count + 1, data1).

(** *** reportWorkDataAndGroup *)

(** The first loop of the report, on [totalChange]. *)
Definition report_data_body (r : HDualRow) (report_workData : list (Z * F))
    (i : Z) (totalChange : F) : result F :=
  let* '(iCol, value) := at_ report_workData i in
  let* move := at_ (workMove r) iCol in
  let* d := at_ (workDual r) iCol in
  let* range := at_ (workRange r) iCol in
  Ok (totalChange + value * range)%F.

(** The second loop, on [selectTheta]: after the entries of a group it
    reads the entry of [original_workData] at the boundary that ends the
    group. *)
Definition report_group_body (r : HDualRow) (Td : F) (report_workGroup : list Z)
    (group : Z) (selectTheta : F) : result F :=
  let* lo := at_ report_workGroup group in
  let* en := at_ report_workGroup (group + 1) in
  let* '(iCol, value) := at_ (original_workData r) en in
  let* move := at_ (workMove r) iCol in
  let* d := at_ (workDual r) iCol in
  Ok ((of_int move * d + Td) / value)%F.

(** void HDualRow::reportWorkDataAndGroup(message, report_workCount,
    report_workData, report_workGroup).  It changes no member; the text it
    prints is left out, the reads it makes are kept. *)
Definition reportWorkDataAndGroup (r : HDualRow) (report_workCount : Z)
    (report_workData : list (Z * F)) (report_workGroup : list Z) : result unit :=
  let Td := dual_feasibility_tolerance (workHMO r) in
  let* _ :=
    for_loop 0 report_workCount (report_data_body r report_workData)
      lit_1e_12 in
  let* _ :=
    for_loop 0 (Z.of_nat (length report_workGroup) - 1)
      (report_group_body r Td report_workGroup) (workTheta r) in
  Ok tt.

(** Steps 3 and 4 of [chooseFinal], from the two break points on. *)
Definition choose_pivot (r : HDualRow) (breakIndex breakGroup alt_breakIndex : Z)
    : result HDualRow :=
  let sourceOut := sourceOut_of (workDelta r) in
  let* '(pivot, a) := at_ (workData r) breakIndex in
  let* move := at_ (workMove r) pivot in
  let alpha := (a * of_int sourceOut * of_int move)%F in
  let* dual := at_ (workDual r) pivot in
  let theta :=
    if (of_int 0 <? dual * of_int move)%F then (dual / alpha)%F else of_int 0 in
  (* the pivot of the heap grouping is read and compared; where the two
     differ both groupings are reported, with the new [workTheta] *)
  let* '(alt_workPivot, _) := at_ (sorted_workData r) alt_breakIndex in
  let r1 := set_workTheta (set_pivot r pivot alpha) theta in
  let* _ :=
    if negb (alt_workPivot =? pivot) then
      let* _ :=
        reportWorkDataAndGroup r1 (workCount r1) (workData r1) (workGroup r1) in
      reportWorkDataAndGroup r1 (alt_workCount r1) (sorted_workData r1)
        (alt_workGroup r1)
    else Ok tt in
  let* flipEnd := at_ (workGroup r) breakGroup in
  let* '(count, data) := for_loop 0 flipEnd (flip_body r) (0, workData r) in
  let count1 := if (theta =? of_int 0)%F then 0 else count in
  Ok (set_work (set_workTheta (set_pivot r pivot alpha) theta)
        count1 (sort_prefix data count1)).

(** Step 1 of [chooseFinal], and the copies taken for the heap
    grouping. *)
Definition reduce_large_step (fuel : nat) (r : HDualRow) : result HDualRow :=
  let fullCount := workCount r in
  let totalDelta := fabs (workDelta r) in
  let selectTheta := (of_int 10 * workTheta r + lit_1e_7)%F in
  let* '(count1, data1) :=
    large_step fuel r fullCount totalDelta 0 (workData r) (of_int 0)
      selectTheta in
  let r1 := set_work r count1 data1 in
  Ok (set_alt r1 count1 data1 (sorted_workData r1) (alt_workGroup r1)).

(** bool HDualRow::chooseFinal(): [true] reports the failure of the
    grouping, [false] a chosen pivot. *)
Definition chooseFinal (fuel : nat) (r : HDualRow) : result (HDualRow * bool) :=
  let* r2 := reduce_large_step fuel r in
  let* '(r3, choose_ok) := chooseFinalWorkGroupQuad fuel r2 in
  if negb choose_ok then Ok (r3, true)
  else
    let* r4 := chooseFinalWorkGroupHeap r3 in
    let* '(breakIndex, breakGroup) :=
      chooseFinalLargeAlpha r4 (workData r4) (workGroup r4) in
    let* '(alt_breakIndex, _) :=
      chooseFinalLargeAlpha r4 (sorted_workData r4) (alt_workGroup r4) in
    let* r5 := choose_pivot r4 breakIndex breakGroup alt_breakIndex in
    Ok (r5, false).

(** The ratio test: [choosePossible] followed by [chooseFinal]. *)
Definition ratio_test (fuel : nat) (r : HDualRow) : result (HDualRow * bool) :=
  let* r1 := choosePossible r in chooseFinal fuel r1.

(** *** updateDual *)

(** The loop body, on the dual array and the objective change. *)
Definition updateDual_body (r : HDualRow) (theta : F)
    (i : Z) (s : list F * F) : result (list F * F) :=
  let '(dual, change) := s in
  let* iCol := at_ (packIndex r) i in
  let* pv := at_ (packValue r) i in
  let* d := at_ dual iCol in
  let* dual1 := put dual iCol (d - theta * pv)%F in
  let delta_dual := (theta * pv)%F in
  let* local_value := at_ (workValue_ (workHMO r)) iCol in
  let* flag := at_ (nonbasicFlag_ (workHMO r)) iCol in
  let local := (of_int flag * (- local_value * delta_dual))%F in
  let local1 := (local * cost_ (workHMO r))%F in
  Ok (dual1, (change + local1)%F).

(** void HDualRow::updateDual(double theta) *)
Definition updateDual (r : HDualRow) (theta : F) : result HDualRow :=
  let* '(dual, change) :=
    for_loop 0 (packCount r) (updateDual_body r theta)
      (workDual r, of_int 0) in
  let m := set_workDual_ (workHMO r) dual in
  Ok (set_workHMO r
        (set_updated_dual_objective_value m
           (updated_dual_objective_value m + change)%F)).

(** *** computeDevexWeight *)

(** The loop body, on [computed_edge_weight]. *)
Definition devex_body (r : HDualRow) (el_n : Z) (w : F) : result F :=
  let* vr_n := at_ (packIndex r) el_n in
  let* flag := at_ (nonbasicFlag_ (workHMO r)) vr_n in
  if flag =? 0 then Ok w
  else
    let* dx := at_ (work_devex_index r) vr_n in
    let* v := at_ (packValue r) el_n in
    let pv := (of_int dx * v)%F in
    if negb (pv =? of_int 0)%F then Ok (w + pv * pv)%F else Ok w.

(** void HDualRow::computeDevexWeight(const int slice);
    [rp_computed_edge_weight] is [false], nothing is printed. *)
Definition computeDevexWeight (r : HDualRow) (slice : Z) : result HDualRow :=
  let* w := for_loop 0 (packCount r) (devex_body r) (of_int 0) in
  Ok (set_computed_edge_weight r w).

(** *** The packed row as a list, and what the updates amount to *)

(** The entries [(packIndex[i], packValue[i])] for [i < packCount]. *)
Definition packed_row (r : HDualRow) : list (Z * F) :=
  take (Z.to_nat (packCount r)) (zip (packIndex r) (packValue r)).

(** The packed values of the entries of column [c], in the order of the
    row. *)
Definition values_at (c : Z) (row : list (Z * F)) : list F :=
  (filter (fun e => e.1 = c) row).*2.

(** A dual value after [theta] times each of [vs] was taken from it. *)
Definition decremented (theta : F) (vs : list F) (d : F) : F :=
  fold_left (fun d v => (d - theta * v)%F) vs d.

(** The product (devex reference weight x packed value) of an entry;
    none for the entry of a basic variable when [nonbasic_only]. *)
Definition product_of (r : HDualRow) (nonbasic_only : bool) (e : Z * F)
    : option F :=
  match at_ (nonbasicFlag_ (workHMO r)) e.1, at_ (work_devex_index r) e.1 with
  | Ok flag, Ok dx =>
      if nonbasic_only && (flag =? 0) then None else Some (of_int dx * e.2)%F
  | _, _ => None
  end.

(** The products of the entries whose variable is nonbasic, in the
    order of the row. *)
Definition nonbasic_products (r : HDualRow) : list F :=
  omap (product_of r true) (packed_row r).

(** The products of all entries of the row. *)
Definition all_products (r : HDualRow) : list F :=
  omap (product_of r false) (packed_row r).

(** The sum of the squares, from 0 and from the left; a product that
    is zero adds nothing. *)
Definition add_square (w pv : F) : F :=
  if (pv =? of_int 0)%F then w else (w + pv * pv)%F.

Definition sum_squares (ps : list F) : F := fold_left add_square ps (of_int 0).

(** The packed row lies within the arrays read through its indices. *)
Definition packed_in_range (r : HDualRow) : Prop :=
  packCount r <= Z.of_nat (length (packIndex r))
  /\ packCount r <= Z.of_nat (length (packValue r))
  /\ forall e, e ∈ packed_row r ->
       0 <= e.1 < Z.of_nat (length (workDual r))
       /\ e.1 < Z.of_nat (length (workMove r))
       /\ e.1 < Z.of_nat (length (workValue_ (workHMO r)))
       /\ e.1 < Z.of_nat (length (nonbasicFlag_ (workHMO r)))
       /\ e.1 < Z.of_nat (length (work_devex_index r)).

(** *** The candidates of a packed row, and the bound on the step *)

(** The candidate an entry of the packed row makes: its column and its
    signed scaled pivot value [alpha = packValue * sourceOut * move], if
    [alpha] is above the tolerance [Ta]. *)
Definition candidate_of (r : HDualRow) (e : Z * F) : option (Z * F) :=
  match at_ (workMove r) e.1 with
  | Ok move =>
      let alpha := (e.2 * of_int (sourceOut_of (workDelta r)) * of_int move)%F in
      if (Ta_of (update_count (workHMO r)) <? alpha)%F
      then Some (e.1, alpha) else None
  | _ => None
  end.

Definition candidates (r : HDualRow) : list (Z * F) :=
  omap (candidate_of r) (packed_row r).

(** The ratio test of a candidate: [(relax, alpha)] with
    [relax = dual * move + Td]. *)
Definition test_of (r : HDualRow) (c : Z * F) : option (F * F) :=
  match at_ (workDual r) c.1, at_ (workMove r) c.1 with
  | Ok dual, Ok move =>
      Some ((dual * of_int move + dual_feasibility_tolerance (workHMO r))%F, c.2)
  | _, _ => None
  end.

Definition tests (r : HDualRow) : list (F * F) :=
  omap (test_of r) (candidates r).

(** The update of the bound by one test, as [choosePossible] makes it:
    the product [theta * alpha] is compared with [relax]. *)
Definition lower_bound (theta : F) (t : F * F) : F :=
  if (t.1 <? theta * t.2)%F then (t.1 / t.2)%F else theta.

Definition running_bound (ts : list (F * F)) : F :=
  fold_left lower_bound ts HIGHS_CONST_INF.

(** The ratios [relax / alpha] and the least of them, infinite for none. *)
Definition ratios (ts : list (F * F)) : list F :=
  map (fun t => (t.1 / t.2)%F) ts.

Definition least (qs : list F) : F := fold_left fmin qs HIGHS_CONST_INF.

(** The product test of [choosePossible] and the comparison of the ratio
    with the bound agree, at every bound the loop can hold. *)
Definition tests_agree (ts : list (F * F)) : Prop :=
  forall t theta, t ∈ ts -> theta ∈ HIGHS_CONST_INF :: ratios ts ->
    (t.1 <? theta * t.2)%F = (t.1 / t.2 <? theta)%F.

(** *** A pass of the grouping that admits nothing *)

(** What the inner loop of [chooseFinalWorkGroupQuad] does to
    [remainTheta] at an entry it does not admit. *)
Definition remain_body (r : HDualRow) (Td : F) (data : list (Z * F))
    (i : Z) (remainTheta : F) : result F :=
  let* '(iCol, value) := at_ data i in
  let* move := at_ (workMove r) iCol in
  let* d := at_ (workDual r) iCol in
  let dual := (of_int move * d)%F in
  if (dual + Td <? remainTheta * value)%F then Ok ((dual + Td) / value)%F
  else Ok remainTheta.

(** [remainTheta] after a pass over the entries [lo .. hi - 1] none of
    which is admitted. *)
Definition remain_scan (r : HDualRow) (Td : F) (data : list (Z * F))
    (lo hi : Z) : result F :=
  for_loop lo hi (remain_body r Td data) lit_1e100.

(** The state after a pass that admitted nothing: the next pass that
    admits nothing finds the three values it compares unchanged. *)
Definition settled (r : HDualRow) (Td : F) (fullCount : Z) (q : quad_state)
    : Prop :=
  q_prev_workCount q = q_workCount q
  /\ q_prev_selectTheta q = q_selectTheta q
  /\ q_prev_remainTheta q = q_selectTheta q
  /\ remain_scan r Td (q_workData q) (q_workCount q) fullCount
     = Ok (q_selectTheta q).

(** *** What chooseFinalLargeAlpha is to establish *)

(** Entry [j] of [data] is [e] and lies in the group [lo .. hi - 1]. *)
Definition in_group (data : list (Z * F)) (lo hi j : Z) (e : Z * F) : Prop :=
  lo <= j < hi /\ at_ data j = Ok e.

(** No entry of group [g] has a value above [finalCompare]. *)
Definition no_candidate_above (data : list (Z * F)) (group : list Z)
    (finalCompare : F) (g : Z) : Prop :=
  forall lo hi j e, at_ group g = Ok lo -> at_ group (g + 1) = Ok hi ->
    in_group data lo hi j e -> (finalCompare <? e.2)%F = false.

(** Entry [bi] is in the group, no entry of the group has a larger
    value, and among the entries of the group with an equal value its
    column is the one the permutation puts first. *)
Definition best_of_group (r : HDualRow) (data : list (Z * F))
    (lo hi bi : Z) : Prop :=
  exists c x, in_group data lo hi bi (c, x)
    /\ (forall j e, in_group data lo hi j e -> (x <? e.2)%F = false)
    /\ (forall j e pM p, in_group data lo hi j e -> (x =? e.2)%F = true ->
          at_ (workNumTotPermutation r) c = Ok pM ->
          at_ (workNumTotPermutation r) e.1 = Ok p -> pM <= p).

(** The first [workCount] entries of [data] are candidates as
    [choosePossible] makes them: a value above zero, and a column the
    permutation knows. *)
Definition entries_ok (r : HDualRow) (data : list (Z * F)) : Prop :=
  forall j, 0 <= j < workCount r ->
    exists c x, at_ data j = Ok (c, x) /\ (of_int 0 <? x)%F = true
      /\ 0 <= c < Z.of_nat (length (workNumTotPermutation r)).

(** The boundaries in [group] delimit groups that are not empty, within
    the first [workCount] entries. *)
Definition groups_ok (r : HDualRow) (group : list Z) : Prop :=
  forall g, 0 <= g < Z.of_nat (length group) - 1 ->
    exists lo hi, at_ group g = Ok lo /\ at_ group (g + 1) = Ok hi
      /\ 0 <= lo < hi /\ hi <= workCount r.

(** The invariant of the scan of a group, entries [lo .. i - 1] done. *)
Definition scan_inv (r : HDualRow) (data : list (Z * F)) (lo i : Z)
    (s : F * Z) : Prop :=
  ((s.2 = -1 /\ s.1 = of_int 0)
   \/ (lo <= s.2 < i
       /\ exists cM x, at_ data s.2 = Ok (cM, x) /\ (s.1 =? x)%F = true))
  /\ (forall j e, in_group data lo i j e -> (s.1 <? e.2)%F = false)
  /\ (forall j e cM x pM p, in_group data lo i j e -> (s.1 =? e.2)%F = true ->
        at_ data s.2 = Ok (cM, x) ->
        at_ (workNumTotPermutation r) cM = Ok pM ->
        at_ (workNumTotPermutation r) e.1 = Ok p -> pM <= p).

(** The entries [lo .. hi - 1] of an array, as a list. *)
Definition slice (data : list (Z * F)) (lo hi : Z) : list (Z * F) :=
  take (Z.to_nat (hi - lo)) (drop (Z.to_nat lo) data).

(** Two arrays hold the same entries at [lo .. hi - 1], in any order. *)
Definition same_entries (data1 data2 : list (Z * F)) (lo hi : Z) : Prop :=
  forall e, (exists j, in_group data1 lo hi j e)
            <-> (exists j, in_group data2 lo hi j e).

(** Different columns have different places in the permutation. *)
Definition permutation_injective (r : HDualRow) : Prop :=
  forall c c' p, at_ (workNumTotPermutation r) c = Ok p ->
    at_ (workNumTotPermutation r) c' = Ok p -> c = c'.

(** *** setupSlice, chooseMakepack, chooseJoinpack *)

Definition set_pack (r : HDualRow) (count : Z) (index : list Z) (value : list F)
    : HDualRow :=
  {| workHMO := workHMO r; packCount := count; packIndex := index;
     packValue := value; workDelta := workDelta r;
     workAlpha := workAlpha r; workTheta := workTheta r;
     workPivot := workPivot r; workCount := workCount r;
     workData := workData r; workGroup := workGroup r;
     computed_edge_weight := computed_edge_weight r;
     alt_workCount := alt_workCount r;
     original_workData := original_workData r;
     sorted_workData := sorted_workData r; alt_workGroup := alt_workGroup r |}.

(** void HDualRow::setupSlice(int size).  The four pointers it sets are
    the aliases [workMove], [workDual], [workRange] and [work_devex_index]
    above; [workSize] is used here only.  A negative [size] makes
    [std::vector::resize] throw [std::length_error]: no row comes back. *)
Definition setupSlice (r : HDualRow) (size : Z) : option HDualRow :=
  if size <? 0 then None
  else
    let workSize := size in
    Some {| workHMO := workHMO r; packCount := 0;
            packIndex := resize (packIndex r) workSize 0;
            packValue := resize (packValue r) workSize (of_int 0);
            workDelta := workDelta r;
            workAlpha := workAlpha r; workTheta := workTheta r;
            workPivot := workPivot r; workCount := 0;
            workData := resize (workData r) workSize (0, of_int 0);
            workGroup := workGroup r;
            computed_edge_weight := computed_edge_weight r;
            alt_workCount := alt_workCount r;
            original_workData := original_workData r;
            sorted_workData := sorted_workData r;
            alt_workGroup := alt_workGroup r |}.

(** The members of [HVector] that [chooseMakepack] reads. *)
Record HVector : Type := {
  count : Z;
  index : list Z;
  array : list F;
}.

(** The loop body of [chooseMakepack], on [packCount], [packIndex] and
    [packValue]. *)
Definition chooseMakepack_body (row : HVector) (offset : Z)
    (i : Z) (s : Z * list Z * list F) : result (Z * list Z * list F) :=
  let '(pCount, pIndex, pValue) := s in
  let* idx := at_ (index row) i in
  let* value := at_ (array row) idx in
  let* shifted := int_add idx offset in
  let* pIndex1 := put pIndex pCount shifted in
  let* pValue1 := put pValue pCount value in
  Ok (pCount + 1, pIndex1, pValue1).

(** void HDualRow::chooseMakepack(const HVector* row, const int offset) *)
Definition chooseMakepack (r : HDualRow) (row : HVector) (offset : Z)
    : result HDualRow :=
  let rowCount := count row in
  let* '(pCount, pIndex, pValue) :=
    for_loop 0 rowCount (chooseMakepack_body row offset)
      (packCount r, packIndex r, packValue r) in
  Ok (set_pack r pCount pIndex pValue).

(** void HDualRow::chooseJoinpack(const HDualRow* otherRow), for another
    row than this one.  [std::copy] takes the [otherCount] entries from
    the front of the other row's [workData] to [workData[workCount]] and
    the places after it; a negative [otherCount] is no range to copy. *)
Definition chooseJoinpack (r otherRow : HDualRow) : result HDualRow :=
  let otherCount := workCount otherRow in
  if otherCount <? 0 then Undef
  else
    let* data :=
      for_loop 0 otherCount
        (fun i data =>
           let* e := at_ (workData otherRow) i in
           put data (workCount r + i) e)
        (workData r) in
    Ok (set_workTheta (set_work r (workCount r + otherCount) data)
          (fmin (workTheta r) (workTheta otherRow))).

(** *** The list of free columns *)

(** [highs_isInfinity] is declared in util/HighsUtils.h and defined
    outside the sources embedded here, as is [HMatrix::compute_dot]; they
    are arguments of the model, [compute_dot] for the matrix and the row
    [row_ep] of the call. *)
Variable highs_isInfinity : F -> bool.
Variable compute_dot : Z -> F.

(** [std::set<int>]: the elements in increasing order, each once. *)
Fixpoint set_insert (x : Z) (s : list Z) : list Z :=
  match s with
  | [] => [x]
  | y :: s' =>
      if x <? y then x :: s
      else if x =? y then s
      else y :: set_insert x s'
  end.

Fixpoint set_erase (x : Z) (s : list Z) : list Z :=
  match s with
  | [] => []
  | y :: s' => if x =? y then s' else y :: set_erase x s'
  end.

Definition set_count (x : Z) (s : list Z) : Z :=
  if bool_decide (x ∈ s) then 1 else 0.

(** The loop over a set from [s.begin()] to [s.end()]: the body at each
    element, in increasing order. *)
Fixpoint for_each {T St : Type} (s : list T) (body : T -> St -> result St)
    (st : St) : result St :=
  match s with
  | [] => Ok st
  | x :: s' => let* st' := body x st in for_each s' body st'
  end.

Definition set_nonbasicMove_ (m : HighsModelObject) (mv : list Z)
    : HighsModelObject :=
  {| update_count := update_count m;
     dual_feasibility_tolerance := dual_feasibility_tolerance m;
     nonbasicFlag_ := nonbasicFlag_ m; nonbasicMove_ := mv;
     workDual_ := workDual_ m; workRange_ := workRange_ m;
     workValue_ := workValue_ m;
     devex_index_ := devex_index_ m; numTotPermutation_ := numTotPermutation_ m;
     cost_ := cost_ m;
     updated_dual_objective_value := updated_dual_objective_value m |}.

(** The loop body of [createFreelist], on [freeList]; [&&] reads the
    bounds only as far as it needs them. *)
Definition createFreelist_body (r : HDualRow) (workLower_ workUpper_ : list F)
    (i : Z) (freeList : list Z) : result (list Z) :=
  let* flag := at_ (nonbasicFlag_ (workHMO r)) i in
  if flag =? 0 then Ok freeList
  else
    let* lower := at_ workLower_ i in
    if negb (highs_isInfinity (- lower)%F) then Ok freeList
    else
      let* upper := at_ workUpper_ i in
      if highs_isInfinity upper then Ok (set_insert i freeList)
      else Ok freeList.

(** void HDualRow::createFreelist(), giving the new [freeList];
    [numCol_] and [numRow_] are those of [simplex_lp_], [workLower_] and
    [workUpper_] those of [simplex_info_].  The debugging report on the
    number of entries is left out. *)
Definition createFreelist (r : HDualRow) (numCol_ numRow_ : Z)
    (workLower_ workUpper_ : list F) : result (list Z) :=
  for_loop 0 (numCol_ + numRow_) (createFreelist_body r workLower_ workUpper_) [].

(** The loop body of [createFreemove], on [nonbasicMove_]. *)
Definition createFreemove_body (NDEBUG : bool) (numCol_ : Z) (Ta : F)
    (sourceOut : Z) (iCol : Z) (move : list Z) : result (list Z) :=
  let* _ := CutPool.assert NDEBUG (iCol <? numCol_) in
  let alpha := compute_dot iCol in
  if (Ta <? fabs alpha)%F then
    if (of_int 0 <? alpha * of_int sourceOut)%F then put move iCol 1
    else put move iCol (-1)
  else Ok move.

(** void HDualRow::createFreemove(HVector* row_ep) *)
Definition createFreemove (NDEBUG : bool) (numCol_ : Z) (freeList : list Z)
    (r : HDualRow) : result HDualRow :=
  match freeList with
  | [] => Ok r
  | _ =>
      let Ta := Ta_of (update_count (workHMO r)) in
      let sourceOut := sourceOut_of (workDelta r) in
      let* move :=
        for_each freeList (createFreemove_body NDEBUG numCol_ Ta sourceOut)
          (nonbasicMove_ (workHMO r)) in
      Ok (set_workHMO r (set_nonbasicMove_ (workHMO r) move))
  end.

(** The loop body of [deleteFreemove], on [nonbasicMove_]. *)
Definition deleteFreemove_body (NDEBUG : bool) (numCol_ : Z)
    (iCol : Z) (move : list Z) : result (list Z) :=
  let* _ := CutPool.assert NDEBUG (iCol <? numCol_) in
  put move iCol 0.

(** void HDualRow::deleteFreemove() *)
Definition deleteFreemove (NDEBUG : bool) (numCol_ : Z) (freeList : list Z)
    (r : HDualRow) : result HDualRow :=
  match freeList with
  | [] => Ok r
  | _ =>
      let* move :=
        for_each freeList (deleteFreemove_body NDEBUG numCol_)
          (nonbasicMove_ (workHMO r)) in
      Ok (set_workHMO r (set_nonbasicMove_ (workHMO r) move))
  end.

(** void HDualRow::deleteFreelist(int iColumn), giving the new
    [freeList]. *)
Definition deleteFreelist (freeList : list Z) (iColumn : Z) : list Z :=
  match freeList with
  | [] => freeList
  | _ => if set_count iColumn freeList =? 0 then freeList
         else set_erase iColumn freeList
  end.

(** *** The entries a row vector contributes to the packed row *)

(** The entry [chooseMakepack] makes of the index [idx] of the row. *)
Definition row_entry (row : HVector) (offset : Z) (idx : Z) : option (Z * F) :=
  match at_ (array row) idx with
  | Ok value => Some (idx + offset, value)
  | _ => None
  end.

(** The entries of the first [count] indices of the row, in their order. *)
Definition row_entries (row : HVector) (offset : Z) : list (Z * F) :=
  omap (row_entry row offset) (take (Z.to_nat (count row)) (index row)).

(** The sums [index + offset] that [chooseMakepack] forms of the first
    [count] indices of the row are values of [int]. *)
Definition offsets_in_int (row : HVector) (offset : Z) : Prop :=
  forall idx, idx ∈ take (Z.to_nat (count row)) (index row) ->
    in_int_range (idx + offset) = true.

(** The first [count] indices of the row exist and lie within its array
    of values. *)
Definition row_in_range (row : HVector) : Prop :=
  0 <= count row <= Z.of_nat (length (index row))
  /\ forall idx, idx ∈ take (Z.to_nat (count row)) (index row) ->
       0 <= idx < Z.of_nat (length (array row)).

(** *** Free columns *)

(** Column [i] is nonbasic and free: its lower bound is minus infinity
    and its upper bound infinity. *)
Definition free_column (r : HDualRow) (workLower_ workUpper_ : list F) (i : Z)
    : Prop :=
  exists flag lower upper,
    at_ (nonbasicFlag_ (workHMO r)) i = Ok flag /\ flag <> 0
    /\ at_ workLower_ i = Ok lower /\ highs_isInfinity (- lower)%F = true
    /\ at_ workUpper_ i = Ok upper /\ highs_isInfinity upper = true.

(** The direction [createFreemove] gives a free column: none when the
    value of the column in the row is within the tolerance [Ta]. *)
Definition free_move (r : HDualRow) (iCol : Z) : option Z :=
  let alpha := compute_dot iCol in
  if (Ta_of (update_count (workHMO r)) <? fabs alpha)%F then
    Some (if (of_int 0 <? alpha * of_int (sourceOut_of (workDelta r)))%F
          then 1 else -1)
  else None.

(** The free columns are columns of the solver, and structural columns
    where the assertion is checked. *)
Definition free_in_range (NDEBUG : bool) (numCol_ : Z) (freeList : list Z)
    (r : HDualRow) : Prop :=
  forall c, c ∈ freeList ->
    0 <= c < Z.of_nat (length (nonbasicMove_ (workHMO r)))
    /\ (NDEBUG = true \/ c < numCol_).

(** *** Candidates reordered *)

(** The array [data] is [data0] with its first [n] entries in another
    order: the same entries as many times each, the rest of the array as
    it was. *)
Definition reordered (n : Z) (data data0 : list (Z * F)) : Prop :=
  length data = length data0
  /\ take (Z.to_nat n) data ≡ₚ take (Z.to_nat n) data0
  /\ drop (Z.to_nat n) data = drop (Z.to_nat n) data0.

(** The boundaries of the groups so far: from 0, not decreasing, the
    last one the number of candidates admitted. *)
Definition group_bounds (group : list Z) (count : Z) : Prop :=
  (exists g, group = 0 :: g)
  /\ StronglySorted Z.le group
  /\ last group = Some count.

(** *** The change of the dual objective *)

(** What one entry of the packed row adds to the change of the dual
    objective value in [updateDual]. *)
Definition objective_step (r : HDualRow) (theta : F) (change : F) (e : Z * F)
    : F :=
  match at_ (workValue_ (workHMO r)) e.1, at_ (nonbasicFlag_ (workHMO r)) e.1 with
  | Ok local_value, Ok flag =>
      (change
       + of_int flag * (- local_value * (theta * e.2)) * cost_ (workHMO r))%F
  | _, _ => change
  end.

(** The change summed over the packed row, from 0 and in its order. *)
Definition objective_change (r : HDualRow) (theta : F) : F :=
  fold_left (objective_step r theta) (packed_row r) (of_int 0).

(** *** A candidate that step 1 of chooseFinal does not select *)

(** The entry [e] of [workData] is not selected at the bound
    [selectTheta]. *)
Definition not_selected (r : HDualRow) (selectTheta : F) (e : Z * F) : Prop :=
  exists move dual,
    at_ (workMove r) e.1 = Ok move /\ at_ (workDual r) e.1 = Ok dual
    /\ (of_int move * dual <=? e.2 * selectTheta)%F = false.

(** What the second loop of [chooseFinalWorkGroupHeap] keeps, before
    the pass for the heap entry [en]: the entries stored are candidates,
    and the boundaries are those of the groups so far. *)
Definition heap_inv (r : HDualRow) (en : Z) (h : heap_state) : Prop :=
  h_workCount h <= en - 1
  /\ h_first_entry h <= h_workCount h
  /\ group_bounds (h_workGroup h) (h_first_entry h)
  /\ forall j, 0 <= j < h_workCount h ->
       exists e, at_ (h_sorted h) j = Ok e /\ e ∈ original_workData r.

(** *** compareWorkDataAndGroup *)

(** The first inner loop: the columns of the group are marked in
    [debug_zero_vector]. *)
Definition mark_body (r : HDualRow) (en : Z) (dzv : list Z) : result (list Z) :=
  let* '(iCol, _) := at_ (workData r) en in
  put dzv iCol 1.

(** The second inner loop, on [no_difference] and [debug_zero_vector]:
    the columns of the group of the heap grouping are looked up and
    cleared. *)
Definition match_body (r : HDualRow) (en : Z) (s : bool * list Z)
    : result (bool * list Z) :=
  let '(no_difference, dzv) := s in
  let* '(iCol, _) := at_ (sorted_workData r) en in
  let* v := at_ dzv iCol in
  let no_difference1 := if negb (v =? 1) then false else no_difference in
  let* dzv1 := put dzv iCol 0 in
  Ok (no_difference1, dzv1).

(** The third inner loop: a column of the group that is still marked
    is a difference; the columns are cleared. *)
Definition unmark_body (r : HDualRow) (en : Z) (s : bool * list Z)
    : result (bool * list Z) :=
  let '(no_difference, dzv) := s in
  let* '(iCol, _) := at_ (workData r) en in
  let* v := at_ dzv iCol in
  let no_difference1 := if v =? 1 then false else no_difference in
  let* dzv1 := put dzv iCol 0 in
  Ok (no_difference1, dzv1).

(** The fourth inner loop: the assertions that the vector is zero. *)
Definition zero_check (NDEBUG : bool) (dzv : list Z) : result unit :=
  for_loop 0 (Z.of_nat (length dzv))
    (fun iCol _ =>
       let* v := at_ dzv iCol in CutPool.assert NDEBUG (v =? 0))
    tt.

(** The loop over the groups, [n] of them left from [group] on; a
    boundary that differs returns [false] at once. *)
Fixpoint compare_groups (NDEBUG : bool) (n : nat) (r : HDualRow) (group : Z)
    (no_difference : bool) (dzv : list Z) : result (bool * list Z) :=
  match n with
  | O => Ok (no_difference, dzv)
  | S n' =>
      let* hi := at_ (workGroup r) (group + 1) in
      let* alt_hi := at_ (alt_workGroup r) (group + 1) in
      if negb (hi =? alt_hi) then Ok (false, dzv)
      else
        let* lo := at_ (workGroup r) group in
        let* dzv1 := for_loop lo hi (mark_body r) dzv in
        let* alt_lo := at_ (alt_workGroup r) group in
        let* '(nd2, dzv2) :=
          for_loop alt_lo alt_hi (match_body r) (no_difference, dzv1) in
        let* '(nd3, dzv3) := for_loop lo hi (unmark_body r) (nd2, dzv2) in
        let* _ := zero_check NDEBUG dzv3 in
        compare_groups NDEBUG n' r (group + 1) nd3 dzv3
  end.

(** bool HDualRow::compareWorkDataAndGroup(), on the row and the member
    [debug_zero_vector]; what it prints is left out. *)
Definition compareWorkDataAndGroup (NDEBUG : bool) (r : HDualRow)
    (debug_zero_vector : list Z) : result (bool * list Z) :=
  if negb (alt_workCount r =? workCount r) then Ok (false, debug_zero_vector)
  else if negb (Z.of_nat (length (alt_workGroup r))
                =? Z.of_nat (length (workGroup r)))
  then Ok (false, debug_zero_vector)
  else
    let* g0 := at_ (workGroup r) 0 in
    let* alt_g0 := at_ (alt_workGroup r) 0 in
    if negb (g0 =? alt_g0) then Ok (false, debug_zero_vector)
    else
      compare_groups NDEBUG
        (Z.to_nat (Z.of_nat (length (workGroup r)) - 1)) r 0 true
        debug_zero_vector.

(** Column [c] has an entry among the entries [lo .. hi - 1] of
    [data]. *)
Definition column_in (data : list (Z * F)) (lo hi c : Z) : Prop :=
  exists j x, in_group data lo hi j (c, x).

End Model.

Arguments HighsModelObject F : clear implicits.
Arguments HDualRow F : clear implicits.
Arguments quad_state F : clear implicits.
Arguments quad_pass F : clear implicits.
Arguments heap_state F : clear implicits.
Arguments HVector F : clear implicits.

End DualRow.

(** ** mip/HighsCutPool.h: struct HighsCutSet *)

Module CutSet.

Section Model.

Context {F : Type} {A : Arith F}.

Record HighsCutSet : Type := {
  cutindices : list Z;
  ARstart_ : list Z;
  ARindex_ : list Z;
  ARvalue_ : list F;
  lower_ : list F;
  upper_ : list F;
}.

(** int numCuts() const *)
Definition numCuts (s : HighsCutSet) : Z := Z.of_nat (length (cutindices s)).

(** void resize(int nnz).  New elements of [lower_] are [-HIGHS_CONST_INF],
    the other new elements are zero.  A negative [nnz] makes
    [std::vector::resize] throw [std::length_error]: no set comes back. *)
Definition resize (s : HighsCutSet) (nnz : Z) : option HighsCutSet :=
  let ncuts := numCuts s in
  if nnz <? 0 then None
  else
    Some {| cutindices := cutindices s;
            ARstart_ := DualRow.resize (ARstart_ s) (ncuts + 1) 0;
            ARindex_ := DualRow.resize (ARindex_ s) nnz 0;
            ARvalue_ := DualRow.resize (ARvalue_ s) nnz (of_int 0);
            lower_ := DualRow.resize (lower_ s) ncuts (- HIGHS_CONST_INF)%F;
            upper_ := DualRow.resize (upper_ s) ncuts (of_int 0) |}.

(** void clear(): every member but [lower_] is cleared. *)
Definition clear (s : HighsCutSet) : HighsCutSet :=
  {| cutindices := []; ARstart_ := []; ARindex_ := []; ARvalue_ := [];
     lower_ := lower_ s; upper_ := [] |}.

(** bool empty() const *)
Definition empty (s : HighsCutSet) : bool :=
  match cutindices s with [] => true | _ => false end.

End Model.

Arguments HighsCutSet F : clear implicits.

End CutSet.

(** * The specification's statements that the sources do not meet, and
      the inputs used to run the model *)

Module Examples.

Import CutPool.

(** Two cuts: cut 0 is inactive with age 3, cut 1 is in the LP with
    age -4. *)
Definition pool_a : HighsCutPool :=
  {| ages_ := [3; -4]; agelim_ := 5; epochs := 0 |}.

(** What the specification says of [resetAge]: -1 for a cut that was not
    active (age not negative), 0 kept for a cut that was (age negative). *)
Definition resetAge_as_specified (p : HighsCutPool) (cut : Z) : Prop :=
  forall a p', age p cut = Ok a -> resetAge p cut = Ok p' ->
    (0 <= a -> age p' cut = Ok (-1)) /\ (a < 0 -> age p' cut = Ok 0).

(** What the specification says of ageing with limit 5 after [resetAge] on
    a cut that was inactive: the sixth call is the first to report. *)
Definition ageLpCut_as_specified (NDEBUG : bool) (p : HighsCutPool) (cut : Z)
    : Prop :=
  forall a p1, age p cut = Ok a -> 0 <= a -> resetAge p cut = Ok p1 ->
    exists p2,
      ageLpCut_rounds NDEBUG 6 p1 cut 5
        = Ok (p2, [false; false; false; false; false; true])
      /\ age p2 cut = Ok 0.

Import DualRow.

(** A solver with four variables; variable 2 is basic. *)
Definition solver_a : HighsModelObject float :=
  {| update_count := 0;
     dual_feasibility_tolerance := 1e-7%float;
     nonbasicFlag_ := [1; 1; 0; 1];
     nonbasicMove_ := [1; 1; 0; -1];
     workDual_ := [0; 4; 0; -0.5]%float;
     workRange_ := [10; 10; 10; 10]%float;
     workValue_ := [0; 1; 0; 2]%float;
     devex_index_ := [1; 1; 1; 0];
     numTotPermutation_ := [2; 0; 3; 1];
     cost_ := 1%float;
     updated_dual_objective_value := 0%float |}.

(** A packed row of three entries, two of them in column 1. *)
Definition row_a : HDualRow float :=
  {| workHMO := solver_a;
     packCount := 3;
     packIndex := [1; 2; 1; 0];
     packValue := [2; 3; 0.5; 0]%float;
     workDelta := 1%float;
     workAlpha := 0%float;
     workTheta := 0%float;
     workPivot := -1;
     workCount := 0;
     workData := replicate 4 (0, 0%float);
     workGroup := [];
     computed_edge_weight := 0%float;
     alt_workCount := 0;
     original_workData := [];
     sorted_workData := [];
     alt_workGroup := [] |}.

(** What the specification says of [computeDevexWeight]: the squares are
    summed over every entry of the packed row. *)
Definition computeDevexWeight_as_specified (r : HDualRow float) : Prop :=
  forall slice r', computeDevexWeight r slice = Ok r' ->
    computed_edge_weight r' = sum_squares (all_products r).

(** Two columns whose ratios [relax / alpha] are 0.1 / 0.3 and 1 / 3:
    equal as real numbers, one unit in the last place apart in binary64. *)
Definition solver_c : HighsModelObject float :=
  {| update_count := 0;
     dual_feasibility_tolerance := 1e-7%float;
     nonbasicFlag_ := [1; 1];
     nonbasicMove_ := [1; 1];
     workDual_ := [0.0999999; 0.9999999]%float;
     workRange_ := [10; 10]%float;
     workValue_ := [0; 0]%float;
     devex_index_ := [1; 1];
     numTotPermutation_ := [0; 1];
     cost_ := 1%float;
     updated_dual_objective_value := 0%float |}.

Definition row_c : HDualRow float :=
  {| workHMO := solver_c;
     packCount := 2;
     packIndex := [0; 1];
     packValue := [0.3; 3]%float;
     workDelta := 1%float;
     workAlpha := 0%float;
     workTheta := 0%float;
     workPivot := -1;
     workCount := 0;
     workData := replicate 2 (0, 0%float);
     workGroup := [];
     computed_edge_weight := 0%float;
     alt_workCount := 0;
     original_workData := [];
     sorted_workData := [];
     alt_workGroup := [] |}.

(** What the specification says of the bound [choosePossible] leaves in
    [workTheta]: the least of the ratios of the included candidates. *)
Definition choosePossible_as_specified (r : HDualRow float) : Prop :=
  forall r', choosePossible r = Ok r' ->
    workTheta r' = least (ratios (tests r)).

(** [row_a] as [choosePossible] leaves it: two candidates, both of
    column 1. *)
Definition row_a_possible : HDualRow float :=
  Eval vm_compute in
    match choosePossible row_a with Ok r => r | _ => row_a end.

(** A stand-in for [maxheapsort] to run the model with: entries 1 .. n
    of the two arrays ordered by increasing value, by insertion.  The
    proofs hold for every function in its place. *)
Fixpoint insert_by_value (x : float * Z) (l : list (float * Z))
    : list (float * Z) :=
  match l with
  | [] => [x]
  | y :: l' => if PrimFloat.ltb x.1 y.1 then x :: l else y :: insert_by_value x l'
  end.

Definition sort_by_value (heap_v : list float) (heap_i : list Z) (n : Z)
    : list float * list Z :=
  if n <=? 1 then (heap_v, heap_i)
  else
    let k := Z.to_nat n in
    let sorted :=
      foldr insert_by_value []
        (zip (take k (drop 1 heap_v)) (take k (drop 1 heap_i))) in
    (take 1 heap_v ++ sorted.*1 ++ drop (S k) heap_v,
     take 1 heap_i ++ sorted.*2 ++ drop (S k) heap_i).

(** One column, its dual value inside the tolerance on the infeasible
    side: dual * move = -5e-8 with Td = 1e-7. *)
Definition solver_z : HighsModelObject float :=
  {| update_count := 0;
     dual_feasibility_tolerance := 1e-7%float;
     nonbasicFlag_ := [1];
     nonbasicMove_ := [1];
     workDual_ := [-5e-8]%float;
     workRange_ := [10]%float;
     workValue_ := [0]%float;
     devex_index_ := [1];
     numTotPermutation_ := [0];
     cost_ := 1%float;
     updated_dual_objective_value := 0%float |}.

Definition row_z : HDualRow float :=
  {| workHMO := solver_z;
     packCount := 1;
     packIndex := [0];
     packValue := [2]%float;
     workDelta := 1%float;
     workAlpha := 0%float;
     workTheta := 0%float;
     workPivot := -1;
     workCount := 0;
     workData := [(0, 0%float)];
     workGroup := [];
     computed_edge_weight := 0%float;
     alt_workCount := 0;
     original_workData := [];
     sorted_workData := [];
     alt_workGroup := [] |}.

(** [row_z] after [choosePossible], and after [chooseFinal] then. *)
Definition row_z_possible : HDualRow float :=
  Eval vm_compute in
    match choosePossible row_z with Ok r => r | _ => row_z end.

Definition row_z_final : HDualRow float :=
  Eval vm_compute in
    match chooseFinal sort_by_value 2 row_z_possible with
    | Ok (r, _) => r
    | _ => row_z
    end.

(** The same column with the dual value 4. *)
Definition row_p : HDualRow float :=
  set_workHMO row_z (set_workDual_ solver_z [4%float]).

(** What the specification says of the ratio test on a row with one
    candidate, whatever the step: that candidate is selected, that is, the
    ratio test, when it returns, reports no failure and has the column of
    the candidate in [workPivot]. *)
Definition ratio_test_as_specified (r : HDualRow float) : Prop :=
  forall fuel c a r' b,
    candidates r = [(c, a)] ->
    ratio_test sort_by_value fuel r = Ok (r', b) ->
    b = false /\ workPivot r' = c.

(** Four candidates in two groups, entries 0 and 1 .. 3; columns 1 and
    3 share the largest value of the second group, and the permutation
    puts column 1 first. *)
Definition row_g : HDualRow float :=
  {| workHMO := solver_a;
     packCount := 0;
     packIndex := [];
     packValue := [];
     workDelta := 1%float;
     workAlpha := 0%float;
     workTheta := 0%float;
     workPivot := -1;
     workCount := 4;
     workData := [(0, 1%float); (3, 2%float); (2, 0.5%float); (1, 2%float)];
     workGroup := [0; 1; 4];
     computed_edge_weight := 0%float;
     alt_workCount := 0;
     original_workData := [];
     sorted_workData := [];
     alt_workGroup := [] |}.

(** The candidates of [row_g] with the second group in another order. *)
Definition data_g : list (Z * float) :=
  [(0, 1%float); (1, 2%float); (3, 2%float); (2, 0.5%float)].

(** The scenario of two candidates: columns 3 and 7 with values 2 and 1,
    dual values 4 and 0.5, both moving up, Td = 1e-7, ranges 10. *)
Definition solver_s : HighsModelObject float :=
  {| update_count := 0;
     dual_feasibility_tolerance := 1e-7%float;
     nonbasicFlag_ := [1; 1; 1; 1; 1; 1; 1; 1];
     nonbasicMove_ := [1; 1; 1; 1; 1; 1; 1; 1];
     workDual_ := [0; 0; 0; 4; 0; 0; 0; 0.5]%float;
     workRange_ := [10; 10; 10; 10; 10; 10; 10; 10]%float;
     workValue_ := [0; 0; 0; 0; 0; 0; 0; 0]%float;
     devex_index_ := [1; 1; 1; 1; 1; 1; 1; 1];
     numTotPermutation_ := [0; 1; 2; 3; 4; 5; 6; 7];
     cost_ := 1%float;
     updated_dual_objective_value := 0%float |}.

Definition row_s : HDualRow float :=
  {| workHMO := solver_s;
     packCount := 2;
     packIndex := [3; 7];
     packValue := [2; 1]%float;
     workDelta := 1%float;
     workAlpha := 0%float;
     workTheta := 0%float;
     workPivot := -1;
     workCount := 0;
     workData := [(0, 0%float); (0, 0%float)];
     workGroup := [];
     computed_edge_weight := 0%float;
     alt_workCount := 0;
     original_workData := [];
     sorted_workData := [];
     alt_workGroup := [] |}.

(** One column whose relaxed ratio, multiplied back by its value, rounds
    below its dual value: (2e9 + 1e-7) / 1.3 * 1.3 = 1999999999.9999998. *)
Definition row_q : HDualRow float :=
  {| workHMO := set_workDual_ solver_z [2e9%float];
     packCount := 1;
     packIndex := [0];
     packValue := [1.3]%float;
     workDelta := 1%float;
     workAlpha := 0%float;
     workTheta := 0%float;
     workPivot := -1;
     workCount := 0;
     workData := [(0, 0%float)];
     workGroup := [];
     computed_edge_weight := 0%float;
     alt_workCount := 0;
     original_workData := [];
     sorted_workData := [];
     alt_workGroup := [] |}.

(** A row vector with the entries 2 and 0 of its array in use. *)
Definition vec_a : HVector float :=
  {| count := 2; index := [2; 0; 0]; array := [1.5; 0; -2]%float |}.

(** [row_a] in two slices: its first two entries, and its third. *)
Definition row_a1 : HDualRow float :=
  set_pack row_a 2 [1; 2] [2; 3]%float.

Definition row_a2 : HDualRow float :=
  set_pack row_a 1 [1] [0.5]%float.

(** A stand-in for [highs_isInfinity] to run the model with: the test
    [val >= HIGHS_CONST_INF]. *)
Definition is_infinity (val : float) : bool := PrimFloat.leb infinity val.

(** Bounds for the four columns of [solver_a]: column 0 is free,
    column 2 is free and basic. *)
Definition lower_a : list float := [neg_infinity; 0; neg_infinity; neg_infinity]%float.
Definition upper_a : list float := [infinity; infinity; infinity; 1]%float.

(** [row_a] with the free column 0 at direction 0, and the values of
    the columns in a row [row_ep], in the place of [compute_dot]. *)
Definition row_f : HDualRow float :=
  set_workHMO row_a (set_nonbasicMove_ solver_a [0; 1; 0; -1]).

Definition dot_f (iCol : Z) : float :=
  match iCol with 0 => (-0.5)%float | _ => 0%float end.

(** [row_a_possible] after step 1 of [chooseFinal], and after the
    grouping then. *)
Definition row_a_reduced : HDualRow float :=
  Eval vm_compute in
    match reduce_large_step 3 row_a_possible with
    | Ok r => r
    | _ => row_a_possible
    end.

Definition row_a_grouped : HDualRow float :=
  Eval vm_compute in
    match chooseFinalWorkGroupQuad 6 row_a_reduced with
    | Ok (r, _) => r
    | _ => row_a_reduced
    end.

(** Two columns; the dual value of column 0 is infeasible beyond the
    tolerance, [dual * move + Td = -1e-7], and its value is 10: the bound
    [choosePossible] leaves is -1e-8. *)
Definition solver_n : HighsModelObject float :=
  {| update_count := 0;
     dual_feasibility_tolerance := 1e-7%float;
     nonbasicFlag_ := [1; 1];
     nonbasicMove_ := [1; 1];
     workDual_ := [-2e-7; 4]%float;
     workRange_ := [1; 10]%float;
     workValue_ := [0; 0]%float;
     devex_index_ := [1; 1];
     numTotPermutation_ := [0; 1];
     cost_ := 1%float;
     updated_dual_objective_value := 0%float |}.

Definition row_n : HDualRow float :=
  {| workHMO := solver_n;
     packCount := 2;
     packIndex := [0; 1];
     packValue := [10; 1]%float;
     workDelta := 100%float;
     workAlpha := 0%float;
     workTheta := 0%float;
     workPivot := -1;
     workCount := 0;
     workData := replicate 2 (0, 0%float);
     workGroup := [];
     computed_edge_weight := 0%float;
     alt_workCount := 0;
     original_workData := [];
     sorted_workData := [];
     alt_workGroup := [] |}.

Definition row_n_possible : HDualRow float :=
  Eval vm_compute in
    match choosePossible row_n with Ok r => r | _ => row_n end.

(** [row_q] after [choosePossible], and after [chooseFinal], which
    reports the failure of the grouping. *)
Definition row_q_possible : HDualRow float :=
  Eval vm_compute in
    match choosePossible row_q with Ok r => r | _ => row_q end.

Definition row_q_failed : HDualRow float :=
  Eval vm_compute in
    match chooseFinal sort_by_value 6 row_q_possible with
    | Ok (r, _) => r
    | _ => row_q
    end.

(** [row_q_possible] after step 1 of [chooseFinal]: the row as the
    grouping is called on it. *)
Definition row_q_reduced : HDualRow float :=
  Eval vm_compute in
    match reduce_large_step 1 row_q_possible with
    | Ok r => r
    | _ => row_q_possible
    end.

(** What the specification says of a pass of the grouping loop that is
    followed by another pass: it has admitted a candidate or changed
    [selectTheta]. *)
Definition chooseFinalWorkGroupQuad_as_specified (r : HDualRow float) : Prop :=
  forall k q q',
    quad_before r k = Some q -> quad_before r (S k) = Some q' ->
    q_workCount q < q_workCount q'
    \/ (q_selectTheta q =? q_selectTheta q')%F = false.

(** The row [row_s] with a required change of 100, which the first
    group does not reach: after [choosePossible], and after
    [chooseFinal], which chooses column 3 and flips column 7. *)
Definition row_t : HDualRow float :=
  {| workHMO := solver_s;
     packCount := 2;
     packIndex := [3; 7];
     packValue := [2; 1]%float;
     workDelta := 100%float;
     workAlpha := 0%float;
     workTheta := 0%float;
     workPivot := -1;
     workCount := 0;
     workData := [(0, 0%float); (0, 0%float)];
     workGroup := [];
     computed_edge_weight := 0%float;
     alt_workCount := 0;
     original_workData := [];
     sorted_workData := [];
     alt_workGroup := [] |}.

Definition row_t_possible : HDualRow float :=
  Eval vm_compute in
    match choosePossible row_t with Ok r => r | _ => row_t end.

Definition row_t_final : HDualRow float :=
  Eval vm_compute in
    match chooseFinal sort_by_value 6 row_t_possible with
    | Ok (r, _) => r
    | _ => row_t
    end.

(** [row_t_possible] after step 1, the grouping and the heap grouping of
    [chooseFinal]: both candidates are admitted, in the groups [0 .. 0]
    and [1 .. 1], and [workData] has no entry beyond them. *)
Definition row_t_heaped : HDualRow float :=
  Eval vm_compute in
    match reduce_large_step 6 row_t_possible with
    | Ok r2 =>
        match chooseFinalWorkGroupQuad 6 r2 with
        | Ok (r3, _) =>
            match chooseFinalWorkGroupHeap sort_by_value r3 with
            | Ok r4 => r4
            | _ => row_t
            end
        | _ => row_t
        end
    | _ => row_t
    end.

(** [row_a_grouped] after the heap grouping. *)
Definition row_a_heaped : HDualRow float :=
  Eval vm_compute in
    match chooseFinalWorkGroupHeap sort_by_value row_a_grouped with
    | Ok r => r
    | _ => row_a_grouped
    end.

(** [row_a] with an empty packed row, after [choosePossible]: no
    candidate, and an infinite bound. *)
Definition row_e : HDualRow float :=
  Eval vm_compute in
    match choosePossible (clear row_a) with Ok r => r | _ => row_a end.

End Examples.

(** * Proofs *)

(** ** Arrays *)

Lemma at_Ok_inv {T : Type} (a : list T) (i : Z) (x : T) :
  at_ a i = Ok x <-> 0 <= i /\ a !! Z.to_nat i = Some x.
Proof.
  unfold at_. destruct (Z.ltb_spec i 0).
  - split; [discriminate | lia].
  - destruct (a !! Z.to_nat i) eqn:E; split.
    + intros [= ->]. auto.
    + intros [_ [= ->]]. reflexivity.
    + discriminate.
    + intros [_ [=]].
Qed.

Lemma at_in_range {T : Type} (a : list T) (i : Z) :
  0 <= i < Z.of_nat (length a) -> exists x, at_ a i = Ok x.
Proof.
  intros Hi. destruct (lookup_lt_is_Some_2 a (Z.to_nat i)) as [x Hx]; [lia |].
  exists x. apply at_Ok_inv. split; [lia | exact Hx].
Qed.

Lemma at_Ok_range {T : Type} (a : list T) (i : Z) (x : T) :
  at_ a i = Ok x -> 0 <= i < Z.of_nat (length a).
Proof.
  intros [H0 H]%at_Ok_inv. apply lookup_lt_Some in H. lia.
Qed.

Lemma put_Ok_inv {T : Type} (a b : list T) (i : Z) (x : T) :
  put a i x = Ok b <->
  0 <= i < Z.of_nat (length a) /\ b = <[Z.to_nat i := x]> a.
Proof.
  unfold put.
  destruct (Z.leb_spec 0 i), (Z.ltb_spec i (Z.of_nat (length a))); simpl;
    split; try discriminate; try lia.
  - intros [= <-]. auto.
  - intros [_ ->]. reflexivity.
Qed.

Lemma put_in_range {T : Type} (a : list T) (i : Z) (x : T) :
  0 <= i < Z.of_nat (length a) -> put a i x = Ok (<[Z.to_nat i := x]> a).
Proof. intros Hi. apply put_Ok_inv. auto. Qed.

Lemma put_length {T : Type} (a b : list T) (i : Z) (x : T) :
  put a i x = Ok b -> length b = length a.
Proof. intros [_ ->]%put_Ok_inv. apply length_insert. Qed.

Lemma at_put_eq {T : Type} (a b : list T) (i : Z) (x : T) :
  put a i x = Ok b -> at_ b i = Ok x.
Proof.
  intros [Hi ->]%put_Ok_inv. apply at_Ok_inv. split; [lia |].
  apply list_lookup_insert_eq. lia.
Qed.

Lemma at_put_ne {T : Type} (a b : list T) (i j : Z) (x : T) :
  put a i x = Ok b -> i <> j -> at_ b j = at_ a j.
Proof.
  intros [Hi ->]%put_Ok_inv Hne. unfold at_.
  destruct (Z.ltb_spec j 0); [reflexivity |].
  rewrite list_lookup_insert_ne by lia. reflexivity.
Qed.

(** ** The age of a cut *)

Section CutPoolProofs.

Import CutPool.

Lemma to_int16_id (z : Z) : -32768 <= z < 32768 -> to_int16 z = z.
Proof.
  intros Hz. unfold to_int16. rewrite Z.mod_small by lia. lia.
Qed.

(** A call on an age in [-32767, 0]: the age drops by one and the call
    reports whether it fell below [-agelimit], in which case the age is
    set to 0. *)
Lemma ageLpCut_step (nd : bool) (p : HighsCutPool) (cut a agelimit : Z) :
  age p cut = Ok a -> -32768 < a <= 0 -> (nd = true \/ a < 0) ->
  agelimit <> INT_MIN ->
  exists p', ageLpCut nd p cut agelimit = Ok (p', a - 1 <? - agelimit)
    /\ age p' cut = Ok (if a - 1 <? - agelimit then 0 else a - 1).
Proof.
  intros Ha Hlo Hnd Hlim. unfold ageLpCut, age in *. rewrite Ha. simpl.
  pose proof (at_Ok_range _ _ _ Ha) as Hr.
  assert (Hassert : assert nd (a <? 0) = Ok tt).
  { unfold assert. destruct Hnd as [-> | Hneg]; [reflexivity |].
    destruct (Z.ltb_spec a 0); [| lia]. now rewrite orb_true_r. }
  rewrite Hassert. simpl.
  rewrite to_int16_id by lia. rewrite put_in_range by exact Hr. simpl.
  destruct (Z.eqb_spec agelimit INT_MIN); [contradiction |].
  destruct (a - 1 <? - agelimit) eqn:Hlt.
  - rewrite put_in_range by (rewrite length_insert; exact Hr). simpl.
    eexists. split; [reflexivity |]. simpl.
    apply at_Ok_inv. split; [lia |].
    apply list_lookup_insert_eq. rewrite length_insert. lia.
  - eexists. split; [reflexivity |]. simpl.
    apply at_Ok_inv. split; [lia |]. apply list_lookup_insert_eq. lia.
Qed.

(** [n] calls that stay within the limit: none reports, the age has
    dropped by [n]. *)
Lemma ageLpCut_rounds_quiet (nd : bool) (n : nat) :
  forall (p : HighsCutPool) (cut a agelimit : Z),
  age p cut = Ok a -> a <= 0 -> (nd = true \/ a < 0) ->
  - agelimit <= a - Z.of_nat n -> agelimit < 32768 ->
  exists p', ageLpCut_rounds nd n p cut agelimit = Ok (p', replicate n false)
    /\ age p' cut = Ok (a - Z.of_nat n).
Proof.
  induction n as [| n IH]; intros p cut a agelimit Ha Ha0 Hnd Hn Hlim.
  - exists p. simpl. split; [reflexivity |]. rewrite Ha. f_equal. lia.
  - assert (Hmin : agelimit <> INT_MIN) by (unfold INT_MIN; lia).
    destruct (ageLpCut_step nd p cut a agelimit Ha ltac:(lia) Hnd Hmin)
      as (p1 & Hcall & Hage).
    assert (Hlt : (a - 1 <? - agelimit) = false) by (apply Z.ltb_ge; lia).
    rewrite Hlt in Hcall, Hage.
    destruct (IH p1 cut (a - 1) agelimit Hage ltac:(lia) ltac:(right; lia)
                ltac:(lia) Hlim) as (p2 & Hrounds & Hage2).
    exists p2. cbn [ageLpCut_rounds]. rewrite Hcall. cbn [rbind].
    rewrite Hrounds. cbn [rbind replicate]. split; [reflexivity |].
    rewrite Hage2. f_equal. lia.
Qed.

(** The first call that reports: with the age at [- agelimit] the next
    call returns [true] and leaves the age at 0. *)
Lemma ageLpCut_reports (nd : bool) (p : HighsCutPool) (cut agelimit : Z) :
  age p cut = Ok (- agelimit) -> 0 <= agelimit < 32768 ->
  (nd = true \/ 0 < agelimit) ->
  exists p', ageLpCut nd p cut agelimit = Ok (p', true) /\ age p' cut = Ok 0.
Proof.
  intros Ha Hlim Hnd.
  destruct (ageLpCut_step nd p cut (- agelimit) agelimit Ha ltac:(lia)
              ltac:(destruct Hnd; [left; assumption | right; lia])
              ltac:(unfold INT_MIN; lia)) as (p1 & Hcall & Hage).
  assert (Hlt : (- agelimit - 1 <? - agelimit) = true) by (apply Z.ltb_lt; lia).
  rewrite Hlt in Hcall, Hage. eauto.
Qed.

Lemma ageLpCut_rounds_app (nd : bool) (n m : nat) :
  forall (p p1 p2 : HighsCutPool) (cut agelimit : Z) (bs1 bs2 : list bool),
  ageLpCut_rounds nd n p cut agelimit = Ok (p1, bs1) ->
  ageLpCut_rounds nd m p1 cut agelimit = Ok (p2, bs2) ->
  ageLpCut_rounds nd (n + m) p cut agelimit = Ok (p2, bs1 ++ bs2).
Proof.
  induction n as [| n IH]; intros p p1 p2 cut agelimit bs1 bs2 H1 H2.
  - simpl in H1. injection H1 as <- <-. exact H2.
  - cbn [ageLpCut_rounds Nat.add] in *.
    destruct (ageLpCut nd p cut agelimit) as [[q b] | | |]; try discriminate.
    cbn [rbind] in *.
    destruct (ageLpCut_rounds nd n q cut agelimit) as [[q' bs] | | |] eqn:E;
      try discriminate.
    cbn [rbind] in H1. injection H1 as <- <-.
    rewrite (IH q q' p2 cut agelimit bs bs2 E H2). reflexivity.
Qed.

Lemma resetAge_age (p : HighsCutPool) (cut a : Z) :
  age p cut = Ok a ->
  exists p', resetAge p cut = Ok p'
    /\ age p' cut = Ok (if a <? 0 then -1 else 0)
    /\ (forall c, c <> cut -> age p' c = age p c)
    /\ agelim_ p' = agelim_ p /\ epochs p' = epochs p.
Proof.
  intros Ha. unfold resetAge, age in *. rewrite Ha. cbn [rbind].
  pose proof (at_Ok_range _ _ _ Ha) as Hr.
  destruct (a <? 0); rewrite put_in_range by exact Hr; cbn [rbind];
    (eexists; split; [reflexivity |]; cbn [ages_ set_ages agelim_ epochs];
     split; [apply at_Ok_inv; split; [lia | apply list_lookup_insert_eq; lia] |];
     split; [| split; reflexivity];
     intros c Hc; unfold at_; destruct (Z.ltb_spec c 0); [reflexivity |];
     rewrite list_lookup_insert_ne by lia; reflexivity).
Qed.

(** C5, as the sources have it: [resetAge] sets the age of a cut to -1
    when its age is negative (the cut is in the LP, active) and to 0
    otherwise (the cut is inactive, whatever its age was); it changes no
    other cut and nothing else of the pool. *)
Theorem resetAge_by_sign (p : HighsCutPool) (cut a : Z) :
  age p cut = Ok a ->
  exists p', resetAge p cut = Ok p'
    /\ (a < 0 -> age p' cut = Ok (-1))
    /\ (0 <= a -> age p' cut = Ok 0)
    /\ (forall c, c <> cut -> age p' c = age p c)
    /\ agelim_ p' = agelim_ p /\ epochs p' = epochs p.
Proof.
  intros Ha. destruct (resetAge_age p cut a Ha) as (p' & Hr & Hage & Hrest).
  exists p'. split; [exact Hr |].
  split; [| split; [| exact Hrest]]; intros Hs; rewrite Hage.
  - destruct (Z.ltb_spec a 0); [reflexivity | lia].
  - destruct (Z.ltb_spec a 0); [lia | reflexivity].
Qed.

Lemma resetAge_by_sign_witness :
  exists p', resetAge Examples.pool_a 1 = Ok p'
    /\ (-4 < 0 -> age p' 1 = Ok (-1))
    /\ (0 <= -4 -> age p' 1 = Ok 0)
    /\ (forall c, c <> 1 -> age p' c = age Examples.pool_a c)
    /\ agelim_ p' = agelim_ Examples.pool_a
    /\ epochs p' = epochs Examples.pool_a.
Proof. exact (resetAge_by_sign Examples.pool_a 1 (-4) eq_refl). Defined.

(** C5 as the specification words it fails on the inactive cut of age 3:
    its age becomes 0, not -1. *)
Lemma resetAge_not_as_specified :
  ~ Examples.resetAge_as_specified Examples.pool_a 0.
Proof.
  intros H.
  destruct (H 3 (set_ages Examples.pool_a [0; -4]) eq_refl eq_refl) as [H1 _].
  specialize (H1 ltac:(lia)). discriminate H1.
Qed.

(** C4, as the sources have it, for the age limit 5.  After [resetAge]
    on a cut that is active (negative age, what the assertion of
    [ageLpCut] requires) the age is -1 and the fifth call of
    [ageLpCut(cut, 5)] is the first to return [true].  After [resetAge] on
    an inactive cut the age is 0: the first call fails the assertion; in
    a build without assertions the sixth call is the first to return
    [true].  The call that returns [true] leaves the age at 0. *)
Theorem ageLpCut_after_resetAge (p : HighsCutPool) (cut a : Z) :
  age p cut = Ok a ->
  exists p1, resetAge p cut = Ok p1
    /\ (a < 0 -> forall NDEBUG, exists p2,
          ageLpCut_rounds NDEBUG 5 p1 cut 5
            = Ok (p2, [false; false; false; false; true])
          /\ age p2 cut = Ok 0)
    /\ (0 <= a ->
          ageLpCut false p1 cut 5 = AssertFailed
          /\ exists p2,
               ageLpCut_rounds true 6 p1 cut 5
                 = Ok (p2, [false; false; false; false; false; true])
               /\ age p2 cut = Ok 0).
Proof.
  intros Ha. destruct (resetAge_age p cut a Ha) as (p1 & Hr & Hage & _).
  exists p1. split; [exact Hr |]. split.
  - intros Hneg nd. destruct (Z.ltb_spec a 0); [| lia].
    destruct (ageLpCut_rounds_quiet nd 4 p1 cut (-1) 5 Hage ltac:(lia)
                ltac:(right; lia) ltac:(lia) ltac:(lia)) as (q & Hq & Hqa).
    destruct (ageLpCut_reports nd q cut 5 Hqa ltac:(lia) ltac:(right; lia))
      as (p2 & Hcall & Hp2).
    exists p2. split; [| exact Hp2].
    apply (ageLpCut_rounds_app nd 4 1 p1 q p2 cut 5 _ [true] Hq).
    cbn [ageLpCut_rounds]. rewrite Hcall. reflexivity.
  - intros Hpos. destruct (Z.ltb_spec a 0); [lia |]. split.
    + unfold ageLpCut. unfold age in Hage. rewrite Hage. reflexivity.
    + destruct (ageLpCut_rounds_quiet true 5 p1 cut 0 5 Hage ltac:(lia)
                  ltac:(left; reflexivity) ltac:(lia) ltac:(lia))
        as (q & Hq & Hqa).
      destruct (ageLpCut_reports true q cut 5 Hqa ltac:(lia)
                  ltac:(left; reflexivity)) as (p2 & Hcall & Hp2).
      exists p2. split; [| exact Hp2].
      apply (ageLpCut_rounds_app true 5 1 p1 q p2 cut 5 _ [true] Hq).
      cbn [ageLpCut_rounds]. rewrite Hcall. reflexivity.
Qed.

Lemma ageLpCut_after_resetAge_witness :
  exists p1, resetAge Examples.pool_a 0 = Ok p1
    /\ (3 < 0 -> forall NDEBUG, exists p2,
          ageLpCut_rounds NDEBUG 5 p1 0 5
            = Ok (p2, [false; false; false; false; true])
          /\ age p2 0 = Ok 0)
    /\ (0 <= 3 ->
          ageLpCut false p1 0 5 = AssertFailed
          /\ exists p2,
               ageLpCut_rounds true 6 p1 0 5
                 = Ok (p2, [false; false; false; false; false; true])
               /\ age p2 0 = Ok 0).
Proof. exact (ageLpCut_after_resetAge Examples.pool_a 0 3 eq_refl). Defined.

(** C4 as the specification words it fails in a build that checks
    assertions: after [resetAge] on the inactive cut its age is 0 and the
    first call of [ageLpCut] stops at [assert(ages_[cut] < 0)]. *)
Lemma ageLpCut_not_as_specified :
  ~ Examples.ageLpCut_as_specified false Examples.pool_a 0.
Proof.
  intros H.
  destruct (H 3 (set_ages Examples.pool_a [0; -4]) eq_refl ltac:(lia) eq_refl)
    as (p2 & Hrounds & _).
  discriminate Hrounds.
Qed.

End CutPoolProofs.

(** ** Loops *)

Lemma rbind_Ok_inv {A B : Type} (r : result A) (k : A -> result B) (b : B) :
  rbind r k = Ok b -> exists a, r = Ok a /\ k a = Ok b.
Proof. destruct r; simpl; try discriminate. eauto. Qed.

Lemma for_range_app {St : Type} (n m : nat) (lo : Z)
    (body : Z -> St -> result St) (s : St) :
  for_range (n + m) lo body s
  = let* s' := for_range n lo body s in for_range m (lo + Z.of_nat n) body s'.
Proof.
  revert lo s. induction n as [| n IH]; intros lo s.
  - simpl. f_equal. lia.
  - cbn [for_range Nat.add]. destruct (body lo s) as [s1 | | |]; simpl; auto.
    rewrite IH. replace (lo + 1 + Z.of_nat n) with (lo + Z.of_nat (S n)) by lia.
    reflexivity.
Qed.

(** A loop whose body keeps an invariant and comes back runs to its
    end and establishes the invariant there. *)
Lemma for_range_total {St : Type} (P : Z -> St -> Prop) (n : nat) :
  forall (lo : Z) (body : Z -> St -> result St) (s : St),
  P lo s ->
  (forall i s, lo <= i < lo + Z.of_nat n -> P i s ->
     exists s', body i s = Ok s' /\ P (i + 1) s') ->
  exists s', for_range n lo body s = Ok s' /\ P (lo + Z.of_nat n) s'.
Proof.
  induction n as [| n IH]; intros lo body s H0 Hstep.
  - exists s. simpl. replace (lo + Z.of_nat 0) with lo by lia. auto.
  - destruct (Hstep lo s ltac:(lia) H0) as (s1 & Hb & H1).
    destruct (IH (lo + 1) body s1 H1) as (s2 & Hr & H2).
    { intros i t Hi. apply Hstep. lia. }
    exists s2. cbn [for_range]. rewrite Hb. simpl. split; [exact Hr |].
    replace (lo + Z.of_nat (S n)) with (lo + 1 + Z.of_nat n) by lia. exact H2.
Qed.

(** What a loop that came back kept of an invariant its body keeps. *)
Lemma for_range_partial {St : Type} (P : Z -> St -> Prop) (n : nat) :
  forall (lo : Z) (body : Z -> St -> result St) (s s' : St),
  P lo s ->
  (forall i s s', lo <= i < lo + Z.of_nat n -> P i s -> body i s = Ok s' ->
     P (i + 1) s') ->
  for_range n lo body s = Ok s' -> P (lo + Z.of_nat n) s'.
Proof.
  induction n as [| n IH]; intros lo body s s' H0 Hstep Hrun.
  - simpl in Hrun. injection Hrun as <-.
    replace (lo + Z.of_nat 0) with lo by lia. exact H0.
  - cbn [for_range] in Hrun. apply rbind_Ok_inv in Hrun as (s1 & Hb & Hr).
    replace (lo + Z.of_nat (S n)) with (lo + 1 + Z.of_nat n) by lia.
    apply (IH (lo + 1) body s1 s'); [| | exact Hr].
    + apply (Hstep lo s s1); [lia | exact H0 | exact Hb].
    + intros i t t' Hi. apply Hstep. lia.
Qed.

Lemma for_loop_total {St : Type} (P : Z -> St -> Prop) (lo hi : Z)
    (body : Z -> St -> result St) (s : St) :
  lo <= hi -> P lo s ->
  (forall i s, lo <= i < hi -> P i s ->
     exists s', body i s = Ok s' /\ P (i + 1) s') ->
  exists s', for_loop lo hi body s = Ok s' /\ P hi s'.
Proof.
  intros Hle H0 Hstep. unfold for_loop.
  destruct (for_range_total P (Z.to_nat (hi - lo)) lo body s H0) as (s' & Hr & HP).
  { intros i t Hi. apply Hstep. lia. }
  exists s'. split; [exact Hr |].
  replace (lo + Z.of_nat (Z.to_nat (hi - lo))) with hi in HP by lia. exact HP.
Qed.

Lemma for_loop_partial {St : Type} (P : Z -> St -> Prop) (lo hi : Z)
    (body : Z -> St -> result St) (s s' : St) :
  lo <= hi -> P lo s ->
  (forall i s s', lo <= i < hi -> P i s -> body i s = Ok s' -> P (i + 1) s') ->
  for_loop lo hi body s = Ok s' -> P hi s'.
Proof.
  intros Hle H0 Hstep Hrun. unfold for_loop in Hrun.
  assert (HP : P (lo + Z.of_nat (Z.to_nat (hi - lo))) s').
  { apply (for_range_partial P _ lo body s s' H0); [| exact Hrun].
    intros i t t' Hi. apply Hstep. lia. }
  replace (lo + Z.of_nat (Z.to_nat (hi - lo))) with hi in HP by lia. exact HP.
Qed.

Lemma for_loop_empty {St : Type} (lo hi : Z) (body : Z -> St -> result St) (s : St) :
  hi <= lo -> for_loop lo hi body s = Ok s.
Proof.
  intros H. unfold for_loop. replace (Z.to_nat (hi - lo)) with O by lia.
  reflexivity.
Qed.

Lemma at_cases {T : Type} (a : list T) (i : Z) :
  at_ a i = Undef \/ exists x, at_ a i = Ok x.
Proof.
  unfold at_. destruct (i <? 0); [left; reflexivity |].
  destruct (a !! Z.to_nat i); eauto.
Qed.

(** A loop whose passes either leave the arrays or keep [P] either leaves
    the arrays or ends with [P]. *)
Lemma for_range_Undef_or {St : Type} (P : Z -> St -> Prop)
    (body : Z -> St -> result St) (n : nat) :
  forall (lo : Z) (s : St),
  (forall i s, lo <= i < lo + Z.of_nat n -> P i s ->
     body i s = Undef \/ exists s', body i s = Ok s' /\ P (i + 1) s') ->
  P lo s ->
  for_range n lo body s = Undef
  \/ exists s', for_range n lo body s = Ok s' /\ P (lo + Z.of_nat n) s'.
Proof.
  induction n as [| n IH]; intros lo s Hstep H0.
  - right. exists s. rewrite Z.add_0_r. auto.
  - cbn [for_range].
    destruct (Hstep lo s ltac:(lia) H0) as [-> | (s' & -> & HP)];
      [left; reflexivity |]. cbn [rbind].
    destruct (IH (lo + 1) s') as [-> | (s'' & -> & HP')];
      [intros i s0 Hi; apply Hstep; lia | exact HP | left; reflexivity |].
    right. exists s''. split; [reflexivity |].
    replace (lo + Z.of_nat (S n)) with (lo + 1 + Z.of_nat n) by lia.
    exact HP'.
Qed.

(** ** The packed row *)

Section PackedRowProofs.

Context {F : Type} {A : Arith F}.

Import DualRow.

Lemma packed_row_entry (r : HDualRow F) (i : Z) :
  packCount r <= Z.of_nat (length (packIndex r)) ->
  packCount r <= Z.of_nat (length (packValue r)) ->
  0 <= i < packCount r ->
  exists c v, at_ (packIndex r) i = Ok c /\ at_ (packValue r) i = Ok v
    /\ zip (packIndex r) (packValue r) !! Z.to_nat i = Some (c, v)
    /\ (c, v) ∈ packed_row r.
Proof.
  intros Hi Hv Hr.
  destruct (at_in_range (packIndex r) i ltac:(lia)) as [c Hc].
  destruct (at_in_range (packValue r) i ltac:(lia)) as [v Hvv].
  exists c, v. split; [exact Hc |]. split; [exact Hvv |].
  apply at_Ok_inv in Hc as [_ Hc]. apply at_Ok_inv in Hvv as [_ Hvv].
  assert (Hz : zip (packIndex r) (packValue r) !! Z.to_nat i = Some (c, v)).
  { rewrite lookup_zip_with, Hc. simpl. rewrite Hvv. reflexivity. }
  split; [exact Hz |].
  unfold packed_row. apply elem_of_take. exists (Z.to_nat i).
  split; [exact Hz | lia].
Qed.

Lemma values_at_snoc (c : Z) (row : list (Z * F)) (e : Z * F) :
  values_at c (row ++ [e])
  = values_at c row ++ (if decide (e.1 = c) then [e.2] else []).
Proof.
  unfold values_at. rewrite filter_app, fmap_app. f_equal.
  rewrite filter_cons, filter_nil. destruct (decide (e.1 = c)); reflexivity.
Qed.

Lemma values_at_absent (c : Z) (row : list (Z * F)) :
  (forall e, e ∈ row -> e.1 <> c) -> values_at c row = [].
Proof.
  intros H. unfold values_at. induction row as [| e row IH]; [reflexivity |].
  rewrite filter_cons. destruct (decide (e.1 = c)) as [He | He].
  - exfalso. apply (H e); [left | exact He].
  - apply IH. intros e' He'. apply H. right. exact He'.
Qed.

Lemma decremented_snoc (theta : F) (vs : list F) (v d : F) :
  decremented theta (vs ++ [v]) d = (decremented theta vs d - theta * v)%F.
Proof. unfold decremented. rewrite fold_left_app. reflexivity. Qed.

(** The loop of [updateDual], by the invariant that each dual value
    has lost [theta] times the packed values met so far in its column. *)
Lemma updateDual_loop (r : HDualRow F) (theta : F) :
  packed_in_range r ->
  exists dual change,
    for_loop 0 (packCount r) (updateDual_body r theta) (workDual r, of_int 0)
      = Ok (dual, change)
    /\ length dual = length (workDual r)
    /\ forall c d, at_ (workDual r) c = Ok d ->
         at_ dual c = Ok (decremented theta (values_at c (packed_row r)) d).
Proof.
  intros (Hidx & Hval & Hrange).
  destruct (Z.le_gt_cases 0 (packCount r)) as [Hn | Hn].
  2:{ exists (workDual r), (of_int 0). rewrite for_loop_empty by lia.
      split; [reflexivity |]. split; [reflexivity |]. intros c d Hd.
      unfold packed_row. replace (Z.to_nat (packCount r)) with O by lia.
      exact Hd. }
  pose (P := fun (i : Z) (s : list F * F) =>
    length s.1 = length (workDual r)
    /\ forall c d, at_ (workDual r) c = Ok d ->
         at_ s.1 c
         = Ok (decremented theta
                 (values_at c (take (Z.to_nat i)
                                 (zip (packIndex r) (packValue r)))) d)).
  destruct (for_loop_total P 0 (packCount r) (updateDual_body r theta)
              (workDual r, of_int 0) Hn) as ([dual change] & Hrun & Hlen & Hval').
  - split; [reflexivity |]. intros c d Hd. exact Hd.
  - intros i [dual change] Hi [Hlen Hinv]. simpl in Hlen, Hinv.
    destruct (packed_row_entry r i Hidx Hval Hi) as (c & v & Hc & Hv & Hz & Hin).
    destruct (Hrange _ Hin) as (Hd & _ & Hwv & Hnf & _). simpl in Hd, Hwv, Hnf.
    destruct (at_in_range dual c ltac:(lia)) as [d Hdc].
    destruct (at_in_range (workValue_ (workHMO r)) c ltac:(lia)) as [lv Hlv].
    destruct (at_in_range (nonbasicFlag_ (workHMO r)) c ltac:(lia)) as [fl Hfl].
    unfold updateDual_body. rewrite Hc. cbn [rbind]. rewrite Hv. cbn [rbind].
    rewrite Hdc. cbn [rbind]. rewrite put_in_range by lia. cbn [rbind].
    rewrite Hlv. cbn [rbind]. rewrite Hfl. cbn [rbind].
    eexists. split; [reflexivity |]. split; simpl.
    + rewrite length_insert. exact Hlen.
    + intros c' d0 Hd0.
      replace (Z.to_nat (i + 1)) with (S (Z.to_nat i)) by lia.
      rewrite (take_S_r _ _ _ Hz), values_at_snoc. simpl.
      destruct (decide (c = c')) as [<- | Hne].
      * rewrite decremented_snoc. apply at_Ok_inv. split; [lia |].
        rewrite list_lookup_insert_eq by lia. rewrite (Hinv c d0 Hd0) in Hdc.
        injection Hdc as <-. reflexivity.
      * rewrite app_nil_r. rewrite <- (Hinv c' d0 Hd0). unfold at_.
        destruct (Z.ltb_spec c' 0); [reflexivity |].
        rewrite list_lookup_insert_ne by lia. reflexivity.
  - exists dual, change. split; [exact Hrun |]. split; [exact Hlen |].
    exact Hval'.
Qed.

End PackedRowProofs.

Section UpdateProofs.

Context {F : Type} {A : Arith F}.

Import DualRow.

(** C9: [updateDual(theta)] takes [theta] times the packed value from
    the dual value of the column of each packed entry, once per entry of
    the column and in the order of the row, and leaves the dual value of
    every column without an entry as it was.  The call returns whenever
    the packed indices lie within the arrays. *)
Theorem updateDual_decrements (r : HDualRow F) (theta : F) :
  packed_in_range r ->
  exists r', updateDual r theta = Ok r'
    /\ (forall c d, at_ (workDual r) c = Ok d ->
          at_ (workDual r') c
          = Ok (decremented theta (values_at c (packed_row r)) d))
    /\ (forall c, (forall e, e ∈ packed_row r -> e.1 <> c) ->
          at_ (workDual r') c = at_ (workDual r) c).
Proof.
  intros Hok. destruct (updateDual_loop r theta Hok) as (dual & ch & Hrun & Hlen & Hval).
  unfold updateDual. rewrite Hrun. cbn [rbind].
  eexists. split; [reflexivity |]. cbn. split; [exact Hval |].
  intros c Habs. destruct (at_ (workDual r) c) as [d | | |] eqn:Hd.
  - rewrite (Hval c d Hd), (values_at_absent c _ Habs). reflexivity.
  - unfold at_ in *. destruct (Z.ltb_spec c 0); [reflexivity |].
    destruct (workDual r !! Z.to_nat c) eqn:E; [discriminate |].
    apply lookup_ge_None in E.
    rewrite (proj2 (lookup_ge_None dual (Z.to_nat c))) by lia. reflexivity.
  - unfold at_ in Hd. destruct (c <? 0); [discriminate |].
    destruct (workDual r !! Z.to_nat c); discriminate.
  - unfold at_ in Hd. destruct (c <? 0); [discriminate |].
    destruct (workDual r !! Z.to_nat c); discriminate.
Qed.

Lemma sum_squares_snoc (ps : list F) (pv : F) :
  sum_squares (ps ++ [pv]) = add_square (sum_squares ps) pv.
Proof. unfold sum_squares. rewrite fold_left_app. reflexivity. Qed.

(** C10, as the sources have it: [computeDevexWeight] sets
    [computed_edge_weight] to the sum of the squares of (devex reference
    weight x packed value) over the entries of the packed row whose
    variable is nonbasic (entries of basic variables are skipped), and
    changes nothing else.  The call returns whenever the packed indices
    lie within the arrays. *)
Theorem computeDevexWeight_nonbasic (r : HDualRow F) (slice : Z) :
  packed_in_range r ->
  computeDevexWeight r slice
  = Ok (set_computed_edge_weight r (sum_squares (nonbasic_products r))).
Proof.
  intros (Hidx & Hval & Hrange). unfold computeDevexWeight.
  destruct (Z.le_gt_cases 0 (packCount r)) as [Hn | Hn].
  2:{ rewrite for_loop_empty by lia. cbn [rbind]. do 2 f_equal.
      unfold nonbasic_products, packed_row.
      replace (Z.to_nat (packCount r)) with O by lia. reflexivity. }
  pose (P := fun (i : Z) (w : F) =>
    w = sum_squares (omap (product_of r true)
                       (take (Z.to_nat i) (zip (packIndex r) (packValue r))))).
  destruct (for_loop_total P 0 (packCount r) (devex_body r) (of_int 0) Hn)
    as (w & Hrun & Hw).
  - reflexivity.
  - intros i w Hi Hw. unfold P in Hw. subst w.
    destruct (packed_row_entry r i Hidx Hval Hi) as (c & v & Hc & Hv & Hz & Hin).
    destruct (Hrange _ Hin) as (Hd & _ & _ & Hnf & Hdx). simpl in Hd, Hnf, Hdx.
    destruct (at_in_range (nonbasicFlag_ (workHMO r)) c ltac:(lia)) as [fl Hfl].
    destruct (at_in_range (work_devex_index r) c ltac:(lia)) as [dx Hdxv].
    unfold P. replace (Z.to_nat (i + 1)) with (S (Z.to_nat i)) by lia.
    assert (Hp : product_of r true (c, v)
                 = if fl =? 0 then None else Some (of_int dx * v)%F).
    { unfold product_of. cbn [fst snd]. rewrite Hfl, Hdxv. reflexivity. }
    rewrite (take_S_r _ _ _ Hz), omap_app.
    change (omap (product_of r true) [(c, v)])
      with (match product_of r true (c, v) with Some y => [y] | None => [] end).
    rewrite Hp.
    unfold devex_body. rewrite Hc. cbn [rbind]. rewrite Hfl. cbn [rbind].
    destruct (fl =? 0).
    + eexists. split; [reflexivity |]. rewrite app_nil_r. reflexivity.
    + rewrite Hdxv. cbn [rbind]. rewrite Hv. cbn [rbind].
      rewrite sum_squares_snoc. unfold add_square.
      destruct (of_int dx * v =? of_int 0)%F; cbn [negb];
        (eexists; split; reflexivity).
  - rewrite Hrun. cbn [rbind]. unfold P in Hw. rewrite Hw. reflexivity.
Qed.

End UpdateProofs.

Lemma row_a_in_range : DualRow.packed_in_range Examples.row_a.
Proof.
  split; [simpl; lia |]. split; [simpl; lia |].
  intros e He. apply list_elem_of_In in He. simpl in He.
  destruct He as [<- | [<- | [<- | []]]]; simpl; lia.
Defined.

Lemma updateDual_decrements_witness :
  exists r', DualRow.updateDual Examples.row_a 0.25%float = Ok r'
    /\ (forall c d, at_ (DualRow.workDual Examples.row_a) c = Ok d ->
          at_ (DualRow.workDual r') c
          = Ok (DualRow.decremented 0.25%float
                  (DualRow.values_at c (DualRow.packed_row Examples.row_a)) d))
    /\ (forall c, (forall e, e ∈ DualRow.packed_row Examples.row_a -> e.1 <> c) ->
          at_ (DualRow.workDual r') c = at_ (DualRow.workDual Examples.row_a) c).
Proof. exact (updateDual_decrements Examples.row_a 0.25%float row_a_in_range). Defined.

Lemma computeDevexWeight_nonbasic_witness :
  DualRow.computeDevexWeight Examples.row_a 0
  = Ok (DualRow.set_computed_edge_weight Examples.row_a
          (DualRow.sum_squares (DualRow.nonbasic_products Examples.row_a))).
Proof. exact (computeDevexWeight_nonbasic Examples.row_a 0 row_a_in_range). Defined.

(** C10 as the specification words it fails on a row with an entry of a
    basic variable: the entry (2, 3.0) of [row_a] is skipped, and the
    weight is 4.25 where the sum over all entries is 13.25. *)
Lemma computeDevexWeight_not_as_specified :
  ~ Examples.computeDevexWeight_as_specified Examples.row_a.
Proof.
  intros H. specialize (H 0 _ eq_refl).
  apply (f_equal (fun x => PrimFloat.eqb x 4.25%float)) in H.
  vm_compute in H. discriminate H.
Qed.

(** ** The order of binary64 numbers *)

Lemma SFcompare_rank (f g : spec_float) :
  SFcompare f g
  = match rank f, rank g with
    | Some a, Some b => Some (lex3 a b)
    | _, _ => None
    end.
Proof.
  destruct f as [s | s | | s m e], g as [s' | s' | | s' m' e'];
    try reflexivity; try (destruct s; reflexivity);
    try (destruct s'; reflexivity); try (destruct s, s'; reflexivity).
  destruct s, s'; try reflexivity; unfold SFcompare, rank, lex3;
    cbn [fst snd]; f_equal.
  change (-1 ?= -1) with Eq. cbv iota.
  rewrite Z.compare_opp, (Z.compare_antisym e e').
  destruct (e ?= e'); reflexivity.
Qed.

Lemma lex3_refl (a : Z * Z * Z) : lex3 a a = Eq.
Proof. unfold lex3. now rewrite !Z.compare_refl. Qed.

Lemma lex3_Eq (a b : Z * Z * Z) : lex3 a b = Eq -> a = b.
Proof.
  destruct a as [[a1 a2] a3], b as [[b1 b2] b3]. unfold lex3. cbn [fst snd].
  destruct (Z.compare_spec a1 b1); try discriminate.
  destruct (Z.compare_spec a2 b2); try discriminate.
  destruct (Z.compare_spec a3 b3); try discriminate. intros _. congruence.
Qed.

Lemma lex3_antisym (a b : Z * Z * Z) : lex3 b a = CompOpp (lex3 a b).
Proof.
  destruct a as [[a1 a2] a3], b as [[b1 b2] b3]. unfold lex3. cbn [fst snd].
  rewrite (Z.compare_antisym a1 b1), (Z.compare_antisym a2 b2),
    (Z.compare_antisym a3 b3).
  destruct (a1 ?= b1), (a2 ?= b2), (a3 ?= b3); reflexivity.
Qed.

Lemma lex3_Lt_trans (a b c : Z * Z * Z) :
  lex3 a b = Lt -> lex3 b c = Lt -> lex3 a c = Lt.
Proof.
  destruct a as [[a1 a2] a3], b as [[b1 b2] b3], c as [[c1 c2] c3].
  unfold lex3. cbn [fst snd].
  destruct (Z.compare_spec a1 b1), (Z.compare_spec b1 c1),
    (Z.compare_spec a1 c1); try discriminate; try lia; try reflexivity;
  destruct (Z.compare_spec a2 b2), (Z.compare_spec b2 c2),
    (Z.compare_spec a2 c2); try discriminate; try lia; try reflexivity;
  destruct (Z.compare_spec a3 b3), (Z.compare_spec b3 c3),
    (Z.compare_spec a3 c3); try discriminate; try lia; reflexivity.
Qed.

(** Apart from the two zeros, a rank is the rank of one number. *)
Lemma rank_inj (f g : spec_float) (a : Z * Z * Z) :
  rank f = Some a -> rank g = Some a -> a <> (0, 0, 0) -> f = g.
Proof.
  destruct f as [s | s | | s m e], g as [s' | s' | | s' m' e']; simpl;
    try discriminate; intros [= <-]; try congruence;
    try (destruct s, s'; congruence);
    try (destruct s; discriminate); try (destruct s'; discriminate).
  destruct s, s'; intros [= H1 H2]; try discriminate; intros _.
  - f_equal; [congruence | lia].
  - f_equal; [congruence | lia].
Qed.

Lemma binary64_flt (x y : float) :
  (x <? y)%F
  = match rank (Prim2SF x), rank (Prim2SF y) with
    | Some a, Some b => match lex3 a b with Lt => true | _ => false end
    | _, _ => false
    end.
Proof.
  change (x <? y)%F with (PrimFloat.ltb x y).
  rewrite ltb_spec. unfold SFltb. rewrite SFcompare_rank.
  destruct (rank (Prim2SF x)), (rank (Prim2SF y)); reflexivity.
Qed.

Lemma binary64_feq (x y : float) :
  (x =? y)%F
  = match rank (Prim2SF x), rank (Prim2SF y) with
    | Some a, Some b => match lex3 a b with Eq => true | _ => false end
    | _, _ => false
    end.
Proof.
  change (x =? y)%F with (PrimFloat.eqb x y).
  rewrite FloatAxioms.eqb_spec. unfold SFeqb. rewrite SFcompare_rank.
  destruct (rank (Prim2SF x)), (rank (Prim2SF y)); reflexivity.
Qed.

Lemma binary64_fle (x y : float) :
  (x <=? y)%F
  = match rank (Prim2SF x), rank (Prim2SF y) with
    | Some a, Some b => match lex3 a b with Gt => false | _ => true end
    | _, _ => false
    end.
Proof.
  change (x <=? y)%F with (PrimFloat.leb x y).
  rewrite leb_spec. unfold SFleb. rewrite SFcompare_rank.
  destruct (rank (Prim2SF x)), (rank (Prim2SF y)); reflexivity.
Qed.

#[export] Instance binary64_order : ArithOrder float binary64.
Proof.
  split.
  - intros x. rewrite binary64_flt. destruct (rank (Prim2SF x)); [| reflexivity].
    now rewrite lex3_refl.
  - intros x y z. rewrite !binary64_flt.
    destruct (rank (Prim2SF x)) as [a |], (rank (Prim2SF y)) as [b |],
      (rank (Prim2SF z)) as [c |]; try discriminate.
    destruct (lex3 a b) eqn:Hab; try discriminate.
    destruct (lex3 b c) eqn:Hbc; try discriminate.
    now rewrite (lex3_Lt_trans a b c Hab Hbc).
  - intros x y. rewrite !binary64_feq.
    destruct (rank (Prim2SF x)) as [a |], (rank (Prim2SF y)) as [b |];
      try reflexivity.
    rewrite (lex3_antisym a b). destruct (lex3 a b); reflexivity.
  - intros x y z. rewrite !binary64_feq.
    destruct (rank (Prim2SF x)) as [a |], (rank (Prim2SF y)) as [b |],
      (rank (Prim2SF z)) as [c |]; try discriminate.
    destruct (lex3 a b) eqn:Hab; try discriminate.
    apply lex3_Eq in Hab as ->. auto.
  - intros x y z. rewrite binary64_feq, !binary64_flt.
    destruct (rank (Prim2SF x)) as [a |], (rank (Prim2SF y)) as [b |];
      try discriminate.
    destruct (lex3 a b) eqn:Hab; try discriminate.
    apply lex3_Eq in Hab as ->. reflexivity.
  - intros x y z. rewrite binary64_feq, !binary64_flt.
    destruct (rank (Prim2SF x)) as [a |], (rank (Prim2SF y)) as [b |];
      try discriminate.
    destruct (lex3 a b) eqn:Hab; try discriminate.
    apply lex3_Eq in Hab as ->. reflexivity.
  - intros x y. rewrite binary64_flt, !binary64_feq.
    destruct (rank (Prim2SF x)) as [a |], (rank (Prim2SF y)) as [b |];
      try discriminate.
    now rewrite !lex3_refl.
  - intros x y. rewrite !binary64_feq, !binary64_flt.
    destruct (rank (Prim2SF x)) as [a |], (rank (Prim2SF y)) as [b |];
      try discriminate.
    rewrite (lex3_antisym a b). destruct (lex3 a b); simpl; congruence.
  - intros x y. rewrite binary64_flt, binary64_feq.
    destruct (rank (Prim2SF x)) as [a |], (rank (Prim2SF y)) as [b |];
      try discriminate.
    destruct (lex3 a b); congruence.
  - intros x y. rewrite binary64_fle, binary64_flt, binary64_feq.
    destruct (rank (Prim2SF x)) as [a |], (rank (Prim2SF y)) as [b |];
      try reflexivity.
    destruct (lex3 a b); reflexivity.
  - intros x y. rewrite binary64_flt, binary64_feq.
    change (Prim2SF (of_int 0)) with (S754_zero false). cbn [rank].
    destruct (rank (Prim2SF x)) as [a |] eqn:Hx; try discriminate.
    destruct (rank (Prim2SF y)) as [b |] eqn:Hy; try discriminate.
    destruct (lex3 (0, 0, 0) a) eqn:H0; try discriminate. intros _.
    destruct (lex3 a b) eqn:Hab; try discriminate. intros _.
    apply lex3_Eq in Hab as <-. apply Prim2SF_inj.
    apply (rank_inj _ _ a Hx Hy). intros ->. discriminate H0.
  - reflexivity.
Qed.

(** ** choosePossible *)

Section ChoosePossibleProofs.

Context {F : Type} {A : Arith F}.

Import DualRow.

Lemma omap_snoc {X Y : Type} (f : X -> option Y) (l : list X) (x : X) :
  omap f (l ++ [x]) = omap f l ++ match f x with Some y => [y] | None => [] end.
Proof. rewrite omap_app. reflexivity. Qed.

Lemma length_omap_le {X Y : Type} (f : X -> option Y) (l : list X) :
  (length (omap f l) <= length l)%nat.
Proof.
  induction l as [| x l IH]; [reflexivity |].
  change (omap f (x :: l))
    with (match f x with Some y => y :: omap f l | None => omap f l end).
  destruct (f x); cbn [length]; lia.
Qed.

Lemma take_put_snoc {T : Type} (a : list T) (n : nat) (x : T) :
  (n < length a)%nat -> take (S n) (<[n := x]> a) = take n a ++ [x].
Proof.
  intros Hn. rewrite (take_S_r _ _ x) by (apply list_lookup_insert_eq; exact Hn).
  rewrite take_insert_ge by lia. reflexivity.
Qed.

(** The loop of [choosePossible], by the invariant that the first
    [count] entries of [workData] are the candidates of the entries met
    so far, and [theta] their running bound. *)
Lemma choosePossible_loop (r : HDualRow F) :
  packed_in_range r -> packCount r <= Z.of_nat (length (workData r)) ->
  exists data,
    for_loop 0 (packCount r)
      (choosePossible_body r (Ta_of (update_count (workHMO r)))
         (dual_feasibility_tolerance (workHMO r)) (sourceOut_of (workDelta r)))
      (0, workData r, HIGHS_CONST_INF)
    = Ok (Z.of_nat (length (candidates r)), data, running_bound (tests r))
    /\ take (length (candidates r)) data = candidates r
    /\ length data = length (workData r).
Proof.
  intros (Hidx & Hval & Hrange) Hdata.
  destruct (Z.le_gt_cases 0 (packCount r)) as [Hn | Hn].
  2:{ exists (workData r). rewrite for_loop_empty by lia.
      unfold tests, candidates, packed_row.
      replace (Z.to_nat (packCount r)) with O by lia. simpl. auto. }
  pose (cs := fun i : Z =>
    omap (candidate_of r) (take (Z.to_nat i) (zip (packIndex r) (packValue r)))).
  pose (P := fun (i : Z) (s : Z * list (Z * F) * F) =>
    s.1.1 = Z.of_nat (length (cs i))
    /\ take (length (cs i)) s.1.2 = cs i
    /\ length s.1.2 = length (workData r)
    /\ s.2 = running_bound (omap (test_of r) (cs i))).
  destruct (for_loop_total P 0 (packCount r)
              (choosePossible_body r (Ta_of (update_count (workHMO r)))
                 (dual_feasibility_tolerance (workHMO r))
                 (sourceOut_of (workDelta r)))
              (0, workData r, HIGHS_CONST_INF) Hn)
    as ([[count data] theta] & Hrun & Hc & Ht & Hl & Hb).
  - unfold P, cs. simpl. auto.
  - intros i [[count data] theta] Hi (Hc & Ht & Hl & Hb). simpl in Hc, Ht, Hl, Hb.
    destruct (packed_row_entry r i Hidx Hval Hi) as (c & v & Hic & Hiv & Hz & Hin).
    destruct (Hrange _ Hin) as (Hd & Hm & _). simpl in Hd, Hm.
    destruct (at_in_range (workMove r) c ltac:(lia)) as [move Hmove].
    destruct (at_in_range (workDual r) c ltac:(lia)) as [dual Hdual].
    assert (Hlen : (length (cs i) <= Z.to_nat i)%nat).
    { unfold cs. etransitivity; [apply length_omap_le |].
      rewrite length_take. lia. }
    assert (Hcs : cs (i + 1)
                  = cs i ++ match candidate_of r (c, v) with
                            | Some y => [y] | None => [] end).
    { unfold cs. replace (Z.to_nat (i + 1)) with (S (Z.to_nat i)) by lia.
      rewrite (take_S_r _ _ _ Hz). apply omap_snoc. }
    unfold choosePossible_body. rewrite Hic. cbn [rbind]. rewrite Hmove.
    cbn [rbind]. rewrite Hiv. cbn [rbind].
    unfold P. rewrite Hcs. unfold candidate_of. cbn [fst snd]. rewrite Hmove.
    destruct (Ta_of (update_count (workHMO r))
              <? v * of_int (sourceOut_of (workDelta r)) * of_int move)%F.
    + rewrite put_in_range by lia. cbn [rbind]. rewrite Hdual. cbn [rbind].
      eexists. split; [reflexivity |]. cbn [fst snd].
      rewrite length_app, omap_snoc. cbn [length].
      split; [lia |]. split; [| split].
      * subst count. rewrite Nat2Z.id.
        replace (length (cs i) + 1)%nat with (S (length (cs i))) by lia.
        rewrite take_put_snoc by lia. rewrite Ht. reflexivity.
      * rewrite length_insert. exact Hl.
      * unfold test_of at 2. cbn [fst snd]. rewrite Hdual, Hmove.
        unfold running_bound. rewrite fold_left_app. cbn [fold_left].
        fold (running_bound (omap (test_of r) (cs i))). rewrite <- Hb.
        reflexivity.
    + eexists. split; [reflexivity |]. cbn [fst snd].
      rewrite app_nil_r. auto.
  - exists data. unfold P, cs in Hc, Ht, Hl, Hb. simpl in Hc, Ht, Hl, Hb.
    fold (packed_row r) in Hc, Ht, Hb. fold (candidates r) in Hc, Ht, Hb.
    fold (tests r) in Hb. rewrite Hrun, Hc, Hb. auto.
Qed.

Context {O : ArithOrder F A}.

(** When the two forms of the test agree the running bound is the
    fold of [fmin] over the ratios. *)
Lemma running_bound_least (ts : list (F * F)) :
  tests_agree ts -> running_bound ts = least (ratios ts).
Proof.
  intros Hag. unfold running_bound, least.
  assert (Hgen : forall (pre post : list (F * F)) (theta : F),
    ts = pre ++ post -> theta ∈ HIGHS_CONST_INF :: ratios ts ->
    fold_left lower_bound post theta = fold_left fmin (ratios post) theta).
  { intros pre post. revert pre. induction post as [| t post IH];
      intros pre theta Hts Hin; [reflexivity |].
    cbn [fold_left ratios map].
    assert (Ht : t ∈ ts) by (rewrite Hts; apply elem_of_app; right; left).
    assert (Hstep : lower_bound theta t = fmin theta (t.1 / t.2)%F).
    { unfold lower_bound, fmin. rewrite (Hag t theta Ht Hin). reflexivity. }
    rewrite Hstep. apply (IH (pre ++ [t])).
    - rewrite <- app_assoc. exact Hts.
    - unfold fmin. destruct (t.1 / t.2 <? theta)%F; [| exact Hin].
      right. unfold ratios. apply list_elem_of_fmap. exists t. auto. }
  apply (Hgen [] ts); [reflexivity | left].
Qed.

(** No ratio is below the least of them. *)
Lemma least_lower (qs : list F) :
  Forall (fun q => (q <? least qs)%F = false) qs.
Proof.
  unfold least.
  assert (Hgen : forall (post pre : list F) (acc : F),
    Forall (fun q => (q <? acc)%F = false) pre ->
    Forall (fun q => (q <? fold_left fmin post acc)%F = false) (pre ++ post)).
  { induction post as [| q post IH]; intros pre acc Hpre.
    - rewrite app_nil_r. exact Hpre.
    - cbn [fold_left].
      replace (pre ++ q :: post) with ((pre ++ [q]) ++ post)
        by (rewrite <- app_assoc; reflexivity).
      apply IH. apply Forall_app. unfold fmin.
      destruct (q <? acc)%F eqn:Hq.
      + split.
        * eapply Forall_impl; [exact Hpre |]. intros p Hp. simpl in Hp.
          destruct (p <? q)%F eqn:Hpq; [| reflexivity].
          rewrite (flt_trans p q acc Hpq Hq) in Hp. discriminate.
        * constructor; [apply flt_irrefl | constructor].
      + split; [exact Hpre |]. constructor; [exact Hq | constructor]. }
  apply (Hgen qs [] HIGHS_CONST_INF). constructor.
Qed.

Lemma tests_complete (r : HDualRow F) :
  packed_in_range r -> length (tests r) = length (candidates r).
Proof.
  intros (_ & _ & Hrange). unfold tests, candidates.
  assert (Hin : forall c, c ∈ omap (candidate_of r) (packed_row r) ->
                  exists t, test_of r c = Some t).
  { intros c Hc. apply list_elem_of_omap in Hc as (e & He & Hce).
    destruct (Hrange e He) as (Hd & Hm & _).
    unfold candidate_of in Hce.
    destruct (at_ (workMove r) e.1) as [move | | |] eqn:Hmove; try discriminate.
    destruct (_ <? _)%F; [| discriminate]. injection Hce as <-.
    destruct (at_in_range (workDual r) e.1 ltac:(lia)) as [dual Hdual].
    unfold test_of. cbn [fst snd]. rewrite Hdual, Hmove. eauto. }
  induction (omap (candidate_of r) (packed_row r)) as [| c cs IH];
    [reflexivity |].
  destruct (Hin c ltac:(left)) as [t Ht].
  change (omap (test_of r) (c :: cs))
    with (match test_of r c with
          | Some y => y :: omap (test_of r) cs
          | None => omap (test_of r) cs
          end).
  rewrite Ht. cbn [length]. f_equal. apply IH.
  intros c' Hc'. apply Hin. right. exact Hc'.
Qed.

(** C6, as the sources have it.  [choosePossible] takes as candidates
    exactly the packed entries whose [alpha = packValue * sourceOut * move]
    is above [Ta], in the order of the row, [Ta] being 1e-9 below 10
    updates, 3e-8 from 10 to 19 and 1e-6 from 20 on.  [workTheta] is the
    running bound: infinite at first, set to [relax / alpha] by each
    candidate for which [workTheta * alpha > relax], where
    [relax = dual * move + Td]; it stays infinite without candidates.
    Where this product test agrees with comparing the ratio itself, as it
    does in exact arithmetic, the bound is the least of the ratios and no
    ratio is below it. *)
Theorem choosePossible_candidates (r : HDualRow F) :
  packed_in_range r -> packCount r <= Z.of_nat (length (workData r)) ->
  exists r', choosePossible r = Ok r'
    /\ workCount r' = Z.of_nat (length (candidates r))
    /\ take (length (candidates r)) (workData r') = candidates r
    /\ length (tests r) = length (candidates r)
    /\ workTheta r' = running_bound (tests r)
    /\ (candidates r = [] -> workTheta r' = HIGHS_CONST_INF)
    /\ (tests_agree (tests r) ->
          workTheta r' = least (ratios (tests r))
          /\ Forall (fun q => (q <? workTheta r')%F = false) (ratios (tests r)))
    /\ (update_count (workHMO r) < 10 ->
          Ta_of (update_count (workHMO r)) = lit_1e_9)
    /\ (10 <= update_count (workHMO r) < 20 ->
          Ta_of (update_count (workHMO r)) = lit_3e_8)
    /\ (20 <= update_count (workHMO r) ->
          Ta_of (update_count (workHMO r)) = lit_1e_6).
Proof.
  intros Hok Hdata.
  destruct (choosePossible_loop r Hok Hdata) as (data & Hrun & Htake & Hlen).
  unfold choosePossible. rewrite Hrun. cbn [rbind].
  eexists. split; [reflexivity |]. cbn.
  split; [reflexivity |]. split; [exact Htake |].
  split; [exact (tests_complete r Hok) |]. split; [reflexivity |].
  split; [| split; [| split; [| split]]].
  - intros Hnil. unfold tests. rewrite Hnil. reflexivity.
  - intros Hag. rewrite (running_bound_least _ Hag).
    split; [reflexivity | apply least_lower].
  - intros H. unfold Ta_of. destruct (Z.ltb_spec (update_count (workHMO r)) 10);
      [reflexivity | lia].
  - intros H. unfold Ta_of.
    destruct (Z.ltb_spec (update_count (workHMO r)) 10); [lia |].
    destruct (Z.ltb_spec (update_count (workHMO r)) 20); [reflexivity | lia].
  - intros H. unfold Ta_of.
    destruct (Z.ltb_spec (update_count (workHMO r)) 10); [lia |].
    destruct (Z.ltb_spec (update_count (workHMO r)) 20); [lia | reflexivity].
Qed.

End ChoosePossibleProofs.

Lemma row_a_tests_agree :
  DualRow.tests_agree (DualRow.tests Examples.row_a).
Proof.
  intros t theta Ht Hth.
  apply list_elem_of_In in Ht. apply list_elem_of_In in Hth.
  vm_compute in Ht, Hth.
  destruct Ht as [<- | [<- | []]];
    destruct Hth as [<- | [<- | [<- | []]]]; vm_compute; reflexivity.
Defined.

Lemma choosePossible_candidates_witness :
  exists r', DualRow.choosePossible Examples.row_a = Ok r'
    /\ DualRow.workCount r' = 2
    /\ take 2 (DualRow.workData r') = [(1, 2%float); (1, 0.5%float)]
    /\ DualRow.workTheta r'
       = DualRow.least (DualRow.ratios (DualRow.tests Examples.row_a)).
Proof.
  destruct (choosePossible_candidates Examples.row_a row_a_in_range
              ltac:(simpl; lia))
    as (r' & Hrun & Hcount & Htake & _ & _ & _ & Hleast & _).
  exists r'. split; [exact Hrun |]. split; [exact Hcount |].
  split; [exact Htake |]. exact (proj1 (Hleast row_a_tests_agree)).
Defined.

(** C6 as the specification words it fails in binary64 on the two
    columns of [row_c]: the first ratio 0.0999999 + 1e-7 over 0.3 is
    0.33333333333333337, the second 0.9999999 + 1e-7 over 3 is
    0.3333333333333333 and is the least; the product of the first by 3
    rounds to 1, which is not above the second [relax], and [workTheta]
    stays at the first. *)
Lemma choosePossible_not_as_specified :
  ~ Examples.choosePossible_as_specified Examples.row_c.
Proof.
  intros H. specialize (H _ eq_refl).
  apply (f_equal (fun x => PrimFloat.eqb x 0.33333333333333337%float)) in H.
  vm_compute in H. discriminate H.
Qed.

(** ** chooseFinalWorkGroupQuad *)

Section QuadProofs.

Context {F : Type} {A : Arith F}.

Import DualRow.

Lemma swap_cases {T : Type} (a : list T) (i j : Z) :
  swap a i j = Undef \/ exists a', swap a i j = Ok a'.
Proof.
  unfold swap.
  destruct (at_cases a i) as [-> | [x ->]]; [left; reflexivity |].
  cbn [rbind].
  destruct (at_cases a j) as [-> | [y ->]]; [left; reflexivity |].
  cbn [rbind]. unfold put.
  destruct (_ && _); [| left; reflexivity]. cbn [rbind].
  destruct (_ && _); [| left; reflexivity]. eauto.
Qed.

(** A pass of the inner loop returns or reads outside an array. *)
Lemma quad_body_cases (r : HDualRow F) (Td sel : F) (i : Z)
    (s : Z * list (Z * F) * F * F) :
  quad_body r Td sel i s = Undef \/ exists s', quad_body r Td sel i s = Ok s'.
Proof.
  destruct s as [[[count data] tc] rem]. unfold quad_body.
  destruct (at_cases data i) as [-> | [[iCol value] ->]];
    [left; reflexivity |]. cbn [rbind].
  destruct (at_cases (workMove r) iCol) as [-> | [move ->]];
    [left; reflexivity |]. cbn [rbind].
  destruct (at_cases (workDual r) iCol) as [-> | [d ->]];
    [left; reflexivity |]. cbn [rbind].
  destruct (_ <=? _)%F.
  - destruct (swap_cases data count i) as [-> | [data1 ->]];
      [left; reflexivity |]. cbn [rbind].
    destruct (at_cases (workRange r) iCol) as [-> | [rg ->]];
      [left; reflexivity |]. cbn [rbind]. eauto.
  - destruct (_ <? _)%F; eauto.
Qed.

(** An entry is admitted, or everything but [remainTheta] stays. *)
Lemma quad_body_Ok_inv (r : HDualRow F) (Td sel : F) (i count count' : Z)
    (data data' : list (Z * F)) (tc tc' rem rem' : F) :
  quad_body r Td sel i (count, data, tc, rem) = Ok (count', data', tc', rem') ->
  count' = count + 1
  \/ (count' = count /\ data' = data /\ tc' = tc
      /\ remain_body r Td data i rem = Ok rem').
Proof.
  unfold quad_body, remain_body. intros H.
  apply rbind_Ok_inv in H as ([iCol value] & -> & H). cbn [rbind].
  apply rbind_Ok_inv in H as (move & -> & H). cbn [rbind].
  apply rbind_Ok_inv in H as (d & -> & H). cbn [rbind].
  destruct (of_int move * d <=? sel * value)%F.
  - apply rbind_Ok_inv in H as (data1 & _ & H).
    apply rbind_Ok_inv in H as (rg & _ & H). injection H as <- _ _ _. auto.
  - right. destruct (of_int move * d + Td <? rem * value)%F;
      injection H as <- <- <- <-; auto.
Qed.

(** The count of admitted entries does not drop in a scan, and grows by
    at most the number of entries scanned. *)
Lemma quad_scan_count (r : HDualRow F) (Td sel : F) (n : nat) :
  forall (lo count count' : Z) (data data' : list (Z * F)) (tc tc' rem rem' : F),
  for_range n lo (quad_body r Td sel) (count, data, tc, rem)
    = Ok (count', data', tc', rem') ->
  count <= count' <= count + Z.of_nat n.
Proof.
  induction n as [| n IH]; intros lo count count' data data' tc tc' rem rem' H.
  - injection H as <- _ _ _. lia.
  - cbn [for_range] in H.
    apply rbind_Ok_inv in H as ([[[c1 d1] t1] r1] & Hb & H).
    apply IH in H. apply quad_body_Ok_inv in Hb as [-> | (-> & _)]; lia.
Qed.

(** A scan that admits nothing leaves the entries and the total as they
    were, and its [remainTheta] does not depend on [selectTheta]. *)
Lemma quad_scan_stay (r : HDualRow F) (Td sel : F) (n : nat) :
  forall (lo count : Z) (data data' : list (Z * F)) (tc tc' rem rem' : F),
  for_range n lo (quad_body r Td sel) (count, data, tc, rem)
    = Ok (count, data', tc', rem') ->
  data' = data /\ tc' = tc
  /\ for_range n lo (remain_body r Td data) rem = Ok rem'.
Proof.
  induction n as [| n IH]; intros lo count data data' tc tc' rem rem' H.
  - injection H as <- <- <-. auto.
  - cbn [for_range] in H.
    apply rbind_Ok_inv in H as ([[[c1 d1] t1] r1] & Hb & H).
    pose proof H as Hc. apply quad_scan_count in Hc.
    apply quad_body_Ok_inv in Hb as [-> | (-> & -> & -> & Hr)]; [lia |].
    apply IH in H as (-> & -> & H). cbn [for_range]. rewrite Hr. auto.
Qed.

(** A pass of the [while] loop returns, goes on, or reads outside an
    array. *)
Lemma quad_step_cases (r : HDualRow F) (Td : F) (fullCount : Z)
    (totalDelta : F) (q : quad_state F) :
  quad_step r Td fullCount totalDelta q = Undef
  \/ exists p, quad_step r Td fullCount totalDelta q = Ok p.
Proof.
  unfold quad_step. destruct (negb _); [right; eauto |]. unfold for_loop.
  destruct (for_range_Undef_or (fun _ _ => True)
              (quad_body r Td (q_selectTheta q))
              (Z.to_nat (fullCount - q_workCount q)) (q_workCount q)
              (q_workCount q, q_workData q, q_totalChange q, lit_1e100))
    as [-> | ([[[count data] tc] rem] & -> & _)];
    [| exact I | left; reflexivity |].
  - intros i s _ _. destruct (quad_body_cases r Td (q_selectTheta q) i s)
      as [-> | [s' ->]]; eauto.
  - cbn [rbind]. destruct (_ && _); [eauto |]. destruct (_ || _); eauto.
Qed.

(** A pass after which the loop goes on: it admitted an entry, or one of
    the three compared values changed; and if it admitted nothing it
    leaves a settled state. *)
Lemma quad_step_next (r : HDualRow F) (Td : F) (fullCount : Z)
    (totalDelta : F) (q q' : quad_state F) :
  quad_step r Td fullCount totalDelta q = Ok (QuadNext q') ->
  ((q_workCount q' = q_workCount q /\ settled r Td fullCount q')
   \/ q_workCount q < q_workCount q' < fullCount)
  /\ (q_workCount q' <> q_prev_workCount q
      \/ (q_prev_selectTheta q =? q_selectTheta q')%F = false
      \/ (q_prev_remainTheta q =? q_prev_remainTheta q')%F = false).
Proof.
  unfold quad_step. destruct (negb _); [discriminate |]. intros H.
  apply rbind_Ok_inv in H as ([[[count data] tc] rem] & Hscan & H).
  destruct ((count =? q_prev_workCount q)
            && (q_prev_selectTheta q =? rem)%F
            && (q_prev_remainTheta q =? rem)%F) eqn:Hstag; [discriminate |].
  destruct ((totalDelta <=? tc)%F || (count =? fullCount)) eqn:Hend;
    [discriminate |].
  injection H as <-. cbn [q_workCount q_selectTheta q_prev_remainTheta].
  apply orb_false_elim in Hend as [_ Hfull]. apply Z.eqb_neq in Hfull.
  unfold for_loop in Hscan. pose proof Hscan as Hcount.
  apply quad_scan_count in Hcount. split.
  - destruct (Z.eq_dec count (q_workCount q)) as [-> | Hne].
    + left. split; [reflexivity |].
      apply quad_scan_stay in Hscan as (-> & -> & Hrem).
      unfold settled, remain_scan, for_loop. cbn. auto.
    + right. lia.
  - apply andb_false_elim in Hstag as [Hstag | Hstag]; [| auto].
    apply andb_false_elim in Hstag as [Hstag | Hstag]; [| auto].
    left. apply Z.eqb_neq. exact Hstag.
Qed.

(** The state a pass leaves for the next records its own [workCount] and
    [selectTheta], and the [remainTheta] of the pass, which is the new
    [selectTheta]. *)
Lemma quad_step_next_prev (r : HDualRow F) (Td : F) (fullCount : Z)
    (totalDelta : F) (q q' : quad_state F) :
  quad_step r Td fullCount totalDelta q = Ok (QuadNext q') ->
  q_prev_workCount q' = q_workCount q'
  /\ q_prev_selectTheta q' = q_selectTheta q'
  /\ q_prev_remainTheta q' = q_selectTheta q'.
Proof.
  unfold quad_step. destruct (negb _); [discriminate |]. intros H.
  apply rbind_Ok_inv in H as ([[[count data] tc] rem] & _ & H).
  destruct (_ && _); [discriminate |]. destruct (_ || _); [discriminate |].
  injection H as <-. cbn. auto.
Qed.

(** A pass that returns: the loop test failed, or the scan came back and
    the result is [false] exactly if the three compared values are
    unchanged. *)
Lemma quad_step_return (r : HDualRow F) (Td : F) (fullCount : Z)
    (totalDelta : F) (q : quad_state F) (count : Z) (data : list (Z * F))
    (group : list Z) (ok : bool) :
  quad_step r Td fullCount totalDelta q = Ok (QuadReturn count data group ok) ->
  ((q_selectTheta q <? lit_1e18)%F = false
   /\ count = q_workCount q /\ data = q_workData q /\ group = q_workGroup q
   /\ ok = true)
  \/ exists tc rem,
       (q_selectTheta q <? lit_1e18)%F = true
       /\ for_loop (q_workCount q) fullCount (quad_body r Td (q_selectTheta q))
            (q_workCount q, q_workData q, q_totalChange q, lit_1e100)
          = Ok (count, data, tc, rem)
       /\ group = q_workGroup q ++ [count]
       /\ ok = negb ((count =? q_prev_workCount q)
                     && (q_prev_selectTheta q =? rem)%F
                     && (q_prev_remainTheta q =? rem)%F)
       /\ (ok = true -> (totalDelta <=? tc)%F || (count =? fullCount) = true).
Proof.
  unfold quad_step. destruct (q_selectTheta q <? lit_1e18)%F; cbn [negb].
  2:{ intros [= <- <- <- <-]. left. auto. }
  intros H. right.
  apply rbind_Ok_inv in H as ([[[count1 data1] tc] rem] & Hscan & H).
  exists tc, rem.
  destruct ((count1 =? q_prev_workCount q)
            && (q_prev_selectTheta q =? rem)%F
            && (q_prev_remainTheta q =? rem)%F) eqn:Hstag.
  - injection H as <- <- <- <-. rewrite Hstag.
    repeat (split; [first [reflexivity | assumption] |]). discriminate.
  - destruct ((totalDelta <=? tc)%F || (count1 =? fullCount)) eqn:Hend;
      [| discriminate].
    injection H as <- <- <- <-. rewrite Hstag.
    repeat (split; [first [reflexivity | assumption] |]). intros _. exact Hend.
Qed.

(** The passes that went on, one more at the end. *)
Lemma quad_state_after_S (r : HDualRow F) (Td : F) (fullCount : Z)
    (totalDelta : F) (k : nat) :
  forall q q'' : quad_state F,
  quad_state_after (S k) r Td fullCount totalDelta q = Some q'' <->
  exists q', quad_state_after k r Td fullCount totalDelta q = Some q'
             /\ quad_step r Td fullCount totalDelta q' = Ok (QuadNext q'').
Proof.
  induction k as [| k IH]; intros q q''.
  - cbn [quad_state_after]. split.
    + destruct (quad_step r Td fullCount totalDelta q) as [[c d g b | q1] | | |]
        eqn:E; try (intros H; discriminate H).
      intros [= ->]. exists q. auto.
    + intros (q' & [= <-] & ->). reflexivity.
  - change (quad_state_after (S (S k)) r Td fullCount totalDelta q)
      with (match quad_step r Td fullCount totalDelta q with
            | Ok (QuadNext q1) =>
                quad_state_after (S k) r Td fullCount totalDelta q1
            | _ => None
            end).
    change (quad_state_after (S k) r Td fullCount totalDelta q)
      with (match quad_step r Td fullCount totalDelta q with
            | Ok (QuadNext q1) => quad_state_after k r Td fullCount totalDelta q1
            | _ => None
            end).
    destruct (quad_step r Td fullCount totalDelta q) as [[c d g b | q1] | | |];
      try (split; [discriminate | intros (q' & H & _); discriminate H]).
    apply IH.
Qed.

(** Every state the loop reaches records the current [workCount] and
    [selectTheta] as the previous ones. *)
Lemma quad_state_after_prev (r : HDualRow F) (Td : F) (fullCount : Z)
    (totalDelta : F) (k : nat) :
  forall q qk : quad_state F,
  q_prev_workCount q = q_workCount q ->
  q_prev_selectTheta q = q_selectTheta q ->
  quad_state_after k r Td fullCount totalDelta q = Some qk ->
  q_prev_workCount qk = q_workCount qk
  /\ q_prev_selectTheta qk = q_selectTheta qk.
Proof.
  induction k as [| k IH]; intros q qk Hc Hs H.
  - injection H as <-. auto.
  - cbn [quad_state_after] in H.
    destruct (quad_step r Td fullCount totalDelta q) as [[c d g b | q1] | | |]
      eqn:Hstep; try discriminate.
    destruct (quad_step_next_prev _ _ _ _ _ _ Hstep) as (Hc1 & Hs1 & _).
    exact (IH q1 qk Hc1 Hs1 H).
Qed.

Context {O : ArithOrder F A}.

(** From a settled state the next pass admits an entry or returns. *)
Lemma quad_step_settled (r : HDualRow F) (Td : F) (fullCount : Z)
    (totalDelta : F) (q q' : quad_state F) :
  settled r Td fullCount q ->
  quad_step r Td fullCount totalDelta q = Ok (QuadNext q') ->
  q_workCount q < q_workCount q' < fullCount.
Proof.
  intros (Hpc & Hps & Hpr & Hrem) Hstep.
  destruct (quad_step_next _ _ _ _ _ _ Hstep) as [[[Heq _] | Hlt] _];
    [| exact Hlt].
  exfalso. unfold quad_step in Hstep.
  destruct (q_selectTheta q <? lit_1e18)%F eqn:Hsel; [| discriminate].
  cbn [negb] in Hstep.
  apply rbind_Ok_inv in Hstep as ([[[count data] tc] rem] & Hscan & H).
  assert (Hcount : count = q_workCount q).
  { destruct (_ && _) in H; [discriminate |].
    destruct (_ || _) in H; [discriminate |].
    injection H as <-. exact Heq. }
  subst count. unfold for_loop in Hscan.
  apply quad_scan_stay in Hscan as (_ & _ & Hrem').
  unfold remain_scan, for_loop in Hrem. rewrite Hrem in Hrem'.
  injection Hrem' as <-.
  destruct (flt_ordered _ _ Hsel) as [Hrefl _].
  rewrite Hpc, Hps, Hpr, Z.eqb_refl, Hrefl in H. discriminate H.
Qed.

(** The loop ends within twice the number of entries left, plus one
    pass, and one pass less from a settled state: some number [n] of
    passes go on, and the pass after them returns or reads outside an
    array, and the loop with it. *)
Lemma quad_loop_run (r : HDualRow F) (Td : F) (fullCount : Z)
    (totalDelta : F) (m : nat) :
  forall (q : quad_state F) (fuel : nat),
  (settled r Td fullCount q
   /\ (2 * Z.to_nat (fullCount - q_workCount q) <= m)%nat)
  \/ (2 * Z.to_nat (fullCount - q_workCount q) + 1 <= m)%nat ->
  (m < fuel)%nat ->
  exists (n : nat) (q' : quad_state F),
    (n <= m)%nat
    /\ quad_state_after n r Td fullCount totalDelta q = Some q'
    /\ ((quad_step r Td fullCount totalDelta q' = Undef
         /\ quad_loop fuel r Td fullCount totalDelta q = Undef)
        \/ exists count data group ok,
             quad_step r Td fullCount totalDelta q'
             = Ok (QuadReturn count data group ok)
             /\ quad_loop fuel r Td fullCount totalDelta q
                = Ok (count, data, group, ok)).
Proof.
  induction m as [| m IH]; intros q fuel Hq Hfuel;
    (destruct fuel as [| fuel]; [lia |]); cbn [quad_loop];
    destruct (quad_step_cases r Td fullCount totalDelta q)
      as [Hs | [[c d g b | q1] Hs]].
  - exists 0%nat, q. split; [lia |]. split; [reflexivity |].
    left. rewrite Hs. auto.
  - exists 0%nat, q. split; [lia |]. split; [reflexivity |].
    right. exists c, d, g, b. rewrite Hs. auto.
  - exfalso. destruct Hq as [[Hset Hd] | Hd]; [| lia].
    pose proof (quad_step_settled _ _ _ _ _ _ Hset Hs). lia.
  - exists 0%nat, q. split; [lia |]. split; [reflexivity |].
    left. rewrite Hs. auto.
  - exists 0%nat, q. split; [lia |]. split; [reflexivity |].
    right. exists c, d, g, b. rewrite Hs. auto.
  - rewrite Hs. cbn [rbind].
    destruct (IH q1 fuel) as (n & q' & Hn & Hafter & Hout); [| lia |].
    + destruct Hq as [[Hset Hd] | Hd].
      * pose proof (quad_step_settled _ _ _ _ _ _ Hset Hs). right. lia.
      * destruct (quad_step_next _ _ _ _ _ _ Hs) as [[[Heq Hset] | Hlt] _].
        -- left. split; [exact Hset |]. rewrite Heq. lia.
        -- right. lia.
    + exists (S n), q'. split; [lia |]. split; [| exact Hout].
      cbn [quad_state_after]. rewrite Hs. exact Hafter.
Qed.

(** Two passes in a row that both go on do not both admit nothing. *)
Lemma quad_two_passes (r : HDualRow F) (Td : F) (fullCount : Z)
    (totalDelta : F) (q q' q'' : quad_state F) :
  quad_step r Td fullCount totalDelta q = Ok (QuadNext q') ->
  quad_step r Td fullCount totalDelta q' = Ok (QuadNext q'') ->
  q_workCount q < q_workCount q' \/ q_workCount q' < q_workCount q''.
Proof.
  intros H1 H2.
  destruct (quad_step_next _ _ _ _ _ _ H1) as [[[_ Hset] | Hlt] _];
    [| left; lia].
  right. pose proof (quad_step_settled _ _ _ _ _ _ Hset H2). lia.
Qed.

End QuadProofs.

(** C2, as the sources have it.  [chooseFinalWorkGroupQuad] ends for
    every input: with a budget of twice the number of candidates plus two
    passes, some number [n] of passes of its loop go on to a next pass and
    pass [n + 1] ends the call.

    - A pass after which the loop goes on has admitted a candidate, or
      left a [selectTheta] that differs from the one it began with, or
      found a [remainTheta] (the new [selectTheta]) that differs from the
      [remainTheta] of the pass before, which is 1e100 before the first
      pass.  Of two such passes in a row one admits a candidate.
    - The last pass reads outside an array (undefined behaviour), or
      finds [selectTheta] not below 1e18 and the function returns [true]
      with the groups made so far, or scans the candidates left and the
      function returns [false] exactly if [workCount], [selectTheta] and
      [remainTheta] are all equal to the values recorded before the pass,
      and [true] otherwise, the required change being reached or
      all candidates admitted. *)
Theorem chooseFinalWorkGroupQuad_terminates
    {F : Type} {A : Arith F} {O : ArithOrder F A}
    (r : DualRow.HDualRow F) (fuel : nat) :
  (2 * Z.to_nat (DualRow.workCount r) + 2 <= fuel)%nat ->
  exists (n : nat) (q : DualRow.quad_state F),
    (n <= 2 * Z.to_nat (DualRow.workCount r) + 1)%nat
    /\ DualRow.quad_before r n = Some q
    /\ (forall k qk qk',
          DualRow.quad_before r k = Some qk ->
          DualRow.quad_before r (S k) = Some qk' ->
          DualRow.q_workCount qk < DualRow.q_workCount qk'
          \/ (DualRow.q_selectTheta qk =? DualRow.q_selectTheta qk')%F = false
          \/ (DualRow.q_prev_remainTheta qk =? DualRow.q_selectTheta qk')%F
             = false)
    /\ (forall k qk qk' qk'',
          DualRow.quad_before r k = Some qk ->
          DualRow.quad_before r (S k) = Some qk' ->
          DualRow.quad_before r (S (S k)) = Some qk'' ->
          DualRow.q_workCount qk < DualRow.q_workCount qk'
          \/ DualRow.q_workCount qk' < DualRow.q_workCount qk'')
    /\ (DualRow.chooseFinalWorkGroupQuad fuel r = Undef
        \/ ((DualRow.q_selectTheta q <? lit_1e18)%F = false
            /\ DualRow.chooseFinalWorkGroupQuad fuel r
               = Ok (DualRow.set_workGroup
                       (DualRow.set_work r (DualRow.q_workCount q)
                          (DualRow.q_workData q))
                       (DualRow.q_workGroup q), true))
        \/ exists count data totalChange remainTheta,
             (DualRow.q_selectTheta q <? lit_1e18)%F = true
             /\ DualRow.quad_scan r q
                = Ok (count, data, totalChange, remainTheta)
             /\ DualRow.chooseFinalWorkGroupQuad fuel r
                = Ok (DualRow.set_workGroup (DualRow.set_work r count data)
                        (DualRow.q_workGroup q ++ [count]),
                      negb (DualRow.quad_unchanged q count remainTheta))
             /\ (DualRow.quad_unchanged q count remainTheta = false ->
                 (fabs (DualRow.workDelta r) <=? totalChange)%F
                 || (count =? DualRow.workCount r) = true)).
Proof.
  intros Hfuel.
  set (Td := DualRow.dual_feasibility_tolerance (DualRow.workHMO r)).
  set (fullCount := DualRow.workCount r).
  set (totalDelta := fabs (DualRow.workDelta r)).
  destruct (quad_loop_run r Td fullCount totalDelta
              (2 * Z.to_nat fullCount + 1) (DualRow.quad_init r) fuel)
    as (n & q & Hn & Hafter & Hout).
  { right. cbn [DualRow.quad_init DualRow.q_workCount].
    rewrite Z.sub_0_r. lia. }
  { subst fullCount. lia. }
  assert (Hprev : forall k qk, DualRow.quad_before r k = Some qk ->
            DualRow.q_prev_workCount qk = DualRow.q_workCount qk
            /\ DualRow.q_prev_selectTheta qk = DualRow.q_selectTheta qk).
  { intros k qk Hk.
    exact (quad_state_after_prev r Td fullCount totalDelta k
             (DualRow.quad_init r) qk eq_refl eq_refl Hk). }
  exists n, q. split; [exact Hn |]. split; [exact Hafter |].
  split; [| split].
  - intros k qk qk' Hk Hk'.
    apply (quad_state_after_S r Td fullCount totalDelta k) in Hk'
      as (q0 & Hq0 & Hstep).
    unfold DualRow.quad_before in Hk. fold Td fullCount totalDelta in Hk.
    rewrite Hk in Hq0. injection Hq0 as <-.
    destruct (Hprev k qk Hk) as [Hpc Hps].
    destruct (quad_step_next_prev _ _ _ _ _ _ Hstep) as (_ & _ & Hpr).
    destruct (quad_step_next _ _ _ _ _ _ Hstep) as [Hcount Hchg].
    rewrite Hpc, Hps, Hpr in Hchg.
    destruct Hchg as [Hne | [Hsel | Hrem]]; [| auto | auto].
    left. destruct Hcount as [[Heq _] | Hlt]; [congruence | lia].
  - intros k qk qk' qk'' Hk Hk' Hk''.
    apply (quad_state_after_S r Td fullCount totalDelta (S k)) in Hk''
      as (q1 & Hq1 & Hstep2).
    unfold DualRow.quad_before in Hk'. fold Td fullCount totalDelta in Hk'.
    rewrite Hk' in Hq1. injection Hq1 as <-.
    apply (quad_state_after_S r Td fullCount totalDelta k) in Hk'
      as (q0 & Hq0 & Hstep1).
    unfold DualRow.quad_before in Hk. fold Td fullCount totalDelta in Hk.
    rewrite Hk in Hq0. injection Hq0 as <-.
    exact (quad_two_passes _ _ _ _ _ _ _ Hstep1 Hstep2).
  - unfold DualRow.chooseFinalWorkGroupQuad.
    fold Td fullCount totalDelta.
    destruct Hout as [[_ ->] | (count & data & group & ok & Hstep & ->)];
      [left; reflexivity |].
    right. cbn [rbind].
    destruct (Hprev n q Hafter) as [Hpc Hps].
    destruct (quad_step_return _ _ _ _ _ _ _ _ _ Hstep)
      as [(Hsel & -> & -> & -> & ->)
         | (tc & rem & Hsel & Hscan & -> & Hok & Hend)].
    + left. auto.
    + right. exists count, data, tc, rem. rewrite Hpc, Hps in Hok.
      split; [exact Hsel |]. split; [exact Hscan |].
      split; [rewrite Hok; reflexivity |].
      intros Hun. apply Hend. rewrite Hok.
      unfold DualRow.quad_unchanged in Hun. rewrite Hun. reflexivity.
Qed.

Lemma chooseFinalWorkGroupQuad_terminates_witness :
  exists (n : nat) (q : DualRow.quad_state float),
    (n <= 2 * Z.to_nat (DualRow.workCount Examples.row_q_reduced) + 1)%nat
    /\ DualRow.quad_before Examples.row_q_reduced n = Some q
    /\ (forall k qk qk',
          DualRow.quad_before Examples.row_q_reduced k = Some qk ->
          DualRow.quad_before Examples.row_q_reduced (S k) = Some qk' ->
          DualRow.q_workCount qk < DualRow.q_workCount qk'
          \/ (DualRow.q_selectTheta qk =? DualRow.q_selectTheta qk')%F = false
          \/ (DualRow.q_prev_remainTheta qk =? DualRow.q_selectTheta qk')%F
             = false)
    /\ (forall k qk qk' qk'',
          DualRow.quad_before Examples.row_q_reduced k = Some qk ->
          DualRow.quad_before Examples.row_q_reduced (S k) = Some qk' ->
          DualRow.quad_before Examples.row_q_reduced (S (S k)) = Some qk'' ->
          DualRow.q_workCount qk < DualRow.q_workCount qk'
          \/ DualRow.q_workCount qk' < DualRow.q_workCount qk'')
    /\ (DualRow.chooseFinalWorkGroupQuad 4 Examples.row_q_reduced = Undef
        \/ ((DualRow.q_selectTheta q <? lit_1e18)%F = false
            /\ DualRow.chooseFinalWorkGroupQuad 4 Examples.row_q_reduced
               = Ok (DualRow.set_workGroup
                       (DualRow.set_work Examples.row_q_reduced
                          (DualRow.q_workCount q) (DualRow.q_workData q))
                       (DualRow.q_workGroup q), true))
        \/ exists count data totalChange remainTheta,
             (DualRow.q_selectTheta q <? lit_1e18)%F = true
             /\ DualRow.quad_scan Examples.row_q_reduced q
                = Ok (count, data, totalChange, remainTheta)
             /\ DualRow.chooseFinalWorkGroupQuad 4 Examples.row_q_reduced
                = Ok (DualRow.set_workGroup
                        (DualRow.set_work Examples.row_q_reduced count data)
                        (DualRow.q_workGroup q ++ [count]),
                      negb (DualRow.quad_unchanged q count remainTheta))
             /\ (DualRow.quad_unchanged q count remainTheta = false ->
                 (fabs (DualRow.workDelta Examples.row_q_reduced)
                    <=? totalChange)%F
                 || (count =? DualRow.workCount Examples.row_q_reduced)
                 = true)).
Proof.
  exact (chooseFinalWorkGroupQuad_terminates Examples.row_q_reduced 4
           ltac:(simpl; lia)).
Defined.

(** C2 as the specification words it fails on [row_q_reduced], the row
    with the one candidate of [row_q] as [chooseFinal] passes it to the
    grouping.  The first pass admits nothing and leaves [selectTheta] at
    1538461538.4615383, the value it began with; it is not reported but
    followed by a second pass, because [remainTheta] was 1e100 before it.
    The second pass finds the three values unchanged and the function
    returns [false]. *)
Lemma chooseFinalWorkGroupQuad_not_as_specified :
  (exists q q',
     DualRow.quad_before Examples.row_q_reduced 0 = Some q
     /\ DualRow.quad_before Examples.row_q_reduced 1 = Some q'
     /\ DualRow.q_workCount q' = DualRow.q_workCount q
     /\ DualRow.q_selectTheta q' = DualRow.q_selectTheta q
     /\ DualRow.q_selectTheta q = 1538461538.4615383%float)
  /\ DualRow.chooseFinalWorkGroupQuad 2 Examples.row_q_reduced
     = Ok (Examples.row_q_failed, false)
  /\ ~ Examples.chooseFinalWorkGroupQuad_as_specified Examples.row_q_reduced.
Proof.
  split; [| split].
  - do 2 eexists. split; [vm_compute; reflexivity |].
    split; [vm_compute; reflexivity |]. repeat split.
  - vm_compute. reflexivity.
  - intros H.
    destruct (H 0%nat _ _ eq_refl ltac:(vm_compute; reflexivity)) as [Hc | Hs];
      [vm_compute in Hc; discriminate Hc | vm_compute in Hs; discriminate Hs].
Qed.

(** ** chooseFinalLargeAlpha *)

Section LargeAlphaProofs.

Context {F : Type} {A : Arith F} {O : ArithOrder F A}.

Import DualRow.

Lemma at_minus_one {T : Type} (a : list T) : at_ a (-1) = Undef.
Proof. reflexivity. Qed.

Lemma in_group_snoc (data : list (Z * F)) (lo i j : Z) (e : Z * F) :
  in_group data lo (i + 1) j e ->
  in_group data lo i j e \/ (j = i /\ at_ data i = Ok e).
Proof.
  intros [Hj He]. destruct (Z.eq_dec j i) as [-> | Hne]; [right; auto |].
  left. split; [lia | exact He].
Qed.

(** The body of the scan keeps the invariant. *)
Lemma group_scan_body_inv (r : HDualRow F) (data : list (Z * F))
    (lo i : Z) (s s' : F * Z) :
  lo <= i -> scan_inv r data lo i s ->
  group_scan_body r data i s = Ok s' -> scan_inv r data lo (i + 1) s'.
Proof.
  destruct s as [dM iM]. intros Hlo (Hmax & Hub & Htie) Hb.
  unfold group_scan_body in Hb.
  apply rbind_Ok_inv in Hb as ([iCol v] & Hi & Hb). cbn [fst snd] in *.
  destruct (dM <? v)%F eqn:Hlt.
  - (* a larger value *)
    injection Hb as <-. destruct (flt_ordered _ _ Hlt) as [_ Hv].
    split; [| split]; cbn [fst snd].
    + right. split; [lia |]. eauto.
    + intros j e [Hin | [-> He]]%in_group_snoc.
      * specialize (Hub j e Hin).
        destruct (v <? e.2)%F eqn:Hve; [| reflexivity].
        rewrite (flt_trans _ _ _ Hlt Hve) in Hub. discriminate.
      * rewrite Hi in He. injection He as <-. apply flt_irrefl.
    + intros j e cM x pM p [Hin | [-> He]]%in_group_snoc Heq HM HpM Hp.
      * specialize (Hub j e Hin).
        rewrite <- (flt_feq_r _ _ dM Heq), Hlt in Hub. discriminate.
      * rewrite Hi in He, HM. injection He as <-. injection HM as <- <-.
        cbn [fst] in Hp. rewrite HpM in Hp. injection Hp as <-. lia.
  - destruct (dM =? v)%F eqn:Heq.
    + (* an equal value: the permutation decides *)
      apply rbind_Ok_inv in Hb as ([jCol y] & HiM & Hb).
      apply rbind_Ok_inv in Hb as (pi & Hpi & Hb).
      apply rbind_Ok_inv in Hb as (pj & Hpj & Hb).
      destruct Hmax as [[-> _] | (HiMr & cM0 & x0 & HM0 & Hx0)];
        [rewrite at_minus_one in HiM; discriminate |].
      destruct (Z.ltb_spec pi pj) as [Hp | Hp]; injection Hb as <-;
        (split; [| split]); cbn [fst snd].
      * right. split; [lia |]. eauto.
      * intros j e [Hin | [-> He]]%in_group_snoc; [exact (Hub j e Hin) |].
        rewrite Hi in He. injection He as <-. exact Hlt.
      * intros j e cM x pM p [Hin | [-> He]]%in_group_snoc Hte HM HpM Hpp.
        -- rewrite Hi in HM. injection HM as <- <-. rewrite Hpi in HpM.
           injection HpM as <-.
           specialize (Htie j e jCol y pj p Hin Hte HiM Hpj Hpp). lia.
        -- rewrite Hi in HM, He. injection HM as <- <-. injection He as <-.
           cbn [fst] in Hpp. rewrite HpM in Hpp. injection Hpp as <-. lia.
      * right. split; [lia |]. eauto.
      * intros j e [Hin | [-> He]]%in_group_snoc; [exact (Hub j e Hin) |].
        rewrite Hi in He. injection He as <-. exact Hlt.
      * intros j e cM x pM p [Hin | [-> He]]%in_group_snoc Hte HM HpM Hpp.
        -- exact (Htie j e cM x pM p Hin Hte HM HpM Hpp).
        -- rewrite Hi in He. injection He as <-. cbn [fst] in Hpp.
           rewrite HiM in HM. injection HM as <- <-.
           rewrite Hpj in HpM. rewrite Hpi in Hpp.
           injection HpM as <-. injection Hpp as <-. lia.
    + (* a smaller value, or none *)
      injection Hb as <-. split; [| split]; cbn [fst snd].
      * destruct Hmax as [Hm | (HiMr & Hm)]; [left; exact Hm |].
        right. split; [lia | exact Hm].
      * intros j e [Hin | [-> He]]%in_group_snoc; [exact (Hub j e Hin) |].
        rewrite Hi in He. injection He as <-. exact Hlt.
      * intros j e cM x pM p [Hin | [-> He]]%in_group_snoc Hte HM HpM Hpp.
        -- exact (Htie j e cM x pM p Hin Hte HM HpM Hpp).
        -- rewrite Hi in He. injection He as <-. cbn [snd] in Hte.
           rewrite Heq in Hte. discriminate.
Qed.

Lemma scan_inv_init (r : HDualRow F) (data : list (Z * F)) (lo : Z) :
  scan_inv r data lo lo (of_int 0, -1).
Proof.
  split; [left; auto |]. split.
  - intros j e [Hj _]. lia.
  - intros j e cM x pM p [Hj _]. lia.
Qed.

(** What a scan that came back found, read at the entry it chose. *)
Lemma group_scan_best (r : HDualRow F) (data : list (Z * F)) (lo hi : Z)
    (dM : F) (iM c : Z) (x : F) :
  group_scan r data lo hi = Ok (dM, iM) -> at_ data iM = Ok (c, x) ->
  best_of_group r data lo hi iM /\ (x =? x)%F = true.
Proof.
  intros Hscan HiM. unfold group_scan in Hscan.
  destruct (Z.le_gt_cases lo hi) as [Hle | Hgt].
  2:{ rewrite for_loop_empty in Hscan by lia. injection Hscan as <- <-.
      rewrite at_minus_one in HiM. discriminate. }
  assert (Hinv : scan_inv r data lo hi (dM, iM)).
  { apply (for_loop_partial (scan_inv r data lo) lo hi
             (group_scan_body r data) (of_int 0, -1) (dM, iM) Hle);
      [apply scan_inv_init | | exact Hscan].
    intros i s s' Hi. apply group_scan_body_inv. lia. }
  destruct Hinv as (Hmax & Hub & Htie). cbn [fst snd] in *.
  destruct Hmax as [[-> _] | (HiMr & cM0 & x0 & HM0 & Hx0)];
    [rewrite at_minus_one in HiM; discriminate |].
  rewrite HiM in HM0. injection HM0 as <- <-.
  assert (Hxx : (x =? x)%F = true).
  { rewrite feq_sym in Hx0. exact (feq_trans _ _ _ Hx0 ltac:(rewrite feq_sym; exact Hx0)). }
  split; [| exact Hxx].
  exists c, x. split; [split; [lia | exact HiM] |]. split.
  - intros j e Hin. rewrite <- (flt_feq_l _ _ _ Hx0). exact (Hub j e Hin).
  - intros j e pM p Hin Hte HpM Hp.
    apply (Htie j e c x pM p Hin); [| exact HiM | exact HpM | exact Hp].
    exact (feq_trans _ _ _ Hx0 Hte).
Qed.

(** If the best entry of a group is not above [finalCompare], none of
    the group is. *)
Lemma best_not_above (r : HDualRow F) (data : list (Z * F)) (lo hi bi c : Z)
    (x fc : F) :
  best_of_group r data lo hi bi -> at_ data bi = Ok (c, x) ->
  (x =? x)%F = true -> (fc <? x)%F = false ->
  forall j e, in_group data lo hi j e -> (fc <? e.2)%F = false.
Proof.
  intros (c' & x' & [_ Hbi] & Hub & _) Hat Hxx Hfc j e Hin.
  rewrite Hat in Hbi. injection Hbi as <- <-.
  destruct (fc <? e.2)%F eqn:Hfe; [| reflexivity].
  destruct (flt_ordered _ _ Hfe) as [_ Hee].
  specialize (Hub j e Hin).
  destruct (e.2 <? x)%F eqn:Hex.
  - rewrite (flt_trans _ _ _ Hfe Hex) in Hfc. discriminate.
  - pose proof (flt_total _ _ Hxx Hee Hub Hex) as Heq.
    rewrite (flt_feq_r _ _ fc Heq), Hfe in Hfc. discriminate.
Qed.

(** The search through the groups [n - 1], ..., [0]. *)
Lemma group_search_spec (r : HDualRow F) (data : list (Z * F))
    (group : list Z) (fc : F) (n : nat) :
  forall bi bg, group_search n r data group fc = Ok (bi, bg) ->
  (bg = -1 /\ bi = -1
   /\ forall g, 0 <= g < Z.of_nat n -> no_candidate_above data group fc g)
  \/ (0 <= bg < Z.of_nat n
      /\ (exists lo hi c x, at_ group bg = Ok lo /\ at_ group (bg + 1) = Ok hi
            /\ best_of_group r data lo hi bi
            /\ at_ data bi = Ok (c, x) /\ (fc <? x)%F = true)
      /\ forall g, bg < g < Z.of_nat n -> no_candidate_above data group fc g).
Proof.
  induction n as [| n IH]; intros bi bg H.
  - injection H as <- <-. left. split; [reflexivity |]. split; [reflexivity |].
    intros g Hg. lia.
  - cbn [group_search] in H.
    apply rbind_Ok_inv in H as (lo & Hlo & H).
    apply rbind_Ok_inv in H as (hi & Hhi & H).
    apply rbind_Ok_inv in H as ([dM iM] & Hscan & H).
    apply rbind_Ok_inv in H as ([c x] & Hat & H).
    destruct (group_scan_best r data lo hi dM iM c x Hscan Hat) as [Hbest Hxx].
    destruct (fc <? x)%F eqn:Hfc.
    + injection H as <- <-. right. split; [lia |]. split.
      * exists lo, hi, c, x. auto.
      * intros g Hg. lia.
    + assert (Hnone : no_candidate_above data group fc (Z.of_nat n)).
      { intros lo' hi' j e Hlo' Hhi' Hin.
        rewrite Hlo in Hlo'. rewrite Hhi in Hhi'.
        injection Hlo' as <-. injection Hhi' as <-.
        exact (best_not_above r data lo hi iM c x fc Hbest Hat Hxx Hfc j e Hin). }
      destruct (IH bi bg H) as [(-> & -> & Hall) | (Hbg & Hhit & Hlater)].
      * left. split; [reflexivity |]. split; [reflexivity |].
        intros g Hg. destruct (Z.eq_dec g (Z.of_nat n)) as [-> | Hne];
          [exact Hnone | apply Hall; lia].
      * right. split; [lia |]. split; [exact Hhit |].
        intros g Hg. destruct (Z.eq_dec g (Z.of_nat n)) as [-> | Hne];
          [exact Hnone | apply Hlater; lia].
Qed.

(** The largest value among the first [workCount] entries. *)
Lemma max_alpha_spec (r : HDualRow F) (data : list (Z * F)) (m : F) :
  max_alpha r data = Ok m ->
  (forall j e, in_group data 0 (workCount r) j e -> (m <? e.2)%F = false)
  /\ (m = of_int 0 \/ exists j e, in_group data 0 (workCount r) j e /\ e.2 = m).
Proof.
  intros H. unfold max_alpha in H.
  destruct (Z.le_gt_cases 0 (workCount r)) as [Hle | Hgt].
  2:{ rewrite for_loop_empty in H by lia. injection H as <-.
      split; [| left; reflexivity]. intros j e [Hj _]. lia. }
  pose (P := fun (i : Z) (m : F) =>
    (forall j e, in_group data 0 i j e -> (m <? e.2)%F = false)
    /\ (m = of_int 0 \/ exists j e, in_group data 0 i j e /\ e.2 = m)).
  eapply (for_loop_partial P) in H; [exact H | exact Hle | |].
  - split; [| left; reflexivity]. intros j e [Hj _]. lia.
  - intros i m0 m1 Hi [Hub Hin] Hb.
    apply rbind_Ok_inv in Hb as ([c v] & Hat & Hb). injection Hb as <-.
    unfold fmax. destruct (m0 <? v)%F eqn:Hlt; split.
    + intros j e [Hj | [-> He]]%in_group_snoc.
      * specialize (Hub j e Hj). destruct (v <? e.2)%F eqn:Hve; [| reflexivity].
        rewrite (flt_trans _ _ _ Hlt Hve) in Hub. discriminate.
      * rewrite Hat in He. injection He as <-. apply flt_irrefl.
    + right. exists i, (c, v). split; [split; [lia | exact Hat] | reflexivity].
    + intros j e [Hj | [-> He]]%in_group_snoc; [exact (Hub j e Hj) |].
      rewrite Hat in He. injection He as <-. exact Hlt.
    + destruct Hin as [-> | (j & e & [Hj He] & Hm)]; [left; reflexivity |].
      right. exists j, e. split; [split; [lia | exact He] | exact Hm].
Qed.

(** The scan of a group of candidates that is not empty comes back with
    an entry of the group. *)
Lemma group_scan_total (r : HDualRow F) (data : list (Z * F)) (lo hi : Z) :
  entries_ok r data -> 0 <= lo < hi -> hi <= workCount r ->
  exists dM iM, group_scan r data lo hi = Ok (dM, iM) /\ lo <= iM < hi.
Proof.
  intros Hent Hlo Hhi.
  pose (P := fun (i : Z) (s : F * Z) =>
    (i = lo /\ s = (of_int 0, -1)) \/ (lo < i /\ lo <= s.2 < i)).
  destruct (for_loop_total P lo hi (group_scan_body r data) (of_int 0, -1))
    as ([dM iM] & Hrun & HP); [lia | left; auto | |].
  - intros i [dM iM] Hi HP.
    destruct (Hent i ltac:(lia)) as (c & x & Hat & Hpos & Hc).
    unfold group_scan_body. rewrite Hat. cbn [rbind].
    destruct HP as [[-> [= -> ->]] | [Hgt HiM]].
    + rewrite Hpos. eexists. split; [reflexivity |]. right. cbn. lia.
    + cbn [snd] in HiM. destruct (dM <? x)%F.
      * eexists. split; [reflexivity |]. right. cbn. lia.
      * destruct (dM =? x)%F.
        -- destruct (Hent iM ltac:(lia)) as (c' & x' & Hat' & _ & Hc').
           rewrite Hat'. cbn [rbind].
           destruct (at_in_range (workNumTotPermutation r) c Hc) as [pi Hpi].
           destruct (at_in_range (workNumTotPermutation r) c' Hc') as [pj Hpj].
           rewrite Hpi, Hpj. cbn [rbind].
           destruct (pi <? pj); (eexists; split; [reflexivity |]);
             right; cbn; lia.
        -- eexists. split; [reflexivity |]. right. cbn. lia.
  - exists dM, iM. split; [exact Hrun |].
    destruct HP as [[-> _] | [_ H]]; [lia | exact H].
Qed.

Lemma max_alpha_total (r : HDualRow F) (data : list (Z * F)) :
  entries_ok r data -> exists m, max_alpha r data = Ok m.
Proof.
  intros Hent. unfold max_alpha.
  destruct (Z.le_gt_cases 0 (workCount r)) as [Hle | Hgt].
  2:{ rewrite for_loop_empty by lia. eauto. }
  destruct (for_loop_total (fun _ _ => True) 0 (workCount r)
              (fun i m => let* '(_, v) := at_ data i in Ok (fmax m v))
              (of_int 0) Hle I) as (m & Hm & _); [| eauto].
  intros i m Hi _. destruct (Hent i Hi) as (c & x & Hat & _).
  rewrite Hat. cbn [rbind]. eauto.
Qed.

Lemma group_search_total (r : HDualRow F) (data : list (Z * F))
    (group : list Z) (fc : F) (n : nat) :
  entries_ok r data -> groups_ok r group ->
  Z.of_nat n <= Z.max 0 (Z.of_nat (length group) - 1) ->
  exists bi bg, group_search n r data group fc = Ok (bi, bg).
Proof.
  intros Hent Hgr. induction n as [| n IH]; intros Hn; [simpl; eauto |].
  destruct (Hgr (Z.of_nat n) ltac:(lia)) as (lo & hi & Hlo & Hhi & Hr & Hw).
  destruct (group_scan_total r data lo hi Hent Hr Hw) as (dM & iM & Hscan & HiM).
  destruct (Hent iM ltac:(lia)) as (c & x & Hat & _).
  cbn [group_search]. rewrite Hlo. cbn [rbind]. rewrite Hhi. cbn [rbind].
  rewrite Hscan. cbn [rbind]. rewrite Hat. cbn [rbind].
  destruct (fc <? x)%F; [eauto |]. apply IH. lia.
Qed.

(** [chooseFinalLargeAlpha] on candidates and groups that are not
    empty: it returns, and what it returns is what the search found. *)
Lemma chooseFinalLargeAlpha_runs (r : HDualRow F) (data : list (Z * F))
    (group : list Z) :
  entries_ok r data -> groups_ok r group ->
  exists m bi bg,
    max_alpha r data = Ok m
    /\ group_search (Z.to_nat (Z.of_nat (length group) - 1)) r data group
         (fmin (lit_0_1 * m)%F (of_int 1)) = Ok (bi, bg)
    /\ ((bg = -1 /\ bi = -1
         /\ forall g, 0 <= g < Z.of_nat (length group) - 1 ->
              no_candidate_above data group (fmin (lit_0_1 * m)%F (of_int 1)) g)
        \/ (0 <= bg < Z.of_nat (length group) - 1
            /\ (exists lo hi c x,
                  at_ group bg = Ok lo /\ at_ group (bg + 1) = Ok hi
                  /\ best_of_group r data lo hi bi
                  /\ at_ data bi = Ok (c, x)
                  /\ (fmin (lit_0_1 * m)%F (of_int 1) <? x)%F = true)
            /\ forall g, bg < g < Z.of_nat (length group) - 1 ->
                 no_candidate_above data group
                   (fmin (lit_0_1 * m)%F (of_int 1)) g)).
Proof.
  intros Hent Hgr.
  destruct (max_alpha_total r data Hent) as [m Hm].
  destruct (group_search_total r data group (fmin (lit_0_1 * m)%F (of_int 1))
              (Z.to_nat (Z.of_nat (length group) - 1)) Hent Hgr ltac:(lia))
    as (bi & bg & Hsearch).
  exists m, bi, bg. split; [exact Hm |]. split; [exact Hsearch |].
  destruct (group_search_spec _ _ _ _ _ _ _ Hsearch)
    as [(-> & -> & Hall) | (Hbg & Hhit & Hlater)].
  - left. split; [reflexivity |]. split; [reflexivity |].
    intros g Hg. apply Hall. lia.
  - right. split; [lia |]. split; [exact Hhit |].
    intros g Hg. apply Hlater. lia.
Qed.


Lemma slice_in_group (data : list (Z * F)) (lo hi : Z) (e : Z * F) :
  0 <= lo -> e ∈ slice data lo hi <-> exists j, in_group data lo hi j e.
Proof.
  intros Hlo. unfold slice, in_group. rewrite elem_of_take. split.
  - intros (i & Hi & Hlt). rewrite lookup_drop in Hi.
    exists (lo + Z.of_nat i). split; [lia |]. apply at_Ok_inv.
    split; [lia |]. replace (Z.to_nat (lo + Z.of_nat i))
      with (Z.to_nat lo + i)%nat by lia. exact Hi.
  - intros (j & Hj & [_ Hat]%at_Ok_inv). exists (Z.to_nat (j - lo)).
    split; [| lia]. rewrite lookup_drop.
    replace (Z.to_nat lo + Z.to_nat (j - lo))%nat with (Z.to_nat j) by lia.
    exact Hat.
Qed.

(** Arrays whose slices are permutations of each other hold the same
    entries there. *)
Lemma permuted_same_entries (data1 data2 : list (Z * F)) (lo hi : Z) :
  0 <= lo -> slice data1 lo hi ≡ₚ slice data2 lo hi ->
  same_entries data1 data2 lo hi.
Proof.
  intros Hlo Hp e. rewrite <- !slice_in_group by exact Hlo.
  split; intros He; [rewrite <- Hp | rewrite Hp]; exact He.
Qed.

(** The best entries of two groups that hold the same candidates are
    the same entry. *)
Lemma best_of_group_unique (r : HDualRow F) (data1 data2 : list (Z * F))
    (lo hi bi1 bi2 c1 c2 : Z) (x1 x2 : F) :
  entries_ok r data1 -> entries_ok r data2 -> permutation_injective r ->
  0 <= lo -> hi <= workCount r ->
  same_entries data1 data2 lo hi ->
  best_of_group r data1 lo hi bi1 -> at_ data1 bi1 = Ok (c1, x1) ->
  best_of_group r data2 lo hi bi2 -> at_ data2 bi2 = Ok (c2, x2) ->
  c1 = c2 /\ x1 = x2.
Proof.
  intros Hent1 Hent2 Hinj Hlo Hhi Hsame
    (c1' & x1' & Hin1 & Hub1 & Htie1) Hat1
    (c2' & x2' & Hin2 & Hub2 & Htie2) Hat2.
  pose proof Hin1 as [Hr1 Hb1]. pose proof Hin2 as [Hr2 Hb2].
  rewrite Hat1 in Hb1. injection Hb1 as <- <-.
  rewrite Hat2 in Hb2. injection Hb2 as <- <-.
  destruct (proj1 (Hsame (c1, x1)) (ex_intro _ bi1 Hin1)) as [j2 Hj2].
  destruct (proj2 (Hsame (c2, x2)) (ex_intro _ bi2 Hin2)) as [j1 Hj1].
  destruct (Hent1 bi1 ltac:(lia)) as (a & b & Ha & Hpos1 & Hc1).
  rewrite Hat1 in Ha. injection Ha as <- <-.
  destruct (Hent2 bi2 ltac:(lia)) as (a & b & Ha & Hpos2 & Hc2).
  rewrite Hat2 in Ha. injection Ha as <- <-.
  pose proof (Hub1 j1 _ Hj1) as H12. pose proof (Hub2 j2 _ Hj2) as H21.
  cbn [snd] in H12, H21.
  destruct (flt_ordered _ _ Hpos1) as [_ Hx1].
  destruct (flt_ordered _ _ Hpos2) as [_ Hx2].
  pose proof (flt_total _ _ Hx1 Hx2 H12 H21) as Heq.
  pose proof (feq_positive _ _ Hpos1 Heq) as <-.
  split; [| reflexivity].
  destruct (at_in_range (workNumTotPermutation r) c1 Hc1) as [p1 Hp1].
  destruct (at_in_range (workNumTotPermutation r) c2 Hc2) as [p2 Hp2].
  pose proof (Htie1 j1 _ p1 p2 Hj1 Heq Hp1 Hp2) as Hle1.
  pose proof (Htie2 j2 _ p2 p1 Hj2 Heq Hp2 Hp1) as Hle2.
  apply (Hinj c1 c2 p1 Hp1). replace p1 with p2 by lia. exact Hp2.
Qed.

(** The searches through the groups of two arrays that hold the same
    candidates group by group stop at the same group and the same
    entry. *)
Lemma group_search_same (r : HDualRow F) (data1 data2 : list (Z * F))
    (group : list Z) (fc : F) (n : nat) :
  entries_ok r data1 -> entries_ok r data2 -> permutation_injective r ->
  groups_ok r group -> Z.of_nat n <= Z.max 0 (Z.of_nat (length group) - 1) ->
  (forall g lo hi, at_ group g = Ok lo -> at_ group (g + 1) = Ok hi ->
     same_entries data1 data2 lo hi) ->
  forall bi1 bg1 bi2 bg2,
  group_search n r data1 group fc = Ok (bi1, bg1) ->
  group_search n r data2 group fc = Ok (bi2, bg2) ->
  bg1 = bg2
  /\ (0 <= bg1 -> exists c x, at_ data1 bi1 = Ok (c, x)
                              /\ at_ data2 bi2 = Ok (c, x)).
Proof.
  intros Hent1 Hent2 Hinj Hgr Hn Hsame.
  induction n as [| n IH]; intros bi1 bg1 bi2 bg2 H1 H2.
  - injection H1 as <- <-. injection H2 as <- <-. split; [reflexivity | lia].
  - cbn [group_search] in H1, H2.
    destruct (Hgr (Z.of_nat n) ltac:(lia)) as (lo & hi & Hlo & Hhi & Hr & Hw).
    rewrite Hlo, Hhi in H1, H2. cbn [rbind] in H1, H2.
    apply rbind_Ok_inv in H1 as ([dM1 iM1] & Hscan1 & H1).
    apply rbind_Ok_inv in H1 as ([c1 x1] & Hat1 & H1).
    apply rbind_Ok_inv in H2 as ([dM2 iM2] & Hscan2 & H2).
    apply rbind_Ok_inv in H2 as ([c2 x2] & Hat2 & H2).
    destruct (group_scan_best r data1 lo hi dM1 iM1 c1 x1 Hscan1 Hat1)
      as [Hbest1 _].
    destruct (group_scan_best r data2 lo hi dM2 iM2 c2 x2 Hscan2 Hat2)
      as [Hbest2 _].
    destruct (best_of_group_unique r data1 data2 lo hi iM1 iM2 c1 c2 x1 x2
                Hent1 Hent2 Hinj ltac:(lia) Hw (Hsame _ lo hi Hlo Hhi)
                Hbest1 Hat1 Hbest2 Hat2) as [<- <-].
    destruct (fc <? x1)%F.
    + injection H1 as <- <-. injection H2 as <- <-.
      split; [reflexivity |]. intros _. eauto.
    + apply (IH ltac:(lia) bi1 bg1 bi2 bg2 H1 H2).
Qed.

(** The largest values of two arrays that hold the same candidates are
    the same. *)
Lemma max_alpha_same (r : HDualRow F) (data1 data2 : list (Z * F)) (m1 m2 : F) :
  entries_ok r data1 -> entries_ok r data2 ->
  same_entries data1 data2 0 (workCount r) ->
  max_alpha r data1 = Ok m1 -> max_alpha r data2 = Ok m2 -> m1 = m2.
Proof.
  intros Hent1 Hent2 Hsame H1 H2.
  destruct (Z.le_gt_cases (workCount r) 0) as [Hle | Hgt].
  { unfold max_alpha in H1, H2. rewrite for_loop_empty in H1, H2 by lia.
    congruence. }
  destruct (max_alpha_spec r data1 m1 H1) as [Hub1 Hm1].
  destruct (max_alpha_spec r data2 m2 H2) as [Hub2 Hm2].
  assert (Hmem : forall data m, entries_ok r data ->
            (forall j e, in_group data 0 (workCount r) j e -> (m <? e.2)%F = false) ->
            m = of_int 0
            \/ (exists j e, in_group data 0 (workCount r) j e /\ e.2 = m) ->
            exists j e, in_group data 0 (workCount r) j e /\ e.2 = m
                        /\ (of_int 0 <? m)%F = true).
  { intros data m Hent Hub [-> | (j & e & Hin & Hm)].
    - destruct (Hent 0 ltac:(lia)) as (c & x & Hat & Hpos & _).
      assert (Hin0 : in_group data 0 (workCount r) 0 (c, x))
        by (split; [lia | exact Hat]).
      specialize (Hub 0 (c, x) Hin0). cbn [snd] in Hub.
      rewrite Hpos in Hub. discriminate.
    - exists j, e. split; [exact Hin |]. split; [exact Hm |].
      destruct Hin as [Hj Hat]. destruct (Hent j Hj) as (c & x & Hat' & Hpos & _).
      rewrite Hat in Hat'. injection Hat' as ->. subst m. exact Hpos. }
  destruct (Hmem data1 m1 Hent1 Hub1 Hm1) as (j1 & e1 & Hin1 & He1 & Hpos1).
  destruct (Hmem data2 m2 Hent2 Hub2 Hm2) as (j2 & e2 & Hin2 & He2 & Hpos2).
  destruct (proj1 (Hsame e1) (ex_intro _ j1 Hin1)) as [k2 Hk2].
  destruct (proj2 (Hsame e2) (ex_intro _ j2 Hin2)) as [k1 Hk1].
  pose proof (Hub1 k1 e2 Hk1) as H12. pose proof (Hub2 k2 e1 Hk2) as H21.
  rewrite He1 in H21. rewrite He2 in H12.
  destruct (flt_ordered _ _ Hpos1) as [_ Hx1].
  destruct (flt_ordered _ _ Hpos2) as [_ Hx2].
  exact (feq_positive _ _ Hpos1 (flt_total _ _ Hx1 Hx2 H12 H21)).
Qed.

(** C3: when some group holds a candidate above
    [finalCompare = min(0.1 * m, 1)], [m] being the largest value among
    the candidates, [chooseFinalLargeAlpha] returns a group, and the entry
    it returns has the largest value of that group; among the entries of
    the group with an equal value it is the one whose column the
    permutation [workNumTotPermutation] puts first.  Two arrays that hold
    the same candidates in every group, in whatever order, give the same
    group and the same column (and value). *)
Theorem chooseFinalLargeAlpha_tie_break (r : HDualRow F)
    (data1 data2 : list (Z * F)) (group : list Z) (m : F) (g lo hi j : Z)
    (e : Z * F) :
  entries_ok r data1 -> entries_ok r data2 -> groups_ok r group ->
  permutation_injective r ->
  same_entries data1 data2 0 (workCount r) ->
  (forall g lo hi, at_ group g = Ok lo -> at_ group (g + 1) = Ok hi ->
     same_entries data1 data2 lo hi) ->
  max_alpha r data1 = Ok m ->
  at_ group g = Ok lo -> at_ group (g + 1) = Ok hi ->
  in_group data1 lo hi j e ->
  (fmin (lit_0_1 * m) (of_int 1) <? e.2)%F = true ->
  exists bi1 bi2 bg blo bhi c x,
    chooseFinalLargeAlpha r data1 group = Ok (bi1, bg)
    /\ chooseFinalLargeAlpha r data2 group = Ok (bi2, bg)
    /\ g <= bg < Z.of_nat (length group) - 1
    /\ at_ group bg = Ok blo /\ at_ group (bg + 1) = Ok bhi
    /\ at_ data1 bi1 = Ok (c, x) /\ at_ data2 bi2 = Ok (c, x)
    /\ best_of_group r data1 blo bhi bi1
    /\ best_of_group r data2 blo bhi bi2.
Proof.
  intros Hent1 Hent2 Hgr Hinj Hall Hsame Hm Hlo Hhi Hin Habove.
  destruct (chooseFinalLargeAlpha_runs r data1 group Hent1 Hgr)
    as (m1 & bi1 & bg1 & Hm1 & Hs1 & Hspec1).
  destruct (chooseFinalLargeAlpha_runs r data2 group Hent2 Hgr)
    as (m2 & bi2 & bg2 & Hm2 & Hs2 & Hspec2).
  rewrite Hm in Hm1. injection Hm1 as <-.
  pose proof (max_alpha_same r data1 data2 m m2 Hent1 Hent2 Hall Hm Hm2) as <-.
  destruct (group_search_same r data1 data2 group
              (fmin (lit_0_1 * m)%F (of_int 1))
              (Z.to_nat (Z.of_nat (length group) - 1))
              Hent1 Hent2 Hinj Hgr ltac:(lia) Hsame bi1 bg1 bi2 bg2 Hs1 Hs2)
    as [<- Hcol].
  pose proof (at_Ok_range _ _ _ Hlo) as Hg0.
  pose proof (at_Ok_range _ _ _ Hhi) as Hg1.
  assert (Hhit : ~ no_candidate_above data1 group
                     (fmin (lit_0_1 * m)%F (of_int 1)) g).
  { intros Hnone. rewrite (Hnone lo hi j e Hlo Hhi Hin) in Habove.
    discriminate Habove. }
  destruct Hspec1 as [(_ & _ & Hnone)
                     | (Hbg & (blo & bhi & c1 & x1 & Hblo & Hbhi & Hb1 & _) & Hlater)].
  { exfalso. apply Hhit. apply Hnone. lia. }
  assert (Hge : g <= bg1).
  { destruct (Z.le_gt_cases g bg1) as [Hle | Hgt]; [exact Hle |].
    exfalso. apply Hhit. apply Hlater. lia. }
  destruct Hspec2 as [(Heq & _)
                     | (_ & (blo' & bhi' & c2 & x2 & Hblo' & Hbhi' & Hb2 & _) & _)];
    [lia |].
  rewrite Hblo in Hblo'. rewrite Hbhi in Hbhi'.
  injection Hblo' as <-. injection Hbhi' as <-.
  destruct (Hcol ltac:(lia)) as (c & x & Hat1 & Hat2).
  exists bi1, bi2, bg1, blo, bhi, c, x.
  unfold chooseFinalLargeAlpha. rewrite Hm, Hm2. cbn [rbind].
  split; [exact Hs1 |]. split; [exact Hs2 |]. split; [lia |]. auto 10.
Qed.

End LargeAlphaProofs.

(** ** chooseFinal *)

Section ChooseFinalProofs.

Context {F : Type} {A : Arith F}.

Import DualRow.

Variable maxheapsort : list F -> list Z -> Z -> list F * list Z.

(** What steps 3 and 4 leave in the row. *)
Lemma choose_pivot_spec (r r' : HDualRow F) (bi bg abi : Z) :
  choose_pivot r bi bg abi = Ok r' ->
  exists pivot a dual move,
    at_ (workData r) bi = Ok (pivot, a)
    /\ at_ (workMove r) pivot = Ok move
    /\ at_ (workDual r) pivot = Ok dual
    /\ workHMO r' = workHMO r
    /\ workPivot r' = pivot
    /\ workAlpha r' = (a * of_int (sourceOut_of (workDelta r)) * of_int move)%F
    /\ workTheta r'
       = (if (of_int 0 <? dual * of_int move)%F
          then (dual / workAlpha r')%F else of_int 0)
    /\ ((workTheta r' =? of_int 0)%F = true -> workCount r' = 0).
Proof.
  unfold choose_pivot. intros H.
  apply rbind_Ok_inv in H as ([pivot a] & Hat & H).
  apply rbind_Ok_inv in H as (move & Hmove & H).
  apply rbind_Ok_inv in H as (dual & Hdual & H).
  apply rbind_Ok_inv in H as ([altp y] & _ & H).
  apply rbind_Ok_inv in H as (reported & _ & H).
  apply rbind_Ok_inv in H as (flipEnd & _ & H).
  apply rbind_Ok_inv in H as ([count data] & _ & H).
  injection H as <-. exists pivot, a, dual, move. cbn.
  repeat (split; [first [assumption | reflexivity] |]).
  intros ->. reflexivity.
Qed.

Context {O : ArithOrder F A}.

(** C8: [chooseFinal] returns the failure signal [true] exactly when the
    grouping [chooseFinalWorkGroupQuad] returned [false]; otherwise it
    returns [false] with a pivot chosen, and then [workTheta] is
    [workDual[workPivot] / workAlpha] if
    [workDual[workPivot] * workMove[workPivot] > 0] and 0 if not; whenever
    [workTheta] is zero the flip list is empty ([workCount = 0]). *)
Theorem chooseFinal_zero_step (fuel : nat) (r r' : HDualRow F) (b : bool) :
  chooseFinal maxheapsort fuel r = Ok (r', b) ->
  exists r2 r3 ok,
    reduce_large_step fuel r = Ok r2
    /\ chooseFinalWorkGroupQuad fuel r2 = Ok (r3, ok)
    /\ b = negb ok
    /\ (ok = false -> r' = r3)
    /\ (ok = true ->
        exists dual move,
          at_ (workDual r') (workPivot r') = Ok dual
          /\ at_ (workMove r') (workPivot r') = Ok move
          /\ workTheta r'
             = (if (of_int 0 <? dual * of_int move)%F
                then (dual / workAlpha r')%F else of_int 0)
          /\ ((workTheta r' =? of_int 0)%F = true -> workCount r' = 0)
          /\ ((of_int 0 <? dual * of_int move)%F = false ->
              workTheta r' = of_int 0 /\ workCount r' = 0)).
Proof.
  unfold chooseFinal. intros H.
  apply rbind_Ok_inv in H as (r2 & Hr2 & H).
  apply rbind_Ok_inv in H as ([r3 ok] & Hr3 & H).
  exists r2, r3, ok. split; [exact Hr2 |]. split; [exact Hr3 |].
  destruct ok; cbn [negb] in H.
  - apply rbind_Ok_inv in H as (r4 & Hr4 & H).
    apply rbind_Ok_inv in H as ([bi bg] & Hla & H).
    apply rbind_Ok_inv in H as ([abi abg] & Hala & H).
    apply rbind_Ok_inv in H as (r5 & Hr5 & H). injection H as <- <-.
    split; [reflexivity |]. split; [discriminate |]. intros _.
    destruct (choose_pivot_spec _ _ _ _ _ Hr5)
      as (pivot & a & dual & move & _ & Hmove & Hdual & Hhmo & Hp & Ha & Ht & Hz).
    exists dual, move. unfold workDual, workMove in *. rewrite Hhmo, Hp.
    split; [exact Hdual |]. split; [exact Hmove |]. split; [exact Ht |].
    split; [exact Hz |]. intros Hneg. rewrite Hneg in Ht.
    split; [exact Ht |]. apply Hz. rewrite Ht. apply feq_zero.
  - injection H as <- <-. split; [reflexivity |]. split; [reflexivity |].
    discriminate.
Qed.

Lemma fle_not_flt (x y : F) : (x <=? y)%F = true -> (y <? x)%F = false.
Proof.
  rewrite fle_spec. intros [Hlt | Heq]%orb_true_iff.
  - destruct (y <? x)%F eqn:Hyx; [| reflexivity].
    rewrite <- (flt_irrefl x). symmetry. exact (flt_trans _ _ _ Hlt Hyx).
  - rewrite (flt_feq_r _ _ y Heq). apply flt_irrefl.
Qed.

Lemma swap_same {T : Type} (a : list T) (i : Z) (x : T) :
  at_ a i = Ok x -> swap a i i = Ok a.
Proof.
  intros Hat. unfold swap. rewrite Hat. cbn [rbind].
  pose proof (at_Ok_range _ _ _ Hat) as Hr. apply at_Ok_inv in Hat as [_ Hat].
  rewrite put_in_range by exact Hr. cbn [rbind].
  rewrite (list_insert_id a _ _ Hat).
  rewrite put_in_range by exact Hr.
  rewrite (list_insert_id a _ _ Hat). reflexivity.
Qed.

Lemma for_loop_one {St : Type} (body : Z -> St -> result St) (s : St) :
  for_loop 0 1 body s = let* s' := body 0 s in Ok s'.
Proof. reflexivity. Qed.

Lemma rbind_Ok_r {X : Type} (e : result X) : (let* x := e in Ok x) = e.
Proof. destruct e; reflexivity. Qed.

Section SingleCandidate.

(** A row whose only candidate is [(c, a)], with what the arrays hold
    for its column. *)
Variables (c : Z) (a dual range : F) (move : Z).

Let tight : F := (of_int move * dual)%F.

(** Step 1 admits the only candidate in its first round. *)
Lemma reduce_large_step_single (fuel : nat) (r : HDualRow F) :
  workCount r = 1 -> at_ (workData r) 0 = Ok (c, a) ->
  at_ (workMove r) c = Ok move -> at_ (workDual r) c = Ok dual ->
  at_ (workRange r) c = Ok range ->
  (tight <=? a * (of_int 10 * workTheta r + lit_1e_7))%F = true ->
  reduce_large_step (S fuel) r
  = Ok (set_alt (set_work r 1 (workData r)) 1 (workData r)
          (sorted_workData r) (alt_workGroup r)).
Proof.
  intros Hcount Hat Hmove Hdual Hrange Hadmit.
  unfold reduce_large_step. rewrite Hcount. cbn [large_step].
  rewrite for_loop_one. unfold large_step_body at 1.
  rewrite Hat. cbn [rbind]. rewrite Hmove. cbn [rbind]. rewrite Hdual.
  cbn [rbind]. fold tight. rewrite Hadmit.
  rewrite (swap_same _ _ _ Hat). cbn [rbind]. rewrite Hrange. cbn [rbind].
  change (0 + 1 =? 1) with true. rewrite orb_true_r. reflexivity.
Qed.

(** The grouping admits the only candidate in its first pass, and
    ends there. *)
Lemma chooseFinalWorkGroupQuad_single (fuel : nat) (r : HDualRow F) :
  workCount r = 1 -> at_ (workData r) 0 = Ok (c, a) ->
  at_ (workMove r) c = Ok move -> at_ (workDual r) c = Ok dual ->
  at_ (workRange r) c = Ok range ->
  (workTheta r <? lit_1e18)%F = true ->
  (tight <=? workTheta r * a)%F = true ->
  chooseFinalWorkGroupQuad (S fuel) r
  = Ok (set_workGroup (set_work r 1 (workData r)) [0; 1], true).
Proof.
  intros Hcount Hat Hmove Hdual Hrange Hsel Hadmit.
  unfold chooseFinalWorkGroupQuad. rewrite Hcount. cbn [quad_loop].
  unfold quad_step. cbn [quad_init q_selectTheta q_workCount q_workData
    q_totalChange q_workGroup q_prev_workCount q_prev_selectTheta
    q_prev_remainTheta]. rewrite Hsel. cbn [negb].
  rewrite for_loop_one. unfold quad_body at 1.
  rewrite Hat. cbn [rbind]. rewrite Hmove. cbn [rbind]. rewrite Hdual.
  cbn [rbind]. fold tight. rewrite Hadmit.
  rewrite (swap_same _ _ _ Hat). cbn [rbind]. rewrite Hrange. cbn [rbind].
  change (0 + 1 =? 0) with false. change (0 + 1 =? 1) with true.
  cbn [andb]. rewrite orb_true_r. reflexivity.
Qed.

Lemma length_resize {T : Type} (v : list T) (n : Z) (d : T) :
  length (resize v n d) = Z.to_nat n.
Proof.
  unfold resize. rewrite length_app, length_take, length_replicate. lia.
Qed.

(** The heap grouping of the only candidate: one group of one entry. *)
Lemma chooseFinalWorkGroupHeap_single (r : HDualRow F) :
  alt_workCount r = 1 -> at_ (original_workData r) 0 = Ok (c, a) ->
  at_ (workMove r) c = Ok move -> at_ (workDual r) c = Ok dual ->
  at_ (workRange r) c = Ok range ->
  (tight / a <? lit_1e18)%F = true ->
  (tight <=? workTheta r * a)%F = true ->
  (forall hv hi, (maxheapsort hv hi 1).2 = hi) ->
  chooseFinalWorkGroupHeap maxheapsort r
  = Ok (set_alt r 1 (original_workData r)
          (<[0%nat := (c, a)]> (resize (sorted_workData r) 1 (0, of_int 0)))
          [0; 1]).
Proof.
  intros Hcount Hat Hmove Hdual Hrange Hratio Hadmit Hsort.
  unfold chooseFinalWorkGroupHeap. rewrite Hcount.
  change (Z.to_nat (1 + 1)) with 2%nat. cbn [replicate].
  rewrite for_loop_one. unfold heap_fill_body at 1.
  rewrite Hat. cbn [rbind]. rewrite Hmove. cbn [rbind]. rewrite Hdual.
  cbn [rbind]. fold tight. rewrite Hratio. change (0 + 1) with 1.
  rewrite (put_in_range [0; 0]) by (cbn; lia). cbn [rbind].
  rewrite (put_in_range [of_int 0; of_int 0]) by (cbn; lia). cbn [rbind].
  specialize (Hsort (<[Z.to_nat 1:=(tight / a)%F]> [of_int 0; of_int 0])
                (<[Z.to_nat 1:=0]> [0; 0])).
  destruct (maxheapsort _ _ 1) as [hv hi]. cbn [snd] in Hsort. subst hi.
  unfold for_loop. change (Z.to_nat (1 + 1 - 1)) with 1%nat. cbn [for_range].
  unfold heap_group_body at 1. cbn [h_stop h_selectTheta h_workGroup
    h_workCount h_first_entry h_sorted h_totalChange].
  change (at_ (<[Z.to_nat 1:=0]> [0; 0]) 1) with (Ok (A := Z) 0).
  cbn [rbind]. rewrite Hat. cbn [rbind]. rewrite Hmove. cbn [rbind].
  rewrite Hdual. cbn [rbind]. fold tight.
  rewrite (fle_not_flt _ _ Hadmit). cbn [andb].
  rewrite put_in_range by (rewrite length_resize; lia). cbn [rbind].
  rewrite Hrange. cbn [rbind h_first_entry h_workCount h_workGroup h_sorted].
  change (0 <? 0 + 1) with true. reflexivity.
Qed.

(** The search for the break point among one group of one entry. *)
Lemma chooseFinalLargeAlpha_single (r : HDualRow F) (data : list (Z * F)) :
  workCount r = 1 -> at_ data 0 = Ok (c, a) ->
  (of_int 0 <? a)%F = true ->
  (fmin (lit_0_1 * a) (of_int 1) <? a)%F = true ->
  chooseFinalLargeAlpha r data [0; 1] = Ok (0, 0).
Proof.
  intros Hcount Hat Hpos Hfinal.
  unfold chooseFinalLargeAlpha, max_alpha. rewrite Hcount, for_loop_one.
  rewrite Hat. cbn [rbind]. unfold fmax. rewrite Hpos.
  change (Z.to_nat (Z.of_nat (length [0; 1]) - 1)) with 1%nat.
  cbn [group_search]. change (at_ [0; 1] (Z.of_nat 0)) with (Ok (A := Z) 0).
  change (at_ [0; 1] (Z.of_nat 0 + 1)) with (Ok (A := Z) 1). cbn [rbind].
  unfold group_scan. rewrite for_loop_one. unfold group_scan_body at 1.
  rewrite Hat. cbn [rbind]. rewrite Hpos. cbn [rbind]. rewrite Hat.
  cbn [rbind]. rewrite Hfinal. reflexivity.
Qed.

(** C1, as the sources have it.  For a packed row with exactly one
    candidate, of column [c] and value [alpha], which step 1 and the
    grouping admit at the bound [choosePossible] left (as they do in exact
    arithmetic for a dual value feasible within the tolerance) and whose
    ratio is below 1e18: the ratio test returns [false] (no failure) with
    [workPivot = c], [workAlpha = alpha * sourceOut * move], no bound flip,
    and [workTheta = workDual[c] / workAlpha] if [workDual[c] * move > 0],
    and [workTheta = 0] if not. *)
Theorem ratio_test_single_candidate (fuel : nat) (r : HDualRow F) :
  packed_in_range r -> packCount r <= Z.of_nat (length (workData r)) ->
  candidates r = [(c, a)] ->
  at_ (workMove r) c = Ok move -> at_ (workDual r) c = Ok dual ->
  at_ (workRange r) c = Ok range ->
  let relax := (dual * of_int move + dual_feasibility_tolerance (workHMO r))%F in
  let theta0 := lower_bound HIGHS_CONST_INF (relax, a) in
  (of_int 0 <? a)%F = true ->
  (tight <=? a * (of_int 10 * theta0 + lit_1e_7))%F = true ->
  (theta0 <? lit_1e18)%F = true ->
  (tight <=? theta0 * a)%F = true ->
  (tight / a <? lit_1e18)%F = true ->
  (fmin (lit_0_1 * a) (of_int 1) <? a)%F = true ->
  (forall hv hi, (maxheapsort hv hi 1).2 = hi) ->
  exists r', ratio_test maxheapsort (S fuel) r = Ok (r', false)
    /\ workPivot r' = c
    /\ workAlpha r' = (a * of_int (sourceOut_of (workDelta r)) * of_int move)%F
    /\ workTheta r'
       = (if (of_int 0 <? dual * of_int move)%F
          then (dual / workAlpha r')%F else of_int 0)
    /\ workCount r' = 0.
Proof.
  intros Hok Hlen Hcand Hmove Hdual Hrange relax theta0
    Hpos Hstep1 Hsel Hquad Hratio Hfinal Hsort.
  destruct (choosePossible_loop r Hok Hlen) as (data & Hrun & Htake & Hdl).
  rewrite Hcand in Hrun, Htake. cbn [length] in Hrun, Htake.
  assert (Htests : running_bound (tests r) = theta0).
  { unfold tests. rewrite Hcand.
    change (omap (test_of r) [(c, a)])
      with (match test_of r (c, a) with Some y => [y] | None => [] end).
    unfold test_of. cbn [fst snd]. rewrite Hdual, Hmove. reflexivity. }
  rewrite Htests in Hrun.
  assert (Hat : at_ data 0 = Ok (c, a)).
  { apply at_Ok_inv. split; [lia |]. change (Z.to_nat 0) with 0%nat.
    rewrite <- (lookup_take_lt data 1 0) by lia. rewrite Htake. reflexivity. }
  unfold ratio_test, choosePossible. rewrite Hrun. cbn [rbind].
  set (r1 := set_workTheta (set_work r (Z.of_nat 1) data) theta0).
  unfold chooseFinal.
  rewrite (reduce_large_step_single fuel r1 eq_refl Hat Hmove Hdual Hrange Hstep1).
  cbn [rbind].
  set (r2 := set_alt (set_work r1 1 (workData r1)) 1 (workData r1)
               (sorted_workData r1) (alt_workGroup r1)).
  rewrite (chooseFinalWorkGroupQuad_single fuel r2 eq_refl Hat Hmove Hdual
             Hrange Hsel Hquad).
  cbn [rbind negb].
  set (r3 := set_workGroup (set_work r2 1 (workData r2)) [0; 1]).
  rewrite (chooseFinalWorkGroupHeap_single r3 eq_refl Hat Hmove Hdual Hrange
             Hratio Hquad Hsort).
  cbn [rbind].
  set (sorted := <[0%nat := (c, a)]>
                   (resize (sorted_workData r3) 1 (0, of_int 0))).
  set (r4 := set_alt r3 1 (original_workData r3) sorted [0; 1]).
  assert (Hsorted : at_ sorted 0 = Ok (c, a)).
  { apply at_Ok_inv. split; [lia |]. apply list_lookup_insert_eq.
    rewrite length_resize. lia. }
  assert (Hla : chooseFinalLargeAlpha r4 (workData r4) (workGroup r4) = Ok (0, 0)).
  { exact (chooseFinalLargeAlpha_single r4 data eq_refl Hat Hpos Hfinal). }
  assert (Hala : chooseFinalLargeAlpha r4 (sorted_workData r4) (alt_workGroup r4)
                 = Ok (0, 0)).
  { exact (chooseFinalLargeAlpha_single r4 sorted eq_refl Hsorted Hpos Hfinal). }
  rewrite Hla. cbn [rbind]. rewrite Hala. cbn [rbind].
  unfold choose_pivot.
  change (at_ (workData r4) 0) with (at_ data 0). rewrite Hat. cbn [rbind].
  change (at_ (workMove r4) c) with (at_ (workMove r) c). rewrite Hmove.
  cbn [rbind].
  change (at_ (workDual r4) c) with (at_ (workDual r) c). rewrite Hdual.
  cbn [rbind].
  change (at_ (sorted_workData r4) 0) with (at_ sorted 0). rewrite Hsorted.
  cbn [rbind]. rewrite Z.eqb_refl. cbn [negb rbind].
  change (at_ (workGroup r4) 0) with (Ok (A := Z) 0). cbn [rbind].
  rewrite for_loop_empty by lia. cbn [rbind].
  eexists. split; [reflexivity |]. cbn.
  split; [reflexivity |]. split; [reflexivity |]. split; [reflexivity |].
  destruct (_ =? _)%F; reflexivity.
Qed.

End SingleCandidate.

End ChooseFinalProofs.

(** ** The examples run *)

Lemma sort_by_value_one (heap_v : list float) (heap_i : list Z) :
  (Examples.sort_by_value heap_v heap_i 1).2 = heap_i.
Proof. reflexivity. Defined.

Lemma row_z_in_range : DualRow.packed_in_range Examples.row_z.
Proof.
  split; [simpl; lia |]. split; [simpl; lia |].
  intros e He. apply list_elem_of_In in He. simpl in He.
  destruct He as [<- | []]; simpl; lia.
Defined.

Lemma row_p_in_range : DualRow.packed_in_range Examples.row_p.
Proof.
  split; [simpl; lia |]. split; [simpl; lia |].
  intros e He. apply list_elem_of_In in He. simpl in He.
  destruct He as [<- | []]; simpl; lia.
Defined.

Lemma ratio_test_single_candidate_witness :
  exists r', DualRow.ratio_test Examples.sort_by_value 1 Examples.row_p
             = Ok (r', false)
    /\ DualRow.workPivot r' = 0
    /\ DualRow.workAlpha r' = 2%float
    /\ DualRow.workTheta r' = 2%float
    /\ DualRow.workCount r' = 0.
Proof.
  destruct (ratio_test_single_candidate Examples.sort_by_value
              0 2%float 4%float 10%float 1 0 Examples.row_p
              row_p_in_range ltac:(simpl; lia) eq_refl eq_refl eq_refl eq_refl
              eq_refl eq_refl eq_refl eq_refl eq_refl eq_refl
              sort_by_value_one)
    as (r' & Hrun & Hpivot & Halpha & Htheta & Hcount).
  exists r'. split; [exact Hrun |]. split; [exact Hpivot |].
  split; [exact Halpha |]. split; [| exact Hcount].
  rewrite Htheta, Halpha. reflexivity.
Defined.

(** C1 as the specification words it fails on [row_q].  Its one packed
    column, of value 1.3 and dual value 2e9, passes the tolerance and is
    the only candidate; [choosePossible] leaves the bound
    (2e9 + 1e-7) / 1.3, whose product with 1.3 rounds to
    1999999999.9999998, below the dual value.  The grouping of
    [chooseFinal] so admits nothing, and the ratio test, whenever it
    returns, returns [true], the failure signal, with no column selected
    ([workPivot] is left at -1). *)
Lemma ratio_test_not_as_specified :
  DualRow.candidates Examples.row_q = [(0, 1.3%float)]
  /\ DualRow.ratio_test Examples.sort_by_value 2 Examples.row_q
     = Ok (Examples.row_q_failed, true)
  /\ (forall fuel r' b,
        DualRow.ratio_test Examples.sort_by_value fuel Examples.row_q
        = Ok (r', b) ->
        b = true /\ DualRow.workPivot r' = -1)
  /\ ~ Examples.ratio_test_as_specified Examples.row_q.
Proof.
  split; [vm_compute; reflexivity |].
  split; [vm_compute; reflexivity |].
  assert (Hall : forall fuel r' b,
            DualRow.ratio_test Examples.sort_by_value fuel Examples.row_q
            = Ok (r', b) ->
            b = true /\ DualRow.workPivot r' = -1).
  { intros [| [| fuel]] r' b H; vm_compute in H; try discriminate H.
    injection H as <- <-. split; reflexivity. }
  split; [exact Hall |].
  intros H.
  destruct (H 2%nat 0 1.3%float Examples.row_q_failed true) as [Hb _];
    [vm_compute; reflexivity | vm_compute; reflexivity | discriminate Hb].
Qed.

Lemma chooseFinal_zero_step_witness :
  exists r2 r3 ok,
    DualRow.reduce_large_step 2 Examples.row_z_possible = Ok r2
    /\ DualRow.chooseFinalWorkGroupQuad 2 r2 = Ok (r3, ok)
    /\ false = negb ok
    /\ (ok = false -> Examples.row_z_final = r3)
    /\ (ok = true ->
        exists dual move,
          at_ (DualRow.workDual Examples.row_z_final)
            (DualRow.workPivot Examples.row_z_final) = Ok dual
          /\ at_ (DualRow.workMove Examples.row_z_final)
               (DualRow.workPivot Examples.row_z_final) = Ok move
          /\ DualRow.workTheta Examples.row_z_final
             = (if (of_int 0 <? dual * of_int move)%F
                then (dual / DualRow.workAlpha Examples.row_z_final)%F
                else of_int 0)
          /\ ((DualRow.workTheta Examples.row_z_final =? of_int 0)%F = true ->
              DualRow.workCount Examples.row_z_final = 0)
          /\ ((of_int 0 <? dual * of_int move)%F = false ->
              DualRow.workTheta Examples.row_z_final = of_int 0
              /\ DualRow.workCount Examples.row_z_final = 0)).
Proof.
  exact (chooseFinal_zero_step Examples.sort_by_value 2
           Examples.row_z_possible Examples.row_z_final false eq_refl).
Defined.

Lemma row_g_entries_ok : DualRow.entries_ok Examples.row_g (DualRow.workData Examples.row_g).
Proof.
  intros j Hj. cbn in Hj.
  assert (Hc : j = 0 \/ j = 1 \/ j = 2 \/ j = 3) by lia.
  destruct Hc as [-> | [-> | [-> | ->]]];
    (do 2 eexists; split; [reflexivity | split; [reflexivity | cbn; lia]]).
Defined.

Lemma data_g_entries_ok : DualRow.entries_ok Examples.row_g Examples.data_g.
Proof.
  intros j Hj. cbn in Hj.
  assert (Hc : j = 0 \/ j = 1 \/ j = 2 \/ j = 3) by lia.
  destruct Hc as [-> | [-> | [-> | ->]]];
    (do 2 eexists; split; [reflexivity | split; [reflexivity | cbn; lia]]).
Defined.

Lemma row_g_groups_ok : DualRow.groups_ok Examples.row_g (DualRow.workGroup Examples.row_g).
Proof.
  intros g Hg. cbn in Hg.
  assert (Hc : g = 0 \/ g = 1) by lia.
  destruct Hc as [-> | ->];
    (do 2 eexists; split; [reflexivity | split; [reflexivity | cbn; lia]]).
Defined.

Lemma row_g_permutation_injective : DualRow.permutation_injective Examples.row_g.
Proof.
  intros c c' p H1 H2.
  pose proof (at_Ok_range _ _ _ H1) as R1.
  pose proof (at_Ok_range _ _ _ H2) as R2. cbn in R1, R2.
  assert (Hc : c = 0 \/ c = 1 \/ c = 2 \/ c = 3) by lia.
  assert (Hc' : c' = 0 \/ c' = 1 \/ c' = 2 \/ c' = 3) by lia.
  destruct Hc as [-> | [-> | [-> | ->]]];
    destruct Hc' as [-> | [-> | [-> | ->]]];
    try reflexivity; vm_compute in H1, H2; congruence.
Defined.

Lemma row_g_same_entries (lo hi : Z) :
  (lo = 0 /\ hi = 4) \/ (lo = 0 /\ hi = 1) \/ (lo = 1 /\ hi = 4) ->
  DualRow.same_entries (DualRow.workData Examples.row_g) Examples.data_g lo hi.
Proof.
  intros Hb e. split; intros (j & [Hj Hat]);
    pose proof (at_Ok_range _ _ _ Hat) as Hr; cbn in Hr;
    assert (Hc : j = 0 \/ j = 1 \/ j = 2 \/ j = 3) by lia;
    destruct Hc as [-> | [-> | [-> | ->]]];
    vm_compute in Hat; injection Hat as <-;
    first [ exists 0; split; [lia | reflexivity]
          | exists 1; split; [lia | reflexivity]
          | exists 2; split; [lia | reflexivity]
          | exists 3; split; [lia | reflexivity] ].
Defined.

Lemma row_g_same_groups (g lo hi : Z) :
  at_ (DualRow.workGroup Examples.row_g) g = Ok lo ->
  at_ (DualRow.workGroup Examples.row_g) (g + 1) = Ok hi ->
  DualRow.same_entries (DualRow.workData Examples.row_g) Examples.data_g lo hi.
Proof.
  intros Hlo Hhi.
  pose proof (at_Ok_range _ _ _ Hlo) as R1.
  pose proof (at_Ok_range _ _ _ Hhi) as R2. cbn in R1, R2.
  assert (Hc : g = 0 \/ g = 1) by lia.
  destruct Hc as [-> | ->]; vm_compute in Hlo, Hhi;
    injection Hlo as <-; injection Hhi as <-; apply row_g_same_entries; lia.
Defined.


Lemma chooseFinalLargeAlpha_tie_break_witness :
  DualRow.chooseFinalLargeAlpha Examples.row_g
    (DualRow.workData Examples.row_g) (DualRow.workGroup Examples.row_g)
  = Ok (3, 1)
  /\ DualRow.chooseFinalLargeAlpha Examples.row_g Examples.data_g
       (DualRow.workGroup Examples.row_g)
     = Ok (1, 1)
  /\ at_ (DualRow.workData Examples.row_g) 3 = Ok (1, 2%float)
  /\ at_ Examples.data_g 1 = Ok (1, 2%float)
  /\ DualRow.best_of_group Examples.row_g (DualRow.workData Examples.row_g)
       1 4 3
  /\ DualRow.best_of_group Examples.row_g Examples.data_g 1 4 1.
Proof.
  assert (Hin : DualRow.in_group (DualRow.workData Examples.row_g) 1 4 1
                  (3, 2%float)) by (split; [lia | reflexivity]).
  destruct (chooseFinalLargeAlpha_tie_break Examples.row_g
              (DualRow.workData Examples.row_g) Examples.data_g
              (DualRow.workGroup Examples.row_g) 2%float 1 1 4 1 (3, 2%float)
              row_g_entries_ok data_g_entries_ok row_g_groups_ok
              row_g_permutation_injective
              (row_g_same_entries 0 4 ltac:(lia)) row_g_same_groups
              eq_refl eq_refl eq_refl Hin eq_refl)
    as (bi1 & bi2 & bg & blo & bhi & c & x
        & H1 & H2 & _ & Hlo & Hhi & Hat1 & Hat2 & Hb1 & Hb2).
  vm_compute in H1. injection H1 as <- <-.
  vm_compute in H2. injection H2 as <-.
  vm_compute in Hlo. injection Hlo as <-.
  vm_compute in Hhi. injection Hhi as <-.
  repeat split; [exact Hb1 | exact Hb2].
Defined.

(** ** The scenario of two candidates on binary64 *)

(** On the row with the candidates (column 3, value 2) and (column 7,
    value 1), dual values 4 and 0.5, both moving up, Td = 1e-7, required
    step 1 and ranges 10, the ratio test chooses column 7 with pivot value
    1 and step length 0.5, flips no bound and reports success. *)
Example ratio_test_two_candidates :
  exists r',
    DualRow.ratio_test Examples.sort_by_value 6 Examples.row_s = Ok (r', false)
    /\ DualRow.workPivot r' = 7
    /\ DualRow.workAlpha r' = 1%float
    /\ DualRow.workTheta r' = 0.5%float
    /\ DualRow.workCount r' = 0.
Proof.
  eexists. split; [vm_compute; reflexivity |].
  repeat split.
Qed.

(** * Further properties of the sources *)

(** ** The ageing of a cut, for any age limit *)

Section CutAgeingProofs.

Import CutPool.

Lemma ageLpCut_not_reported (nd : bool) (p p' : HighsCutPool)
    (cut agelimit : Z) (b : bool) :
  32768 <= agelimit -> ageLpCut nd p cut agelimit = Ok (p', b) -> b = false.
Proof.
  intros Hlim H. unfold ageLpCut in H.
  apply rbind_Ok_inv in H as (a & _ & H).
  apply rbind_Ok_inv in H as (_ & _ & H).
  apply rbind_Ok_inv in H as (ages1 & _ & H).
  destruct (agelimit =? INT_MIN); [discriminate |].
  assert (Hge : (to_int16 (a - 1) <? - agelimit) = false).
  { apply Z.ltb_ge. unfold to_int16.
    pose proof (Z.mod_pos_bound (a - 1 + 32768) 65536 ltac:(lia)). lia. }
  rewrite Hge in H. injection H as _ <-. reflexivity.
Qed.

(** X1: With an age limit in the range of [int16_t], a cut in the LP whose
    age is [a] is reported by call number [max(1, agelimit + a + 1)] of
    [ageLpCut] and by none before; the reporting call leaves the age at
    0, so that one more call fails the assertion of [ageLpCut]. *)
Theorem ageLpCut_first_report (NDEBUG : bool) (p : HighsCutPool)
    (cut a agelimit : Z) :
  age p cut = Ok a -> -32768 < a < 0 -> INT_MIN < agelimit < 32768 ->
  let n := Z.to_nat (Z.max 1 (agelimit + a + 1)) in
  exists p',
    ageLpCut_rounds NDEBUG n p cut agelimit
    = Ok (p', replicate (n - 1) false ++ [true])
    /\ age p' cut = Ok 0
    /\ ageLpCut false p' cut agelimit = AssertFailed.
Proof.
  intros Ha Hr Hlim n.
  assert (Hfail : forall q, age q cut = Ok 0 ->
            ageLpCut false q cut agelimit = AssertFailed).
  { intros q Hq. unfold ageLpCut, age in *. rewrite Hq. reflexivity. }
  destruct (Z.le_gt_cases a (- agelimit)) as [Hover | Hin].
  - (* the age is at the limit already: the first call reports *)
    assert (Hn : n = 1%nat) by (unfold n; lia).
    destruct (ageLpCut_step NDEBUG p cut a agelimit Ha ltac:(lia)
                ltac:(right; lia) ltac:(lia)) as (p1 & Hcall & Hage).
    assert (Hlt : (a - 1 <? - agelimit) = true) by (apply Z.ltb_lt; lia).
    rewrite Hlt in Hcall, Hage.
    exists p1. rewrite Hn. cbn [ageLpCut_rounds Nat.sub replicate app].
    rewrite Hcall. cbn [rbind]. auto.
  - pose (m := Z.to_nat (agelimit + a)).
    assert (Hn : n = (m + 1)%nat) by (unfold n, m; lia).
    destruct (ageLpCut_rounds_quiet NDEBUG m p cut a agelimit Ha ltac:(lia)
                ltac:(right; lia) ltac:(unfold m; lia) ltac:(lia))
      as (p1 & Hquiet & Hage1).
    replace (a - Z.of_nat m) with (- agelimit) in Hage1 by (unfold m; lia).
    destruct (ageLpCut_reports NDEBUG p1 cut agelimit Hage1 ltac:(lia)
                ltac:(right; lia)) as (p2 & Hcall & Hage2).
    exists p2. rewrite Hn. replace (m + 1 - 1)%nat with m by lia.
    split; [| auto].
    apply (ageLpCut_rounds_app NDEBUG m 1 p p1 p2 cut agelimit _ _ Hquiet).
    cbn [ageLpCut_rounds]. rewrite Hcall. reflexivity.
Qed.

(** X2: The ages are [int16_t]: with an age limit of 32768 or more no call
    of [ageLpCut] ever reports a cut, however many calls are made; and on
    a cut of age -32768 a call wraps the age to 32767, the age of a cut
    that is not in the LP. *)
Theorem ageLpCut_int16_limit (NDEBUG : bool) (cut agelimit : Z) :
  (32768 <= agelimit ->
   forall (n : nat) (p p' : HighsCutPool) (bs : list bool),
     ageLpCut_rounds NDEBUG n p cut agelimit = Ok (p', bs) ->
     bs = replicate n false)
  /\ (-32768 < agelimit ->
      forall p : HighsCutPool, age p cut = Ok (-32768) ->
        exists p', ageLpCut NDEBUG p cut agelimit = Ok (p', false)
          /\ age p' cut = Ok 32767).
Proof.
  split.
  - intros Hlim n. induction n as [| n IH]; intros p p' bs H.
    + simpl in H. injection H as _ <-. reflexivity.
    + cbn [ageLpCut_rounds] in H.
      apply rbind_Ok_inv in H as ([p1 b] & Hcall & H).
      apply rbind_Ok_inv in H as ([p2 bs'] & Hrest & H).
      injection H as _ <-.
      rewrite (ageLpCut_not_reported _ _ _ _ _ _ Hlim Hcall).
      rewrite (IH _ _ _ Hrest). reflexivity.
  - intros Hlim p Ha. unfold ageLpCut, age in *. rewrite Ha. cbn [rbind].
    pose proof (at_Ok_range _ _ _ Ha) as Hr.
    assert (Hassert : assert NDEBUG (-32768 <? 0) = Ok tt).
    { unfold assert. change (-32768 <? 0) with true.
      now rewrite orb_true_r. }
    rewrite Hassert. cbn [rbind].
    change (to_int16 (-32768 - 1)) with 32767.
    rewrite put_in_range by exact Hr. cbn [rbind].
    destruct (Z.eqb_spec agelimit INT_MIN) as [E | _];
      [unfold INT_MIN in E; lia |].
    assert (Hge : (32767 <? - agelimit) = false) by (apply Z.ltb_ge; lia).
    rewrite Hge. eexists. split; [reflexivity |]. cbn [ages_ set_ages].
    apply at_Ok_inv. split; [lia |]. apply list_lookup_insert_eq. lia.
Qed.

(** X3: [resetAge] keeps a cut on its side (in the LP: negative age, or
    not), and a second [resetAge] changes nothing. *)
Theorem resetAge_idempotent (p p1 : HighsCutPool) (cut a : Z) :
  age p cut = Ok a -> resetAge p cut = Ok p1 ->
  resetAge p1 cut = Ok p1
  /\ exists a1, age p1 cut = Ok a1 /\ (a1 < 0 <-> a < 0).
Proof.
  intros Ha H1.
  destruct (resetAge_age p cut a Ha) as (q & Hq & Hage & _).
  rewrite Hq in H1. injection H1 as <-.
  split.
  - unfold resetAge. unfold age in Hage. rewrite Hage. cbn [rbind].
    pose proof (at_Ok_range _ _ _ Hage) as Hr.
    apply at_Ok_inv in Hage as [_ Hlk].
    assert (Hsame : (if (if a <? 0 then -1 else 0) <? 0
                     then -1 else 0) = (if a <? 0 then -1 else 0))
      by (destruct (a <? 0); reflexivity).
    destruct ((if a <? 0 then -1 else 0) <? 0) eqn:E;
      rewrite put_in_range by exact Hr; cbn [rbind]; f_equal;
      destruct q as [ages lim ep]; unfold set_ages; cbn [ages_ agelim_ epochs] in *;
      f_equal; apply list_insert_id; rewrite Hlk; f_equal;
      destruct (a <? 0); first [reflexivity | discriminate].
  - eexists. split; [exact Hage |].
    destruct (Z.ltb_spec a 0); lia.
Qed.

End CutAgeingProofs.

Lemma ageLpCut_first_report_witness :
  exists p',
    CutPool.ageLpCut_rounds false 2 Examples.pool_a 1 5
    = Ok (p', [false; true])
    /\ CutPool.age p' 1 = Ok 0
    /\ CutPool.ageLpCut false p' 1 5 = AssertFailed.
Proof.
  exact (ageLpCut_first_report false Examples.pool_a 1 (-4) 5 eq_refl
           ltac:(lia) ltac:(unfold CutPool.INT_MIN; lia)).
Defined.

Lemma resetAge_idempotent_witness :
  CutPool.resetAge (CutPool.set_ages Examples.pool_a [3; -1]) 1
  = Ok (CutPool.set_ages Examples.pool_a [3; -1])
  /\ exists a1,
       CutPool.age (CutPool.set_ages Examples.pool_a [3; -1]) 1 = Ok a1
       /\ (a1 < 0 <-> -4 < 0).
Proof.
  exact (resetAge_idempotent Examples.pool_a
           (CutPool.set_ages Examples.pool_a [3; -1]) 1 (-4) eq_refl eq_refl).
Defined.

(** ** The propagation domains of the pool *)

Section PropagationProofs.

Import CutPool.

Context {D : Type} `{EqDecision D}.

Lemma remove_scan_absent (n : nat) (l : list D) (d : D) :
  (n <= length l)%nat -> d ∉ l -> remove_scan n l d = Ok l.
Proof.
  intros Hn Hd. induction n as [| k IH]; [reflexivity |].
  cbn [remove_scan].
  destruct (lookup_lt_is_Some_2 l k ltac:(lia)) as [x Hx].
  assert (Hat : at_ l (Z.of_nat k) = Ok x).
  { apply at_Ok_inv. rewrite Nat2Z.id. split; [lia | exact Hx]. }
  rewrite Hat. cbn [rbind].
  rewrite bool_decide_eq_false_2.
  - apply IH. lia.
  - intros ->. apply Hd. eapply list_elem_of_lookup_2. exact Hx.
Qed.

Lemma remove_scan_last (n : nat) (l1 l2 : list D) (d : D) :
  (length l1 < n <= length (l1 ++ d :: l2))%nat -> d ∉ l2 ->
  remove_scan n (l1 ++ d :: l2) d = Ok (l1 ++ l2).
Proof.
  intros Hn Hd. induction n as [| k IH]; [lia |].
  cbn [remove_scan].
  destruct (lookup_lt_is_Some_2 (l1 ++ d :: l2) k ltac:(lia)) as [x Hx].
  assert (Hat : at_ (l1 ++ d :: l2) (Z.of_nat k) = Ok x).
  { apply at_Ok_inv. rewrite Nat2Z.id. split; [lia | exact Hx]. }
  rewrite Hat. cbn [rbind].
  destruct (decide (k = length l1)) as [-> | Hk].
  - rewrite list_lookup_middle in Hx by reflexivity. injection Hx as <-.
    rewrite bool_decide_eq_true_2 by reflexivity.
    f_equal. apply delete_middle.
  - rewrite lookup_app_r in Hx by lia.
    destruct (k - length l1)%nat as [| j] eqn:Ej; [lia |].
    cbn in Hx.
    rewrite bool_decide_eq_false_2.
    + apply IH. lia.
    + intros ->. apply Hd. eapply list_elem_of_lookup_2. exact Hx.
Qed.

(** X4: [removePropagationDomain] always returns; it erases the last
    registration of the domain and no other, and changes nothing when the
    domain is not registered. *)
Theorem removePropagationDomain_last (l : list D) (d : D) :
  (d ∉ l -> removePropagationDomain l d = Ok l)
  /\ (forall l1 l2, l = l1 ++ d :: l2 -> d ∉ l2 ->
        removePropagationDomain l d = Ok (l1 ++ l2))
  /\ exists l', removePropagationDomain l d = Ok l'.
Proof.
  assert (H1 : d ∉ l -> removePropagationDomain l d = Ok l).
  { intros Hd. apply remove_scan_absent; [lia | exact Hd]. }
  assert (H2 : forall l1 l2, l = l1 ++ d :: l2 -> d ∉ l2 ->
                 removePropagationDomain l d = Ok (l1 ++ l2)).
  { intros l1 l2 -> Hd. apply remove_scan_last; [| exact Hd].
    rewrite length_app. cbn [length]. lia. }
  split; [exact H1 |]. split; [exact H2 |].
  destruct (decide (d ∈ l)) as [Hin | Hout].
  - apply list_elem_of_split_r in Hin as (l1 & l2 & -> & Hd).
    eexists. apply H2; [reflexivity | exact Hd].
  - eexists. apply H1. exact Hout.
Qed.

(** X5: A domain that was added is removed again by
    [removePropagationDomain], which gives back the list of before, also
    when the domain was registered already. *)
Theorem removePropagationDomain_added (l : list D) (d : D) :
  removePropagationDomain (addPropagationDomain l d) d = Ok l.
Proof.
  unfold addPropagationDomain, removePropagationDomain.
  rewrite <- (app_nil_r l) at 3.
  apply remove_scan_last; [| apply not_elem_of_nil].
  rewrite length_app. cbn [length]. lia.
Qed.

End PropagationProofs.

(** ** Packing a row, and joining the candidates of two rows *)

Section PackProofs.

Context {F : Type} {A : Arith F}.

Import DualRow.

(** The first [n] passes of the loop of [chooseMakepack], while there is
    room in the packed arrays. *)
Lemma chooseMakepack_passes (r : HDualRow F) (row : HVector F) (offset n : Z) :
  row_in_range row -> offsets_in_int row offset ->
  0 <= packCount r -> 0 <= n <= count row ->
  packCount r + n <= Z.of_nat (length (packIndex r)) ->
  packCount r + n <= Z.of_nat (length (packValue r)) ->
  exists pIndex pValue,
    for_loop 0 n (chooseMakepack_body row offset)
      (packCount r, packIndex r, packValue r)
    = Ok (packCount r + n, pIndex, pValue)
    /\ length pIndex = length (packIndex r)
    /\ length pValue = length (packValue r)
    /\ take (Z.to_nat (packCount r + n)) (zip pIndex pValue)
       = packed_row r
         ++ omap (row_entry row offset) (take (Z.to_nat n) (index row)).
Proof.
  intros [Hcount Harr] Hint Hpc Hn Hci Hcv.
  pose (P := fun (i : Z) (s : Z * list Z * list F) =>
    s.1.1 = packCount r + i
    /\ length s.1.2 = length (packIndex r)
    /\ length s.2 = length (packValue r)
    /\ take (Z.to_nat (packCount r + i)) (zip s.1.2 s.2)
       = packed_row r
         ++ omap (row_entry row offset) (take (Z.to_nat i) (index row))).
  destruct (for_loop_total P 0 n (chooseMakepack_body row offset)
              (packCount r, packIndex r, packValue r) ltac:(lia))
    as ([[pc pi] pv] & Hrun & Hpc' & Hli & Hlv & Htake).
  - unfold P. cbn [fst snd]. split; [lia |]. do 2 (split; [reflexivity |]).
    rewrite Z.add_0_r. cbn [Z.to_nat take omap]. rewrite app_nil_r. reflexivity.
  - intros i [[pc pi] pv] Hi (Hpc' & Hli & Hlv & Htake). cbn [fst snd] in *.
    subst pc.
    destruct (lookup_lt_is_Some_2 (index row) (Z.to_nat i) ltac:(lia))
      as [idx Hidx].
    assert (Hin : idx ∈ take (Z.to_nat (count row)) (index row)).
    { apply elem_of_take. exists (Z.to_nat i). split; [exact Hidx | lia]. }
    destruct (at_in_range (array row) idx (Harr idx Hin)) as [v Hv].
    assert (Hat : at_ (index row) i = Ok idx).
    { apply at_Ok_inv. split; [lia | exact Hidx]. }
    unfold chooseMakepack_body. rewrite Hat. cbn [rbind]. rewrite Hv.
    cbn [rbind]. unfold int_add. rewrite (Hint idx Hin). cbn [rbind].
    rewrite put_in_range by lia. cbn [rbind].
    rewrite put_in_range by lia. cbn [rbind].
    eexists. split; [reflexivity |]. unfold P. cbn [fst snd].
    split; [lia |]. rewrite !length_insert. do 2 (split; [assumption |]).
    replace (Z.to_nat (packCount r + (i + 1)))
      with (S (Z.to_nat (packCount r + i))) by lia.
    replace (Z.to_nat (i + 1)) with (S (Z.to_nat i)) by lia.
    rewrite (take_S_r _ _ _ Hidx), omap_snoc.
    unfold row_entry at 2. rewrite Hv.
    rewrite app_assoc, <- Htake.
    rewrite <- (insert_zip_with pair).
    apply take_put_snoc. rewrite length_zip_with. lia.
  - exists pi, pv. unfold P in *. cbn [fst snd] in *. subst pc.
    repeat split; assumption.
Qed.

(** X7: [chooseMakepack] appends to the packed row the entries of the row
    vector, the indices shifted by [offset] and in the order of the
    vector, when the shifted indices are values of [int] and the packed
    arrays have room for the entries; it changes nothing else. *)
Theorem chooseMakepack_appends (r : HDualRow F) (row : HVector F) (offset : Z) :
  row_in_range row -> offsets_in_int row offset -> 0 <= packCount r ->
  packCount r + count row <= Z.of_nat (length (packIndex r)) ->
  packCount r + count row <= Z.of_nat (length (packValue r)) ->
  exists r',
    chooseMakepack r row offset = Ok r'
    /\ packCount r' = packCount r + count row
    /\ packed_row r' = packed_row r ++ row_entries row offset
    /\ length (packIndex r') = length (packIndex r)
    /\ length (packValue r') = length (packValue r)
    /\ r' = set_pack r (packCount r') (packIndex r') (packValue r').
Proof.
  intros Hrow Hint Hpc Hci Hcv.
  destruct (chooseMakepack_passes r row offset (count row) Hrow Hint Hpc
              ltac:(destruct Hrow; lia) Hci Hcv)
    as (pi & pv & Hrun & Hli & Hlv & Htake).
  unfold chooseMakepack. rewrite Hrun. cbn [rbind].
  eexists. split; [reflexivity |].
  cbn [set_pack packCount packIndex packValue].
  repeat split; try assumption.
Qed.

(** X8: [chooseMakepack] writes beyond the packed arrays, which is undefined
    behaviour, when the row vector has entries and more of them than the
    arrays have room left. *)
Theorem chooseMakepack_overflow (r : HDualRow F) (row : HVector F) (offset : Z) :
  row_in_range row -> 0 <= packCount r -> 0 < count row ->
  Z.of_nat (length (packIndex r)) < packCount r + count row
  \/ Z.of_nat (length (packValue r)) < packCount r + count row ->
  chooseMakepack r row offset = Undef.
Proof.
  intros [Hcount Harr] Hpc Hpos Hover.
  pose (P := fun (i : Z) (s : Z * list Z * list F) =>
    s.1.1 = packCount r + i
    /\ length s.1.2 = length (packIndex r)
    /\ length s.2 = length (packValue r)
    /\ (0 < i -> packCount r + i <= Z.of_nat (length (packIndex r))
                 /\ packCount r + i <= Z.of_nat (length (packValue r)))).
  unfold chooseMakepack, for_loop.
  destruct (for_range_Undef_or P (chooseMakepack_body row offset)
              (Z.to_nat (count row - 0)) 0
              (packCount r, packIndex r, packValue r))
    as [-> | (s' & _ & (_ & _ & _ & Hroom))]; [| | reflexivity |].
  - intros i [[pc pi] pv] Hi (Hpc' & Hli & Hlv & _). cbn [fst snd] in *.
    subst pc. unfold chooseMakepack_body.
    destruct (at_cases (index row) i) as [-> | [idx ->]];
      [left; reflexivity |]. cbn [rbind].
    destruct (at_cases (array row) idx) as [-> | [v ->]];
      [left; reflexivity |]. cbn [rbind].
    unfold int_add. destruct (in_int_range (idx + offset));
      [| left; reflexivity]. cbn [rbind]. unfold put.
    destruct ((0 <=? packCount r + i)
              && (packCount r + i <? Z.of_nat (length pi))) eqn:H1;
      [| left; reflexivity]. cbn [rbind].
    destruct ((0 <=? packCount r + i)
              && (packCount r + i <? Z.of_nat (length pv))) eqn:H2;
      [| left; reflexivity]. cbn [rbind].
    apply andb_true_iff in H1 as [_ H1%Z.ltb_lt].
    apply andb_true_iff in H2 as [_ H2%Z.ltb_lt].
    right. eexists. split; [reflexivity |]. unfold P. cbn [fst snd].
    rewrite !length_insert. split; [lia |]. do 2 (split; [assumption |]).
    intros _. lia.
  - unfold P. cbn [fst snd]. split; [lia |]. do 2 (split; [reflexivity |]).
    lia.
  - exfalso. specialize (Hroom ltac:(lia)). lia.
Qed.

(** X29: [chooseMakepack] adds [offset] to each index as an [int]: when
    the sum for one of the first [row->count] indices of the row vector
    is not a value of [int], the call is undefined behaviour, whatever
    the packed arrays. *)
Theorem chooseMakepack_int_overflow (r : HDualRow F) (row : HVector F)
    (offset idx : Z) :
  idx ∈ take (Z.to_nat (count row)) (index row) ->
  in_int_range (idx + offset) = false ->
  chooseMakepack r row offset = Undef.
Proof.
  intros Hin Hout.
  pose (P := fun (i : Z) (_ : Z * list Z * list F) =>
    forall j x, 0 <= j < i -> at_ (index row) j = Ok x ->
      in_int_range (x + offset) = true).
  unfold chooseMakepack, for_loop.
  destruct (for_range_Undef_or P (chooseMakepack_body row offset)
              (Z.to_nat (count row - 0)) 0
              (packCount r, packIndex r, packValue r))
    as [-> | (s' & _ & HP)]; [| | reflexivity |].
  - intros i [[pc pi] pv] Hi HP. unfold chooseMakepack_body.
    destruct (at_cases (index row) i) as [-> | [x Hx]];
      [left; reflexivity |]. rewrite Hx. cbn [rbind].
    destruct (at_cases (array row) x) as [-> | [v ->]];
      [left; reflexivity |]. cbn [rbind].
    unfold int_add. destruct (in_int_range (x + offset)) eqn:Hr;
      [| left; reflexivity]. cbn [rbind].
    unfold put. destruct (_ && _); [| left; reflexivity]. cbn [rbind].
    destruct (_ && _); [| left; reflexivity]. cbn [rbind].
    right. eexists. split; [reflexivity |]. intros j y Hj Hy.
    destruct (Z.eq_dec j i) as [-> | Hne]; [| apply (HP j y); [lia | exact Hy]].
    rewrite Hx in Hy. injection Hy as <-. exact Hr.
  - intros j x Hj. lia.
  - exfalso. apply elem_of_take in Hin as (k & Hk & Hlt).
    rewrite (HP (Z.of_nat k) idx) in Hout; [discriminate | lia |].
    apply at_Ok_inv. rewrite Nat2Z.id. split; [lia | exact Hk].
Qed.

(** X9: After [setupSlice(size)] the packed row is empty and a row vector of
    at most [size] entries, whose shifted indices are values of [int], is
    packed by [chooseMakepack] without leaving the arrays: the packed row
    is then the entries of the vector, and [workData] has room for as many
    candidates. *)
Theorem setupSlice_chooseMakepack (r : HDualRow F) (row : HVector F)
    (offset size : Z) :
  row_in_range row -> offsets_in_int row offset -> count row <= size ->
  exists r0 r1,
    setupSlice r size = Some r0
    /\ chooseMakepack r0 row offset = Ok r1
    /\ packCount r1 = count row
    /\ packed_row r1 = row_entries row offset
    /\ workCount r1 = 0
    /\ packCount r1 <= Z.of_nat (length (workData r1)).
Proof.
  intros Hrow Hint Hsize. pose proof Hrow as [Hcount _].
  unfold setupSlice. destruct (Z.ltb_spec size 0); [lia |].
  match goal with |- exists r0 r1, Some ?x = Some r0 /\ _ => set (r0' := x) end.
  destruct (chooseMakepack_passes r0' row offset (count row) Hrow Hint
              ltac:(simpl; lia) ltac:(lia))
    as (pi & pv & Hrun & Hli & Hlv & Htake).
  { subst r0'. cbn [packCount packIndex]. rewrite length_resize. lia. }
  { subst r0'. cbn [packCount packValue]. rewrite length_resize. lia. }
  exists r0', (set_pack r0' (packCount r0' + count row) pi pv).
  split; [reflexivity |].
  unfold chooseMakepack. rewrite Hrun. cbn [rbind].
  split; [reflexivity |]. cbn [set_pack packCount workCount workData].
  split; [subst r0'; cbn [packCount]; lia |].
  split; [| split].
  - unfold packed_row at 1. cbn [set_pack packCount packIndex packValue].
    rewrite Htake. unfold packed_row. subst r0'. cbn [packCount Z.to_nat take].
    reflexivity.
  - reflexivity.
  - subst r0'. cbn [packCount workData]. rewrite length_resize. lia.
Qed.

(** The loop of [chooseJoinpack]: [std::copy] into [workData]. *)
Lemma chooseJoinpack_copy (data other : list (Z * F)) (base n : Z) :
  0 <= base -> 0 <= n <= Z.of_nat (length other) ->
  base + n <= Z.of_nat (length data) ->
  exists data',
    for_loop 0 n
      (fun i d => let* e := at_ other i in put d (base + i) e) data
    = Ok data'
    /\ length data' = length data
    /\ take (Z.to_nat (base + n)) data'
       = take (Z.to_nat base) data ++ take (Z.to_nat n) other
    /\ drop (Z.to_nat (base + n)) data' = drop (Z.to_nat (base + n)) data.
Proof.
  intros Hbase Hn Hroom.
  pose (P := fun (i : Z) (d : list (Z * F)) =>
    length d = length data
    /\ take (Z.to_nat (base + i)) d
       = take (Z.to_nat base) data ++ take (Z.to_nat i) other
    /\ drop (Z.to_nat (base + i)) d = drop (Z.to_nat (base + i)) data).
  destruct (for_loop_total P 0 n
              (fun i d => let* e := at_ other i in put d (base + i) e) data
              ltac:(lia)) as (d & Hrun & HP).
  - unfold P. rewrite Z.add_0_r. cbn [Z.to_nat take]. rewrite app_nil_r. auto.
  - intros i d Hi (Hlen & Htake & Hdrop).
    destruct (lookup_lt_is_Some_2 other (Z.to_nat i) ltac:(lia)) as [e He].
    assert (Hat : at_ other i = Ok e).
    { apply at_Ok_inv. split; [lia | exact He]. }
    rewrite Hat. cbn [rbind]. rewrite put_in_range by lia.
    eexists. split; [reflexivity |]. unfold P. rewrite length_insert.
    split; [exact Hlen |].
    replace (Z.to_nat (base + (i + 1))) with (S (Z.to_nat (base + i))) by lia.
    replace (Z.to_nat (i + 1)) with (S (Z.to_nat i)) by lia.
    split.
    + rewrite (take_S_r _ _ _ He), app_assoc, <- Htake.
      apply take_put_snoc. lia.
    + rewrite drop_insert_lt by lia.
      replace (S (Z.to_nat (base + i))) with (Z.to_nat (base + i) + 1)%nat
        by lia.
      rewrite <- !drop_drop. f_equal. exact Hdrop.
  - exists d. split; [exact Hrun |]. exact HP.
Qed.

(** X10: [chooseJoinpack] appends the candidates of the other row to those
    of this row, in their order, and leaves in [workTheta] the smaller of
    the two bounds (this row's own when neither is smaller); the entries
    of [workData] after the candidates are not touched. *)
Theorem chooseJoinpack_appends (r otherRow : HDualRow F) :
  0 <= workCount r ->
  0 <= workCount otherRow <= Z.of_nat (length (workData otherRow)) ->
  workCount r + workCount otherRow <= Z.of_nat (length (workData r)) ->
  exists r',
    chooseJoinpack r otherRow = Ok r'
    /\ workCount r' = workCount r + workCount otherRow
    /\ take (Z.to_nat (workCount r')) (workData r')
       = take (Z.to_nat (workCount r)) (workData r)
         ++ take (Z.to_nat (workCount otherRow)) (workData otherRow)
    /\ drop (Z.to_nat (workCount r')) (workData r')
       = drop (Z.to_nat (workCount r')) (workData r)
    /\ workTheta r' = fmin (workTheta r) (workTheta otherRow)
    /\ r' = set_workTheta (set_work r (workCount r') (workData r'))
              (workTheta r').
Proof.
  intros Hc Ho Hroom.
  destruct (chooseJoinpack_copy (workData r) (workData otherRow) (workCount r)
              (workCount otherRow) Hc Ho Hroom)
    as (d & Hrun & Hlen & Htake & Hdrop).
  unfold chooseJoinpack. destruct (Z.ltb_spec (workCount otherRow) 0); [lia |].
  rewrite Hrun. cbn [rbind]. eexists. split; [reflexivity |].
  cbn [set_workTheta set_work workCount workData workTheta].
  repeat split; assumption.
Qed.

Lemma candidate_of_same (r r' : HDualRow F) (e : Z * F) :
  workHMO r = workHMO r' -> workDelta r = workDelta r' ->
  candidate_of r e = candidate_of r' e.
Proof.
  intros Hm Hd. unfold candidate_of, workMove. rewrite Hm, Hd. reflexivity.
Qed.

Lemma candidates_app (r r1 r2 : HDualRow F) :
  workHMO r1 = workHMO r -> workHMO r2 = workHMO r ->
  workDelta r1 = workDelta r -> workDelta r2 = workDelta r ->
  packed_row r = packed_row r1 ++ packed_row r2 ->
  candidates r = candidates r1 ++ candidates r2.
Proof.
  intros Hm1 Hm2 Hd1 Hd2 Hrow. unfold candidates. rewrite Hrow, omap_app.
  f_equal; apply list_omap_ext, Forall_Forall2_diag, Forall_forall;
    intros e _; apply candidate_of_same; congruence.
Qed.

Lemma length_candidates (r : HDualRow F) :
  packCount r <= Z.of_nat (length (workData r)) ->
  Z.of_nat (length (candidates r)) <= Z.of_nat (length (workData r)).
Proof.
  intros Hroom. unfold candidates.
  pose proof (length_omap_le (candidate_of r) (packed_row r)) as Hle.
  unfold packed_row in Hle at 2. rewrite length_take in Hle. lia.
Qed.

(** X11: A row packed in two slices: [choosePossible] on each slice followed
    by [chooseJoinpack] leaves the candidates that [choosePossible] finds
    on the whole row, in the same order, and for [workTheta] the smaller
    of the bounds of the two slices. *)
Theorem choosePossible_slices (r r1 r2 : HDualRow F) :
  packed_in_range r -> packCount r <= Z.of_nat (length (workData r)) ->
  packed_in_range r1 -> packCount r1 <= Z.of_nat (length (workData r1)) ->
  packed_in_range r2 -> packCount r2 <= Z.of_nat (length (workData r2)) ->
  workHMO r1 = workHMO r -> workHMO r2 = workHMO r ->
  workDelta r1 = workDelta r -> workDelta r2 = workDelta r ->
  packed_row r = packed_row r1 ++ packed_row r2 ->
  Z.of_nat (length (candidates r)) <= Z.of_nat (length (workData r1)) ->
  exists rw r1' r2' r',
    choosePossible r = Ok rw
    /\ choosePossible r1 = Ok r1'
    /\ choosePossible r2 = Ok r2'
    /\ chooseJoinpack r1' r2' = Ok r'
    /\ workCount r' = workCount rw
    /\ take (Z.to_nat (workCount rw)) (workData r')
       = take (Z.to_nat (workCount rw)) (workData rw)
    /\ take (Z.to_nat (workCount rw)) (workData rw) = candidates r
    /\ workTheta r' = fmin (workTheta r1') (workTheta r2').
Proof.
  intros Hr Hroom Hr1 Hroom1 Hr2 Hroom2 Hm1 Hm2 Hd1 Hd2 Hrow Hjoin.
  pose proof (candidates_app r r1 r2 Hm1 Hm2 Hd1 Hd2 Hrow) as Hcand.
  destruct (choosePossible_loop r Hr Hroom) as (dw & Hw & Htw & Hlw).
  destruct (choosePossible_loop r1 Hr1 Hroom1) as (d1 & H1 & Ht1 & Hl1).
  destruct (choosePossible_loop r2 Hr2 Hroom2) as (d2 & H2 & Ht2 & Hl2).
  pose proof (length_candidates r2 Hroom2) as Hc2.
  assert (Hlen : length (candidates r)
                 = (length (candidates r1) + length (candidates r2))%nat)
    by (rewrite Hcand; apply length_app).
  assert (Hn2 : 0 <= Z.of_nat (length (candidates r2))
                <= Z.of_nat (length d2)) by lia.
  assert (Hn1 : Z.of_nat (length (candidates r1))
                + Z.of_nat (length (candidates r2))
                <= Z.of_nat (length d1)).
  { lia. }
  destruct (chooseJoinpack_copy d1 d2 (Z.of_nat (length (candidates r1)))
              (Z.of_nat (length (candidates r2))) ltac:(lia) Hn2 Hn1)
    as (d & Hcopy & Hld & Htd & _).
  eexists. eexists. eexists. eexists.
  split; [unfold choosePossible; rewrite Hw; reflexivity |].
  split; [unfold choosePossible; rewrite H1; reflexivity |].
  split; [unfold choosePossible; rewrite H2; reflexivity |].
  cbn [set_workTheta set_work workCount workData workTheta].
  split.
  { unfold chooseJoinpack.
    cbn [set_workTheta set_work workCount workData workTheta].
    destruct (Z.ltb_spec (Z.of_nat (length (candidates r2))) 0); [lia |].
    rewrite Hcopy. reflexivity. }
  cbn [set_workTheta set_work workCount workData workTheta].
  split; [lia |]. rewrite Nat2Z.id.
  split; [| split; [exact Htw | reflexivity]].
  rewrite Htw, Hlen, Hcand. rewrite <- Ht1 at 2. rewrite <- Ht2 at 2.
  replace (Z.to_nat (Z.of_nat (length (candidates r1))
                     + Z.of_nat (length (candidates r2))))
    with (length (candidates r1) + length (candidates r2))%nat in Htd by lia.
  rewrite !Nat2Z.id in Htd. exact Htd.
Qed.

End PackProofs.

Lemma vec_a_in_range : DualRow.row_in_range Examples.vec_a.
Proof.
  split; [simpl; lia |].
  intros idx H. apply list_elem_of_In in H. simpl in H.
  destruct H as [<- | [<- | []]]; simpl; lia.
Defined.

Lemma vec_a_offsets_in_int : DualRow.offsets_in_int Examples.vec_a 4.
Proof.
  intros idx H. apply list_elem_of_In in H. simpl in H.
  destruct H as [<- | [<- | []]]; reflexivity.
Defined.

Lemma chooseMakepack_appends_witness :
  exists r',
    DualRow.chooseMakepack (DualRow.clear Examples.row_a) Examples.vec_a 4
    = Ok r'
    /\ DualRow.packCount r' = 0 + 2
    /\ DualRow.packed_row r'
       = DualRow.packed_row (DualRow.clear Examples.row_a)
         ++ DualRow.row_entries Examples.vec_a 4
    /\ length (DualRow.packIndex r')
       = length (DualRow.packIndex (DualRow.clear Examples.row_a))
    /\ length (DualRow.packValue r')
       = length (DualRow.packValue (DualRow.clear Examples.row_a))
    /\ r' = DualRow.set_pack (DualRow.clear Examples.row_a)
              (DualRow.packCount r') (DualRow.packIndex r')
              (DualRow.packValue r').
Proof.
  exact (chooseMakepack_appends (DualRow.clear Examples.row_a) Examples.vec_a 4
           vec_a_in_range vec_a_offsets_in_int ltac:(simpl; lia)
           ltac:(simpl; lia) ltac:(simpl; lia)).
Defined.

Lemma chooseMakepack_overflow_witness :
  DualRow.chooseMakepack Examples.row_a Examples.vec_a 4 = Undef.
Proof.
  exact (chooseMakepack_overflow Examples.row_a Examples.vec_a 4
           vec_a_in_range ltac:(simpl; lia) ltac:(simpl; lia)
           ltac:(left; simpl; lia)).
Defined.

Lemma chooseMakepack_int_overflow_witness :
  DualRow.chooseMakepack (DualRow.clear Examples.row_a) Examples.vec_a
    2147483647 = Undef.
Proof.
  exact (chooseMakepack_int_overflow (DualRow.clear Examples.row_a)
           Examples.vec_a 2147483647 2
           ltac:(apply list_elem_of_In; simpl; auto) eq_refl).
Defined.

Lemma setupSlice_chooseMakepack_witness :
  exists r0 r1,
    DualRow.setupSlice Examples.row_a 2 = Some r0
    /\ DualRow.chooseMakepack r0 Examples.vec_a 4 = Ok r1
    /\ DualRow.packCount r1 = 2
    /\ DualRow.packed_row r1 = DualRow.row_entries Examples.vec_a 4
    /\ DualRow.workCount r1 = 0
    /\ DualRow.packCount r1 <= Z.of_nat (length (DualRow.workData r1)).
Proof.
  exact (setupSlice_chooseMakepack Examples.row_a Examples.vec_a 4 2
           vec_a_in_range vec_a_offsets_in_int ltac:(simpl; lia)).
Defined.

Lemma chooseJoinpack_appends_witness :
  exists r',
    DualRow.chooseJoinpack Examples.row_a_possible Examples.row_a_possible
    = Ok r'
    /\ DualRow.workCount r' = 2 + 2
    /\ take (Z.to_nat (DualRow.workCount r')) (DualRow.workData r')
       = take (Z.to_nat 2) (DualRow.workData Examples.row_a_possible)
         ++ take (Z.to_nat 2) (DualRow.workData Examples.row_a_possible)
    /\ drop (Z.to_nat (DualRow.workCount r')) (DualRow.workData r')
       = drop (Z.to_nat (DualRow.workCount r'))
           (DualRow.workData Examples.row_a_possible)
    /\ DualRow.workTheta r'
       = fmin (DualRow.workTheta Examples.row_a_possible)
           (DualRow.workTheta Examples.row_a_possible)
    /\ r' = DualRow.set_workTheta
              (DualRow.set_work Examples.row_a_possible
                 (DualRow.workCount r') (DualRow.workData r'))
              (DualRow.workTheta r').
Proof.
  exact (chooseJoinpack_appends Examples.row_a_possible Examples.row_a_possible
           ltac:(simpl; lia) ltac:(simpl; lia) ltac:(simpl; lia)).
Defined.

Lemma row_a1_in_range : DualRow.packed_in_range Examples.row_a1.
Proof.
  split; [simpl; lia |]. split; [simpl; lia |].
  intros e He. apply list_elem_of_In in He. simpl in He.
  destruct He as [<- | [<- | []]]; simpl; lia.
Defined.

Lemma row_a2_in_range : DualRow.packed_in_range Examples.row_a2.
Proof.
  split; [simpl; lia |]. split; [simpl; lia |].
  intros e He. apply list_elem_of_In in He. simpl in He.
  destruct He as [<- | []]; simpl; lia.
Defined.

Lemma choosePossible_slices_witness :
  exists rw r1' r2' r',
    DualRow.choosePossible Examples.row_a = Ok rw
    /\ DualRow.choosePossible Examples.row_a1 = Ok r1'
    /\ DualRow.choosePossible Examples.row_a2 = Ok r2'
    /\ DualRow.chooseJoinpack r1' r2' = Ok r'
    /\ DualRow.workCount r' = DualRow.workCount rw
    /\ take (Z.to_nat (DualRow.workCount rw)) (DualRow.workData r')
       = take (Z.to_nat (DualRow.workCount rw)) (DualRow.workData rw)
    /\ take (Z.to_nat (DualRow.workCount rw)) (DualRow.workData rw)
       = DualRow.candidates Examples.row_a
    /\ DualRow.workTheta r'
       = fmin (DualRow.workTheta r1') (DualRow.workTheta r2').
Proof.
  exact (choosePossible_slices Examples.row_a Examples.row_a1 Examples.row_a2
           row_a_in_range ltac:(simpl; lia)
           row_a1_in_range ltac:(simpl; lia)
           row_a2_in_range ltac:(simpl; lia)
           eq_refl eq_refl eq_refl eq_refl eq_refl
           ltac:(vm_compute; discriminate)).
Defined.

(** ** The list of free columns *)

Section SetProofs.

Import DualRow.

Lemma set_insert_last (x : Z) (s : list Z) :
  Forall (fun y => y < x) s -> set_insert x s = s ++ [x].
Proof.
  induction s as [| y s IH]; intros Hs; [reflexivity |].
  apply Forall_cons in Hs as [Hy Hs]. cbn [set_insert app].
  destruct (Z.ltb_spec x y); [lia |].
  destruct (Z.eqb_spec x y); [lia |].
  f_equal. apply IH. exact Hs.
Qed.

Lemma set_erase_spec (x : Z) (s : list Z) :
  StronglySorted Z.lt s ->
  (forall y, y ∈ set_erase x s <-> y ∈ s /\ y <> x)
  /\ StronglySorted Z.lt (set_erase x s).
Proof.
  induction s as [| z s IH]; intros Hs.
  - split; [| constructor]. intros y. cbn [set_erase].
    split; [intros H; apply elem_of_nil in H; contradiction | tauto].
  - apply StronglySorted_inv in Hs as [Hs Hz].
    destruct (IH Hs) as [IHmem IHsorted]. cbn [set_erase].
    destruct (Z.eqb_spec x z) as [-> | Hne].
    + split; [| exact Hs]. intros y. rewrite elem_of_cons. split.
      * intros Hy. split; [right; exact Hy |].
        rewrite Forall_forall in Hz. specialize (Hz y Hy). lia.
      * intros [[-> | Hy] Hneq]; [contradiction | exact Hy].
    + split.
      * intros y. rewrite !elem_of_cons, IHmem. split.
        -- intros [-> | [Hy Hneq]]; [split; [left; reflexivity | lia] |].
           split; [right; exact Hy | exact Hneq].
        -- intros [[-> | Hy] Hneq]; [left; reflexivity | right; auto].
      * constructor; [exact IHsorted |].
        apply Forall_forall. intros y Hy. apply IHmem in Hy as [Hy _].
        rewrite Forall_forall in Hz. exact (Hz y Hy).
Qed.

(** X14: [deleteFreelist(iColumn)] takes the column out of the list of free
    columns and no other; a column that is not in the list, or an empty
    list, leaves the list as it is. *)
Theorem deleteFreelist_erases (freeList : list Z) (iColumn : Z) :
  StronglySorted Z.lt freeList ->
  (forall c, c ∈ deleteFreelist freeList iColumn <->
     c ∈ freeList /\ c <> iColumn)
  /\ StronglySorted Z.lt (deleteFreelist freeList iColumn)
  /\ (iColumn ∉ freeList -> deleteFreelist freeList iColumn = freeList).
Proof.
  intros Hs. unfold deleteFreelist, set_count.
  destruct freeList as [| z s] eqn:E.
  - split; [| split; [constructor | reflexivity]]. intros c. split.
    + intros H. apply elem_of_nil in H. contradiction.
    + intros [H _]. exact H.
  - rewrite <- E in *. clear E z s.
    destruct (decide (iColumn ∈ freeList)) as [Hin | Hout].
    + rewrite bool_decide_eq_true_2 by exact Hin. cbn [Z.eqb].
      destruct (set_erase_spec iColumn freeList Hs) as [Hmem Hsorted].
      split; [exact Hmem |]. split; [exact Hsorted |]. contradiction.
    + rewrite bool_decide_eq_false_2 by exact Hout. cbn [Z.eqb].
      split; [| split; [exact Hs | reflexivity]].
      intros c. split; [| tauto]. intros Hc. split; [exact Hc |].
      intros ->. contradiction.
Qed.

(** A loop over a set whose body keeps an invariant of the elements
    done and comes back. *)
Lemma for_each_total {T St : Type} (P : list T -> St -> Prop) (s : list T)
    (body : T -> St -> result St) (st : St) :
  P [] st ->
  (forall pre x st, P pre st -> x ∈ s ->
     exists st', body x st = Ok st' /\ P (pre ++ [x]) st') ->
  exists st', for_each s body st = Ok st' /\ P s st'.
Proof.
  intros H0 Hstep.
  assert (Hgen : forall post pre st, P pre st ->
            (forall x, x ∈ post -> x ∈ s) ->
            exists st', for_each post body st = Ok st' /\ P (pre ++ post) st').
  { induction post as [| x post IH]; intros pre st0 HP Hsub.
    - exists st0. rewrite app_nil_r. auto.
    - destruct (Hstep pre x st0 HP (Hsub x ltac:(left))) as (st1 & Hb & H1).
      destruct (IH (pre ++ [x]) st1 H1) as (st2 & Hr & H2).
      { intros y Hy. apply Hsub. right. exact Hy. }
      exists st2. cbn [for_each]. rewrite Hb. cbn [rbind].
      split; [exact Hr |]. rewrite <- app_assoc in H2. exact H2. }
  destruct (Hgen s [] st H0 ltac:(auto)) as (st' & Hr & HP).
  exists st'. auto.
Qed.

Lemma assert_passes (NDEBUG : bool) (c numCol_ : Z) :
  NDEBUG = true \/ c < numCol_ ->
  CutPool.assert NDEBUG (c <? numCol_) = Ok tt.
Proof.
  intros [-> | Hc]; unfold CutPool.assert; [reflexivity |].
  rewrite (proj2 (Z.ltb_lt c numCol_) Hc), orb_true_r. reflexivity.
Qed.

(** The moves after a loop that writes [target c] to each free column
    [c] for which there is one. *)
Lemma free_loop (NDEBUG : bool) (numCol_ : Z) (freeList : list Z)
    (move0 : list Z) (target : Z -> option Z)
    (body : Z -> list Z -> result (list Z)) :
  (forall c, c ∈ freeList ->
     0 <= c < Z.of_nat (length move0) /\ (NDEBUG = true \/ c < numCol_)) ->
  (forall c move, 0 <= c < Z.of_nat (length move) ->
     (NDEBUG = true \/ c < numCol_) ->
     body c move
     = match target c with Some m => put move c m | None => Ok move end) ->
  exists move,
    for_each freeList body move0 = Ok move
    /\ length move = length move0
    /\ (forall c, c ∈ freeList ->
          at_ move c
          = match target c with Some m => Ok m | None => at_ move0 c end)
    /\ (forall c, c ∉ freeList -> at_ move c = at_ move0 c).
Proof.
  intros Hrange Hbody.
  pose (P := fun (pre : list Z) (move : list Z) =>
    length move = length move0
    /\ (forall c, c ∈ pre ->
          at_ move c
          = match target c with Some m => Ok m | None => at_ move0 c end)
    /\ (forall c, c ∉ pre -> at_ move c = at_ move0 c)).
  destruct (for_each_total P freeList body move0) as (move & Hrun & HP).
  - split; [reflexivity |]. split; [| auto].
    intros c H. apply elem_of_nil in H. contradiction.
  - intros pre x move (Hlen & Hin & Hout) Hx.
    destruct (Hrange x Hx) as [Hr Hnd].
    rewrite (Hbody x move ltac:(lia) Hnd).
    destruct (target x) as [m |] eqn:Ht.
    + assert (Hput : put move x m = Ok (<[Z.to_nat x := m]> move))
        by (apply put_in_range; lia).
      rewrite Hput. eexists. split; [reflexivity |].
      split; [rewrite length_insert; exact Hlen |]. split.
      * intros c Hc. destruct (decide (c = x)) as [-> | Hne].
        -- rewrite Ht. apply at_Ok_inv. split; [lia |].
           apply list_lookup_insert_eq. lia.
        -- rewrite (at_put_ne _ _ _ c _ Hput) by lia.
           apply elem_of_app in Hc as [Hc | Hc]; [apply Hin; exact Hc |].
           apply list_elem_of_singleton in Hc. contradiction.
      * intros c Hc. rewrite not_elem_of_app, list_elem_of_singleton in Hc.
        destruct Hc as [Hpre Hne].
        rewrite (at_put_ne _ _ _ c _ Hput) by lia.
        apply Hout. exact Hpre.
    + exists move. split; [reflexivity |]. split; [exact Hlen |]. split.
      * intros c Hc. apply elem_of_app in Hc as [Hc | Hc]; [apply Hin; exact Hc |].
        apply list_elem_of_singleton in Hc as ->. rewrite Ht.
        destruct (decide (x ∈ pre)) as [Hp | Hp].
        -- rewrite (Hin x Hp), Ht. reflexivity.
        -- apply Hout. exact Hp.
      * intros c Hc. rewrite not_elem_of_app in Hc. apply Hout. tauto.
  - exists move. split; [exact Hrun |]. exact HP.
Qed.

End SetProofs.

Section FreeListProofs.

Context {F : Type} {A : Arith F}.

Import DualRow.

Variable highs_isInfinity : F -> bool.

(** X13: [createFreelist], when the bounds and flags of the columns are
    there, gives the nonbasic columns whose lower bound is minus infinity
    and whose upper bound is infinity, these and no others, in increasing
    order. *)
Theorem createFreelist_free_columns (r : HDualRow F) (numCol_ numRow_ : Z)
    (workLower_ workUpper_ : list F) :
  0 <= numCol_ + numRow_ ->
  numCol_ + numRow_ <= Z.of_nat (length (nonbasicFlag_ (workHMO r))) ->
  numCol_ + numRow_ <= Z.of_nat (length workLower_) ->
  numCol_ + numRow_ <= Z.of_nat (length workUpper_) ->
  exists freeList,
    createFreelist highs_isInfinity r numCol_ numRow_ workLower_ workUpper_
    = Ok freeList
    /\ (forall i, i ∈ freeList <->
          0 <= i < numCol_ + numRow_
          /\ free_column highs_isInfinity r workLower_ workUpper_ i)
    /\ StronglySorted Z.lt freeList.
Proof.
  intros Hn Hflag Hlower Hupper.
  pose (P := fun (n : Z) (s : list Z) =>
    (forall i, i ∈ s <->
       0 <= i < n /\ free_column highs_isInfinity r workLower_ workUpper_ i)
    /\ StronglySorted Z.lt s).
  destruct (for_loop_total P 0 (numCol_ + numRow_)
              (createFreelist_body highs_isInfinity r workLower_ workUpper_)
              [] Hn) as (s & Hrun & HP).
  - split; [| constructor]. intros i. split.
    + intros H. apply elem_of_nil in H. contradiction.
    + intros [H _]. lia.
  - intros i s Hi [Hmem Hsorted].
    destruct (at_in_range (nonbasicFlag_ (workHMO r)) i ltac:(lia))
      as [flag Hfl].
    destruct (at_in_range workLower_ i ltac:(lia)) as [lower Hlo].
    destruct (at_in_range workUpper_ i ltac:(lia)) as [upper Hup].
    assert (Hkeep : ~ free_column highs_isInfinity r workLower_ workUpper_ i ->
              P (i + 1) s).
    { intros Hnot. split; [| exact Hsorted]. intros x. rewrite Hmem.
      split; intros [Hx Hfree]; (split; [| exact Hfree]); [lia |].
      destruct (decide (x = i)) as [-> | Hne]; [contradiction | lia]. }
    unfold createFreelist_body. rewrite Hfl. cbn [rbind].
    destruct (Z.eqb_spec flag 0) as [Hz | Hnz].
    { eexists. split; [reflexivity |]. apply Hkeep.
      intros (fl & lo & up & Hfl' & Hne & _). congruence. }
    rewrite Hlo. cbn [rbind].
    destruct (highs_isInfinity (- lower)%F) eqn:Hil; cbn [negb].
    2:{ eexists. split; [reflexivity |]. apply Hkeep.
        intros (fl & lo & up & _ & _ & Hlo' & Hinf & _). congruence. }
    rewrite Hup. cbn [rbind].
    destruct (highs_isInfinity upper) eqn:Hiu.
    2:{ eexists. split; [reflexivity |]. apply Hkeep.
        intros (fl & lo & up & _ & _ & _ & _ & Hup' & Hinf). congruence. }
    assert (Hbelow : Forall (fun y => y < i) s).
    { apply Forall_forall. intros y Hy. apply Hmem in Hy. lia. }
    rewrite (set_insert_last i s Hbelow).
    eexists. split; [reflexivity |]. split.
    + intros x. rewrite elem_of_app, list_elem_of_singleton, Hmem.
      split.
      * intros [[Hx Hfree] | ->]; [split; [lia | exact Hfree] |].
        split; [lia |]. exists flag, lower, upper. auto 10.
      * intros [Hx Hfree].
        destruct (decide (x = i)) as [-> | Hne]; [right; reflexivity |].
        left. split; [lia | exact Hfree].
    + apply StronglySorted_app_2; [| exact Hsorted | repeat constructor].
      intros x1 x2 H1 H2. apply list_elem_of_singleton in H2 as ->.
      apply Hmem in H1. lia.
  - exists s. split; [exact Hrun |]. exact HP.
Qed.

End FreeListProofs.

Section FreeMoveProofs.

Context {F : Type} {A : Arith F}.

Import DualRow.

(** X16: [deleteFreemove] sets the direction of every free column to 0 and
    leaves every other column as it was. *)
Theorem deleteFreemove_zero (NDEBUG : bool) (numCol_ : Z) (freeList : list Z)
    (r : HDualRow F) :
  free_in_range NDEBUG numCol_ freeList r ->
  exists r',
    deleteFreemove NDEBUG numCol_ freeList r = Ok r'
    /\ (forall c, c ∈ freeList -> at_ (workMove r') c = Ok 0)
    /\ (forall c, c ∉ freeList -> at_ (workMove r') c = at_ (workMove r) c)
    /\ r' = set_workHMO r (set_nonbasicMove_ (workHMO r) (workMove r')).
Proof.
  intros Hrange. unfold deleteFreemove.
  destruct freeList as [| z s] eqn:E.
  - exists r. split; [reflexivity |]. split.
    + intros c H. apply elem_of_nil in H. contradiction.
    + split; [reflexivity |]. destruct r as [m]; destruct m; reflexivity.
  - rewrite <- E in *. clear E z s.
    destruct (free_loop NDEBUG numCol_ freeList (nonbasicMove_ (workHMO r))
                (fun _ => Some 0) (deleteFreemove_body NDEBUG numCol_) Hrange)
      as (move & Hrun & Hlen & Hin & Hout).
    { intros c move _ Hnd. unfold deleteFreemove_body.
      rewrite (assert_passes _ _ _ Hnd). reflexivity. }
    rewrite Hrun. cbn [rbind]. eexists. split; [reflexivity |].
    unfold workMove. cbn [set_workHMO set_nonbasicMove_ workHMO nonbasicMove_].
    auto.
Qed.

Variable compute_dot : Z -> F.

Lemma createFreemove_body_target (NDEBUG : bool) (numCol_ : Z) (r : HDualRow F)
    (c : Z) (move : list Z) :
  NDEBUG = true \/ c < numCol_ ->
  createFreemove_body compute_dot NDEBUG numCol_
    (Ta_of (update_count (workHMO r))) (sourceOut_of (workDelta r)) c move
  = match free_move compute_dot r c with
    | Some m => put move c m
    | None => Ok move
    end.
Proof.
  intros Hnd. unfold createFreemove_body, free_move.
  rewrite (assert_passes _ _ _ Hnd). cbn [rbind].
  destruct (_ <? fabs _)%F; [| reflexivity].
  destruct (of_int 0 <? _)%F; reflexivity.
Qed.

(** X15: [createFreemove] gives each free column whose value in the row is
    beyond the tolerance the direction 1 or -1, by the sign of the value
    times [sourceOut]; it leaves the direction of the other free columns
    and of every column that is not free as it was, and changes nothing
    else. *)
Theorem createFreemove_moves (NDEBUG : bool) (numCol_ : Z) (freeList : list Z)
    (r : HDualRow F) :
  free_in_range NDEBUG numCol_ freeList r ->
  exists r',
    createFreemove compute_dot NDEBUG numCol_ freeList r = Ok r'
    /\ (forall c, c ∈ freeList ->
          at_ (workMove r') c
          = match free_move compute_dot r c with
            | Some m => Ok m
            | None => at_ (workMove r) c
            end)
    /\ (forall c, c ∉ freeList -> at_ (workMove r') c = at_ (workMove r) c)
    /\ r' = set_workHMO r (set_nonbasicMove_ (workHMO r) (workMove r')).
Proof.
  intros Hrange. unfold createFreemove.
  destruct freeList as [| z s] eqn:E.
  - exists r. split; [reflexivity |]. split.
    + intros c H. apply elem_of_nil in H. contradiction.
    + split; [reflexivity |]. destruct r as [m]; destruct m; reflexivity.
  - rewrite <- E in *. clear E z s.
    destruct (free_loop NDEBUG numCol_ freeList (nonbasicMove_ (workHMO r))
                (free_move compute_dot r)
                (createFreemove_body compute_dot NDEBUG numCol_
                   (Ta_of (update_count (workHMO r)))
                   (sourceOut_of (workDelta r))) Hrange)
      as (move & Hrun & Hlen & Hin & Hout).
    { intros c move _ Hnd. apply createFreemove_body_target. exact Hnd. }
    rewrite Hrun. cbn [rbind]. eexists. split; [reflexivity |].
    unfold workMove. cbn [set_workHMO set_nonbasicMove_ workHMO nonbasicMove_].
    auto.
Qed.

(** X17: The free columns have the direction 0 between the ratio tests:
    [createFreemove] followed by [deleteFreemove] gives back the row and
    the solver object as they were. *)
Theorem createFreemove_deleteFreemove (NDEBUG : bool) (numCol_ : Z)
    (freeList : list Z) (r : HDualRow F) :
  free_in_range NDEBUG numCol_ freeList r ->
  (forall c, c ∈ freeList -> at_ (workMove r) c = Ok 0) ->
  exists r1,
    createFreemove compute_dot NDEBUG numCol_ freeList r = Ok r1
    /\ deleteFreemove NDEBUG numCol_ freeList r1 = Ok r.
Proof.
  intros Hrange Hzero. unfold createFreemove, deleteFreemove.
  destruct freeList as [| z s] eqn:E; [exists r; auto |].
  rewrite <- E in *. clear E z s.
  destruct (free_loop NDEBUG numCol_ freeList (nonbasicMove_ (workHMO r))
              (free_move compute_dot r)
              (createFreemove_body compute_dot NDEBUG numCol_
                 (Ta_of (update_count (workHMO r)))
                 (sourceOut_of (workDelta r))) Hrange)
    as (move1 & Hrun1 & Hlen1 & Hin1 & Hout1).
  { intros c move _ Hnd. apply createFreemove_body_target. exact Hnd. }
  destruct (free_loop NDEBUG numCol_ freeList move1
              (fun _ => Some 0) (deleteFreemove_body NDEBUG numCol_))
    as (move2 & Hrun2 & Hlen2 & Hin2 & Hout2).
  { intros c Hc. rewrite Hlen1. apply Hrange. exact Hc. }
  { intros c move _ Hnd. unfold deleteFreemove_body.
    rewrite (assert_passes _ _ _ Hnd). reflexivity. }
  rewrite Hrun1. cbn [rbind]. eexists. split; [reflexivity |].
  cbn [set_workHMO set_nonbasicMove_ workHMO nonbasicMove_].
  rewrite Hrun2. cbn [rbind].
  assert (Hsame : move2 = nonbasicMove_ (workHMO r)).
  { apply list_eq. intros n.
    assert (Hat : at_ move2 (Z.of_nat n)
                  = at_ (nonbasicMove_ (workHMO r)) (Z.of_nat n)).
    { destruct (decide (Z.of_nat n ∈ freeList)) as [Hf | Hf].
      - rewrite (Hin2 _ Hf). symmetry. apply Hzero. exact Hf.
      - rewrite (Hout2 _ Hf). apply Hout1. exact Hf. }
    unfold at_ in Hat. destruct (Z.ltb_spec (Z.of_nat n) 0); [lia |].
    rewrite Nat2Z.id in Hat.
    destruct (move2 !! n), (nonbasicMove_ (workHMO r) !! n); congruence. }
  rewrite Hsame. destruct r as [m]; destruct m; reflexivity.
Qed.

End FreeMoveProofs.

Lemma createFreelist_free_columns_witness :
  exists freeList,
    DualRow.createFreelist Examples.is_infinity Examples.row_a 3 1
      Examples.lower_a Examples.upper_a
    = Ok freeList
    /\ (forall i, i ∈ freeList <->
          0 <= i < 3 + 1
          /\ DualRow.free_column Examples.is_infinity Examples.row_a
               Examples.lower_a Examples.upper_a i)
    /\ StronglySorted Z.lt freeList.
Proof.
  exact (createFreelist_free_columns Examples.is_infinity Examples.row_a 3 1
           Examples.lower_a Examples.upper_a ltac:(lia) ltac:(simpl; lia)
           ltac:(simpl; lia) ltac:(simpl; lia)).
Defined.

Lemma deleteFreelist_erases_witness :
  (forall c, c ∈ DualRow.deleteFreelist [0; 2; 5] 2 <->
     c ∈ [0; 2; 5] /\ c <> 2)
  /\ StronglySorted Z.lt (DualRow.deleteFreelist [0; 2; 5] 2)
  /\ (2 ∉ [0; 2; 5] -> DualRow.deleteFreelist [0; 2; 5] 2 = [0; 2; 5]).
Proof.
  exact (deleteFreelist_erases [0; 2; 5] 2 ltac:(repeat constructor)).
Defined.

Lemma row_f_free_in_range :
  DualRow.free_in_range false 3 [0] Examples.row_f.
Proof.
  intros c Hc. apply list_elem_of_singleton in Hc. subst c.
  split; [simpl; lia | right; lia].
Defined.

Lemma createFreemove_moves_witness :
  exists r',
    DualRow.createFreemove Examples.dot_f false 3 [0] Examples.row_f = Ok r'
    /\ (forall c, c ∈ [0] ->
          at_ (DualRow.workMove r') c
          = match DualRow.free_move Examples.dot_f Examples.row_f c with
            | Some m => Ok m
            | None => at_ (DualRow.workMove Examples.row_f) c
            end)
    /\ (forall c, c ∉ [0] ->
          at_ (DualRow.workMove r') c = at_ (DualRow.workMove Examples.row_f) c)
    /\ r' = DualRow.set_workHMO Examples.row_f
              (DualRow.set_nonbasicMove_ (DualRow.workHMO Examples.row_f)
                 (DualRow.workMove r')).
Proof.
  exact (createFreemove_moves Examples.dot_f false 3 [0] Examples.row_f
           row_f_free_in_range).
Defined.

Lemma deleteFreemove_zero_witness :
  exists r',
    DualRow.deleteFreemove false 3 [0] Examples.row_f = Ok r'
    /\ (forall c, c ∈ [0] -> at_ (DualRow.workMove r') c = Ok 0)
    /\ (forall c, c ∉ [0] ->
          at_ (DualRow.workMove r') c = at_ (DualRow.workMove Examples.row_f) c)
    /\ r' = DualRow.set_workHMO Examples.row_f
              (DualRow.set_nonbasicMove_ (DualRow.workHMO Examples.row_f)
                 (DualRow.workMove r')).
Proof.
  exact (deleteFreemove_zero false 3 [0] Examples.row_f row_f_free_in_range).
Defined.

Lemma createFreemove_deleteFreemove_witness :
  exists r1,
    DualRow.createFreemove Examples.dot_f false 3 [0] Examples.row_f = Ok r1
    /\ DualRow.deleteFreemove false 3 [0] r1 = Ok Examples.row_f.
Proof.
  refine (createFreemove_deleteFreemove Examples.dot_f false 3 [0]
            Examples.row_f row_f_free_in_range _).
  intros c Hc. apply list_elem_of_singleton in Hc. subst c. reflexivity.
Defined.

(** ** The candidates through [chooseFinal] *)

Section ReorderProofs.

Context {F : Type} {A : Arith F}.

Import DualRow.

Lemma reordered_refl (n : Z) (data : list (Z * F)) : reordered n data data.
Proof. unfold reordered. auto. Qed.

Lemma reordered_trans (n : Z) (d1 d2 d3 : list (Z * F)) :
  reordered n d1 d2 -> reordered n d2 d3 -> reordered n d1 d3.
Proof.
  intros (Hl1 & Hp1 & Hd1) (Hl2 & Hp2 & Hd2). unfold reordered.
  split; [congruence |]. split; [etransitivity; eassumption | congruence].
Qed.

Lemma swap_reordered (n i j : Z) (data data' : list (Z * F)) :
  swap data i j = Ok data' -> i < n -> j < n -> reordered n data' data.
Proof.
  unfold swap. intros H Hi Hj.
  apply rbind_Ok_inv in H as (x & Hx & H).
  apply rbind_Ok_inv in H as (y & Hy & H).
  apply rbind_Ok_inv in H as (d1 & H1 & H2).
  apply put_Ok_inv in H1 as [Hri ->]. apply put_Ok_inv in H2 as [Hrj ->].
  apply at_Ok_inv in Hx as [_ Hx]. apply at_Ok_inv in Hy as [_ Hy].
  rewrite length_insert in Hrj.
  unfold reordered. rewrite !length_insert. split; [reflexivity |]. split.
  - rewrite !take_insert_lt by lia.
    apply Permutation_insert_swap; rewrite lookup_take_lt by lia; assumption.
  - rewrite !drop_insert_lt by lia. reflexivity.
Qed.

(** A pass of the loop of step 1. *)
Lemma large_step_pass (r : HDualRow F) (sT : F) (lo fullCount : Z)
    (data data' : list (Z * F)) (tc tc' : F) (count' : Z) :
  lo <= fullCount ->
  for_loop lo fullCount (large_step_body r sT) (lo, data, tc)
  = Ok (count', data', tc') ->
  lo <= count' <= fullCount /\ reordered fullCount data' data.
Proof.
  intros Hle Hrun.
  pose (P := fun (i : Z) (s : Z * list (Z * F) * F) =>
    lo <= s.1.1 <= i /\ reordered fullCount s.1.2 data).
  assert (HP : P fullCount (count', data', tc')).
  { eapply (for_loop_partial P) in Hrun; [exact Hrun | exact Hle | |].
    - split; [simpl; lia | apply reordered_refl].
    - intros i [[c d] t] [[c1 d1] t1] Hi [Hc Hd] Hb. cbn [fst snd] in *.
      unfold large_step_body in Hb.
      apply rbind_Ok_inv in Hb as ([iCol alpha] & _ & Hb).
      apply rbind_Ok_inv in Hb as (move & _ & Hb).
      apply rbind_Ok_inv in Hb as (dual & _ & Hb).
      destruct (_ <=? _)%F.
      + apply rbind_Ok_inv in Hb as (d2 & Hswap & Hb).
        apply rbind_Ok_inv in Hb as (rg & _ & Hb).
        injection Hb as <- <- _. split; [simpl; lia |]. cbn [fst snd].
        apply (reordered_trans _ _ d); [| exact Hd].
        apply (swap_reordered fullCount c i); [exact Hswap | lia | lia].
      + injection Hb as <- <- _. split; [simpl; lia | exact Hd]. }
  destruct HP as [Hc Hd]. cbn [fst snd] in *. auto.
Qed.

Lemma large_step_reorders (r : HDualRow F) (fullCount : Z) (totalDelta : F)
    (fuel : nat) :
  forall (count : Z) (data : list (Z * F)) (tc sT : F)
         (count' : Z) (data' : list (Z * F)),
  count <= fullCount ->
  large_step fuel r fullCount totalDelta count data tc sT = Ok (count', data') ->
  count <= count' <= fullCount /\ reordered fullCount data' data.
Proof.
  induction fuel as [| fuel IH]; intros count data tc sT count' data' Hle H;
    [discriminate |].
  cbn [large_step] in H.
  apply rbind_Ok_inv in H as ([[c1 d1] t1] & Hpass & H).
  apply large_step_pass in Hpass as [Hc1 Hd1]; [| exact Hle].
  destruct (_ || _).
  - injection H as <- <-. auto.
  - apply IH in H as [Hc2 Hd2]; [| lia].
    split; [lia |]. apply (reordered_trans _ _ d1); assumption.
Qed.

(** X18: Step 1 of [chooseFinal] keeps the candidates: it puts those it
    selects first, reordering the first [workCount] entries of [workData]
    and touching no other entry, and it changes nothing else but
    [workCount], now the number selected, and the copies it takes
    ([original_workData], [alt_workCount]). *)
Theorem reduce_large_step_reorders (fuel : nat) (r r' : HDualRow F) :
  0 <= workCount r -> reduce_large_step fuel r = Ok r' ->
  reordered (workCount r) (workData r') (workData r)
  /\ 0 <= workCount r' <= workCount r
  /\ original_workData r' = workData r'
  /\ alt_workCount r' = workCount r'
  /\ r' = set_alt (set_work r (workCount r') (workData r'))
            (alt_workCount r') (original_workData r')
            (sorted_workData r) (alt_workGroup r).
Proof.
  intros Hn H. unfold reduce_large_step in H.
  apply rbind_Ok_inv in H as ([c1 d1] & Hloop & H). injection H as <-.
  apply large_step_reorders in Hloop as [Hc Hd]; [| exact Hn].
  cbn [set_alt set_work workCount workData original_workData alt_workCount
       sorted_workData alt_workGroup].
  auto 10.
Qed.

(** A pass of the inner loop of [chooseFinalWorkGroupQuad]. *)
Lemma quad_pass_reorders (r : HDualRow F) (Td sT : F) (lo fullCount : Z)
    (data data' : list (Z * F)) (tc tc' rem rem' : F) (count' : Z) :
  lo <= fullCount ->
  for_loop lo fullCount (quad_body r Td sT) (lo, data, tc, rem)
  = Ok (count', data', tc', rem') ->
  lo <= count' <= fullCount /\ reordered fullCount data' data.
Proof.
  intros Hle Hrun.
  pose (P := fun (i : Z) (s : Z * list (Z * F) * F * F) =>
    lo <= s.1.1.1 <= i /\ reordered fullCount s.1.1.2 data).
  assert (HP : P fullCount (count', data', tc', rem')).
  { eapply (for_loop_partial P) in Hrun; [exact Hrun | exact Hle | |].
    - split; [simpl; lia | apply reordered_refl].
    - intros i [[[c d] t] rm] [[[c1 d1] t1] rm1] Hi [Hc Hd] Hb.
      cbn [fst snd] in *. unfold quad_body in Hb.
      apply rbind_Ok_inv in Hb as ([iCol value] & _ & Hb).
      apply rbind_Ok_inv in Hb as (move & _ & Hb).
      apply rbind_Ok_inv in Hb as (dual & _ & Hb).
      destruct (_ <=? _)%F.
      + apply rbind_Ok_inv in Hb as (d2 & Hswap & Hb).
        apply rbind_Ok_inv in Hb as (rg & _ & Hb).
        injection Hb as <- <- _ _. split; [simpl; lia |]. cbn [fst snd].
        apply (reordered_trans _ _ d); [| exact Hd].
        apply (swap_reordered fullCount c i); [exact Hswap | lia | lia].
      + destruct (_ <? _)%F; injection Hb as <- <- _ _;
          (split; [simpl; lia | exact Hd]). }
  destruct HP as [Hc Hd]. cbn [fst snd] in *. auto.
Qed.

Lemma sorted_below_last (l : list Z) (c : Z) :
  StronglySorted Z.le l -> last l = Some c -> forall x, x ∈ l -> x <= c.
Proof.
  induction 1 as [| a l Hs IH Ha]; intros Hlast x Hx.
  - apply elem_of_nil in Hx. contradiction.
  - destruct l as [| b l].
    + cbn in Hlast. injection Hlast as <-.
      apply list_elem_of_singleton in Hx as ->. lia.
    + change (last (a :: b :: l)) with (last (b :: l)) in Hlast.
      apply elem_of_cons in Hx as [-> | Hx]; [| apply IH; assumption].
      rewrite Forall_forall in Ha. apply Ha.
      rewrite last_lookup in Hlast.
      eapply list_elem_of_lookup_2. exact Hlast.
Qed.

Lemma group_bounds_snoc (group : list Z) (count count' : Z) :
  group_bounds group count -> count <= count' ->
  group_bounds (group ++ [count']) count'.
Proof.
  intros ([g ->] & Hs & Hlast) Hle. split; [exists (g ++ [count']); reflexivity |].
  split; [| apply last_snoc].
  apply StronglySorted_app_2; [| exact Hs | repeat constructor].
  intros x1 x2 H1 H2. apply list_elem_of_singleton in H2 as ->.
  pose proof (sorted_below_last _ _ Hs Hlast x1 H1). lia.
Qed.

Lemma quad_loop_groups (r : HDualRow F) (Td : F) (fullCount : Z)
    (totalDelta : F) (data0 : list (Z * F)) (fuel : nat) :
  forall (q : quad_state F) (count : Z) (data : list (Z * F))
         (group : list Z) (ok : bool),
  q_workCount q <= fullCount ->
  reordered fullCount (q_workData q) data0 ->
  group_bounds (q_workGroup q) (q_workCount q) ->
  quad_loop fuel r Td fullCount totalDelta q = Ok (count, data, group, ok) ->
  q_workCount q <= count <= fullCount
  /\ reordered fullCount data data0
  /\ group_bounds group count.
Proof.
  induction fuel as [| fuel IH]; intros q count data group ok Hle Hd Hg H;
    [discriminate |].
  cbn [quad_loop] in H. apply rbind_Ok_inv in H as (p & Hstep & H).
  unfold quad_step in Hstep. destruct (negb _).
  { injection Hstep as <-. injection H as <- <- <- _.
    split; [lia |]. auto. }
  apply rbind_Ok_inv in Hstep as ([[[c1 d1] t1] rm1] & Hpass & Hstep).
  apply quad_pass_reorders in Hpass as [Hc1 Hd1]; [| exact Hle].
  assert (Hd1' : reordered fullCount d1 data0)
    by (apply (reordered_trans _ _ (q_workData q)); assumption).
  assert (Hg1 : group_bounds (q_workGroup q ++ [c1]) c1)
    by (apply (group_bounds_snoc _ (q_workCount q)); [exact Hg | lia]).
  destruct (_ && _).
  { injection Hstep as <-. injection H as <- <- <- _. auto. }
  destruct (_ || _).
  { injection Hstep as <-. injection H as <- <- <- _. auto. }
  injection Hstep as <-.
  apply IH in H as (Hc2 & Hd2 & Hg2);
    cbn [q_workCount q_workData q_workGroup] in *; try assumption; [| lia].
  split; [lia |]. auto.
Qed.

(** X19: [chooseFinalWorkGroupQuad], when it returns, with either result,
    has reordered the candidates and touched no other entry of
    [workData]; [workCount] is the number it admitted; and the
    boundaries in [workGroup] start at 0, do not decrease, and end at
    [workCount].  Nothing else of the row is changed. *)
Theorem chooseFinalWorkGroupQuad_groups (fuel : nat) (r r' : HDualRow F)
    (ok : bool) :
  0 <= workCount r -> chooseFinalWorkGroupQuad fuel r = Ok (r', ok) ->
  reordered (workCount r) (workData r') (workData r)
  /\ 0 <= workCount r' <= workCount r
  /\ (exists g, workGroup r' = 0 :: g)
  /\ StronglySorted Z.le (workGroup r')
  /\ last (workGroup r') = Some (workCount r')
  /\ r' = set_workGroup (set_work r (workCount r') (workData r'))
            (workGroup r').
Proof.
  intros Hn H. unfold chooseFinalWorkGroupQuad in H.
  apply rbind_Ok_inv in H as ([[[c d] g] b] & Hloop & H).
  injection H as <- <-.
  apply (quad_loop_groups _ _ _ _ (workData r)) in Hloop
    as (Hc & Hd & Hex & Hs & Hl); cbn [quad_init q_workCount q_workData q_workGroup].
  - cbn [quad_init q_workCount] in Hc.
    cbn [set_workGroup set_work workCount workData workGroup]. auto 10.
  - exact Hn.
  - apply reordered_refl.
  - split; [exists []; reflexivity |]. split; [repeat constructor | reflexivity].
Qed.

End ReorderProofs.

Section ChooseFinalMoreProofs.

Context {F : Type} {A : Arith F}.

Import DualRow.

(** The entry a scan of a group returns lies in the group, if there is
    one. *)
Lemma group_scan_index (r : HDualRow F) (data : list (Z * F)) (lo hi : Z)
    (d : F) (i : Z) :
  group_scan r data lo hi = Ok (d, i) -> i = -1 \/ lo <= i < hi.
Proof.
  unfold group_scan. intros H.
  destruct (Z.le_gt_cases lo hi) as [Hle | Hgt].
  2:{ rewrite for_loop_empty in H by lia. injection H as _ <-. auto. }
  pose (P := fun (k : Z) (s : F * Z) => s.2 = -1 \/ lo <= s.2 < k).
  assert (HP : P hi (d, i)).
  { eapply (for_loop_partial P) in H; [exact H | exact Hle | |].
    - left. reflexivity.
    - intros k [dM iM] [dM' iM'] Hk HPk Hb. unfold P in *. cbn [snd] in *.
      unfold group_scan_body in Hb.
      apply rbind_Ok_inv in Hb as ([iCol v] & _ & Hb).
      destruct (dM <? v)%F; [injection Hb as _ <-; right; lia |].
      destruct (dM =? v)%F; [| injection Hb as _ <-; lia].
      apply rbind_Ok_inv in Hb as ([jCol w] & _ & Hb).
      apply rbind_Ok_inv in Hb as (pi & _ & Hb).
      apply rbind_Ok_inv in Hb as (pj & _ & Hb).
      destruct (pi <? pj); injection Hb as _ <-; lia. }
  exact HP.
Qed.

(** The break point [chooseFinalLargeAlpha] returns is an entry of the
    group it returns, if it returns one. *)
Lemma group_search_index (r : HDualRow F) (data : list (Z * F))
    (group : list Z) (fc : F) (n : nat) :
  forall bi bg, group_search n r data group fc = Ok (bi, bg) ->
  (bi = -1 /\ bg = -1)
  \/ exists lo hi c x,
       at_ group bg = Ok lo /\ at_ group (bg + 1) = Ok hi
       /\ lo <= bi < hi /\ at_ data bi = Ok (c, x).
Proof.
  induction n as [| n IH]; intros bi bg H.
  - injection H as <- <-. auto.
  - cbn [group_search] in H.
    apply rbind_Ok_inv in H as (lo & Hlo & H).
    apply rbind_Ok_inv in H as (hi & Hhi & H).
    apply rbind_Ok_inv in H as ([d iM] & Hscan & H).
    apply rbind_Ok_inv in H as ([c x] & Hat & H).
    destruct (fc <? x)%F; [| apply IH; exact H].
    injection H as <- <-. right. exists lo, hi, c, x.
    apply group_scan_index in Hscan as [-> | Hin].
    + rewrite at_minus_one in Hat. discriminate.
    + auto.
Qed.

Lemma choose_pivot_frame (r r' : HDualRow F) (bi bg abi : Z) :
  choose_pivot r bi bg abi = Ok r' ->
  r' = set_work (set_workTheta (set_pivot r (workPivot r') (workAlpha r'))
                   (workTheta r'))
         (workCount r') (workData r').
Proof.
  unfold choose_pivot. intros H.
  apply rbind_Ok_inv in H as ([pivot a] & _ & H).
  apply rbind_Ok_inv in H as (move & _ & H).
  apply rbind_Ok_inv in H as (dual & _ & H).
  apply rbind_Ok_inv in H as ([ap w] & _ & H).
  apply rbind_Ok_inv in H as (reported & _ & H).
  apply rbind_Ok_inv in H as (fe & _ & H).
  apply rbind_Ok_inv in H as ([c d] & _ & H).
  injection H as <-. reflexivity.
Qed.

Variable maxheapsort : list F -> list Z -> Z -> list F * list Z.

Lemma chooseFinalWorkGroupHeap_frame (r r' : HDualRow F) :
  chooseFinalWorkGroupHeap maxheapsort r = Ok r' ->
  r' = set_alt r (alt_workCount r') (original_workData r)
         (sorted_workData r') (alt_workGroup r').
Proof.
  unfold chooseFinalWorkGroupHeap. intros H.
  apply rbind_Ok_inv in H as ([[n hi] hv] & _ & H).
  destruct (maxheapsort hv hi n) as [hv' hi'].
  apply rbind_Ok_inv in H as (h & _ & H).
  injection H as <-. reflexivity.
Qed.

(** The steps of a call of [chooseFinal] that returned. *)
Lemma chooseFinal_Ok_inv (fuel : nat) (r r' : HDualRow F) (b : bool) :
  chooseFinal maxheapsort fuel r = Ok (r', b) ->
  exists r2 r3 ok,
    reduce_large_step fuel r = Ok r2
    /\ chooseFinalWorkGroupQuad fuel r2 = Ok (r3, ok)
    /\ b = negb ok
    /\ (ok = false -> r' = r3)
    /\ (ok = true ->
        exists r4 bi bg abi abg,
          chooseFinalWorkGroupHeap maxheapsort r3 = Ok r4
          /\ chooseFinalLargeAlpha r4 (workData r4) (workGroup r4)
             = Ok (bi, bg)
          /\ chooseFinalLargeAlpha r4 (sorted_workData r4) (alt_workGroup r4)
             = Ok (abi, abg)
          /\ choose_pivot r4 bi bg abi = Ok r').
Proof.
  unfold chooseFinal. intros H.
  apply rbind_Ok_inv in H as (r2 & H2 & H).
  apply rbind_Ok_inv in H as ([r3 ok] & H3 & H).
  exists r2, r3, ok. split; [exact H2 |]. split; [exact H3 |].
  destruct ok; cbn [negb] in H.
  - apply rbind_Ok_inv in H as (r4 & H4 & H).
    apply rbind_Ok_inv in H as ([bi bg] & Hb & H).
    apply rbind_Ok_inv in H as ([abi abg] & Hab & H).
    apply rbind_Ok_inv in H as (r5 & H5 & H).
    injection H as <- <-. split; [reflexivity |].
    split; [discriminate |]. intros _. exists r4, bi, bg, abi, abg. auto.
  - injection H as <- <-. split; [reflexivity |].
    split; [reflexivity | discriminate].
Qed.

Lemma reduce_large_step_frame (fuel : nat) (r r' : HDualRow F) :
  reduce_large_step fuel r = Ok r' ->
  r' = set_alt (set_work r (workCount r') (workData r'))
         (alt_workCount r') (original_workData r')
         (sorted_workData r) (alt_workGroup r).
Proof.
  unfold reduce_large_step. intros H.
  apply rbind_Ok_inv in H as ([c d] & _ & H). injection H as <-. reflexivity.
Qed.

Lemma chooseFinalWorkGroupQuad_frame (fuel : nat) (r r' : HDualRow F)
    (ok : bool) :
  chooseFinalWorkGroupQuad fuel r = Ok (r', ok) ->
  r' = set_workGroup (set_work r (workCount r') (workData r')) (workGroup r').
Proof.
  unfold chooseFinalWorkGroupQuad. intros H.
  apply rbind_Ok_inv in H as ([[[c d] g] b] & _ & H).
  injection H as <- <-. reflexivity.
Qed.

(** X21: [chooseFinal] works on the candidates alone: it changes neither
    the solver object (the dual values, the directions, the ranges) nor
    the packed row nor [workDelta]; and when it reports the failure of the
    grouping it has chosen nothing: [workPivot], [workAlpha] and
    [workTheta] are as they were. *)
Theorem chooseFinal_frame (fuel : nat) (r r' : HDualRow F) (b : bool) :
  chooseFinal maxheapsort fuel r = Ok (r', b) ->
  workHMO r' = workHMO r
  /\ packCount r' = packCount r
  /\ packIndex r' = packIndex r
  /\ packValue r' = packValue r
  /\ workDelta r' = workDelta r
  /\ computed_edge_weight r' = computed_edge_weight r
  /\ (b = true ->
      workPivot r' = workPivot r /\ workAlpha r' = workAlpha r
      /\ workTheta r' = workTheta r).
Proof.
  intros H.
  apply chooseFinal_Ok_inv in H as (r2 & r3 & ok & H2 & H3 & -> & Hfail & Hok).
  apply reduce_large_step_frame in H2. apply chooseFinalWorkGroupQuad_frame in H3.
  destruct ok; cbn [negb].
  - destruct (Hok eq_refl) as (r4 & bi & bg & abi & abg & H4 & _ & _ & H5).
    apply chooseFinalWorkGroupHeap_frame in H4. apply choose_pivot_frame in H5.
    rewrite H5, H4, H3, H2. cbn.
    repeat (split; [reflexivity |]). discriminate.
  - rewrite (Hfail eq_refl), H3, H2. cbn.
    repeat (split; [reflexivity |]). reflexivity.
Qed.

(** X22: The pivot [chooseFinal] chooses is one of the candidates it was
    given: [workPivot] is the column of one of the first [workCount]
    entries of [workData], and [workAlpha] is the value of that entry
    times [sourceOut] and the direction of the column. *)
Theorem chooseFinal_pivot_is_candidate (fuel : nat) (r r' : HDualRow F) :
  0 <= workCount r -> chooseFinal maxheapsort fuel r = Ok (r', false) ->
  exists j a move,
    0 <= j < workCount r
    /\ at_ (workData r) j = Ok (workPivot r', a)
    /\ at_ (workMove r) (workPivot r') = Ok move
    /\ workAlpha r'
       = (a * of_int (sourceOut_of (workDelta r)) * of_int move)%F.
Proof.
  intros Hn H.
  apply chooseFinal_Ok_inv in H as (r2 & r3 & ok & H2 & H3 & Hb & _ & Hok).
  destruct ok; [| discriminate].
  destruct (Hok eq_refl) as (r4 & bi & bg & abi & abg & H4 & Hbreak & _ & H5).
  pose proof (reduce_large_step_frame _ _ _ H2) as Hf2.
  pose proof (chooseFinalWorkGroupQuad_frame _ _ _ _ H3) as Hf3.
  pose proof (chooseFinalWorkGroupHeap_frame _ _ H4) as Hf4.
  assert (Hn2 : reordered (workCount r) (workData r2) (workData r)
                /\ 0 <= workCount r2 <= workCount r).
  { unfold reduce_large_step in H2.
    apply rbind_Ok_inv in H2 as ([c1 d1] & Hloop & H2). injection H2 as <-.
    apply large_step_reorders in Hloop as [Hc Hd]; [| exact Hn].
    cbn [set_alt set_work workCount workData]. auto. }
  destruct Hn2 as [Hre2 Hc2].
  assert (Hn3 : reordered (workCount r2) (workData r3) (workData r2)
                /\ group_bounds (workGroup r3) (workCount r3)
                /\ workCount r3 <= workCount r2).
  { unfold chooseFinalWorkGroupQuad in H3.
    apply rbind_Ok_inv in H3 as ([[[c d] g] okb] & Hloop & H3).
    injection H3 as <- _.
    apply (quad_loop_groups _ _ _ _ (workData r2)) in Hloop as (Hc & Hd & Hg).
    - cbn [set_workGroup set_work workCount workData workGroup]. split; [exact Hd |].
      split; [exact Hg | lia].
    - cbn [quad_init q_workCount]. lia.
    - apply reordered_refl.
    - split; [exists []; reflexivity |].
      split; [repeat constructor | reflexivity]. }
  destruct Hn3 as (Hre3 & (_ & Hsorted & Hlast) & Hc3).
  apply choose_pivot_spec in H5
    as (pivot & a & dual & move & Hat & Hmove & _ & Hhmo & Hpiv & Halpha & _).
  assert (Hdata4 : workData r4 = workData r3) by (rewrite Hf4; reflexivity).
  assert (Hgroup4 : workGroup r4 = workGroup r3) by (rewrite Hf4; reflexivity).
  assert (Hmove4 : workMove r4 = workMove r).
  { unfold workMove. rewrite Hf4, Hf3, Hf2. reflexivity. }
  assert (Hdelta4 : workDelta r4 = workDelta r).
  { rewrite Hf4, Hf3, Hf2. reflexivity. }
  unfold chooseFinalLargeAlpha in Hbreak.
  apply rbind_Ok_inv in Hbreak as (m & _ & Hbreak).
  apply group_search_index in Hbreak
    as [[-> _] | (lo & hi & c & x & _ & Hhi & Hin & _)].
  { rewrite at_minus_one in Hat. discriminate. }
  rewrite Hgroup4 in Hhi. rewrite Hdata4 in Hat.
  assert (Hhi' : hi <= workCount r3).
  { apply (sorted_below_last _ _ Hsorted Hlast).
    apply at_Ok_inv in Hhi as [_ Hhi]. eapply list_elem_of_lookup_2. exact Hhi. }
  assert (Hbi : 0 <= bi) by (apply at_Ok_range in Hat; lia).
  (* the entry is among the first [workCount r2] of [workData r3], hence
     of [workData r2], hence among the first [workCount r] of [workData r] *)
  apply at_Ok_inv in Hat as [_ Hat].
  assert (Hin3 : (pivot, a) ∈ take (Z.to_nat (workCount r2)) (workData r3)).
  { apply elem_of_take. exists (Z.to_nat bi). split; [exact Hat | lia]. }
  destruct Hre3 as (_ & Hperm3 & _). rewrite Hperm3 in Hin3.
  assert (Hin2 : (pivot, a) ∈ take (Z.to_nat (workCount r)) (workData r2)).
  { apply elem_of_take in Hin3 as (k & Hk & Hlt).
    apply elem_of_take. exists k. split; [exact Hk | lia]. }
  destruct Hre2 as (_ & Hperm2 & _). rewrite Hperm2 in Hin2.
  apply elem_of_take in Hin2 as (k & Hk & Hlt).
  exists (Z.of_nat k), a, move. rewrite Hpiv.
  split; [lia |]. split.
  - apply at_Ok_inv. rewrite Nat2Z.id. split; [lia | exact Hk].
  - rewrite <- Hmove4, <- Hdelta4. auto.
Qed.

End ChooseFinalMoreProofs.

Section ChooseFinalEdgeProofs.

Context {F : Type} {A : Arith F}.

Import DualRow.

Lemma swap_at (data data' : list (Z * F)) (i j k : Z) :
  swap data i j = Ok data' ->
  at_ data' k
  = if k =? j then at_ data i else if k =? i then at_ data j else at_ data k.
Proof.
  unfold swap. intros H.
  apply rbind_Ok_inv in H as (x & Hx & H).
  apply rbind_Ok_inv in H as (y & Hy & H).
  apply rbind_Ok_inv in H as (d1 & H1 & H2).
  destruct (Z.eqb_spec k j) as [-> | Hkj].
  - rewrite (at_put_eq _ _ _ _ H2). symmetry. exact Hx.
  - rewrite (at_put_ne _ _ _ k _ H2) by lia.
    destruct (Z.eqb_spec k i) as [-> | Hki].
    + rewrite (at_put_eq _ _ _ _ H1). symmetry. exact Hy.
    + apply (at_put_ne _ _ _ k _ H1). lia.
Qed.

(** After a pass of the loop of step 1 the entries from [workCount] on
    are those the pass did not select. *)
Lemma large_step_pass_rest (r : HDualRow F) (sT : F) (lo fullCount : Z)
    (data data' : list (Z * F)) (tc tc' : F) (count' : Z) :
  lo <= fullCount ->
  for_loop lo fullCount (large_step_body r sT) (lo, data, tc)
  = Ok (count', data', tc') ->
  forall j, count' <= j < fullCount ->
    exists e, at_ data' j = Ok e /\ not_selected r sT e.
Proof.
  intros Hle Hrun.
  pose (P := fun (i : Z) (s : Z * list (Z * F) * F) =>
    lo <= s.1.1 <= i
    /\ forall j, s.1.1 <= j < i ->
         exists e, at_ s.1.2 j = Ok e /\ not_selected r sT e).
  assert (HP : P fullCount (count', data', tc')).
  { eapply (for_loop_partial P) in Hrun; [exact Hrun | exact Hle | |].
    - split; [simpl; lia |]. intros j Hj. simpl in Hj. lia.
    - intros i [[c d] t] [[c1 d1] t1] Hi [Hc Hrest] Hb. cbn [fst snd] in *.
      unfold large_step_body in Hb.
      apply rbind_Ok_inv in Hb as ([iCol alpha] & Hat & Hb).
      apply rbind_Ok_inv in Hb as (move & Hmove & Hb).
      apply rbind_Ok_inv in Hb as (dual & Hdual & Hb).
      destruct (_ <=? _)%F eqn:Htest.
      + apply rbind_Ok_inv in Hb as (d2 & Hswap & Hb).
        apply rbind_Ok_inv in Hb as (rg & _ & Hb).
        injection Hb as <- <- _. split; [simpl; lia |]. cbn [fst snd].
        intros j Hj. rewrite (swap_at _ _ _ _ j Hswap).
        destruct (Z.eqb_spec j i) as [-> | Hji].
        * apply Hrest. lia.
        * destruct (Z.eqb_spec j c); [lia |]. apply Hrest. lia.
      + injection Hb as <- <- _. split; [simpl; lia |]. cbn [fst snd].
        intros j Hj. destruct (Z.eq_dec j i) as [-> | Hji].
        * exists (iCol, alpha). split; [exact Hat |].
          exists move, dual. auto.
        * apply Hrest. lia. }
  destruct HP as [_ Hrest]. exact Hrest.
Qed.

(** A pass over entries that are not selected changes nothing. *)
Lemma large_step_pass_idle (r : HDualRow F) (sT : F) (count fullCount : Z)
    (data : list (Z * F)) (tc : F) :
  (forall j, count <= j < fullCount ->
     exists e, at_ data j = Ok e /\ not_selected r sT e) ->
  for_loop count fullCount (large_step_body r sT) (count, data, tc)
  = Ok (count, data, tc).
Proof.
  intros Hrest.
  destruct (Z.le_gt_cases count fullCount) as [Hle | Hgt];
    [| apply for_loop_empty; lia].
  pose (P := fun (i : Z) (s : Z * list (Z * F) * F) => s = (count, data, tc)).
  destruct (for_loop_total P count fullCount (large_step_body r sT)
              (count, data, tc) Hle) as (s & Hrun & HP).
  - reflexivity.
  - intros i s Hi ->.
    destruct (Hrest i Hi) as ([iCol alpha] & Hat & move & dual & Hm & Hd & Ht).
    cbn [fst snd] in *. exists (count, data, tc). split; [| reflexivity].
    unfold large_step_body. rewrite Hat. cbn [rbind]. rewrite Hm. cbn [rbind].
    rewrite Hd. cbn [rbind]. rewrite Ht. reflexivity.
  - rewrite Hrun. f_equal. exact HP.
Qed.

(** The loop of step 1 at a bound that the multiplication by 10 leaves
    as it is, after a pass that did not end it: it never ends. *)
Lemma large_step_stuck (r : HDualRow F) (fullCount : Z) (totalDelta : F)
    (count : Z) (data : list (Z * F)) (tc sT : F) :
  (sT * of_int 10)%F = sT ->
  (forall j, count <= j < fullCount ->
     exists e, at_ data j = Ok e /\ not_selected r sT e) ->
  (totalDelta <=? tc)%F || (count =? fullCount) = false ->
  forall fuel,
    large_step fuel r fullCount totalDelta count data tc sT = OutOfFuel.
Proof.
  intros Hfix Hrest Htest fuel. induction fuel as [| fuel IH]; [reflexivity |].
  cbn [large_step]. rewrite (large_step_pass_idle _ _ _ _ _ _ Hrest).
  cbn [rbind]. rewrite Htest, Hfix. exact IH.
Qed.

Variable maxheapsort : list F -> list Z -> Z -> list F * list Z.

(** X25: [chooseFinal] may not return.  When the bound [selectTheta] of its
    step 1, [10 * workTheta + 1e-7], is one that the multiplication by 10
    leaves as it is (zero, as for [workTheta = -1e-8], or infinite), and
    the first pass of the loop neither selects every candidate nor
    reaches the required change [|workDelta|], no later pass does, and
    the loop [for (;;)] goes on for ever. *)
Theorem chooseFinal_never_ends (r : HDualRow F) (count1 : Z)
    (data1 : list (Z * F)) (tc1 : F) :
  let selectTheta := (of_int 10 * workTheta r + lit_1e_7)%F in
  (selectTheta * of_int 10)%F = selectTheta ->
  0 <= workCount r ->
  for_loop 0 (workCount r) (large_step_body r selectTheta)
    (0, workData r, of_int 0)
  = Ok (count1, data1, tc1) ->
  (fabs (workDelta r) <=? tc1)%F || (count1 =? workCount r) = false ->
  forall fuel, chooseFinal maxheapsort fuel r = OutOfFuel.
Proof.
  intros sT Hfix Hn Hpass Htest fuel.
  unfold chooseFinal, reduce_large_step. fold sT.
  destruct fuel as [| fuel]; [reflexivity |].
  cbn [large_step]. rewrite Hpass. cbn [rbind]. rewrite Htest, Hfix.
  rewrite (large_step_stuck r (workCount r) (fabs (workDelta r)) count1 data1
             tc1 sT Hfix); [reflexivity | | exact Htest].
  exact (large_step_pass_rest r sT 0 (workCount r) _ _ _ _ _ Hn Hpass).
Qed.

Lemma reduce_large_step_empty (fuel : nat) (r : HDualRow F) :
  workCount r = 0 ->
  reduce_large_step (S fuel) r
  = Ok (set_alt (set_work r 0 (workData r)) 0 (workData r)
          (sorted_workData r) (alt_workGroup r)).
Proof.
  intros H0. unfold reduce_large_step. rewrite H0. cbn [large_step].
  rewrite for_loop_empty by lia. cbn [rbind].
  rewrite Z.eqb_refl, orb_true_r. reflexivity.
Qed.

Lemma chooseFinalWorkGroupHeap_empty (r : HDualRow F) :
  alt_workCount r = 0 ->
  exists sorted,
    chooseFinalWorkGroupHeap maxheapsort r
    = Ok (set_alt r 0 (original_workData r) sorted [0]).
Proof.
  intros H0. unfold chooseFinalWorkGroupHeap. rewrite H0.
  rewrite for_loop_empty by lia. cbn [rbind].
  destruct (maxheapsort _ _ 0) as [hv hi].
  rewrite for_loop_empty by lia. cbn [rbind h_first_entry h_workCount].
  change (0 <? 0) with false. cbn [h_workGroup h_sorted]. eauto.
Qed.

Lemma chooseFinalLargeAlpha_empty (r : HDualRow F) (data : list (Z * F)) :
  workCount r = 0 ->
  chooseFinalLargeAlpha r data [0] = Ok (-1, -1)
  /\ chooseFinalLargeAlpha r data [0; 0] = Undef.
Proof.
  intros H0. unfold chooseFinalLargeAlpha, max_alpha. rewrite H0.
  rewrite for_loop_empty by lia. cbn [rbind length]. split; [reflexivity |].
  change (Z.to_nat (Z.of_nat 2 - 1)) with 1%nat. cbn [group_search].
  change (at_ [0; 0] (Z.of_nat 0)) with (@Ok Z 0).
  change (at_ [0; 0] (Z.of_nat 0 + 1)) with (@Ok Z 0).
  cbn [rbind]. unfold group_scan. rewrite for_loop_empty by lia.
  cbn [rbind]. rewrite at_minus_one. reflexivity.
Qed.

Context {O : ArithOrder F A}.

Lemma chooseFinalWorkGroupQuad_empty (fuel : nat) (r : HDualRow F) :
  workCount r = 0 -> (lit_1e100 <? lit_1e18)%F = false ->
  exists g, (g = [0] \/ g = [0; 0])
    /\ chooseFinalWorkGroupQuad (S fuel) r
       = Ok (set_workGroup (set_work r 0 (workData r)) g, true).
Proof.
  intros H0 Hlit. unfold chooseFinalWorkGroupQuad. rewrite H0.
  cbn [quad_loop]. unfold quad_step.
  cbn [quad_init q_selectTheta q_workCount q_workData q_workGroup
       q_totalChange q_prev_workCount q_prev_selectTheta q_prev_remainTheta].
  destruct (workTheta r <? lit_1e18)%F eqn:Hsel; cbn [negb].
  - rewrite for_loop_empty by lia. cbn [rbind].
    assert (Hne : (workTheta r =? lit_1e100)%F = false).
    { destruct (workTheta r =? lit_1e100)%F eqn:E; [| reflexivity].
      rewrite (flt_feq_l _ _ lit_1e18 E) in Hsel. congruence. }
    rewrite Hne. rewrite Z.eqb_refl. cbn [andb].
    rewrite orb_true_r. cbn [rbind app]. exists [0; 0]. auto.
  - cbn [rbind]. exists [0]. auto.
Qed.

(** X24: [chooseFinal] on a row without candidates ([workCount = 0]) reads
    [workData[-1]]: its behaviour is undefined.  (With no candidate there
    is no group from which to take a pivot, and the break point stays at
    -1.) *)
Theorem chooseFinal_no_candidates (fuel : nat) (r : HDualRow F) :
  workCount r = 0 -> (lit_1e100 <? lit_1e18)%F = false ->
  chooseFinal maxheapsort (S fuel) r = Undef.
Proof.
  intros H0 Hlit. unfold chooseFinal.
  rewrite (reduce_large_step_empty fuel r H0). cbn [rbind].
  set (r2 := set_alt _ _ _ _ _).
  destruct (chooseFinalWorkGroupQuad_empty fuel r2 eq_refl Hlit)
    as (g & Hg & Hquad).
  rewrite Hquad. cbn [rbind negb].
  set (r3 := set_workGroup _ _).
  destruct (chooseFinalWorkGroupHeap_empty r3 eq_refl) as (sorted & Hheap).
  rewrite Hheap. cbn [rbind].
  set (r4 := set_alt r3 _ _ _ _).
  destruct (chooseFinalLargeAlpha_empty r4 (workData r4) eq_refl) as [Hg1 Hg2].
  destruct (chooseFinalLargeAlpha_empty r4 (sorted_workData r4) eq_refl)
    as [Ha1 _].
  change (workGroup r4) with g. change (alt_workGroup r4) with [0].
  destruct Hg as [-> | ->].
  - rewrite Hg1. cbn [rbind]. rewrite Ha1. cbn [rbind].
    unfold choose_pivot. rewrite at_minus_one. reflexivity.
  - rewrite Hg2. reflexivity.
Qed.

End ChooseFinalEdgeProofs.

(** *** The examples run *)

Lemma reduce_large_step_reorders_witness :
  DualRow.reordered (DualRow.workCount Examples.row_a_possible)
    (DualRow.workData Examples.row_a_reduced)
    (DualRow.workData Examples.row_a_possible)
  /\ 0 <= DualRow.workCount Examples.row_a_reduced
       <= DualRow.workCount Examples.row_a_possible
  /\ DualRow.original_workData Examples.row_a_reduced
     = DualRow.workData Examples.row_a_reduced
  /\ DualRow.alt_workCount Examples.row_a_reduced
     = DualRow.workCount Examples.row_a_reduced
  /\ Examples.row_a_reduced
     = DualRow.set_alt
         (DualRow.set_work Examples.row_a_possible
            (DualRow.workCount Examples.row_a_reduced)
            (DualRow.workData Examples.row_a_reduced))
         (DualRow.alt_workCount Examples.row_a_reduced)
         (DualRow.original_workData Examples.row_a_reduced)
         (DualRow.sorted_workData Examples.row_a_possible)
         (DualRow.alt_workGroup Examples.row_a_possible).
Proof.
  exact (reduce_large_step_reorders (A := binary64) 3 Examples.row_a_possible
           Examples.row_a_reduced ltac:(simpl; lia)
           ltac:(vm_compute; reflexivity)).
Defined.

Lemma chooseFinalWorkGroupQuad_groups_witness :
  DualRow.reordered (DualRow.workCount Examples.row_a_reduced)
    (DualRow.workData Examples.row_a_grouped)
    (DualRow.workData Examples.row_a_reduced)
  /\ 0 <= DualRow.workCount Examples.row_a_grouped
       <= DualRow.workCount Examples.row_a_reduced
  /\ (exists g, DualRow.workGroup Examples.row_a_grouped = 0 :: g)
  /\ StronglySorted Z.le (DualRow.workGroup Examples.row_a_grouped)
  /\ last (DualRow.workGroup Examples.row_a_grouped)
     = Some (DualRow.workCount Examples.row_a_grouped)
  /\ Examples.row_a_grouped
     = DualRow.set_workGroup
         (DualRow.set_work Examples.row_a_reduced
            (DualRow.workCount Examples.row_a_grouped)
            (DualRow.workData Examples.row_a_grouped))
         (DualRow.workGroup Examples.row_a_grouped).
Proof.
  exact (chooseFinalWorkGroupQuad_groups (A := binary64) 6 Examples.row_a_reduced
           Examples.row_a_grouped true ltac:(simpl; lia)
           ltac:(vm_compute; reflexivity)).
Defined.

Lemma chooseFinal_frame_witness :
  DualRow.workHMO Examples.row_q_failed = DualRow.workHMO Examples.row_q_possible
  /\ DualRow.packCount Examples.row_q_failed
     = DualRow.packCount Examples.row_q_possible
  /\ DualRow.packIndex Examples.row_q_failed
     = DualRow.packIndex Examples.row_q_possible
  /\ DualRow.packValue Examples.row_q_failed
     = DualRow.packValue Examples.row_q_possible
  /\ DualRow.workDelta Examples.row_q_failed
     = DualRow.workDelta Examples.row_q_possible
  /\ DualRow.computed_edge_weight Examples.row_q_failed
     = DualRow.computed_edge_weight Examples.row_q_possible
  /\ (true = true ->
      DualRow.workPivot Examples.row_q_failed
      = DualRow.workPivot Examples.row_q_possible
      /\ DualRow.workAlpha Examples.row_q_failed
         = DualRow.workAlpha Examples.row_q_possible
      /\ DualRow.workTheta Examples.row_q_failed
         = DualRow.workTheta Examples.row_q_possible).
Proof.
  exact (chooseFinal_frame (A := binary64) Examples.sort_by_value 6
           Examples.row_q_possible Examples.row_q_failed true
           ltac:(vm_compute; reflexivity)).
Defined.

Lemma chooseFinal_pivot_is_candidate_witness :
  exists j a move,
    0 <= j < DualRow.workCount Examples.row_z_possible
    /\ at_ (DualRow.workData Examples.row_z_possible) j
       = Ok (DualRow.workPivot Examples.row_z_final, a)
    /\ at_ (DualRow.workMove Examples.row_z_possible)
         (DualRow.workPivot Examples.row_z_final) = Ok move
    /\ DualRow.workAlpha Examples.row_z_final
       = (a * of_int (DualRow.sourceOut_of
                        (DualRow.workDelta Examples.row_z_possible))
          * of_int move)%F.
Proof.
  exact (chooseFinal_pivot_is_candidate (A := binary64) Examples.sort_by_value 2
           Examples.row_z_possible Examples.row_z_final ltac:(simpl; lia)
           ltac:(vm_compute; reflexivity)).
Defined.

Lemma chooseFinal_never_ends_witness :
  DualRow.chooseFinal Examples.sort_by_value 1000 Examples.row_n_possible
  = OutOfFuel.
Proof.
  exact (chooseFinal_never_ends (A := binary64) Examples.sort_by_value Examples.row_n_possible
           1 [(0, 10%float); (1, 1%float)] 10%float
           ltac:(vm_compute; reflexivity) ltac:(simpl; lia)
           ltac:(vm_compute; reflexivity) ltac:(vm_compute; reflexivity)
           1000%nat).
Defined.

Lemma chooseFinal_no_candidates_witness :
  DualRow.chooseFinal Examples.sort_by_value 1 Examples.row_a = Undef.
Proof.
  exact (chooseFinal_no_candidates Examples.sort_by_value 0 Examples.row_a
           eq_refl eq_refl).
Defined.

(** ** The dual objective value in [updateDual] *)

Section ObjectiveProofs.

Context {F : Type} {A : Arith F}.

Import DualRow.

Lemma objective_change_snoc (r : HDualRow F) (theta : F) (row : list (Z * F))
    (e : Z * F) :
  fold_left (objective_step r theta) (row ++ [e]) (of_int 0)
  = objective_step r theta (fold_left (objective_step r theta) row (of_int 0)) e.
Proof. rewrite fold_left_app. reflexivity. Qed.

(** X26: [updateDual(theta)] adds to [updated_dual_objective_value] the sum,
    over the entries of the packed row and in their order, of
    [nonbasicFlag * (-workValue * (theta * packValue)) * cost]; of the
    solver object it changes the dual values and this sum only, and of
    the row nothing. *)
Theorem updateDual_objective (r : HDualRow F) (theta : F) :
  packed_in_range r ->
  exists r',
    updateDual r theta = Ok r'
    /\ updated_dual_objective_value (workHMO r')
       = (updated_dual_objective_value (workHMO r)
          + objective_change r theta)%F
    /\ length (workDual r') = length (workDual r)
    /\ r' = set_workHMO r
              (set_updated_dual_objective_value
                 (set_workDual_ (workHMO r) (workDual r'))
                 (updated_dual_objective_value (workHMO r'))).
Proof.
  intros (Hidx & Hval & Hrange).
  assert (Hloop : exists dual,
    for_loop 0 (packCount r) (updateDual_body r theta) (workDual r, of_int 0)
    = Ok (dual, objective_change r theta)
    /\ length dual = length (workDual r)).
  { destruct (Z.le_gt_cases 0 (packCount r)) as [Hn | Hn].
    2:{ exists (workDual r). rewrite for_loop_empty by lia.
        unfold objective_change, packed_row.
        replace (Z.to_nat (packCount r)) with O by lia. auto. }
    pose (P := fun (i : Z) (s : list F * F) =>
      length s.1 = length (workDual r)
      /\ s.2 = fold_left (objective_step r theta)
                 (take (Z.to_nat i) (zip (packIndex r) (packValue r)))
                 (of_int 0)).
    destruct (for_loop_total P 0 (packCount r) (updateDual_body r theta)
                (workDual r, of_int 0) Hn) as ([dual change] & Hrun & Hlen & Hch).
    - split; reflexivity.
    - intros i [dual change] Hi [Hlen Hch]. cbn [fst snd] in Hlen, Hch.
      destruct (packed_row_entry r i Hidx Hval Hi)
        as (c & v & Hc & Hv & Hz & Hin).
      destruct (Hrange _ Hin) as (Hd & _ & Hwv & Hnf & _).
      cbn [fst] in Hd, Hwv, Hnf.
      destruct (at_in_range dual c ltac:(lia)) as [d Hdc].
      destruct (at_in_range (workValue_ (workHMO r)) c ltac:(lia)) as [lv Hlv].
      destruct (at_in_range (nonbasicFlag_ (workHMO r)) c ltac:(lia))
        as [fl Hfl].
      unfold updateDual_body. rewrite Hc. cbn [rbind]. rewrite Hv. cbn [rbind].
      rewrite Hdc. cbn [rbind]. rewrite put_in_range by lia. cbn [rbind].
      rewrite Hlv. cbn [rbind]. rewrite Hfl. cbn [rbind].
      eexists. split; [reflexivity |]. split; cbn [fst snd].
      + rewrite length_insert. exact Hlen.
      + replace (Z.to_nat (i + 1)) with (S (Z.to_nat i)) by lia.
        rewrite (take_S_r _ _ _ Hz), objective_change_snoc, <- Hch.
        unfold objective_step. cbn [fst snd]. rewrite Hlv, Hfl. reflexivity.
    - exists dual. cbn [fst snd] in Hlen, Hch. subst change.
      split; [exact Hrun | exact Hlen]. }
  destruct Hloop as (dual & Hrun & Hlen).
  unfold updateDual. rewrite Hrun. cbn [rbind].
  eexists. split; [reflexivity |].
  unfold workDual.
  cbn [set_workHMO set_updated_dual_objective_value set_workDual_ workHMO
       updated_dual_objective_value workDual_].
  split; [reflexivity |]. split; [exact Hlen | reflexivity].
Qed.

End ObjectiveProofs.

Lemma updateDual_objective_witness :
  exists r',
    DualRow.updateDual Examples.row_a 0.25%float = Ok r'
    /\ DualRow.updated_dual_objective_value (DualRow.workHMO r')
       = (DualRow.updated_dual_objective_value (DualRow.workHMO Examples.row_a)
          + DualRow.objective_change Examples.row_a 0.25%float)%F
    /\ length (DualRow.workDual r') = length (DualRow.workDual Examples.row_a)
    /\ r' = DualRow.set_workHMO Examples.row_a
              (DualRow.set_updated_dual_objective_value
                 (DualRow.set_workDual_ (DualRow.workHMO Examples.row_a)
                    (DualRow.workDual r'))
                 (DualRow.updated_dual_objective_value (DualRow.workHMO r'))).
Proof. exact (updateDual_objective Examples.row_a 0.25%float row_a_in_range). Defined.

(** ** The set of cuts *)

Section CutSetProofs.

Context {F : Type} {A : Arith F}.

Import CutSet.

Lemma resize_lookup {T : Type} (v : list T) (n : Z) (d : T) (i : nat) :
  (i < Z.to_nat n)%nat ->
  DualRow.resize v n d !! i
  = Some (match v !! i with Some x => x | None => d end).
Proof.
  intros Hi. unfold DualRow.resize.
  destruct (v !! i) as [x |] eqn:E.
  - rewrite lookup_app_l by (rewrite length_take; apply lookup_lt_Some in E; lia).
    rewrite lookup_take_lt by lia. exact E.
  - apply lookup_ge_None in E.
    rewrite lookup_app_r by (rewrite length_take; lia).
    apply lookup_replicate_2. rewrite length_take. lia.
Qed.

(** X6: [resize(nnz)] keeps the cuts of the set and sizes the arrays for
    them: one lower and one upper bound for each cut, one row start more
    than there are cuts, and [nnz] indices and values.  Bounds that were
    there are kept; a new lower bound is minus infinity and a new upper
    bound is zero, so that lower bounds that were all minus infinity
    remain so.  A negative [nnz] is an error. *)
Theorem cutset_resize_sizes (s : HighsCutSet F) (nnz : Z) :
  (nnz < 0 -> resize s nnz = None)
  /\ (0 <= nnz ->
      exists s',
        resize s nnz = Some s'
        /\ cutindices s' = cutindices s
        /\ Z.of_nat (length (lower_ s')) = numCuts s
        /\ Z.of_nat (length (upper_ s')) = numCuts s
        /\ Z.of_nat (length (ARstart_ s')) = numCuts s + 1
        /\ Z.of_nat (length (ARindex_ s')) = nnz
        /\ Z.of_nat (length (ARvalue_ s')) = nnz
        /\ (forall i, (i < length (cutindices s))%nat ->
              lower_ s' !! i
              = Some (match lower_ s !! i with
                      | Some x => x
                      | None => (- HIGHS_CONST_INF)%F
                      end)
              /\ upper_ s' !! i
                 = Some (match upper_ s !! i with
                         | Some x => x
                         | None => of_int 0
                         end))
        /\ (Forall (fun x => x = (- HIGHS_CONST_INF)%F) (lower_ s) ->
            Forall (fun x => x = (- HIGHS_CONST_INF)%F) (lower_ s'))).
Proof.
  unfold resize, numCuts. split.
  - intros Hneg. destruct (Z.ltb_spec nnz 0); [reflexivity | lia].
  - intros Hnn. destruct (Z.ltb_spec nnz 0); [lia |].
    eexists. split; [reflexivity |].
    cbn [cutindices lower_ upper_ ARstart_ ARindex_ ARvalue_].
    rewrite !length_resize. split; [reflexivity |].
    do 5 (split; [lia |]). split.
    + intros i Hi. split; apply resize_lookup; lia.
    + intros Hall. unfold DualRow.resize. apply Forall_app. split.
      * apply Forall_take. exact Hall.
      * apply Forall_replicate. reflexivity.
Qed.

(** [clear] empties the set, and a [resize] after it leaves one row
    start and no bound, whatever lower bounds [clear] left behind. *)
Lemma clear_then_resize (s : HighsCutSet F) (nnz : Z) :
  0 <= nnz ->
  empty (clear s) = true /\ numCuts (clear s) = 0
  /\ lower_ (clear s) = lower_ s
  /\ resize (clear s) nnz
     = Some {| cutindices := []; ARstart_ := [0];
               ARindex_ := replicate (Z.to_nat nnz) 0;
               ARvalue_ := replicate (Z.to_nat nnz) (of_int 0);
               lower_ := []; upper_ := [] |}.
Proof.
  intros Hnn. do 3 (split; [reflexivity |]).
  unfold resize, numCuts, clear.
  cbn [cutindices lower_ upper_ ARstart_ ARindex_ ARvalue_ length].
  destruct (Z.ltb_spec nnz 0); [lia |].
  unfold DualRow.resize.
  change (Z.to_nat (Z.of_nat 0 + 1)) with 1%nat.
  change (Z.to_nat (Z.of_nat 0)) with 0%nat.
  rewrite !take_nil, take_0. cbn [length Nat.sub replicate app].
  rewrite !Nat.sub_0_r. reflexivity.
Qed.

End CutSetProofs.

(** ** The bound flips of [chooseFinal] *)

Section FlipProofs.

Context {F : Type} {A : Arith F}.

Import DualRow.

Lemma insert_pair_perm (x : Z * F) (l : list (Z * F)) :
  insert_pair x l ≡ₚ x :: l.
Proof.
  induction l as [| y l IH]; [reflexivity |]. cbn [insert_pair].
  destruct (pair_lt x y); [reflexivity |].
  rewrite IH. apply Permutation_swap.
Qed.

Lemma sort_prefix_perm (v : list (Z * F)) (n : Z) :
  0 <= n <= Z.of_nat (length v) ->
  take (Z.to_nat n) (sort_prefix v n) ≡ₚ take (Z.to_nat n) v.
Proof.
  intros Hn. unfold sort_prefix.
  assert (Hperm : foldr insert_pair [] (take (Z.to_nat n) v)
                  ≡ₚ take (Z.to_nat n) v).
  { induction (take (Z.to_nat n) v) as [| x l IH]; [reflexivity |].
    cbn [foldr]. rewrite insert_pair_perm, IH. reflexivity. }
  rewrite take_app_length'; [exact Hperm |].
  rewrite (Permutation_length Hperm), length_take. lia.
Qed.

(** The loop of step 4: entry [i] becomes the column of entry [i] with
    the change [move * range] of that column. *)
Lemma flip_loop (r : HDualRow F) (data data' : list (Z * F)) (n count : Z) :
  0 <= n ->
  for_loop 0 n (flip_body r) (0, data) = Ok (count, data') ->
  count = n /\ length data' = length data
  /\ forall i, 0 <= i < n ->
       exists col a move range,
         at_ data i = Ok (col, a)
         /\ at_ (workMove r) col = Ok move
         /\ at_ (workRange r) col = Ok range
         /\ at_ data' i = Ok (col, (of_int move * range)%F).
Proof.
  intros Hn Hrun.
  pose (P := fun (k : Z) (s : Z * list (Z * F)) =>
    s.1 = k /\ length s.2 = length data
    /\ (forall i, 0 <= i < k ->
          exists col a move range,
            at_ data i = Ok (col, a)
            /\ at_ (workMove r) col = Ok move
            /\ at_ (workRange r) col = Ok range
            /\ at_ s.2 i = Ok (col, (of_int move * range)%F))
    /\ (forall i, k <= i -> at_ s.2 i = at_ data i)).
  assert (HP : P n (count, data')).
  { eapply (for_loop_partial P) in Hrun; [exact Hrun | exact Hn | |].
    - split; [reflexivity |]. split; [reflexivity |].
      split; [intros i Hi; lia | reflexivity].
    - intros k [c d] [c1 d1] Hk (Hc & Hlen & Hdone & Hrest) Hb.
      cbn [fst snd] in *. subst c. unfold flip_body in Hb.
      apply rbind_Ok_inv in Hb as ([col a] & Hat & Hb).
      apply rbind_Ok_inv in Hb as (move & Hmove & Hb).
      apply rbind_Ok_inv in Hb as (range & Hrange & Hb).
      apply rbind_Ok_inv in Hb as (d2 & Hput & Hb).
      injection Hb as <- <-. unfold P. cbn [fst snd].
      split; [reflexivity |].
      split; [rewrite (put_length _ _ _ _ Hput); exact Hlen |]. split.
      + intros i Hi. destruct (Z.eq_dec i k) as [-> | Hne].
        * exists col, a, move, range. rewrite <- (Hrest k ltac:(lia)).
          rewrite (at_put_eq _ _ _ _ Hput). auto.
        * rewrite (at_put_ne _ _ _ i _ Hput) by lia. apply Hdone. lia.
      + intros i Hi. rewrite (at_put_ne _ _ _ i _ Hput) by lia.
        apply Hrest. lia. }
  destruct HP as (Hc & Hlen & Hdone & _). cbn [fst snd] in *. auto.
Qed.

(** What [choose_pivot] leaves as the list of flips. *)
Lemma choose_pivot_flips (r r' : HDualRow F) (bi bg abi : Z) :
  choose_pivot r bi bg abi = Ok r' ->
  exists flipEnd,
    at_ (workGroup r) bg = Ok flipEnd
    /\ (workCount r' = 0 \/ (0 <= flipEnd /\ workCount r' = flipEnd))
    /\ forall e, e ∈ take (Z.to_nat (workCount r')) (workData r') ->
         exists i a move range,
           0 <= i < flipEnd
           /\ at_ (workData r) i = Ok (e.1, a)
           /\ at_ (workMove r) e.1 = Ok move
           /\ at_ (workRange r) e.1 = Ok range
           /\ e.2 = (of_int move * range)%F.
Proof.
  unfold choose_pivot. intros H.
  apply rbind_Ok_inv in H as ([pivot a] & _ & H).
  apply rbind_Ok_inv in H as (move & _ & H).
  apply rbind_Ok_inv in H as (dual & _ & H).
  apply rbind_Ok_inv in H as ([ap w] & _ & H).
  apply rbind_Ok_inv in H as (reported & _ & H).
  apply rbind_Ok_inv in H as (flipEnd & Hfe & H).
  apply rbind_Ok_inv in H as ([c d] & Hloop & H).
  injection H as <-. exists flipEnd. split; [exact Hfe |].
  cbn [set_work workCount workData].
  destruct (Z.le_gt_cases 0 flipEnd) as [Hpos | Hneg].
  2:{ rewrite for_loop_empty in Hloop by lia. injection Hloop as <- <-.
      destruct (_ =? of_int 0)%F;
        (split; [left; reflexivity |]); intros e He;
        cbn [Z.to_nat take] in He; apply elem_of_nil in He; contradiction. }
  apply flip_loop in Hloop as (-> & Hlen & Hdone); [| exact Hpos].
  destruct (_ =? of_int 0)%F.
  { split; [left; reflexivity |].
    intros e He. cbn [Z.to_nat take] in He. apply elem_of_nil in He.
    contradiction. }
  split; [right; split; [exact Hpos | reflexivity] |].
  intros e He.
  assert (Hroom : 0 <= flipEnd <= Z.of_nat (length d)).
  { split; [exact Hpos |]. destruct (Z.eq_dec flipEnd 0) as [-> | Hne]; [lia |].
    destruct (Hdone (flipEnd - 1) ltac:(lia)) as (col & x & m & rg & _ & _ & _ & Hat).
    apply at_Ok_range in Hat. lia. }
  rewrite (sort_prefix_perm d flipEnd Hroom) in He.
  apply elem_of_take in He as (k & Hk & Hlt).
  destruct (Hdone (Z.of_nat k) ltac:(lia))
    as (col & x & m & rg & Hat & Hm & Hrg & Hat').
  apply at_Ok_inv in Hat' as [_ Hat']. rewrite Nat2Z.id in Hat'.
  rewrite Hk in Hat'. injection Hat' as ->.
  exists (Z.of_nat k), x, m, rg. cbn [fst snd]. split; [lia |]. auto.
Qed.

Variable maxheapsort : list F -> list Z -> Z -> list F * list Z.

(** X23: The bound flips [chooseFinal] leaves with a pivot: fewer than there
    were candidates, each of them the column of a candidate with the
    change [move * range] of that column. *)
Theorem chooseFinal_flips (fuel : nat) (r r' : HDualRow F) :
  0 <= workCount r -> chooseFinal maxheapsort fuel r = Ok (r', false) ->
  0 <= workCount r' < workCount r
  /\ forall e, e ∈ take (Z.to_nat (workCount r')) (workData r') ->
       exists j a move range,
         0 <= j < workCount r
         /\ at_ (workData r) j = Ok (e.1, a)
         /\ at_ (workMove r) e.1 = Ok move
         /\ at_ (workRange r) e.1 = Ok range
         /\ e.2 = (of_int move * range)%F.
Proof.
  intros Hn H.
  apply chooseFinal_Ok_inv in H as (r2 & r3 & ok & H2 & H3 & Hb & _ & Hok).
  destruct ok; [| discriminate].
  destruct (Hok eq_refl) as (r4 & bi & bg & abi & abg & H4 & Hbreak & _ & H5).
  pose proof (reduce_large_step_frame _ _ _ H2) as Hf2.
  pose proof (chooseFinalWorkGroupQuad_frame _ _ _ _ H3) as Hf3.
  pose proof (chooseFinalWorkGroupHeap_frame _ _ _ H4) as Hf4.
  assert (Hn2 : reordered (workCount r) (workData r2) (workData r)
                /\ 0 <= workCount r2 <= workCount r).
  { unfold reduce_large_step in H2.
    apply rbind_Ok_inv in H2 as ([c1 d1] & Hloop & H2). injection H2 as <-.
    apply large_step_reorders in Hloop as [Hc Hd]; [| exact Hn].
    cbn [set_alt set_work workCount workData]. auto. }
  destruct Hn2 as [Hre2 Hc2].
  assert (Hn3 : reordered (workCount r2) (workData r3) (workData r2)
                /\ group_bounds (workGroup r3) (workCount r3)
                /\ workCount r3 <= workCount r2).
  { unfold chooseFinalWorkGroupQuad in H3.
    apply rbind_Ok_inv in H3 as ([[[c d] g] okb] & Hloop & H3).
    injection H3 as <- _.
    apply (quad_loop_groups _ _ _ _ (workData r2)) in Hloop as (Hc & Hd & Hg).
    - cbn [set_workGroup set_work workCount workData workGroup].
      split; [exact Hd |]. split; [exact Hg | lia].
    - cbn [quad_init q_workCount]. lia.
    - apply reordered_refl.
    - split; [exists []; reflexivity |].
      split; [repeat constructor | reflexivity]. }
  destruct Hn3 as (Hre3 & (_ & Hsorted & Hlast) & Hc3).
  assert (Hdata4 : workData r4 = workData r3) by (rewrite Hf4; reflexivity).
  assert (Hgroup4 : workGroup r4 = workGroup r3) by (rewrite Hf4; reflexivity).
  assert (Hmove4 : workMove r4 = workMove r).
  { unfold workMove. rewrite Hf4, Hf3, Hf2. reflexivity. }
  assert (Hrange4 : workRange r4 = workRange r).
  { unfold workRange. rewrite Hf4, Hf3, Hf2. reflexivity. }
  (* the break point lies in its group, which ends within the candidates *)
  pose proof (choose_pivot_spec _ _ _ _ _ H5)
    as (pivot & a & dual & move & Hat & _).
  unfold chooseFinalLargeAlpha in Hbreak.
  apply rbind_Ok_inv in Hbreak as (m & _ & Hbreak).
  apply group_search_index in Hbreak
    as [[-> _] | (lo & hi & c & x & Hlo & Hhi & Hin & _)].
  { rewrite at_minus_one in Hat. discriminate. }
  rewrite Hgroup4 in Hlo, Hhi.
  assert (Hhi' : hi <= workCount r3).
  { apply (sorted_below_last _ _ Hsorted Hlast).
    apply at_Ok_inv in Hhi as [_ Hhi]. eapply list_elem_of_lookup_2. exact Hhi. }
  destruct (choose_pivot_flips _ _ _ _ _ H5) as (flipEnd & Hfe & Hcount & Hflips).
  rewrite Hgroup4, Hlo in Hfe. injection Hfe as <-.
  assert (Hbi : 0 <= bi) by (apply at_Ok_range in Hat; lia).
  split; [destruct Hcount as [-> | [H0 ->]]; lia |].
  intros e He.
  destruct (Hflips e He) as (i & y & mv & rg & Hi & Hati & Hmv & Hrg & He2).
  rewrite Hdata4 in Hati. rewrite Hmove4 in Hmv. rewrite Hrange4 in Hrg.
  apply at_Ok_inv in Hati as [_ Hati].
  assert (Hin3 : (e.1, y) ∈ take (Z.to_nat (workCount r2)) (workData r3)).
  { apply elem_of_take. exists (Z.to_nat i). split; [exact Hati | lia]. }
  destruct Hre3 as (_ & Hperm3 & _). rewrite Hperm3 in Hin3.
  assert (Hin2 : (e.1, y) ∈ take (Z.to_nat (workCount r)) (workData r2)).
  { apply elem_of_take in Hin3 as (k & Hk & Hlt).
    apply elem_of_take. exists k. split; [exact Hk | lia]. }
  destruct Hre2 as (_ & Hperm2 & _). rewrite Hperm2 in Hin2.
  apply elem_of_take in Hin2 as (k & Hk & Hlt).
  exists (Z.of_nat k), y, mv, rg.
  split; [lia |]. split; [| auto].
  apply at_Ok_inv. rewrite Nat2Z.id. split; [lia | exact Hk].
Qed.

End FlipProofs.

Lemma chooseFinal_flips_witness :
  0 <= DualRow.workCount Examples.row_t_final
    < DualRow.workCount Examples.row_t_possible
  /\ forall e,
       e ∈ take (Z.to_nat (DualRow.workCount Examples.row_t_final))
             (DualRow.workData Examples.row_t_final) ->
       exists j a move range,
         0 <= j < DualRow.workCount Examples.row_t_possible
         /\ at_ (DualRow.workData Examples.row_t_possible) j = Ok (e.1, a)
         /\ at_ (DualRow.workMove Examples.row_t_possible) e.1 = Ok move
         /\ at_ (DualRow.workRange Examples.row_t_possible) e.1 = Ok range
         /\ e.2 = (of_int move * range)%F.
Proof.
  exact (chooseFinal_flips (A := binary64) Examples.sort_by_value 6
           Examples.row_t_possible Examples.row_t_final ltac:(simpl; lia)
           ltac:(vm_compute; reflexivity)).
Defined.

(** ** Columns that do not move are no candidates *)

(** In binary64 a product with zero is a zero or not a number: it is
    above no positive number. *)
Lemma binary64_times_zero (t x : float) :
  (of_int 0 <? t)%F = true -> (t <? x * of_int 0)%F = false.
Proof.
  change (of_int 0 <? t)%F with (PrimFloat.ltb PrimFloat.zero t).
  change (t <? x * of_int 0)%F
    with (PrimFloat.ltb t (PrimFloat.mul x PrimFloat.zero)).
  rewrite !ltb_spec, mul_spec.
  change (Prim2SF PrimFloat.zero) with (S754_zero false).
  destruct (Prim2SF t) as [s | s | | s m e]; try discriminate;
    destruct s; try discriminate; intros _;
    destruct (Prim2SF x) as [s' | s' | | s' m' e']; reflexivity.
Qed.

Lemma Ta_of_positive (update_count : Z) :
  (of_int 0 <? DualRow.Ta_of update_count)%F = true.
Proof.
  unfold DualRow.Ta_of.
  destruct (update_count <? 10); [reflexivity |].
  destruct (update_count <? 20); reflexivity.
Qed.

Section MovingColumnsProofs.

Import DualRow.

(** X12: On binary64, every candidate [choosePossible] finds is a column
    that moves: its direction [workMove] is not 0 (a column with the
    direction 0, as a basic, a fixed or a free column has, gives
    [alpha = 0] or no number), and its [alpha] is above the tolerance
    [Ta]. *)
Theorem choosePossible_moving_columns (r : HDualRow float) :
  packed_in_range r -> packCount r <= Z.of_nat (length (workData r)) ->
  exists r',
    choosePossible r = Ok r'
    /\ forall j c a, 0 <= j < workCount r' ->
         at_ (workData r') j = Ok (c, a) ->
         (Ta_of (update_count (workHMO r)) <? a)%F = true
         /\ exists move, at_ (workMove r) c = Ok move /\ move <> 0.
Proof.
  intros Hr Hroom.
  destruct (choosePossible_loop r Hr Hroom) as (d & Hrun & Htake & Hlen).
  unfold choosePossible. rewrite Hrun. cbn [rbind].
  eexists. split; [reflexivity |].
  cbn [set_workTheta set_work workCount workData].
  intros j c a Hj Hat. apply at_Ok_inv in Hat as [_ Hat].
  assert (Hin : (c, a) ∈ candidates r).
  { rewrite <- Htake. apply elem_of_take. exists (Z.to_nat j).
    split; [exact Hat | lia]. }
  unfold candidates in Hin. apply list_elem_of_omap in Hin as (e & He & Hc).
  unfold candidate_of in Hc.
  destruct (at_ (workMove r) e.1) as [move | | |] eqn:Hmove; try discriminate.
  destruct (_ <? _)%F eqn:Habove; [| discriminate].
  injection Hc as <- <-. split; [exact Habove |].
  exists move. split; [exact Hmove |]. intros ->.
  rewrite binary64_times_zero in Habove; [discriminate |].
  apply Ta_of_positive.
Qed.

End MovingColumnsProofs.

Lemma choosePossible_moving_columns_witness :
  exists r',
    DualRow.choosePossible Examples.row_a = Ok r'
    /\ forall j c a, 0 <= j < DualRow.workCount r' ->
         at_ (DualRow.workData r') j = Ok (c, a) ->
         (DualRow.Ta_of (DualRow.update_count (DualRow.workHMO Examples.row_a))
          <? a)%F = true
         /\ exists move,
              at_ (DualRow.workMove Examples.row_a) c = Ok move /\ move <> 0.
Proof.
  exact (choosePossible_moving_columns Examples.row_a row_a_in_range
           ltac:(simpl; lia)).
Defined.

(** ** The heap grouping *)

Section HeapProofs.

Context {F : Type} {A : Arith F}.

Import DualRow.

Variable maxheapsort : list F -> list Z -> Z -> list F * list Z.

(** The number of ratios that enter the heap. *)
Lemma heap_fill_count (r : HDualRow F) (fullCount n : Z)
    (heap_i0 heap_i : list Z) (heap_v0 heap_v : list F) :
  0 <= fullCount ->
  for_loop 0 fullCount (heap_fill_body r) (0, heap_i0, heap_v0)
  = Ok (n, heap_i, heap_v) ->
  0 <= n <= fullCount.
Proof.
  intros Hn Hrun.
  pose (P := fun (i : Z) (s : Z * list Z * list F) => 0 <= s.1.1 <= i).
  assert (HP : P fullCount (n, heap_i, heap_v)).
  { eapply (for_loop_partial P) in Hrun; [exact Hrun | exact Hn | |].
    - unfold P. simpl. lia.
    - intros i [[c hi] hv] [[c1 hi1] hv1] Hi Hc Hb. unfold P in *.
      cbn [fst snd] in *. unfold heap_fill_body in Hb.
      apply rbind_Ok_inv in Hb as ([iCol value] & _ & Hb).
      apply rbind_Ok_inv in Hb as (move & _ & Hb).
      apply rbind_Ok_inv in Hb as (d & _ & Hb).
      destruct (_ <? _)%F.
      + apply rbind_Ok_inv in Hb as (hi2 & _ & Hb).
        apply rbind_Ok_inv in Hb as (hv2 & _ & Hb).
        injection Hb as <- _ _. lia.
      + injection Hb as <- _ _. lia. }
  exact HP.
Qed.

Lemma heap_group_body_inv (r : HDualRow F) (Td totalDelta : F)
    (heap_i : list Z) (en : Z) (h h' : heap_state F) :
  heap_inv r en h ->
  heap_group_body r Td totalDelta heap_i en h = Ok h' ->
  heap_inv r (en + 1) h'.
Proof.
  intros (Hc & Hf & Hg & He) Hb. unfold heap_group_body in Hb.
  destruct (h_stop h).
  { injection Hb as <-. split; [lia |]. auto. }
  apply rbind_Ok_inv in Hb as (i & _ & Hb).
  apply rbind_Ok_inv in Hb as ([iCol value] & Hat & Hb).
  apply rbind_Ok_inv in Hb as (move & _ & Hb).
  apply rbind_Ok_inv in Hb as (d & _ & Hb).
  set (next := (_ <? _)%F) in Hb.
  assert (Hfirst : (if next then h_workCount h else h_first_entry h)
                   <= h_workCount h) by (destruct next; lia).
  assert (Hgroup : group_bounds
            (if next then h_workGroup h ++ [h_workCount h] else h_workGroup h)
            (if next then h_workCount h else h_first_entry h)).
  { destruct next; [| exact Hg].
    apply (group_bounds_snoc _ (h_first_entry h)); [exact Hg | exact Hf]. }
  destruct (next && _).
  - injection Hb as <-. unfold heap_inv.
    cbn [h_workCount h_first_entry h_workGroup h_sorted].
    split; [lia |]. auto.
  - apply rbind_Ok_inv in Hb as (sorted & Hput & Hb).
    apply rbind_Ok_inv in Hb as (range & _ & Hb).
    injection Hb as <-. unfold heap_inv.
    cbn [h_workCount h_first_entry h_workGroup h_sorted].
    split; [lia |]. split; [lia |]. split; [exact Hgroup |].
    intros j Hj. destruct (Z.eq_dec j (h_workCount h)) as [-> | Hne].
    + exists (iCol, value). split; [exact (at_put_eq _ _ _ _ Hput) |].
      apply at_Ok_inv in Hat as [_ Hat]. eapply list_elem_of_lookup_2. exact Hat.
    + rewrite (at_put_ne _ _ _ j _ Hput) by lia. apply He. lia.
Qed.

(** X20: [chooseFinalWorkGroupHeap], when it returns, has filled
    [sorted_workData] with candidates of [original_workData], no more
    than there are; the boundaries in [alt_workGroup] start at 0, do not
    decrease, and end at [alt_workCount]; and nothing of the row but
    these three members is changed. *)
Theorem chooseFinalWorkGroupHeap_groups (r r' : HDualRow F) :
  0 <= alt_workCount r -> chooseFinalWorkGroupHeap maxheapsort r = Ok r' ->
  alt_workCount r' <= alt_workCount r
  /\ (forall j, 0 <= j < alt_workCount r' ->
        exists e, at_ (sorted_workData r') j = Ok e
                  /\ e ∈ original_workData r)
  /\ (exists g, alt_workGroup r' = 0 :: g)
  /\ StronglySorted Z.le (alt_workGroup r')
  /\ last (alt_workGroup r') = Some (alt_workCount r')
  /\ r' = set_alt r (alt_workCount r') (original_workData r)
            (sorted_workData r') (alt_workGroup r').
Proof.
  intros Hn H. unfold chooseFinalWorkGroupHeap in H.
  apply rbind_Ok_inv in H as ([[n hi] hv] & Hfill & H).
  apply heap_fill_count in Hfill; [| exact Hn].
  destruct (maxheapsort hv hi n) as [hv' hi'].
  apply rbind_Ok_inv in H as (h & Hloop & H).
  injection H as <-.
  cbn [set_alt alt_workCount sorted_workData alt_workGroup].
  assert (HP : heap_inv r (n + 1) h).
  { eapply (for_loop_partial (heap_inv r)) in Hloop;
      [exact Hloop | lia | |].
    - unfold heap_inv. cbn [h_workCount h_first_entry h_workGroup h_sorted].
      split; [lia |]. split; [lia |]. split.
      + split; [exists []; reflexivity |].
        split; [repeat constructor | reflexivity].
      + intros j Hj. lia.
    - intros en s s' _ Hinv Hb. eapply heap_group_body_inv; eassumption. }
  destruct HP as (Hc & Hf & Hg & He).
  split; [lia |]. split; [exact He |].
  assert (Hfinal : group_bounds
            (if h_first_entry h <? h_workCount h
             then h_workGroup h ++ [h_workCount h] else h_workGroup h)
            (h_workCount h)).
  { destruct (Z.ltb_spec (h_first_entry h) (h_workCount h)).
    - apply (group_bounds_snoc _ (h_first_entry h)); [exact Hg | lia].
    - replace (h_workCount h) with (h_first_entry h) by lia. exact Hg. }
  destruct Hfinal as (Hex & Hs & Hl). auto 10.
Qed.

End HeapProofs.

Lemma chooseFinalWorkGroupHeap_groups_witness :
  DualRow.alt_workCount Examples.row_a_heaped
  <= DualRow.alt_workCount Examples.row_a_grouped
  /\ (forall j, 0 <= j < DualRow.alt_workCount Examples.row_a_heaped ->
        exists e, at_ (DualRow.sorted_workData Examples.row_a_heaped) j = Ok e
                  /\ e ∈ DualRow.original_workData Examples.row_a_grouped)
  /\ (exists g, DualRow.alt_workGroup Examples.row_a_heaped = 0 :: g)
  /\ StronglySorted Z.le (DualRow.alt_workGroup Examples.row_a_heaped)
  /\ last (DualRow.alt_workGroup Examples.row_a_heaped)
     = Some (DualRow.alt_workCount Examples.row_a_heaped)
  /\ Examples.row_a_heaped
     = DualRow.set_alt Examples.row_a_grouped
         (DualRow.alt_workCount Examples.row_a_heaped)
         (DualRow.original_workData Examples.row_a_grouped)
         (DualRow.sorted_workData Examples.row_a_heaped)
         (DualRow.alt_workGroup Examples.row_a_heaped).
Proof.
  exact (chooseFinalWorkGroupHeap_groups (A := binary64) Examples.sort_by_value
           Examples.row_a_grouped Examples.row_a_heaped ltac:(simpl; lia)
           ltac:(vm_compute; reflexivity)).
Defined.

(** ** A bound that is not below 1e18 *)

Section LargeThetaProofs.

Context {F : Type} {A : Arith F}.

Import DualRow.

Variable maxheapsort : list F -> list Z -> Z -> list F * list Z.

(** X27: [chooseFinal] needs a bound [workTheta] below 1e18.  With a bound
    that is not (infinite, as [choosePossible] leaves it without
    candidates, or not a number) the grouping admits nothing and returns
    [true] with no group, and no break point is found: [chooseFinal]
    does not come back with a result. *)
Theorem chooseFinal_large_theta (fuel : nat) (r : HDualRow F) :
  (workTheta r <? lit_1e18)%F = false ->
  is_ok (chooseFinal maxheapsort fuel r) = false.
Proof.
  intros Hsel.
  destruct (chooseFinal maxheapsort fuel r) as [[r' b] | | |] eqn:E;
    try reflexivity.
  exfalso.
  apply chooseFinal_Ok_inv in E as (r2 & r3 & ok & H2 & H3 & _ & _ & Hok).
  apply reduce_large_step_frame in H2.
  assert (Htheta : workTheta r2 = workTheta r) by (rewrite H2; reflexivity).
  unfold chooseFinalWorkGroupQuad in H3.
  apply rbind_Ok_inv in H3 as ([[[c d] g] okb] & Hloop & H3).
  injection H3 as <- <-.
  destruct fuel as [| fuel]; [discriminate |].
  cbn [quad_loop] in Hloop. unfold quad_step in Hloop.
  cbn [quad_init q_selectTheta q_workCount q_workData q_workGroup] in Hloop.
  rewrite Htheta, Hsel in Hloop. cbn [negb rbind] in Hloop.
  injection Hloop as <- <- <- <-.
  destruct (Hok eq_refl) as (r4 & bi & bg & abi & abg & H4 & Hbreak & _ & H5).
  apply chooseFinalWorkGroupHeap_frame in H4.
  assert (Hgroup : workGroup r4 = [0]) by (rewrite H4; reflexivity).
  assert (Hcount : workCount r4 = 0) by (rewrite H4; reflexivity).
  rewrite Hgroup in Hbreak.
  destruct (chooseFinalLargeAlpha_empty r4 (workData r4) Hcount) as [Hnone _].
  rewrite Hnone in Hbreak. injection Hbreak as <- <-.
  apply choose_pivot_spec in H5 as (pivot & a & dual & move & Hat & _).
  rewrite at_minus_one in Hat. discriminate.
Qed.

End LargeThetaProofs.

Lemma chooseFinal_large_theta_witness :
  is_ok (DualRow.chooseFinal Examples.sort_by_value 3 Examples.row_e) = false.
Proof.
  exact (chooseFinal_large_theta Examples.sort_by_value 3 Examples.row_e
           eq_refl).
Defined.

(** ** The comparison of the two groupings *)

Section CompareProofs.

Context {F : Type}.

Import DualRow.

Lemma column_in_step (data : list (Z * F)) (lo k c : Z) :
  column_in data lo (k + 1) c ->
  column_in data lo k c \/ exists x, at_ data k = Ok (c, x).
Proof.
  intros (j & x & [Hj Hat]). destruct (Z.eq_dec j k) as [-> | Hne].
  - right. eauto.
  - left. exists j, x. split; [lia | exact Hat].
Qed.

Lemma column_in_mono (data : list (Z * F)) (lo k k' c : Z) :
  k <= k' -> column_in data lo k c -> column_in data lo k' c.
Proof.
  intros Hle (j & x & [Hj Hat]). exists j, x. split; [lia | exact Hat].
Qed.

Lemma column_in_last (data : list (Z * F)) (lo k c : Z) (x : F) :
  lo <= k -> at_ data k = Ok (c, x) -> column_in data lo (k + 1) c.
Proof. intros Hle Hat. exists k, x. split; [lia | exact Hat]. Qed.

Lemma column_in_empty (data : list (Z * F)) (lo hi c : Z) :
  hi <= lo -> ~ column_in data lo hi c.
Proof. intros Hle (j & x & [Hj _]). lia. Qed.

(** The value at [c] after [dzv[iCol] = v]. *)
Lemma at_put (d d' : list Z) (iCol v : Z) :
  put d iCol v = Ok d' ->
  forall c, at_ d' c = if Z.eq_dec c iCol then Ok v else at_ d c.
Proof.
  intros Hput c. destruct (Z.eq_dec c iCol) as [-> | Hne].
  - exact (at_put_eq _ _ _ _ Hput).
  - apply (at_put_ne _ _ _ c _ Hput). lia.
Qed.

(** The marks after the first inner loop, from a vector of zeros. *)
Lemma mark_loop (r : HDualRow F) (lo hi : Z) (d0 d1 : list Z) :
  (forall c v, at_ d0 c = Ok v -> v = 0) ->
  for_loop lo hi (mark_body r) d0 = Ok d1 ->
  (forall c, column_in (workData r) lo hi c -> at_ d1 c = Ok 1)
  /\ (forall c, at_ d1 c = Ok 1 -> column_in (workData r) lo hi c)
  /\ (forall c v, at_ d1 c = Ok v -> v = 0 \/ v = 1).
Proof.
  intros Hzero Hrun.
  destruct (Z.le_gt_cases lo hi) as [Hle | Hgt].
  2:{ rewrite for_loop_empty in Hrun by lia. injection Hrun as <-.
      split; [intros c Hc; destruct (column_in_empty _ lo hi c ltac:(lia) Hc) |].
      split; [intros c Hc; apply Hzero in Hc; lia |].
      intros c v Hc. left. eapply Hzero. exact Hc. }
  pose (P := fun (k : Z) (d : list Z) =>
    (forall c, column_in (workData r) lo k c -> at_ d c = Ok 1)
    /\ (forall c, at_ d c = Ok 1 -> column_in (workData r) lo k c)
    /\ (forall c v, at_ d c = Ok v -> v = 0 \/ v = 1)).
  eapply (for_loop_partial P) in Hrun; [exact Hrun | exact Hle | |].
  - split; [intros c Hc; destruct (column_in_empty _ lo lo c ltac:(lia) Hc) |].
    split; [intros c Hc; apply Hzero in Hc; lia |].
    intros c v Hc. left. eapply Hzero. exact Hc.
  - intros k d d' Hk (H1 & H3 & H4) Hb. unfold mark_body in Hb.
    apply rbind_Ok_inv in Hb as ([iCol x] & Hat & Hput).
    pose proof (at_put _ _ _ _ Hput) as Hd'.
    split; [| split].
    + intros c Hc. rewrite (Hd' c). destruct (Z.eq_dec c iCol); [reflexivity |].
      apply column_in_step in Hc as [Hc | [y Hy]]; [apply H1; exact Hc |].
      rewrite Hat in Hy. congruence.
    + intros c Hc. rewrite (Hd' c) in Hc.
      destruct (Z.eq_dec c iCol) as [-> | Hne].
      * apply (column_in_last _ _ _ _ x); [lia | exact Hat].
      * apply (column_in_mono _ _ k); [lia | apply H3; exact Hc].
    + intros c v Hc. rewrite (Hd' c) in Hc.
      destruct (Z.eq_dec c iCol); [injection Hc as <-; auto |].
      eapply H4. exact Hc.
Qed.

(** The second inner loop. *)
Lemma match_loop (r : HDualRow F) (lo hi alo ahi : Z) (nd nd2 : bool)
    (d1 d2 : list Z) :
  (forall c, column_in (workData r) lo hi c -> at_ d1 c = Ok 1) ->
  (forall c, at_ d1 c = Ok 1 -> column_in (workData r) lo hi c) ->
  (forall c v, at_ d1 c = Ok v -> v = 0 \/ v = 1) ->
  for_loop alo ahi (match_body r) (nd, d1) = Ok (nd2, d2) ->
  (nd2 = true ->
   nd = true
   /\ forall c, column_in (sorted_workData r) alo ahi c ->
        column_in (workData r) lo hi c)
  /\ (forall c, at_ d2 c = Ok 1 -> column_in (workData r) lo hi c)
  /\ (forall c v, at_ d2 c = Ok v -> v = 0 \/ v = 1)
  /\ (forall c, column_in (workData r) lo hi c ->
        at_ d2 c = Ok 1 \/ column_in (sorted_workData r) alo ahi c).
Proof.
  intros H1 H3 H4 Hrun.
  destruct (Z.le_gt_cases alo ahi) as [Hle | Hgt].
  2:{ rewrite for_loop_empty in Hrun by lia. injection Hrun as <- <-.
      split; [intros Hn; split; [exact Hn |];
              intros c Hc; destruct (column_in_empty _ alo ahi c ltac:(lia) Hc) |].
      auto. }
  pose (P := fun (k : Z) (s : bool * list Z) =>
    (s.1 = true ->
     nd = true
     /\ forall c, column_in (sorted_workData r) alo k c ->
          column_in (workData r) lo hi c)
    /\ (forall c, at_ s.2 c = Ok 1 -> column_in (workData r) lo hi c)
    /\ (forall c v, at_ s.2 c = Ok v -> v = 0 \/ v = 1)
    /\ (forall c, column_in (workData r) lo hi c ->
          at_ s.2 c = Ok 1 \/ column_in (sorted_workData r) alo k c)).
  eapply (for_loop_partial P) in Hrun; [exact Hrun | exact Hle | |].
  - unfold P. cbn [fst snd].
    split; [intros Hn; split; [exact Hn |];
            intros c Hc; destruct (column_in_empty _ alo alo c ltac:(lia) Hc) |].
    auto.
  - intros k [n0 d] [n1 d'] Hk (A1 & A3 & A4 & A6) Hb. unfold P.
    cbn [fst snd] in *. unfold match_body in Hb.
    apply rbind_Ok_inv in Hb as ([iCol x] & Hat & Hb).
    apply rbind_Ok_inv in Hb as (v & Hv & Hb).
    apply rbind_Ok_inv in Hb as (d3 & Hput & Hb). injection Hb as <- <-.
    pose proof (at_put _ _ _ _ Hput) as Hd'.
    split; [| split; [| split]].
    + intros Hn. destruct (Z.eqb_spec v 1) as [-> | Hne]; cbn [negb] in Hn;
        [| discriminate].
      destruct (A1 Hn) as [Hnd Hsub]. split; [exact Hnd |].
      intros c Hc. apply column_in_step in Hc as [Hc | [y Hy]];
        [apply Hsub; exact Hc |].
      rewrite Hat in Hy. injection Hy as <- _. apply A3. exact Hv.
    + intros c Hc. rewrite (Hd' c) in Hc.
      destruct (Z.eq_dec c iCol); [discriminate |]. apply A3. exact Hc.
    + intros c w Hc. rewrite (Hd' c) in Hc.
      destruct (Z.eq_dec c iCol); [injection Hc as <-; auto |].
      eapply A4. exact Hc.
    + intros c Hc. rewrite (Hd' c).
      destruct (Z.eq_dec c iCol) as [-> | Hne].
      * right. apply (column_in_last _ _ _ _ x); [lia | exact Hat].
      * destruct (A6 c Hc) as [H | H]; [left; exact H |].
        right. apply (column_in_mono _ _ k); [lia | exact H].
Qed.

(** The third inner loop. *)
Lemma unmark_loop (r : HDualRow F) (lo hi alo ahi : Z) (nd2 nd3 : bool)
    (d2 d3 : list Z) :
  (forall c, at_ d2 c = Ok 1 -> column_in (workData r) lo hi c) ->
  (forall c v, at_ d2 c = Ok v -> v = 0 \/ v = 1) ->
  (forall c, column_in (workData r) lo hi c ->
     at_ d2 c = Ok 1 \/ column_in (sorted_workData r) alo ahi c) ->
  for_loop lo hi (unmark_body r) (nd2, d2) = Ok (nd3, d3) ->
  (nd3 = true ->
   nd2 = true
   /\ forall c, column_in (workData r) lo hi c ->
        column_in (sorted_workData r) alo ahi c)
  /\ (forall c v, at_ d3 c = Ok v -> v = 0).
Proof.
  intros A3 A4 A6 Hrun.
  destruct (Z.le_gt_cases lo hi) as [Hle | Hgt].
  2:{ rewrite for_loop_empty in Hrun by lia. injection Hrun as <- <-.
      split.
      - intros Hn. split; [exact Hn |].
        intros c Hc. destruct (column_in_empty _ lo hi c ltac:(lia) Hc).
      - intros c v Hc. destruct (A4 c v Hc) as [-> | ->]; [reflexivity |].
        destruct (column_in_empty _ lo hi c ltac:(lia) (A3 c Hc)). }
  pose (P := fun (k : Z) (s : bool * list Z) =>
    (s.1 = true ->
     nd2 = true
     /\ forall c, column_in (workData r) lo k c ->
          column_in (sorted_workData r) alo ahi c)
    /\ (forall c, at_ s.2 c = Ok 1 -> column_in (workData r) lo hi c)
    /\ (forall c v, at_ s.2 c = Ok v -> v = 0 \/ v = 1)
    /\ (forall c v, column_in (workData r) lo k c -> at_ s.2 c = Ok v -> v = 0)
    /\ (forall c, column_in (workData r) lo hi c ->
          at_ s.2 c = Ok 1 \/ column_in (sorted_workData r) alo ahi c
          \/ column_in (workData r) lo k c)).
  assert (HP : P hi (nd3, d3)).
  { eapply (for_loop_partial P) in Hrun; [exact Hrun | exact Hle | |].
    - unfold P. cbn [fst snd].
      split; [intros Hn; split; [exact Hn |];
              intros c Hc; destruct (column_in_empty _ lo lo c ltac:(lia) Hc) |].
      split; [exact A3 |]. split; [exact A4 |]. split.
      + intros c v Hc. destruct (column_in_empty _ lo lo c ltac:(lia) Hc).
      + intros c Hc. destruct (A6 c Hc); auto.
    - intros k [n0 d] [n1 d'] Hk (B1 & B3 & B4 & B5 & B6) Hb. unfold P.
      cbn [fst snd] in *. unfold unmark_body in Hb.
      apply rbind_Ok_inv in Hb as ([iCol x] & Hat & Hb).
      apply rbind_Ok_inv in Hb as (v & Hv & Hb).
      apply rbind_Ok_inv in Hb as (d4 & Hput & Hb). injection Hb as <- <-.
      pose proof (at_put _ _ _ _ Hput) as Hd'.
      assert (Hcol : column_in (workData r) lo hi iCol).
      { exists k, x. split; [lia | exact Hat]. }
      split; [| split; [| split; [| split]]].
      + intros Hn. destruct (Z.eqb_spec v 1) as [-> | Hne]; [discriminate |].
        destruct (B1 Hn) as [Hnd Hsub]. split; [exact Hnd |].
        intros c Hc. apply column_in_step in Hc as [Hc | [y Hy]];
          [apply Hsub; exact Hc |].
        rewrite Hat in Hy. injection Hy as <- _.
        destruct (B6 iCol Hcol) as [H | [H | H]].
        * rewrite Hv in H. injection H as ->. contradiction.
        * exact H.
        * apply Hsub. exact H.
      + intros c Hc. rewrite (Hd' c) in Hc.
        destruct (Z.eq_dec c iCol); [discriminate |]. apply B3. exact Hc.
      + intros c w Hc. rewrite (Hd' c) in Hc.
        destruct (Z.eq_dec c iCol); [injection Hc as <-; auto |].
        eapply B4. exact Hc.
      + intros c w Hc Hw. rewrite (Hd' c) in Hw.
        destruct (Z.eq_dec c iCol) as [-> | Hne]; [congruence |].
        apply column_in_step in Hc as [Hc | [y Hy]].
        * eapply B5; eassumption.
        * rewrite Hat in Hy. congruence.
      + intros c Hc. rewrite (Hd' c).
        destruct (Z.eq_dec c iCol) as [-> | Hne].
        * right. right. apply (column_in_last _ _ _ _ x); [lia | exact Hat].
        * destruct (B6 c Hc) as [H | [H | H]]; [auto | auto |].
          right. right. apply (column_in_mono _ _ k); [lia | exact H]. }
  destruct HP as (B1 & B3 & B4 & B5 & _). cbn [fst snd] in *.
  split; [exact B1 |].
  intros c v Hc. destruct (B4 c v Hc) as [-> | ->]; [reflexivity |].
  apply (B5 c 1 (B3 c Hc) Hc).
Qed.

(** The loop over the groups, when it returns [true]. *)
Lemma compare_groups_true (NDEBUG : bool) (r : HDualRow F) (n : nat) :
  forall (group : Z) (nd : bool) (dzv dzv' : list Z),
  (forall c v, at_ dzv c = Ok v -> v = 0) ->
  compare_groups NDEBUG n r group nd dzv = Ok (true, dzv') ->
  nd = true
  /\ (forall c v, at_ dzv' c = Ok v -> v = 0)
  /\ forall g, group <= g < group + Z.of_nat n ->
       exists lo hi alo,
         at_ (workGroup r) g = Ok lo /\ at_ (workGroup r) (g + 1) = Ok hi
         /\ at_ (alt_workGroup r) g = Ok alo
         /\ at_ (alt_workGroup r) (g + 1) = Ok hi
         /\ forall c, column_in (workData r) lo hi c
                      <-> column_in (sorted_workData r) alo hi c.
Proof.
  induction n as [| n IH]; intros group nd dzv dzv' Hzero H.
  - injection H as -> <-. split; [reflexivity |]. split; [exact Hzero |].
    intros g Hg. lia.
  - cbn [compare_groups] in H.
    apply rbind_Ok_inv in H as (hi & Hhi & H).
    apply rbind_Ok_inv in H as (ahi & Hahi & H).
    destruct (Z.eqb_spec hi ahi) as [<- | Hne]; cbn [negb] in H;
      [| discriminate].
    apply rbind_Ok_inv in H as (lo & Hlo & H).
    apply rbind_Ok_inv in H as (d1 & Hmark & H).
    apply rbind_Ok_inv in H as (alo & Halo & H).
    apply rbind_Ok_inv in H as ([nd2 d2] & Hmatch & H).
    apply rbind_Ok_inv in H as ([nd3 d3] & Hunmark & H).
    apply rbind_Ok_inv in H as (u & _ & H).
    apply (mark_loop r lo hi dzv d1 Hzero) in Hmark as (M1 & M3 & M4).
    apply (match_loop r lo hi alo hi nd nd2 d1 d2 M1 M3 M4) in Hmatch
      as (A1 & A3 & A4 & A6).
    apply (unmark_loop r lo hi alo hi nd2 nd3 d2 d3 A3 A4 A6) in Hunmark
      as (B1 & Hzero3).
    apply (IH (group + 1) nd3 d3 dzv' Hzero3) in H as (-> & Hzero' & Hrest).
    destruct (B1 eq_refl) as [-> Hsub1]. destruct (A1 eq_refl) as [-> Hsub2].
    split; [reflexivity |]. split; [exact Hzero' |].
    intros g Hg. destruct (Z.eq_dec g group) as [-> | Hneq].
    + exists lo, hi, alo. repeat (split; [assumption |]).
      intros c. split; [apply Hsub1 | apply Hsub2].
    + apply Hrest. lia.
Qed.

(** X28: [compareWorkDataAndGroup], called with [debug_zero_vector] zero as
    [setup] leaves it, returns [true] only if the two groupings have the
    same number of candidates and the same boundaries, and every group
    holds the same columns in [workData] as in [sorted_workData];
    [debug_zero_vector] is zero again when it returns. *)
Theorem compareWorkDataAndGroup_true (NDEBUG : bool) (r : HDualRow F)
    (dzv dzv' : list Z) :
  Forall (fun v => v = 0) dzv ->
  compareWorkDataAndGroup NDEBUG r dzv = Ok (true, dzv') ->
  alt_workCount r = workCount r
  /\ alt_workGroup r = workGroup r
  /\ Forall (fun v => v = 0) dzv'
  /\ forall g lo hi,
       at_ (workGroup r) g = Ok lo -> at_ (workGroup r) (g + 1) = Ok hi ->
       forall c, column_in (workData r) lo hi c
                 <-> column_in (sorted_workData r) lo hi c.
Proof.
  intros Hzero H. unfold compareWorkDataAndGroup in H.
  destruct (Z.eqb_spec (alt_workCount r) (workCount r)) as [Hcount | _];
    cbn [negb] in H; [| discriminate].
  destruct (Z.eqb_spec (Z.of_nat (length (alt_workGroup r)))
              (Z.of_nat (length (workGroup r)))) as [Hlen | _];
    cbn [negb] in H; [| discriminate].
  apply rbind_Ok_inv in H as (g0 & Hg0 & H).
  apply rbind_Ok_inv in H as (a0 & Ha0 & H).
  destruct (Z.eqb_spec g0 a0) as [<- | _]; cbn [negb] in H; [| discriminate].
  assert (Hzero0 : forall c v, at_ dzv c = Ok v -> v = 0).
  { intros c v Hc. apply at_Ok_inv in Hc as [_ Hc].
    rewrite Forall_forall in Hzero. apply Hzero.
    eapply list_elem_of_lookup_2. exact Hc. }
  apply (compare_groups_true _ _ _ _ _ _ _ Hzero0) in H
    as (_ & Hzero' & Hgroups).
  assert (Hsame : alt_workGroup r = workGroup r).
  { apply list_eq. intros i.
    destruct (Nat.eq_dec i 0%nat) as [-> | Hi].
    - apply at_Ok_inv in Hg0 as [_ Hg0]. apply at_Ok_inv in Ha0 as [_ Ha0].
      change (Z.to_nat 0) with 0%nat in Hg0, Ha0. congruence.
    - destruct (Nat.lt_ge_cases i (length (workGroup r))) as [Hlt | Hge].
      + destruct (Hgroups (Z.of_nat i - 1) ltac:(lia))
          as (lo & hi & alo & _ & Hhi & _ & Hahi & _).
        apply at_Ok_inv in Hhi as [_ Hhi]. apply at_Ok_inv in Hahi as [_ Hahi].
        replace (Z.to_nat (Z.of_nat i - 1 + 1)) with i in Hhi, Hahi by lia.
        congruence.
      + rewrite (proj2 (lookup_ge_None _ _)) by lia.
        rewrite (proj2 (lookup_ge_None _ _)) by lia. reflexivity. }
  split; [exact Hcount |]. split; [exact Hsame |]. split.
  - apply Forall_forall. intros v Hv. apply list_elem_of_lookup in Hv as [i Hi].
    apply (Hzero' (Z.of_nat i) v). apply at_Ok_inv. rewrite Nat2Z.id.
    split; [lia | exact Hi].
  - intros g lo hi Hlo Hhi c.
    pose proof (at_Ok_range _ _ _ Hlo) as Hr1.
    pose proof (at_Ok_range _ _ _ Hhi) as Hr2.
    destruct (Hgroups g ltac:(lia))
      as (lo' & hi' & alo & Hlo' & Hhi' & Halo & _ & Hiff).
    rewrite Hsame in Halo.
    assert (lo' = lo) by congruence. assert (hi' = hi) by congruence.
    assert (alo = lo) by congruence. subst. apply Hiff.
Qed.

End CompareProofs.

Lemma compareWorkDataAndGroup_true_witness :
  DualRow.alt_workCount Examples.row_a_heaped
  = DualRow.workCount Examples.row_a_heaped
  /\ DualRow.alt_workGroup Examples.row_a_heaped
     = DualRow.workGroup Examples.row_a_heaped
  /\ Forall (fun v => v = 0) [0; 0; 0; 0]
  /\ forall g lo hi,
       at_ (DualRow.workGroup Examples.row_a_heaped) g = Ok lo ->
       at_ (DualRow.workGroup Examples.row_a_heaped) (g + 1) = Ok hi ->
       forall c,
         DualRow.column_in (DualRow.workData Examples.row_a_heaped) lo hi c
         <-> DualRow.column_in
               (DualRow.sorted_workData Examples.row_a_heaped) lo hi c.
Proof.
  exact (compareWorkDataAndGroup_true (F := float) false
           Examples.row_a_heaped [0; 0; 0; 0] [0; 0; 0; 0]
           ltac:(repeat constructor) ltac:(vm_compute; reflexivity)).
Defined.

(** ** The report of a grouping *)

Section ReportProofs.

Context {F : Type} {A : Arith F}.

Import DualRow.

Lemma report_data_body_cases (r : HDualRow F) (data : list (Z * F)) (i : Z)
    (tc : F) :
  report_data_body r data i tc = Undef
  \/ exists tc', report_data_body r data i tc = Ok tc'.
Proof.
  unfold report_data_body.
  destruct (at_cases data i) as [-> | [[iCol value] ->]];
    [left; reflexivity |]. cbn [rbind].
  destruct (at_cases (workMove r) iCol) as [-> | [move ->]];
    [left; reflexivity |]. cbn [rbind].
  destruct (at_cases (workDual r) iCol) as [-> | [d ->]];
    [left; reflexivity |]. cbn [rbind].
  destruct (at_cases (workRange r) iCol) as [-> | [rg ->]];
    [left; reflexivity |]. cbn [rbind]. eauto.
Qed.

Lemma report_group_body_cases (r : HDualRow F) (Td : F) (group : list Z)
    (g : Z) (sel : F) :
  report_group_body r Td group g sel = Undef
  \/ exists sel', report_group_body r Td group g sel = Ok sel'.
Proof.
  unfold report_group_body.
  destruct (at_cases group g) as [-> | [lo ->]];
    [left; reflexivity |]. cbn [rbind].
  destruct (at_cases group (g + 1)) as [-> | [en ->]];
    [left; reflexivity |]. cbn [rbind].
  destruct (at_cases (original_workData r) en) as [-> | [[iCol value] ->]];
    [left; reflexivity |]. cbn [rbind].
  destruct (at_cases (workMove r) iCol) as [-> | [move ->]];
    [left; reflexivity |]. cbn [rbind].
  destruct (at_cases (workDual r) iCol) as [-> | [d ->]];
    [left; reflexivity |]. cbn [rbind]. eauto.
Qed.

(** X30: [reportWorkDataAndGroup] reads, for every group, the entry of
    [original_workData] at the boundary that ends the group: a boundary
    that is no index of [original_workData], as the last one is when all
    its entries are grouped, makes the report undefined behaviour. *)
Theorem reportWorkDataAndGroup_reads_boundary (r : HDualRow F)
    (report_workCount : Z) (report_workData : list (Z * F))
    (report_workGroup : list Z) (g en : Z) :
  0 <= g -> at_ report_workGroup (g + 1) = Ok en ->
  at_ (original_workData r) en = Undef ->
  reportWorkDataAndGroup r report_workCount report_workData report_workGroup
  = Undef.
Proof.
  intros Hg Hen Hout. unfold reportWorkDataAndGroup, for_loop.
  destruct (for_range_Undef_or (fun _ _ => True)
              (report_data_body r report_workData)
              (Z.to_nat (report_workCount - 0)) 0 lit_1e_12)
    as [-> | (tc & -> & _)]; [| exact I | reflexivity |].
  { intros i s _ _.
    destruct (report_data_body_cases r report_workData i s) as [-> | [s' ->]];
      eauto. }
  cbn [rbind].
  pose proof (at_Ok_range _ _ _ Hen) as Hrange.
  destruct (for_range_Undef_or (fun (i : Z) (_ : F) => i <= g)
              (report_group_body r (dual_feasibility_tolerance (workHMO r))
                 report_workGroup)
              (Z.to_nat (Z.of_nat (length report_workGroup) - 1 - 0)) 0
              (workTheta r))
    as [-> | (sel & _ & Hle)]; [| exact Hg | reflexivity | lia].
  intros i s Hi Hle. destruct (Z.eq_dec i g) as [-> | Hne].
  - left. unfold report_group_body.
    destruct (at_in_range report_workGroup g ltac:(lia)) as [lo ->].
    cbn [rbind]. rewrite Hen. cbn [rbind]. rewrite Hout. reflexivity.
  - destruct (report_group_body_cases r
                (dual_feasibility_tolerance (workHMO r)) report_workGroup i s)
      as [-> | [s' ->]]; [left; reflexivity |].
    right. exists s'. split; [reflexivity | lia].
Qed.

End ReportProofs.

Lemma reportWorkDataAndGroup_reads_boundary_witness :
  DualRow.reportWorkDataAndGroup Examples.row_t_heaped
    (DualRow.workCount Examples.row_t_heaped)
    (DualRow.workData Examples.row_t_heaped)
    (DualRow.workGroup Examples.row_t_heaped)
  = Undef.
Proof.
  assert (Hg : 0 <= 1) by lia.
  exact (reportWorkDataAndGroup_reads_boundary (A := binary64)
           Examples.row_t_heaped
           (DualRow.workCount Examples.row_t_heaped)
           (DualRow.workData Examples.row_t_heaped)
           (DualRow.workGroup Examples.row_t_heaped) 1 2 Hg eq_refl eq_refl).
Defined.
